(** * Lazy vacuum: a shallow embedding of src/backend/commands/vacuumlazy.c

    The development follows the layout of the C file.  Sequential routines
    (the dead-tuple array, the page chooser, the visibility-map
    reconciliation, the truncation loop, the final statistics) are Rocq
    functions; the parallel workers, which interleave on shared memory, are a
    labelled step relation whose atomic steps are the spinlock-protected
    critical sections and the single stores of the C code. *)

From Stdlib Require Import ZArith List Bool Lia Sorting.Sorted.
From stdpp Require Import base list sorting.
Import ListNotations.
Local Open Scope Z_scope.

(** ** Machine integers *)

(** [uint32] arithmetic ([BlockNumber], [VacWorker.round]) wraps. *)
Definition wrap32 (x : Z) : Z := x mod 2 ^ 32.

(** [int] is 32 bits wide on every platform PostgreSQL supports. *)
Definition INT_MAX : Z := 2147483647.

(** The conversion [long -> int] of [vacrelstats->max_dead_tuples = maxtuples]. *)
Definition cast_int (x : Z) : Z := (x + 2 ^ 31) mod 2 ^ 32 - 2 ^ 31.

(** block.h: [InvalidBlockNumber] is [(BlockNumber) 0xFFFFFFFF]. *)
Definition InvalidBlockNumber : Z := 4294967295.

(** off.h: line pointers of a page are numbered from [FirstOffsetNumber]. *)
Definition FirstOffsetNumber : Z := 1.

(** transam.h: [InvalidTransactionId]. *)
Definition InvalidTransactionId : Z := 0.

(** ** Tuple identifiers *)

(** Modelled from the spec: the declaration of [ItemPointerData] (itemptr.h)
    is not among the sources; a TupleId is a (page number, slot offset) pair,
    read by [ItemPointerGetBlockNumber] and [ItemPointerGetOffsetNumber] and
    written by [ItemPointerSet]. *)
Record ItemPointerData := ItemPointerSet {
  ItemPointerGetBlockNumber : Z;
  ItemPointerGetOffsetNumber : Z
}.

(** [sizeof(ItemPointerData)]: three 16-bit words. *)
Definition sizeof_ItemPointerData : Z := 6.

(** [vac_cmp_itemptr]: the comparator handed to [bsearch]. *)
Definition vac_cmp_itemptr (left right : ItemPointerData) : Z :=
  let lblk := ItemPointerGetBlockNumber left in
  let rblk := ItemPointerGetBlockNumber right in
  if lblk <? rblk then -1
  else if lblk >? rblk then 1
  else
    let loff := ItemPointerGetOffsetNumber left in
    let roff := ItemPointerGetOffsetNumber right in
    if loff <? roff then -1
    else if loff >? roff then 1
    else 0.

(** The order of the data model: first by page, then by offset. *)
Definition itemptr_lt (a b : ItemPointerData) : Prop :=
  ItemPointerGetBlockNumber a < ItemPointerGetBlockNumber b \/
  (ItemPointerGetBlockNumber a = ItemPointerGetBlockNumber b /\
   ItemPointerGetOffsetNumber a < ItemPointerGetOffsetNumber b).

Definition itemptr_le (a b : ItemPointerData) : Prop :=
  itemptr_lt a b \/ a = b.

(** ** The dead-tuple array *)

(** [LVDeadTuple]: [dt_array] is the allocated array (its length is the
    capacity), of which the first [n_dt] slots are in use. *)
Record LVDeadTuple := mkLVDeadTuple {
  n_dt : Z;
  dt_array : list ItemPointerData
}.

(** The entries a partition holds: the first [n_dt] slots. *)
Definition dt_entries (dt : LVDeadTuple) : list ItemPointerData :=
  take (Z.to_nat (n_dt dt)) (dt_array dt).

(** [lazy_record_dead_tuple], on [MyDeadTuple]. *)
Definition lazy_record_dead_tuple (max_dead_tuples : Z) (my : LVDeadTuple)
    (itemptr : ItemPointerData) : LVDeadTuple :=
  if n_dt my <? max_dead_tuples then
    {| n_dt := n_dt my + 1;
       dt_array := <[Z.to_nat (n_dt my) := itemptr]> (dt_array my) |}
  else my.

(** [dead_tuples->n_dt = 0]: the backing storage is kept. *)
Definition reset_n_dt (dt : LVDeadTuple) : LVDeadTuple :=
  {| n_dt := 0; dt_array := dt_array dt |}.

(** [lazy_clear_dead_tuple].  [pstate_null] is [vacrelstats->pstate == NULL];
    [me] indexes [MyDeadTuple] in [vacrelstats->dead_tuples]. *)
Definition lazy_clear_dead_tuple (pstate_null : bool) (nindexes : Z)
    (nworkers : Z) (me : nat) (dead_tuples : list LVDeadTuple)
    : list LVDeadTuple :=
  if negb pstate_null && negb (nindexes =? 0) then
    fold_left (fun dts i => alter reset_n_dt i dts)
              (seq 0 (Z.to_nat nworkers)) dead_tuples
  else alter reset_n_dt me dead_tuples.

Section Headers.

(** Constants of headers that are not among the sources, taken as
    parameters: [MaxHeapTuplesPerPage] (htup_details.h), [MaxAllocSize]
    (memutils.h) and the option bit [VACOPT_DISABLE_PAGE_SKIPPING]
    (parsenodes.h). *)
Variable MaxHeapTuplesPerPage : Z.
Variable MaxAllocSize : Z.
Variable VACOPT_DISABLE_PAGE_SKIPPING : Z.

Definition LAZY_ALLOC_TUPLES : Z := MaxHeapTuplesPerPage.

(** [lazy_get_max_dead_tuple].  [is_autovacuum] is
    [IsAutoVacuumWorkerProcess()]; the two work-memory settings are in kB.
    C's [/] on these non-negative operands is [Z.quot]. *)
Definition lazy_get_max_dead_tuple (is_autovacuum : bool)
    (autovacuum_work_mem maintenance_work_mem : Z)
    (nindexes old_rel_pages : Z) : Z :=
  let vac_work_mem :=
    if is_autovacuum && negb (autovacuum_work_mem =? -1)
    then autovacuum_work_mem else maintenance_work_mem in
  if negb (nindexes =? 0) then
    let maxtuples := Z.quot (vac_work_mem * 1024) sizeof_ItemPointerData in
    let maxtuples := Z.min maxtuples INT_MAX in
    let maxtuples := Z.min maxtuples (Z.quot MaxAllocSize sizeof_ItemPointerData) in
    let maxtuples :=
      if wrap32 (Z.quot maxtuples LAZY_ALLOC_TUPLES) >? old_rel_pages
      then wrap32 (old_rel_pages * LAZY_ALLOC_TUPLES) else maxtuples in
    Z.max maxtuples MaxHeapTuplesPerPage
  else MaxHeapTuplesPerPage.

(** [lazy_space_alloc] outside parallel mode: a zeroed array of
    [max_dead_tuples] slots, none in use.  (In parallel mode the array lies
    in shared memory and only [n_dt] is reset.) *)
Definition lazy_space_alloc (max_dead_tuples : Z) : LVDeadTuple :=
  {| n_dt := 0;
     dt_array := replicate (Z.to_nat max_dead_tuples) (ItemPointerSet 0 0) |}.

(** A worker's dealings with its own partition: recording a tuple, and the
    partition being cleared. *)
Inductive StoreOp :=
  | OpRecord (itemptr : ItemPointerData)
  | OpClear.

Definition apply_store_op (max_dead_tuples : Z) (my : LVDeadTuple)
    (op : StoreOp) : LVDeadTuple :=
  match op with
  | OpRecord itemptr => lazy_record_dead_tuple max_dead_tuples my itemptr
  | OpClear => reset_n_dt my
  end.

(** ** Looking a tuple identifier up *)

(** The C library's [bsearch] over the first [nmemb] elements of [base]:
    the usual halving loop, returning the index of a matching element.  The
    interval [l, u) shrinks at every turn, so [nmemb] turns are enough. *)
Fixpoint bsearch_loop {A : Type} (turns : nat) (compar : A -> A -> Z)
    (key : A) (base : list A) (l u : Z) : option Z :=
  match turns with
  | O => None
  | S turns' =>
    if l <? u then
      let idx := (l + u) / 2 in
      match base !! Z.to_nat idx with
      | None => None
      | Some p =>
        let comparison := compar key p in
        if comparison <? 0 then bsearch_loop turns' compar key base l idx
        else if comparison >? 0 then bsearch_loop turns' compar key base (idx + 1) u
        else Some idx
      end
    else None
  end.

Definition bsearch {A : Type} (key : A) (base : list A) (nmemb : Z)
    (compar : A -> A -> Z) : option Z :=
  bsearch_loop (Z.to_nat nmemb) compar key base 0 nmemb.

(** [lazy_tid_reaped]: [num] partitions are searched in turn, the first hit
    returns [true]. *)
Definition lazy_tid_reaped (itemptr : ItemPointerData) (pstate_null : bool)
    (nworkers : Z) (dead_tuples : list LVDeadTuple) : bool :=
  let num := if pstate_null then 1 else nworkers in
  existsb
    (fun dt => match bsearch itemptr (dt_array dt) (n_dt dt) vac_cmp_itemptr with
               | Some _ => true
               | None => false
               end)
    (take (Z.to_nat num) dead_tuples).

(** ** The workers' shared state *)

Definition VACSTATE_STARTUP : Z := 1.
Definition VACSTATE_SCANNING : Z := 2.
Definition VACSTATE_VACUUM_PREPARED : Z := 4.
Definition VACSTATE_VACUUMING : Z := 8.
Definition VACSTATE_VACUUM_FINISHED : Z := 16.
Definition VACSTATE_COMPLETE : Z := 32.

Record VacWorker := mkVacWorker {
  state : Z;   (* uint8 *)
  round : Z    (* uint32 *)
}.

(** [LVParallelState].  The spinlock is the atomicity of the steps below and
    the condition variable is the re-evaluation of a wait loop's test. *)
Record LVParallelState := mkLVParallelState {
  nworkers : Z;
  vacworkers : list VacWorker
}.

(** One turn of the counting loop of [lazy_check_vacstate_prepared]. *)
Definition count_prepared (cur_round : Z) (acc : Z * Z) (vacworker : VacWorker)
    : Z * Z :=
  let countable_state :=
    Z.lor (Z.lor VACSTATE_VACUUM_PREPARED VACSTATE_VACUUMING)
          VACSTATE_VACUUM_FINISHED in
  let w_round := round vacworker in
  if negb (Z.land (state vacworker) countable_state =? 0) && (w_round =? cur_round)
  then (fst acc + 1, snd acc)
  else if state vacworker =? VACSTATE_COMPLETE then (fst acc, snd acc + 1)
  else acc.

(** [lazy_check_vacstate_prepared]. *)
Definition lazy_check_vacstate_prepared (pstate : LVParallelState)
    (cur_round : Z) : bool :=
  let counts :=
    fold_left (count_prepared cur_round)
              (take (Z.to_nat (nworkers pstate)) (vacworkers pstate)) (0, 0) in
  fst counts + snd counts =? nworkers pstate.

(** One turn of the counting loop of [lazy_count_vacstate_finished]. *)
Definition count_finished (cur_round : Z) (acc : Z * Z) (vacworker : VacWorker)
    : Z * Z :=
  let countable_cur_state := VACSTATE_VACUUM_FINISHED in
  let countable_next_state :=
    Z.lor VACSTATE_SCANNING VACSTATE_VACUUM_PREPARED in
  let w_round := round vacworker in
  if (negb (Z.land (state vacworker) countable_cur_state =? 0)
        && (w_round =? cur_round))
     || (negb (Z.land (state vacworker) countable_next_state =? 0)
           && (w_round =? wrap32 (cur_round + 1)))
  then (fst acc + 1, snd acc)
  else if state vacworker =? VACSTATE_COMPLETE then (fst acc, snd acc + 1)
  else acc.

(** [lazy_count_vacstate_finished]: the pair ([n_count], [*n_complete]). *)
Definition lazy_count_vacstate_finished (pstate : LVParallelState)
    (cur_round : Z) : Z * Z :=
  fold_left (count_finished cur_round)
            (take (Z.to_nat (nworkers pstate)) (vacworkers pstate)) (0, 0).

(** [lazy_check_vacstate_finished]. *)
Definition lazy_check_vacstate_finished (pstate : LVParallelState)
    (cur_round : Z) : bool :=
  let counts := lazy_count_vacstate_finished pstate cur_round in
  fst counts + snd counts =? nworkers pstate.

(** The two stores of [lazy_set_my_vacstate] on [MyVacWorker]. *)
Definition set_my_state (me : nat) (st : Z) (ws : list VacWorker)
    : list VacWorker :=
  alter (fun w => {| state := st; round := round w |}) me ws.

Definition incr_my_round (me : nat) (ws : list VacWorker) : list VacWorker :=
  alter (fun w => {| state := state w; round := wrap32 (round w + 1) |}) me ws.

(** ** Run statistics *)

(** [LVRelStats], without its floating-point tuple counters (they are only
    copied, see the final statistics below) and without the pointers to the
    dead-tuple partitions and to [LVParallelState], which the step relation
    keeps in its shared state. *)
Record LVRelStats := mkLVRelStats {
  nindexes : Z;
  old_rel_pages : Z;
  rel_pages : Z;
  scanned_pages : Z;
  pinskipped_pages : Z;
  frozenskipped_pages : Z;
  nonempty_pages : Z;
  pages_removed : Z;
  max_dead_tuples : Z;
  num_index_scans : Z;
  lock_waiter_detected : bool
}.

Definition set_rel_pages (v : Z) (s : LVRelStats) : LVRelStats :=
  mkLVRelStats (nindexes s) (old_rel_pages s) v (scanned_pages s)
    (pinskipped_pages s) (frozenskipped_pages s) (nonempty_pages s)
    (pages_removed s) (max_dead_tuples s) (num_index_scans s)
    (lock_waiter_detected s).

Definition set_scanned_pages (v : Z) (s : LVRelStats) : LVRelStats :=
  mkLVRelStats (nindexes s) (old_rel_pages s) (rel_pages s) v
    (pinskipped_pages s) (frozenskipped_pages s) (nonempty_pages s)
    (pages_removed s) (max_dead_tuples s) (num_index_scans s)
    (lock_waiter_detected s).

Definition set_pinskipped_pages (v : Z) (s : LVRelStats) : LVRelStats :=
  mkLVRelStats (nindexes s) (old_rel_pages s) (rel_pages s) (scanned_pages s)
    v (frozenskipped_pages s) (nonempty_pages s)
    (pages_removed s) (max_dead_tuples s) (num_index_scans s)
    (lock_waiter_detected s).

Definition set_frozenskipped_pages (v : Z) (s : LVRelStats) : LVRelStats :=
  mkLVRelStats (nindexes s) (old_rel_pages s) (rel_pages s) (scanned_pages s)
    (pinskipped_pages s) v (nonempty_pages s)
    (pages_removed s) (max_dead_tuples s) (num_index_scans s)
    (lock_waiter_detected s).

Definition set_nonempty_pages (v : Z) (s : LVRelStats) : LVRelStats :=
  mkLVRelStats (nindexes s) (old_rel_pages s) (rel_pages s) (scanned_pages s)
    (pinskipped_pages s) (frozenskipped_pages s) v
    (pages_removed s) (max_dead_tuples s) (num_index_scans s)
    (lock_waiter_detected s).

Definition set_pages_removed (v : Z) (s : LVRelStats) : LVRelStats :=
  mkLVRelStats (nindexes s) (old_rel_pages s) (rel_pages s) (scanned_pages s)
    (pinskipped_pages s) (frozenskipped_pages s) (nonempty_pages s)
    v (max_dead_tuples s) (num_index_scans s)
    (lock_waiter_detected s).

Definition set_num_index_scans (v : Z) (s : LVRelStats) : LVRelStats :=
  mkLVRelStats (nindexes s) (old_rel_pages s) (rel_pages s) (scanned_pages s)
    (pinskipped_pages s) (frozenskipped_pages s) (nonempty_pages s)
    (pages_removed s) (max_dead_tuples s) v
    (lock_waiter_detected s).

Definition set_lock_waiter_detected (v : bool) (s : LVRelStats) : LVRelStats :=
  mkLVRelStats (nindexes s) (old_rel_pages s) (rel_pages s) (scanned_pages s)
    (pinskipped_pages s) (frozenskipped_pages s) (nonempty_pages s)
    (pages_removed s) (max_dead_tuples s) (num_index_scans s) v.

(** ** Truncation heuristics *)

Definition REL_TRUNCATE_MINIMUM : Z := 1000.
Definition REL_TRUNCATE_FRACTION : Z := 16.

(** The setting [old_snapshot_threshold] (a global of snapmgr.c). *)
Variable old_snapshot_threshold : Z.

(** [should_attempt_truncation]. *)
Definition should_attempt_truncation (vacrelstats : LVRelStats) : bool :=
  let possibly_freeable :=
    wrap32 (rel_pages vacrelstats - nonempty_pages vacrelstats) in
  (possibly_freeable >? 0)
  && ((possibly_freeable >=? REL_TRUNCATE_MINIMUM)
      || (possibly_freeable >=? Z.quot (rel_pages vacrelstats) REL_TRUNCATE_FRACTION))
  && (old_snapshot_threshold <? 0).

(** The macro [FORCE_CHECK_PAGE(blk)].  Its body reads the variable [blkno]
    of the function it is expanded in, and its parameter [blk]:
    [(blkno == (blk - 1) && should_attempt_truncation(vacrelstats))]. *)
Definition FORCE_CHECK_PAGE (vacrelstats : LVRelStats) (blkno : Z) (blk : Z)
    : bool :=
  (blkno =? wrap32 (blk - 1)) && should_attempt_truncation vacrelstats.

(** ** Choosing the next page: [lazy_scan_heap_get_nextpage] *)

(** visibilitymap.h: the two bits kept per heap page. *)
Definition VISIBILITYMAP_ALL_VISIBLE : Z := 1.
Definition VISIBILITYMAP_ALL_FROZEN : Z := 2.
Definition VISIBILITYMAP_VALID_BITS : Z := 3.

(** The visibility map as [visibilitymap_get_status] reads it: the status
    bits of each heap block. *)
Definition VisibilityMap := Z -> Z.

Definition VM_ALL_VISIBLE (vm : VisibilityMap) (blkno : Z) : bool :=
  negb (Z.land (vm blkno) VISIBILITYMAP_ALL_VISIBLE =? 0).

Definition VM_ALL_FROZEN (vm : VisibilityMap) (blkno : Z) : bool :=
  negb (Z.land (vm blkno) VISIBILITYMAP_ALL_FROZEN =? 0).

Definition SKIP_PAGES_THRESHOLD : Z := 32.

(** [LVScanDescData]; [heapscan] is the shared cursor of the step relation. *)
Record LVScanDescData := mkLVScanDesc {
  lv_cblock : Z;
  lv_next_unskippable_block : Z;
  lv_nblocks : Z
}.

(** [lv_beginscan]. *)
Definition lv_beginscan (vacrelstats : LVRelStats) : LVScanDescData :=
  {| lv_cblock := 0; lv_next_unskippable_block := 0;
     lv_nblocks := rel_pages vacrelstats |}.

(** The loop that advances [lv_next_unskippable_block] (it occurs twice in
    the function): at most [nblocks - next] turns. *)
Fixpoint advance_next_unskippable (turns : nat) (vm : VisibilityMap)
    (aggressive : bool) (nblocks : Z) (next : Z) : Z :=
  match turns with
  | O => next
  | S turns' =>
    if next <? nblocks then
      let vmstatus := vm next in
      if aggressive then
        if Z.land vmstatus VISIBILITYMAP_ALL_FROZEN =? 0 then next
        else advance_next_unskippable turns' vm aggressive nblocks (wrap32 (next + 1))
      else
        if Z.land vmstatus VISIBILITYMAP_ALL_VISIBLE =? 0 then next
        else advance_next_unskippable turns' vm aggressive nblocks (wrap32 (next + 1))
    else next
  end.

Definition next_unskippable_from (vm : VisibilityMap) (aggressive : bool)
    (nblocks : Z) (next : Z) : Z :=
  advance_next_unskippable (Z.to_nat (nblocks - next)) vm aggressive nblocks next.

(** What one call hands back: the block (before the final test against
    [lv_nblocks]), the scan descriptor, the statistics and the flag
    [*all_visible_according_to_vm]. *)
Record NextPage := mkNextPage {
  np_blkno : Z;
  np_lvscan : LVScanDescData;
  np_stats : LVRelStats;
  np_avm : bool
}.

(** The [for] loop of the serial branch, from [blkno]; [skipping_blocks] is
    the local flag as it stands at loop entry.  The store to
    [skipping_blocks] in the first arm is followed by [break] and never read:
    the flag is a local of the function. *)
Fixpoint serial_page_loop (turns : nat) (vm : VisibilityMap) (options : Z)
    (aggressive : bool) (skipping_blocks : bool) (blkno : Z)
    (lvscan : LVScanDescData) (vacrelstats : LVRelStats) (avm : bool)
    : NextPage :=
  match turns with
  | O => mkNextPage blkno lvscan vacrelstats avm
  | S turns' =>
    if blkno <? lv_nblocks lvscan then
      if blkno =? lv_next_unskippable_block lvscan then
        let next := wrap32 (lv_next_unskippable_block lvscan + 1) in
        let next :=
          if Z.land options VACOPT_DISABLE_PAGE_SKIPPING =? 0
          then next_unskippable_from vm aggressive (lv_nblocks lvscan) next
          else next in
        let avm := if aggressive && VM_ALL_VISIBLE vm blkno then true else avm in
        mkNextPage blkno
          (mkLVScanDesc (lv_cblock lvscan) next (lv_nblocks lvscan))
          vacrelstats avm
      else
        if skipping_blocks && negb (FORCE_CHECK_PAGE vacrelstats blkno blkno) then
          let vacrelstats :=
            if aggressive || VM_ALL_FROZEN vm blkno
            then set_frozenskipped_pages
                   (wrap32 (frozenskipped_pages vacrelstats + 1)) vacrelstats
            else vacrelstats in
          serial_page_loop turns' vm options aggressive skipping_blocks
            (wrap32 (blkno + 1)) lvscan vacrelstats avm
        else mkNextPage blkno lvscan vacrelstats true
    else mkNextPage blkno lvscan vacrelstats avm
  end.

(** The serial branch ([vacrelstats->pstate == NULL]). *)
Definition serial_nextpage (vm : VisibilityMap) (options : Z)
    (aggressive : bool) (lvscan : LVScanDescData) (vacrelstats : LVRelStats)
    (avm : bool) : NextPage :=
  let init :=
    (lv_cblock lvscan =? 0)
    && (Z.land options VACOPT_DISABLE_PAGE_SKIPPING =? 0) in
  let next :=
    if init
    then next_unskippable_from vm aggressive (lv_nblocks lvscan)
           (lv_next_unskippable_block lvscan)
    else lv_next_unskippable_block lvscan in
  let skipping_blocks := init && (next >=? SKIP_PAGES_THRESHOLD) in
  let lvscan := mkLVScanDesc (lv_cblock lvscan) next (lv_nblocks lvscan) in
  let r :=
    serial_page_loop (Z.to_nat (lv_nblocks lvscan - lv_cblock lvscan)) vm
      options aggressive skipping_blocks (lv_cblock lvscan) lvscan
      vacrelstats avm in
  mkNextPage (np_blkno r)
    (mkLVScanDesc (wrap32 (np_blkno r + 1))
       (lv_next_unskippable_block (np_lvscan r)) (lv_nblocks (np_lvscan r)))
    (np_stats r) (np_avm r).

(** Modelled from the spec: [heap_parallelscan_nextpage] (heapam.c) is not
    among the sources.  Each worker claims pages from a shared parallel
    cursor: a claim hands out the cursor's block and moves the cursor on;
    past the last block it hands out [InvalidBlockNumber]. *)
Definition heap_parallelscan_nextpage (phs_nblocks : Z) (phs_cblock : Z)
    : Z * Z :=
  if phs_cblock <? phs_nblocks then (phs_cblock, phs_cblock + 1)
  else (InvalidBlockNumber, phs_cblock).

(** The body of the parallel branch's [while] loop for one claimed block:
    [true] when the block is skipped ([continue]), [false] when it is to be
    scanned ([break]); with the statistics and
    [*all_visible_according_to_vm]. *)
Definition parallel_consider_page (vm : VisibilityMap) (options : Z)
    (aggressive : bool) (vacrelstats : LVRelStats) (blkno : Z)
    : bool * LVRelStats * bool :=
  if (Z.land options VACOPT_DISABLE_PAGE_SKIPPING =? 0)
     && negb (FORCE_CHECK_PAGE vacrelstats blkno blkno)
  then
    let vmstatus := vm blkno in
    if aggressive then
      if negb (Z.land vmstatus VISIBILITYMAP_ALL_FROZEN =? 0) then
        (true,
         set_frozenskipped_pages
           (wrap32 (frozenskipped_pages vacrelstats + 1)) vacrelstats,
         false)
      else if negb (Z.land vmstatus VISIBILITYMAP_ALL_VISIBLE =? 0) then
        (false, vacrelstats, true)
      else (false, vacrelstats, false)
    else
      if negb (Z.land vmstatus VISIBILITYMAP_ALL_VISIBLE =? 0) then
        (true,
         if Z.land vmstatus VISIBILITYMAP_ALL_FROZEN =? 0
         then set_frozenskipped_pages
                (wrap32 (frozenskipped_pages vacrelstats + 1)) vacrelstats
         else vacrelstats,
         false)
      else (false, vacrelstats, false)
  else (false, vacrelstats, false).

(** The parallel branch run without interference: the worker keeps claiming
    until a block is to be scanned or the cursor is exhausted.  The result
    carries the cursor in place of a scan descriptor. *)
Fixpoint parallel_page_loop (turns : nat) (vm : VisibilityMap) (options : Z)
    (aggressive : bool) (phs_nblocks : Z) (phs_cblock : Z)
    (vacrelstats : LVRelStats) (avm : bool) : Z * Z * LVRelStats * bool :=
  match turns with
  | O => (InvalidBlockNumber, phs_cblock, vacrelstats, avm)
  | S turns' =>
    let claim := heap_parallelscan_nextpage phs_nblocks phs_cblock in
    let blkno := fst claim in
    if blkno =? InvalidBlockNumber then (blkno, snd claim, vacrelstats, avm)
    else
      match parallel_consider_page vm options aggressive vacrelstats blkno with
      | (true, vacrelstats', avm') =>
        parallel_page_loop turns' vm options aggressive phs_nblocks (snd claim)
          vacrelstats' avm'
      | (false, vacrelstats', avm') => (blkno, snd claim, vacrelstats', avm')
      end
  end.

Definition parallel_nextpage (vm : VisibilityMap) (options : Z)
    (aggressive : bool) (phs_nblocks : Z) (phs_cblock : Z)
    (vacrelstats : LVRelStats) (avm : bool) : Z * Z * LVRelStats * bool :=
  parallel_page_loop (S (Z.to_nat (phs_nblocks - phs_cblock))) vm options
    aggressive phs_nblocks phs_cblock vacrelstats avm.

(** The function's last line:
    [(blkno == lvscan->lv_nblocks) ? InvalidBlockNumber : blkno]. *)
Definition nextpage_result (lvscan : LVScanDescData) (blkno : Z) : Z :=
  if blkno =? lv_nblocks lvscan then InvalidBlockNumber else blkno.

(** [lazy_scan_heap_get_nextpage] outside parallel mode: the returned block
    with the updated descriptor, statistics and flag. *)
Definition lazy_scan_heap_get_nextpage (vm : VisibilityMap) (options : Z)
    (aggressive : bool) (lvscan : LVScanDescData) (vacrelstats : LVRelStats)
    (avm : bool) : Z * NextPage :=
  let r := serial_nextpage vm options aggressive lvscan vacrelstats avm in
  (nextpage_result (np_lvscan r) (np_blkno r), r).

(** [lazy_scan_heap_get_nextpage] in parallel mode, run without
    interference from the other workers. *)
Definition lazy_scan_heap_get_nextpage_parallel (vm : VisibilityMap)
    (options : Z) (aggressive : bool) (lvscan : LVScanDescData)
    (phs_nblocks : Z) (phs_cblock : Z) (vacrelstats : LVRelStats) (avm : bool)
    : Z * Z * LVRelStats * bool :=
  match parallel_nextpage vm options aggressive phs_nblocks phs_cblock
          vacrelstats avm with
  | (blkno, cursor, vacrelstats', avm') =>
    (nextpage_result lvscan blkno, cursor, vacrelstats', avm')
  end.

(** ** Heap pages as the scan sees them *)

(** The answers of [HeapTupleSatisfiesVacuum]. *)
Inductive HTSV_Result :=
  | HEAPTUPLE_DEAD
  | HEAPTUPLE_LIVE
  | HEAPTUPLE_RECENTLY_DEAD
  | HEAPTUPLE_INSERT_IN_PROGRESS
  | HEAPTUPLE_DELETE_IN_PROGRESS.

(** What the line-pointer loop of [lazy_scan_heap] asks about a normal
    tuple: its visibility class, [HeapTupleIsHotUpdated],
    [HeapTupleIsHeapOnly], [HeapTupleHeaderXminCommitted],
    [TransactionIdPrecedes(xmin, OldestXmin)] and the [tuple_totally_frozen]
    answer of [heap_prepare_freeze_tuple]. *)
Record HeapTupleInfo := mkHeapTupleInfo {
  tup_status : HTSV_Result;
  tup_hot_updated : bool;
  tup_heap_only : bool;
  tup_xmin_committed : bool;
  tup_xmin_precedes_oldest : bool;
  tup_totally_frozen : bool
}.

(** A line pointer (itemid.h): unused, redirect, dead, or normal. *)
Inductive ItemId :=
  | LP_UNUSED
  | LP_REDIRECT
  | LP_DEAD
  | LP_NORMAL (tuple : HeapTupleInfo).

Definition ItemIdIsUsed (itemid : ItemId) : bool :=
  match itemid with LP_UNUSED => false | _ => true end.

(** A heap page: [PageIsNew], the flag [PD_ALL_VISIBLE], and the line
    pointers at offsets [FirstOffsetNumber] .. [PageGetMaxOffsetNumber]. *)
Record Page := mkPage {
  PageIsNew : bool;
  PageIsAllVisible : bool;
  page_items : list ItemId
}.

Definition PageIsEmpty (page : Page) : bool :=
  match page_items page with [] => true | _ => false end.

(** The locals of one turn of the main loop of [lazy_scan_heap] that outlive
    the line-pointer loop. *)
Record PageScan := mkPageScan {
  all_visible : bool;
  all_frozen : bool;
  has_dead_tuples : bool;
  hastup : bool
}.

Definition page_scan_start : PageScan :=
  {| all_visible := true; all_frozen := true;
     has_dead_tuples := false; hastup := false |}.

(** One turn of the line-pointer loop of [lazy_scan_heap] at offset
    [offnum] of block [blkno], on [MyDeadTuple] and the page locals. *)
Definition scan_item (max_dead : Z) (blkno offnum : Z) (itemid : ItemId)
    (my : LVDeadTuple) (ps : PageScan) : LVDeadTuple * PageScan :=
  match itemid with
  | LP_UNUSED => (my, ps)
  | LP_REDIRECT =>
    (my, mkPageScan (all_visible ps) (all_frozen ps) (has_dead_tuples ps) true)
  | LP_DEAD =>
    (lazy_record_dead_tuple max_dead my (ItemPointerSet blkno offnum),
     mkPageScan false (all_frozen ps) (has_dead_tuples ps) (hastup ps))
  | LP_NORMAL tuple =>
    let tupgone :=
      match tup_status tuple with
      | HEAPTUPLE_DEAD => negb (tup_hot_updated tuple || tup_heap_only tuple)
      | _ => false
      end in
    let all_visible' :=
      match tup_status tuple with
      | HEAPTUPLE_LIVE =>
        all_visible ps && tup_xmin_committed tuple
        && tup_xmin_precedes_oldest tuple
      | _ => false
      end in
    if tupgone then
      (lazy_record_dead_tuple max_dead my (ItemPointerSet blkno offnum),
       mkPageScan all_visible' (all_frozen ps) true (hastup ps))
    else
      (my,
       mkPageScan all_visible'
         (if tup_totally_frozen tuple then all_frozen ps else false)
         (has_dead_tuples ps) true)
  end.

(** The whole line-pointer loop, from offset [offnum] over [items]. *)
Fixpoint scan_items (max_dead : Z) (blkno offnum : Z) (items : list ItemId)
    (my : LVDeadTuple) (ps : PageScan) : LVDeadTuple * PageScan :=
  match items with
  | [] => (my, ps)
  | itemid :: rest =>
    let r := scan_item max_dead blkno offnum itemid my ps in
    scan_items max_dead blkno (offnum + 1) rest (fst r) (snd r)
  end.

(** ** Page and visibility map after a page is processed *)

(** What the reconciliation does to the page and to the map. *)
Inductive VMAction :=
  | DoPageSetAllVisible
  | DoPageClearAllVisible
  | DoMarkBufferDirty
  | DoWarning
  | Do_visibilitymap_set (cutoff_xid : Z) (flags : Z)
  | Do_visibilitymap_clear (flags : Z).

(** The [if / else if] chain that ends one turn of the main loop of
    [lazy_scan_heap].  [page_all_visible] is [PageIsAllVisible(page)] and
    [vmstatus] the map's bits for the block, both as read under the buffer
    lock. *)
Definition vm_reconcile (ps : PageScan) (all_visible_according_to_vm : bool)
    (page_all_visible : bool) (vmstatus : Z) (visibility_cutoff_xid : Z)
    : list VMAction :=
  if all_visible ps && negb all_visible_according_to_vm then
    let flags := VISIBILITYMAP_ALL_VISIBLE in
    let flags :=
      if all_frozen ps then Z.lor flags VISIBILITYMAP_ALL_FROZEN else flags in
    [DoPageSetAllVisible; DoMarkBufferDirty;
     Do_visibilitymap_set visibility_cutoff_xid flags]
  else if all_visible_according_to_vm && negb page_all_visible
          && negb (Z.land vmstatus VISIBILITYMAP_ALL_VISIBLE =? 0) then
    [DoWarning; Do_visibilitymap_clear VISIBILITYMAP_VALID_BITS]
  else if page_all_visible && has_dead_tuples ps then
    [DoWarning; DoPageClearAllVisible; DoMarkBufferDirty;
     Do_visibilitymap_clear VISIBILITYMAP_VALID_BITS]
  else if all_visible_according_to_vm && all_visible ps && all_frozen ps
          && (Z.land vmstatus VISIBILITYMAP_ALL_FROZEN =? 0) then
    [Do_visibilitymap_set InvalidTransactionId VISIBILITYMAP_ALL_FROZEN]
  else [].

(** ** Truncation *)

Definition VACUUM_TRUNCATE_LOCK_WAIT_INTERVAL : Z := 50.
Definition VACUUM_TRUNCATE_LOCK_TIMEOUT : Z := 5000.

(** The backward loop of [count_nondeletable_pages], entered with [blkno].
    [rel] is the relation's content under the exclusive lock;
    [lock_has_waiters blkno] tells whether, at the loop head for [blkno], the
    check interval had elapsed and [LockHasWaitersRelation] answered yes.
    [blkno] falls by one per turn, so [blkno - nonempty_pages] turns are
    enough. *)
Fixpoint count_nondeletable_loop (turns : nat) (rel : Z -> Page)
    (lock_has_waiters : Z -> bool) (vacrelstats : LVRelStats) (blkno : Z)
    : Z * LVRelStats :=
  match turns with
  | O => (nonempty_pages vacrelstats, vacrelstats)
  | S turns' =>
    if blkno >? nonempty_pages vacrelstats then
      if (blkno mod 32 =? 0) && lock_has_waiters blkno then
        (blkno, set_lock_waiter_detected true vacrelstats)
      else
        let blkno := wrap32 (blkno - 1) in
        let page := rel blkno in
        if PageIsNew page || PageIsEmpty page then
          count_nondeletable_loop turns' rel lock_has_waiters vacrelstats blkno
        else if existsb ItemIdIsUsed (page_items page) then
          (wrap32 (blkno + 1), vacrelstats)
        else
          count_nondeletable_loop turns' rel lock_has_waiters vacrelstats blkno
    else (nonempty_pages vacrelstats, vacrelstats)
  end.

(** [count_nondeletable_pages]: the result and the statistics (it may set
    [lock_waiter_detected]). *)
Definition count_nondeletable_pages (rel : Z -> Page)
    (lock_has_waiters : Z -> bool) (vacrelstats : LVRelStats)
    : Z * LVRelStats :=
  count_nondeletable_loop
    (Z.to_nat (rel_pages vacrelstats - nonempty_pages vacrelstats))
    rel lock_has_waiters vacrelstats (rel_pages vacrelstats).

(** What one turn of the [do / while] of [lazy_truncate_heap] meets: the
    outcome of each [ConditionalLockRelation] attempt, and, once the lock is
    held, the relation's size, its content, and the lock waiters. *)
Record TruncateEnv := mkTruncateEnv {
  lock_attempt : nat -> bool;
  RelationGetNumberOfBlocks : Z;
  rel_content : Z -> Page;
  lock_has_waiters : Z -> bool
}.

(** The lock loop: [true] when the lock is obtained.  The loop gives up
    when [++lock_retry] exceeds 100, so 101 attempts are all it makes. *)
Fixpoint acquire_truncate_lock (tries : nat) (attempt : nat -> bool)
    (lock_retry : Z) : bool :=
  match tries with
  | O => false
  | S tries' =>
    if attempt (Z.to_nat lock_retry) then true
    else if lock_retry + 1 >?
            Z.quot VACUUM_TRUNCATE_LOCK_TIMEOUT VACUUM_TRUNCATE_LOCK_WAIT_INTERVAL
    then false
    else acquire_truncate_lock tries' attempt (lock_retry + 1)
  end.

(** A call [RelationTruncate(onerel, trunc_to)], made in turn [trunc_turn]
    when the relation had [trunc_from] pages. *)
Record Truncation := mkTruncation {
  trunc_turn : nat;
  trunc_from : Z;
  trunc_to : Z
}.

(** The [do / while] loop of [lazy_truncate_heap] from turn [k]: the final
    statistics and the truncations made, in order.  A further turn is taken
    only after a truncation, which lowers [old_rel_pages] and leaves it above
    [nonempty_pages]. *)
Fixpoint truncate_loop (turns : nat) (env : nat -> TruncateEnv) (k : nat)
    (old_rel_pages : Z) (vacrelstats : LVRelStats)
    : LVRelStats * list Truncation :=
  match turns with
  | O => (vacrelstats, [])
  | S turns' =>
    let e := env k in
    let vacrelstats := set_lock_waiter_detected false vacrelstats in
    if negb (acquire_truncate_lock 101 (lock_attempt e) 0) then
      (set_lock_waiter_detected true vacrelstats, [])
    else
      let new_rel_pages := RelationGetNumberOfBlocks e in
      if negb (new_rel_pages =? old_rel_pages) then (vacrelstats, [])
      else
        let counted :=
          count_nondeletable_pages (rel_content e) (lock_has_waiters e)
            vacrelstats in
        let new_rel_pages := fst counted in
        let vacrelstats := snd counted in
        if new_rel_pages >=? old_rel_pages then (vacrelstats, [])
        else
          let done := mkTruncation k old_rel_pages new_rel_pages in
          let vacrelstats :=
            set_pages_removed
              (wrap32 (pages_removed vacrelstats
                       + (old_rel_pages - new_rel_pages))) vacrelstats in
          let vacrelstats := set_rel_pages new_rel_pages vacrelstats in
          if (new_rel_pages >? nonempty_pages vacrelstats)
             && lock_waiter_detected vacrelstats
          then
            let r := truncate_loop turns' env (S k) new_rel_pages vacrelstats in
            (fst r, done :: snd r)
          else (vacrelstats, [done])
  end.

(** [lazy_truncate_heap]. *)
Definition lazy_truncate_heap (env : nat -> TruncateEnv)
    (vacrelstats : LVRelStats) : LVRelStats * list Truncation :=
  truncate_loop
    (S (Z.to_nat (rel_pages vacrelstats - nonempty_pages vacrelstats)))
    env 0%nat (rel_pages vacrelstats) vacrelstats.

(** ** Final statistics: the end of [lazy_vacuum_rel] *)

(** The arguments [lazy_vacuum_rel] passes to [vac_update_relstats].  The
    tuple counts are C doubles that are only copied here, so their type [D]
    is left open. *)
Record RelStatsUpdate (D : Type) := mkRelStatsUpdate {
  new_rel_pages : Z;
  new_rel_tuples : D;
  new_rel_allvisible : Z;
  hasindex : bool
}.
Arguments mkRelStatsUpdate {D}.
Arguments new_rel_pages {D}.
Arguments new_rel_tuples {D}.
Arguments new_rel_allvisible {D}.
Arguments hasindex {D}.

(** Lines 443-465 of [lazy_vacuum_rel].  [vm_allvisible] is what
    [visibilitymap_count] reports. *)
Definition lazy_vacuum_rel_update {D : Type} (vacrelstats : LVRelStats)
    (old_rel_tuples fresh_rel_tuples : D) (vm_allvisible : Z)
    : RelStatsUpdate D :=
  let pages := rel_pages vacrelstats in
  let corner := (scanned_pages vacrelstats =? 0) && (pages >? 0) in
  let pages := if corner then old_rel_pages vacrelstats else pages in
  let tuples := if corner then old_rel_tuples else fresh_rel_tuples in
  let allvisible := if vm_allvisible >? pages then pages else vm_allvisible in
  mkRelStatsUpdate pages tuples allvisible (negb (nindexes vacrelstats =? 0)).

(** ** The scan/reclaim loop of [lazy_scan_heap] as a step relation *)

(** One run: [cfg_parallel] is [vacrelstats->pstate != NULL].  Outside
    parallel mode there is one process, numbered 0. *)
Record Config := mkConfig {
  cfg_parallel : bool;
  cfg_nworkers : Z;
  cfg_nindexes : Z;
  cfg_old_rel_pages : Z;
  cfg_nblocks : Z;
  cfg_options : Z;
  cfg_aggressive : bool;
  cfg_max_dead_tuples : Z
}.

(** The two places a reclaim cycle is run from: inside the scan loop, before
    block [blkno] is processed, and after the loop. *)
Inductive Cycle :=
  | MidScan (blkno : Z)
  | FinalCycle.

(** Where a process stands in [lazy_scan_heap] and the barrier routines. *)
Inductive PC :=
  | PcStart
  | PcSpaceAlloc
  | PcSetScanning
  | PcNextPage
  | PcCapacity (blkno : Z)
  | PcSetPrepared (c : Cycle)
  | PcWaitPrepared (my_round : Z) (c : Cycle)
  | PcSetVacuuming (c : Cycle)
  | PcVacuumIndexes (c : Cycle)
  | PcVacuumHeap (c : Cycle)
  | PcForget (c : Cycle)
  | PcSetFinished (c : Cycle)
  | PcWaitFinished (my_round : Z) (c : Cycle)
  | PcSetScanningNext (c : Cycle)
  | PcNextRound (c : Cycle)
  | PcCycleEnd (c : Cycle)
  | PcPage (blkno : Z)
  | PcItems (blkno offnum : Z) (items : list ItemId) (ps : PageScan)
  | PcPageEnd (blkno : Z) (ps : PageScan)
  | PcReconcile (blkno : Z) (ps : PageScan)
  | PcScanDone
  | PcSetComplete
  | PcDone.

(** A process's private state: its place, scan descriptor, statistics and
    the local [all_visible_according_to_vm]. *)
Record Proc := mkProc {
  pc : PC;
  lvscan : LVScanDescData;
  stats : LVRelStats;
  avm : bool
}.

Definition set_pc (c : PC) (p : Proc) : Proc :=
  mkProc c (lvscan p) (stats p) (avm p).

(** Shared memory ([vacworkers], the dead-tuple partitions, the parallel
    scan's cursor) and every process's private state. *)
Record World := mkWorld {
  w_vacworkers : list VacWorker;
  w_dead_tuples : list LVDeadTuple;
  w_cursor : Z;
  w_procs : list Proc
}.

Definition w_pstate (cfg : Config) (w : World) : LVParallelState :=
  mkLVParallelState (cfg_nworkers cfg) (w_vacworkers w).

(** What a step does that the claims speak of. *)
Inductive Label :=
  | Tau
  | LClear                          (* lazy_clear_dead_tuple was called *)
  | LReap                           (* lazy_vacuum_index: lazy_tid_reaped is consulted *)
  | LReconcile (acts : list VMAction).

(** The statistics [lazy_vacuum_rel] hands to [lazy_scan_heap]. *)
Definition start_stats (cfg : Config) : LVRelStats :=
  mkLVRelStats (cfg_nindexes cfg) (cfg_old_rel_pages cfg) 0 0 0 0 0 0
    (cfg_max_dead_tuples cfg) 0 false.

(** The start of a run.  A fresh shared-memory segment is zero-filled: no
    worker has a state or a round yet and every partition is empty.  Outside
    parallel mode the array is yet to be allocated.  In parallel mode each
    worker's array is taken to have [max_dead_tuples] slots: the byte size
    [lazy_initialize_dsm] computes for the segment is not modelled. *)
Definition initial (cfg : Config) (w : World) : Prop :=
  w_cursor w = 0 /\
  Forall (fun p => pc p = PcStart /\ stats p = start_stats cfg) (w_procs w) /\
  if cfg_parallel cfg then
    length (w_procs w) = Z.to_nat (cfg_nworkers cfg) /\
    w_vacworkers w = replicate (Z.to_nat (cfg_nworkers cfg)) (mkVacWorker 0 0) /\
    w_dead_tuples w =
      replicate (Z.to_nat (cfg_nworkers cfg))
        (lazy_space_alloc (cfg_max_dead_tuples cfg))
  else
    length (w_procs w) = 1%nat /\
    w_vacworkers w = [] /\
    w_dead_tuples w = [].

(** The top of the scan loop's body for block [blkno], up to the
    line-pointer loop: the buffer lock, [lazy_check_needs_freeze], new and
    empty pages.  [None]: the loop [continue]s; [Some items]: the page is
    pruned and its line pointers are scanned. *)
Definition open_page (aggressive : bool) (vacrelstats : LVRelStats)
    (blkno : Z) (got_cleanup_lock needs_freeze check_hastup : bool)
    (page : Page) : LVRelStats * option (list ItemId) :=
  let pinskipped s :=
    set_pinskipped_pages (wrap32 (pinskipped_pages s + 1)) s in
  let scanned s := set_scanned_pages (wrap32 (scanned_pages s + 1)) s in
  let nonempty s :=
    if check_hastup then set_nonempty_pages (wrap32 (blkno + 1)) s else s in
  if negb got_cleanup_lock
     && (negb aggressive && negb (FORCE_CHECK_PAGE vacrelstats blkno blkno))
  then (pinskipped vacrelstats, None)
  else if negb got_cleanup_lock && negb needs_freeze
  then (nonempty (pinskipped (scanned vacrelstats)), None)
  else if negb got_cleanup_lock && negb aggressive
  then (nonempty (pinskipped vacrelstats), None)
  else
    let vacrelstats := scanned vacrelstats in
    if PageIsNew page then (vacrelstats, None)
    else if PageIsEmpty page then (vacrelstats, None)
    else (vacrelstats, Some (page_items page)).

(** [step cfg i w l w']: process [i] takes one atomic step.  The environment
    (the visibility map, buffer locks, page contents) is chosen freely at
    the step that reads it. *)
Inductive step (cfg : Config) (i : nat) (w : World) : Label -> World -> Prop :=
  (* lazy_initialize_worker: MyVacWorker->state = VACSTATE_STARTUP *)
  | step_initialize_worker p :
      w_procs w !! i = Some p -> pc p = PcStart ->
      step cfg i w Tau
        (mkWorld
           (if cfg_parallel cfg
            then set_my_state i VACSTATE_STARTUP (w_vacworkers w)
            else w_vacworkers w)
           (w_dead_tuples w) (w_cursor w)
           (<[i := set_pc PcSpaceAlloc p]> (w_procs w)))
  (* lazy_scan_heap up to lv_beginscan: rel_pages, lazy_space_alloc *)
  | step_space_alloc p :
      w_procs w !! i = Some p -> pc p = PcSpaceAlloc ->
      let st :=
        set_nonempty_pages 0
          (set_scanned_pages 0 (set_rel_pages (cfg_nblocks cfg) (stats p))) in
      step cfg i w Tau
        (mkWorld (w_vacworkers w)
           (if cfg_parallel cfg
            then alter reset_n_dt i (w_dead_tuples w)
            else [lazy_space_alloc (max_dead_tuples (stats p))])
           (w_cursor w)
           (<[i := mkProc PcSetScanning (lv_beginscan st) st (avm p)]>
              (w_procs w)))
  (* lazy_set_my_vacstate(pstate, VACSTATE_SCANNING, false, false) *)
  | step_set_scanning p :
      w_procs w !! i = Some p -> pc p = PcSetScanning ->
      step cfg i w Tau
        (mkWorld
           (if cfg_parallel cfg
            then set_my_state i VACSTATE_SCANNING (w_vacworkers w)
            else w_vacworkers w)
           (w_dead_tuples w) (w_cursor w)
           (<[i := set_pc PcNextPage p]> (w_procs w)))
  (* lazy_scan_heap_get_nextpage, serial branch *)
  | step_nextpage_serial p vm :
      w_procs w !! i = Some p -> pc p = PcNextPage ->
      cfg_parallel cfg = false ->
      let r :=
        lazy_scan_heap_get_nextpage vm (cfg_options cfg) (cfg_aggressive cfg)
          (lvscan p) (stats p) (avm p) in
      step cfg i w Tau
        (mkWorld (w_vacworkers w) (w_dead_tuples w) (w_cursor w)
           (<[i := mkProc
                     (if fst r =? InvalidBlockNumber then PcScanDone
                      else PcCapacity (fst r))
                     (np_lvscan (snd r)) (np_stats (snd r)) (np_avm (snd r))]>
              (w_procs w)))
  (* parallel branch: one claim from the shared cursor, cursor exhausted *)
  | step_claim_none p :
      w_procs w !! i = Some p -> pc p = PcNextPage ->
      cfg_parallel cfg = true ->
      fst (heap_parallelscan_nextpage (cfg_nblocks cfg) (w_cursor w))
        = InvalidBlockNumber ->
      step cfg i w Tau
        (mkWorld (w_vacworkers w) (w_dead_tuples w)
           (snd (heap_parallelscan_nextpage (cfg_nblocks cfg) (w_cursor w)))
           (<[i := set_pc PcScanDone p]> (w_procs w)))
  (* parallel branch: one claim, the block is skipped or is to be scanned *)
  | step_claim_page p vm blkno :
      w_procs w !! i = Some p -> pc p = PcNextPage ->
      cfg_parallel cfg = true ->
      fst (heap_parallelscan_nextpage (cfg_nblocks cfg) (w_cursor w)) = blkno ->
      blkno <> InvalidBlockNumber ->
      let d :=
        parallel_consider_page vm (cfg_options cfg) (cfg_aggressive cfg)
          (stats p) blkno in
      step cfg i w Tau
        (mkWorld (w_vacworkers w) (w_dead_tuples w)
           (snd (heap_parallelscan_nextpage (cfg_nblocks cfg) (w_cursor w)))
           (<[i := mkProc
                     (if fst (fst d) then PcNextPage
                      else if nextpage_result (lvscan p) blkno
                              =? InvalidBlockNumber
                           then PcScanDone else PcCapacity blkno)
                     (lvscan p) (snd (fst d)) (snd d)]>
              (w_procs w)))
  (* "close to overrunning the available space for dead-tuple TIDs" *)
  | step_capacity p my blkno :
      w_procs w !! i = Some p -> pc p = PcCapacity blkno ->
      w_dead_tuples w !! i = Some my ->
      step cfg i w Tau
        (mkWorld (w_vacworkers w) (w_dead_tuples w) (w_cursor w)
           (<[i := set_pc
                     (if (max_dead_tuples (stats p) - n_dt my
                            <? MaxHeapTuplesPerPage)
                         && (n_dt my >? 0)
                      then PcSetPrepared (MidScan blkno) else PcPage blkno)
                     p]>
              (w_procs w)))
  (* lazy_set_vacstate_and_wait_prepared: not parallel, return at once;
     lazy_set_my_vacstate(VACSTATE_VACUUMING) does nothing either *)
  | step_prepared_serial p c :
      w_procs w !! i = Some p -> pc p = PcSetPrepared c ->
      cfg_parallel cfg = false ->
      step cfg i w Tau
        (mkWorld (w_vacworkers w) (w_dead_tuples w) (w_cursor w)
           (<[i := set_pc (PcVacuumIndexes c) p]> (w_procs w)))
  (* round = lazy_set_my_vacstate(pstate, VACSTATE_VACUUM_PREPARED, false, true) *)
  | step_set_prepared p c vw :
      w_procs w !! i = Some p -> pc p = PcSetPrepared c ->
      cfg_parallel cfg = true ->
      w_vacworkers w !! i = Some vw ->
      step cfg i w Tau
        (mkWorld (set_my_state i VACSTATE_VACUUM_PREPARED (w_vacworkers w))
           (w_dead_tuples w) (w_cursor w)
           (<[i := set_pc (PcWaitPrepared (round vw) c) p]> (w_procs w)))
  (* while (!lazy_check_vacstate_prepared(pstate, round)) sleep *)
  | step_wait_prepared p r c :
      w_procs w !! i = Some p -> pc p = PcWaitPrepared r c ->
      lazy_check_vacstate_prepared (w_pstate cfg w) r = false ->
      step cfg i w Tau w
  | step_pass_prepared p r c :
      w_procs w !! i = Some p -> pc p = PcWaitPrepared r c ->
      lazy_check_vacstate_prepared (w_pstate cfg w) r = true ->
      step cfg i w Tau
        (mkWorld (w_vacworkers w) (w_dead_tuples w) (w_cursor w)
           (<[i := set_pc (PcSetVacuuming c) p]> (w_procs w)))
  (* lazy_set_my_vacstate(pstate, VACSTATE_VACUUMING, false, false) *)
  | step_set_vacuuming p c :
      w_procs w !! i = Some p -> pc p = PcSetVacuuming c ->
      step cfg i w Tau
        (mkWorld (set_my_state i VACSTATE_VACUUMING (w_vacworkers w))
           (w_dead_tuples w) (w_cursor w)
           (<[i := set_pc (PcVacuumIndexes c) p]> (w_procs w)))
  (* lazy_vacuum_index on the assigned indexes: lazy_tid_reaped is the
     bulk-delete callback *)
  | step_vacuum_indexes p c :
      w_procs w !! i = Some p -> pc p = PcVacuumIndexes c ->
      step cfg i w LReap
        (mkWorld (w_vacworkers w) (w_dead_tuples w) (w_cursor w)
           (<[i := set_pc (PcVacuumHeap c) p]> (w_procs w)))
  (* lazy_vacuum_heap *)
  | step_vacuum_heap p c :
      w_procs w !! i = Some p -> pc p = PcVacuumHeap c ->
      step cfg i w Tau
        (mkWorld (w_vacworkers w) (w_dead_tuples w) (w_cursor w)
           (<[i := set_pc
                     (match c with
                      | MidScan _ => PcForget c
                      | FinalCycle => PcSetFinished c
                      end) p]>
              (w_procs w)))
  (* if (vacrelstats->pstate == NULL) lazy_clear_dead_tuple(vacrelstats) *)
  | step_forget_serial p c :
      w_procs w !! i = Some p -> pc p = PcForget c ->
      cfg_parallel cfg = false ->
      step cfg i w LClear
        (mkWorld (w_vacworkers w)
           (lazy_clear_dead_tuple true (nindexes (stats p)) (cfg_nworkers cfg)
              i (w_dead_tuples w))
           (w_cursor w)
           (<[i := set_pc (PcSetFinished c) p]> (w_procs w)))
  | step_forget_parallel p c :
      w_procs w !! i = Some p -> pc p = PcForget c ->
      cfg_parallel cfg = true ->
      step cfg i w Tau
        (mkWorld (w_vacworkers w) (w_dead_tuples w) (w_cursor w)
           (<[i := set_pc (PcSetFinished c) p]> (w_procs w)))
  (* lazy_set_vacstate_and_wait_finished: not parallel, return at once *)
  | step_finished_serial p c :
      w_procs w !! i = Some p -> pc p = PcSetFinished c ->
      cfg_parallel cfg = false ->
      step cfg i w Tau
        (mkWorld (w_vacworkers w) (w_dead_tuples w) (w_cursor w)
           (<[i := set_pc (PcCycleEnd c) p]> (w_procs w)))
  (* under the spinlock: state = VACSTATE_VACUUM_FINISHED, count, and clear
     when n_count + n_comp == nworkers *)
  | step_arrive_finished_last p c vw :
      w_procs w !! i = Some p -> pc p = PcSetFinished c ->
      cfg_parallel cfg = true ->
      w_vacworkers w !! i = Some vw ->
      let ws := set_my_state i VACSTATE_VACUUM_FINISHED (w_vacworkers w) in
      let counts :=
        lazy_count_vacstate_finished
          (mkLVParallelState (cfg_nworkers cfg) ws) (round vw) in
      fst counts + snd counts = cfg_nworkers cfg ->
      step cfg i w LClear
        (mkWorld ws
           (lazy_clear_dead_tuple false (nindexes (stats p)) (cfg_nworkers cfg)
              i (w_dead_tuples w))
           (w_cursor w)
           (<[i := set_pc (PcWaitFinished (round vw) c) p]> (w_procs w)))
  | step_arrive_finished p c vw :
      w_procs w !! i = Some p -> pc p = PcSetFinished c ->
      cfg_parallel cfg = true ->
      w_vacworkers w !! i = Some vw ->
      let ws := set_my_state i VACSTATE_VACUUM_FINISHED (w_vacworkers w) in
      let counts :=
        lazy_count_vacstate_finished
          (mkLVParallelState (cfg_nworkers cfg) ws) (round vw) in
      fst counts + snd counts <> cfg_nworkers cfg ->
      step cfg i w Tau
        (mkWorld ws (w_dead_tuples w) (w_cursor w)
           (<[i := set_pc (PcWaitFinished (round vw) c) p]> (w_procs w)))
  (* while (!lazy_check_vacstate_finished(pstate, round)) sleep *)
  | step_wait_finished p r c :
      w_procs w !! i = Some p -> pc p = PcWaitFinished r c ->
      lazy_check_vacstate_finished (w_pstate cfg w) r = false ->
      step cfg i w Tau w
  | step_pass_finished p r c :
      w_procs w !! i = Some p -> pc p = PcWaitFinished r c ->
      lazy_check_vacstate_finished (w_pstate cfg w) r = true ->
      step cfg i w Tau
        (mkWorld (w_vacworkers w) (w_dead_tuples w) (w_cursor w)
           (<[i := set_pc (PcSetScanningNext c) p]> (w_procs w)))
  (* lazy_set_my_vacstate(pstate, VACSTATE_SCANNING, true, false): the store
     to state under the spinlock, then the round's increment outside it *)
  | step_set_scanning_next p c :
      w_procs w !! i = Some p -> pc p = PcSetScanningNext c ->
      step cfg i w Tau
        (mkWorld (set_my_state i VACSTATE_SCANNING (w_vacworkers w))
           (w_dead_tuples w) (w_cursor w)
           (<[i := set_pc (PcNextRound c) p]> (w_procs w)))
  | step_next_round p c :
      w_procs w !! i = Some p -> pc p = PcNextRound c ->
      step cfg i w Tau
        (mkWorld (incr_my_round i (w_vacworkers w))
           (w_dead_tuples w) (w_cursor w)
           (<[i := set_pc (PcCycleEnd c) p]> (w_procs w)))
  (* vacrelstats->num_index_scans++, and on with the scan or to the end *)
  | step_cycle_end p c :
      w_procs w !! i = Some p -> pc p = PcCycleEnd c ->
      step cfg i w Tau
        (mkWorld (w_vacworkers w) (w_dead_tuples w) (w_cursor w)
           (<[i := mkProc
                     (match c with
                      | MidScan blkno => PcPage blkno
                      | FinalCycle => PcSetComplete
                      end)
                     (lvscan p)
                     (set_num_index_scans (num_index_scans (stats p) + 1)
                        (stats p))
                     (avm p)]>
              (w_procs w)))
  (* the page is pinned and locked, or passed over *)
  | step_open_page p blkno got_cleanup_lock needs_freeze check_hastup page :
      w_procs w !! i = Some p -> pc p = PcPage blkno ->
      let r :=
        open_page (cfg_aggressive cfg) (stats p) blkno got_cleanup_lock
          needs_freeze check_hastup page in
      step cfg i w Tau
        (mkWorld (w_vacworkers w) (w_dead_tuples w) (w_cursor w)
           (<[i := mkProc
                     (match snd r with
                      | None => PcNextPage
                      | Some items =>
                        PcItems blkno FirstOffsetNumber items page_scan_start
                      end)
                     (lvscan p) (fst r) (avm p)]>
              (w_procs w)))
  (* one line pointer *)
  | step_item p my blkno offnum itemid items ps :
      w_procs w !! i = Some p ->
      pc p = PcItems blkno offnum (itemid :: items) ps ->
      w_dead_tuples w !! i = Some my ->
      let r :=
        scan_item (max_dead_tuples (stats p)) blkno offnum itemid my ps in
      step cfg i w Tau
        (mkWorld (w_vacworkers w) (<[i := fst r]> (w_dead_tuples w))
           (w_cursor w)
           (<[i := set_pc (PcItems blkno (offnum + 1) items (snd r)) p]>
              (w_procs w)))
  | step_items_done p blkno offnum ps :
      w_procs w !! i = Some p -> pc p = PcItems blkno offnum [] ps ->
      step cfg i w Tau
        (mkWorld (w_vacworkers w) (w_dead_tuples w) (w_cursor w)
           (<[i := set_pc (PcPageEnd blkno ps) p]> (w_procs w)))
  (* if (Irel == NULL && MyDeadTuple->n_dt > 0): lazy_vacuum_page,
     has_dead_tuples = false, lazy_clear_dead_tuple *)
  | step_vacuum_page_now p my blkno ps :
      w_procs w !! i = Some p -> pc p = PcPageEnd blkno ps ->
      w_dead_tuples w !! i = Some my ->
      nindexes (stats p) = 0 -> n_dt my > 0 ->
      step cfg i w LClear
        (mkWorld (w_vacworkers w)
           (lazy_clear_dead_tuple (negb (cfg_parallel cfg))
              (nindexes (stats p)) (cfg_nworkers cfg) i (w_dead_tuples w))
           (w_cursor w)
           (<[i := set_pc
                     (PcReconcile blkno
                        (mkPageScan (all_visible ps) (all_frozen ps) false
                           (hastup ps))) p]>
              (w_procs w)))
  | step_keep_page p my blkno ps :
      w_procs w !! i = Some p -> pc p = PcPageEnd blkno ps ->
      w_dead_tuples w !! i = Some my ->
      ~ (nindexes (stats p) = 0 /\ n_dt my > 0) ->
      step cfg i w Tau
        (mkWorld (w_vacworkers w) (w_dead_tuples w) (w_cursor w)
           (<[i := set_pc (PcReconcile blkno ps) p]> (w_procs w)))
  (* the visibility-map chain, then nonempty_pages *)
  | step_reconcile p blkno ps page_all_visible vmstatus cutoff_xid :
      w_procs w !! i = Some p -> pc p = PcReconcile blkno ps ->
      step cfg i w
        (LReconcile
           (vm_reconcile ps (avm p) page_all_visible vmstatus cutoff_xid))
        (mkWorld (w_vacworkers w) (w_dead_tuples w) (w_cursor w)
           (<[i := mkProc PcNextPage (lvscan p)
                     (if hastup ps
                      then set_nonempty_pages (wrap32 (blkno + 1)) (stats p)
                      else stats p)
                     (avm p)]>
              (w_procs w)))
  (* after the loop: a last cycle if any tuple is pending *)
  | step_scan_done p my :
      w_procs w !! i = Some p -> pc p = PcScanDone ->
      w_dead_tuples w !! i = Some my ->
      step cfg i w Tau
        (mkWorld (w_vacworkers w) (w_dead_tuples w) (w_cursor w)
           (<[i := set_pc
                     (if n_dt my >? 0 then PcSetPrepared FinalCycle
                      else PcSetComplete) p]>
              (w_procs w)))
  (* lazy_set_my_vacstate(pstate, VACSTATE_COMPLETE, false, true) *)
  | step_set_complete p :
      w_procs w !! i = Some p -> pc p = PcSetComplete ->
      step cfg i w Tau
        (mkWorld
           (if cfg_parallel cfg
            then set_my_state i VACSTATE_COMPLETE (w_vacworkers w)
            else w_vacworkers w)
           (w_dead_tuples w) (w_cursor w)
           (<[i := set_pc PcDone p]> (w_procs w))).

(** Worlds a run can reach. *)
Inductive reachable (cfg : Config) : World -> Prop :=
  | reachable_initial w : initial cfg w -> reachable cfg w
  | reachable_step w i l w' :
      reachable cfg w -> step cfg i w l w' -> reachable cfg w'.

(** ** Invariants *)

(** A partition is well formed for capacity [max_dead]: the count is within
    the capacity and the array has exactly [max_dead] slots. *)
Definition dt_wf (max_dead : Z) (dt : LVDeadTuple) : Prop :=
  0 <= n_dt dt <= max_dead /\ length (dt_array dt) = Z.to_nat max_dead.

(** The values [VacWorker.state] takes: zero before a worker has started
    (fresh shared memory), then one of the six [VACSTATE_] constants. *)
Definition vacstate_valid (w : VacWorker) : Prop :=
  In (state w)
     [0; VACSTATE_STARTUP; VACSTATE_SCANNING; VACSTATE_VACUUM_PREPARED;
      VACSTATE_VACUUMING; VACSTATE_VACUUM_FINISHED; VACSTATE_COMPLETE].

(** The quorum of the Prepared barrier for round [r], worker by worker. *)
Definition prepared_quorum_member (r : Z) (w : VacWorker) : Prop :=
  (In (state w)
      [VACSTATE_VACUUM_PREPARED; VACSTATE_VACUUMING; VACSTATE_VACUUM_FINISHED]
   /\ round w = r)
  \/ state w = VACSTATE_COMPLETE.

(** The quorum of the Finished barrier for round [r], worker by worker. *)
Definition finished_quorum_member (r : Z) (w : VacWorker) : Prop :=
  (state w = VACSTATE_VACUUM_FINISHED /\ round w = r)
  \/ (In (state w) [VACSTATE_SCANNING; VACSTATE_VACUUM_PREPARED]
      /\ round w = wrap32 (r + 1))
  \/ state w = VACSTATE_COMPLETE.

(** The shared worker array is well formed: one slot per worker, each with
    a valid state. *)
Definition pstate_wf (pstate : LVParallelState) : Prop :=
  0 <= nworkers pstate
  /\ length (vacworkers pstate) = Z.to_nat (nworkers pstate)
  /\ Forall vacstate_valid (vacworkers pstate).

(** A run's parameters are well formed: they fit their C types. *)
Definition cfg_wf (cfg : Config) : Prop :=
  0 <= cfg_nblocks cfg < 2 ^ 32 - 1
  /\ 0 <= cfg_max_dead_tuples cfg
  /\ 0 <= cfg_nworkers cfg.

(** The reclaim cycle a process is in, if any. *)
Definition pc_cycle (c : PC) : option Cycle :=
  match c with
  | PcSetPrepared c | PcWaitPrepared _ c | PcSetVacuuming c
  | PcVacuumIndexes c | PcVacuumHeap c | PcForget c | PcSetFinished c
  | PcWaitFinished _ c | PcSetScanningNext c | PcNextRound c
  | PcCycleEnd c => Some c
  | _ => None
  end.

(** The block a process has taken and not finished with, if any. *)
Definition pc_block (c : PC) : option Z :=
  match c with
  | PcCapacity b | PcPage b | PcItems b _ _ _ | PcPageEnd b _
  | PcReconcile b _ => Some b
  | _ => match pc_cycle c with Some (MidScan b) => Some b | _ => None end
  end.

(** The least block the next call of [lazy_scan_heap_get_nextpage] can
    return: the shared cursor in parallel mode, [lv_cblock] otherwise. *)
Definition next_block (cfg : Config) (w : World) (p : Proc) : Z :=
  if cfg_parallel cfg then w_cursor w else lv_cblock (lvscan p).

(** [below e (blk, off)]: the identifier [e] comes before offset [off] of
    block [blk]. *)
Definition below (e : ItemPointerData) (bd : Z * Z) : Prop :=
  ItemPointerGetBlockNumber e < fst bd
  \/ (ItemPointerGetBlockNumber e = fst bd
      /\ ItemPointerGetOffsetNumber e < snd bd).

(** Where the next identifier a process records will lie at the least;
    [None] once its scan is over. *)
Definition entry_bound (next : Z) (c : PC) : option (Z * Z) :=
  match c with
  | PcItems b off _ _ => Some (b, off)
  | PcPageEnd b _ | PcReconcile b _ => Some (b + 1, 0)
  | PcCapacity b | PcPage b => Some (b, 0)
  | PcStart | PcSpaceAlloc | PcSetScanning | PcNextPage => Some (next, 0)
  | PcScanDone | PcSetComplete | PcDone => None
  | _ => match pc_cycle c with Some (MidScan b) => Some (b, 0) | _ => None end
  end.

(** A process has a scan descriptor it still reads. *)
Definition pc_scanning (c : PC) : bool :=
  match c with
  | PcStart | PcSpaceAlloc | PcScanDone | PcSetComplete | PcDone => false
  | _ => match pc_cycle c with Some FinalCycle => false | _ => true end
  end.

(** A process's private state fits the run. *)
Definition proc_ok (cfg : Config) (next : Z) (p : Proc) : Prop :=
  max_dead_tuples (stats p) = cfg_max_dead_tuples cfg
  /\ match pc_block (pc p) with Some b => b < next | None => True end
  /\ (cfg_parallel cfg = false -> pc_scanning (pc p) = true ->
      0 <= lv_cblock (lvscan p) <= lv_nblocks (lvscan p)
      /\ lv_nblocks (lvscan p) = cfg_nblocks cfg).

(** A partition fits its owner's progress: within capacity, strictly
    increasing, and wholly before the place [bd] the owner scans next. *)
Definition part_ok (max_dead : Z) (bd : option (Z * Z)) (dt : LVDeadTuple)
    : Prop :=
  dt_wf max_dead dt
  /\ StronglySorted itemptr_lt (dt_entries dt)
  /\ match bd with
     | Some bd => Forall (fun e => below e bd) (dt_entries dt)
     | None => True
     end.

(** The order on places. *)
Definition bound_le (bd bd' : option (Z * Z)) : Prop :=
  match bd, bd' with
  | _, None => True
  | None, Some _ => False
  | Some a, Some b => fst a < fst b \/ (fst a = fst b /\ snd a <= snd b)
  end.

(** The invariant of a run. *)
Definition world_ok (cfg : Config) (w : World) : Prop :=
  (length (w_dead_tuples w) <= length (w_procs w))%nat
  /\ (cfg_parallel cfg = false -> length (w_procs w) = 1%nat)
  /\ 0 <= w_cursor w
  /\ (forall i p, w_procs w !! i = Some p -> proc_ok cfg (next_block cfg w p) p)
  /\ (forall i p dt,
        w_procs w !! i = Some p -> w_dead_tuples w !! i = Some dt ->
        part_ok (cfg_max_dead_tuples cfg)
          (entry_bound (next_block cfg w p) (pc p)) dt).

(** What the backward scan of [count_nondeletable_pages] stops at: an
    initialised page with a used line pointer. *)
Definition page_has_tuples (page : Page) : bool :=
  negb (PageIsNew page) && existsb ItemIdIsUsed (page_items page).

(** What holds of the shared arrays throughout a parallel run: one slot
    and one partition per worker, valid states, and in every process the
    index count the run was started with. *)
Definition run_ok (cfg : Config) (w : World) : Prop :=
  pstate_wf (w_pstate cfg w)
  /\ length (w_dead_tuples w) = Z.to_nat (cfg_nworkers cfg)
  /\ Forall (fun p => nindexes (stats p) = cfg_nindexes cfg) (w_procs w).

(** The step from [w] to [w'] is process [i]'s arrival at the Finished
    barrier, in [lazy_set_vacstate_and_wait_finished]: it stores
    [VACSTATE_VACUUM_FINISHED] in its slot, every worker then belongs to the
    quorum of the arriving worker's round, and every partition is reset. *)
Definition clear_at_finished_quorum (i : nat) (w w' : World) : Prop :=
  exists p c vw,
    w_procs w !! i = Some p /\ pc p = PcSetFinished c
    /\ w_vacworkers w !! i = Some vw
    /\ w_vacworkers w'
       = set_my_state i VACSTATE_VACUUM_FINISHED (w_vacworkers w)
    /\ Forall (finished_quorum_member (round vw)) (w_vacworkers w')
    /\ w_dead_tuples w' = reset_n_dt <$> w_dead_tuples w.

(** What a process at the Prepared barrier does next: it moves on to
    [VACSTATE_VACUUMING], or it stays where it is. *)
Definition passes_prepared (i : nat) (p : Proc) (c : Cycle) (w w' : World)
    : Prop :=
  w' = mkWorld (w_vacworkers w) (w_dead_tuples w) (w_cursor w)
         (<[i := set_pc (PcSetVacuuming c) p]> (w_procs w)).

(** ** The second heap pass and the page checks

    What the routines below ask of a tuple beyond [HeapTupleInfo] is given
    per line pointer: [xmin_of offnum] is [HeapTupleHeaderGetXmin] of the
    tuple at [offnum], [eventual_freeze offnum] is
    [heap_tuple_needs_eventual_freeze] and [needs_freeze offnum] is
    [heap_tuple_needs_freeze] of it; [follows] is [TransactionIdFollows]
    (transam.c). *)

(** The line-pointer loop of [heap_page_is_all_visible] from [offnum]: it
    stops at the first line pointer that spoils [all_visible].  The result
    is [all_visible], [*visibility_cutoff_xid] and [*all_frozen]. *)
Fixpoint heap_page_is_all_visible_loop (follows : Z -> Z -> bool)
    (xmin_of : Z -> Z) (eventual_freeze : Z -> bool) (offnum : Z)
    (items : list ItemId) (visibility_cutoff_xid : Z) (frozen : bool)
    : bool * Z * bool :=
  match items with
  | [] => (true, visibility_cutoff_xid, frozen)
  | itemid :: rest =>
    match itemid with
    | LP_UNUSED | LP_REDIRECT =>
      heap_page_is_all_visible_loop follows xmin_of eventual_freeze
        (offnum + 1) rest visibility_cutoff_xid frozen
    | LP_DEAD => (false, visibility_cutoff_xid, false)
    | LP_NORMAL tuple =>
      match tup_status tuple with
      | HEAPTUPLE_LIVE =>
        if negb (tup_xmin_committed tuple) then
          (false, visibility_cutoff_xid, false)
        else if negb (tup_xmin_precedes_oldest tuple) then
          (false, visibility_cutoff_xid, false)
        else
          let xmin := xmin_of offnum in
          let cutoff :=
            if follows xmin visibility_cutoff_xid then xmin
            else visibility_cutoff_xid in
          let frozen :=
            if frozen && eventual_freeze offnum then false else frozen in
          heap_page_is_all_visible_loop follows xmin_of eventual_freeze
            (offnum + 1) rest cutoff frozen
      | _ => (false, visibility_cutoff_xid, false)
      end
    end
  end.

(** [heap_page_is_all_visible], on the page's line pointers. *)
Definition heap_page_is_all_visible (follows : Z -> Z -> bool)
    (xmin_of : Z -> Z) (eventual_freeze : Z -> bool) (items : list ItemId)
    : bool * Z * bool :=
  heap_page_is_all_visible_loop follows xmin_of eventual_freeze
    FirstOffsetNumber items InvalidTransactionId true.

Definition ItemIdIsNormal (itemid : ItemId) : bool :=
  match itemid with LP_NORMAL _ => true | _ => false end.

(** The loop of [lazy_check_needs_freeze] from [offnum]: the result and
    [*hastup]. *)
Fixpoint lazy_check_needs_freeze_loop (needs_freeze : Z -> bool)
    (offnum : Z) (items : list ItemId) (tup : bool) : bool * bool :=
  match items with
  | [] => (false, tup)
  | itemid :: rest =>
    let tup := if ItemIdIsUsed itemid then true else tup in
    if negb (ItemIdIsNormal itemid) then
      lazy_check_needs_freeze_loop needs_freeze (offnum + 1) rest tup
    else if needs_freeze offnum then (true, tup)
    else lazy_check_needs_freeze_loop needs_freeze (offnum + 1) rest tup
  end.

(** [lazy_check_needs_freeze]: the result and [*hastup]. *)
Definition lazy_check_needs_freeze (needs_freeze : Z -> bool) (page : Page)
    : bool * bool :=
  if PageIsNew page then (true, false)
  else if PageIsEmpty page then (false, false)
  else
    lazy_check_needs_freeze_loop needs_freeze FirstOffsetNumber
      (page_items page) false.

(** [ItemIdSetUnused(PageGetItemId(page, toff))].  The C code does not
    check [toff] against the line-pointer array; outside it the model
    leaves the line pointers as they are. *)
Definition set_item_unused (items : list ItemId) (toff : Z) : list ItemId :=
  if 1 <=? toff then <[Z.to_nat (toff - 1) := LP_UNUSED]> items else items.

(** The [for] loop of [lazy_vacuum_page]: from [tupindex], over the
    identifiers of [MyDeadTuple] that lie on block [blkno].  The result is
    the line pointers, the first index not consumed, and [unused[]]. *)
Fixpoint lazy_vacuum_page_loop (turns : nat) (my : LVDeadTuple) (blkno : Z)
    (items : list ItemId) (tupindex : Z) (unused : list Z)
    : list ItemId * Z * list Z :=
  match turns with
  | O => (items, tupindex, unused)
  | S turns' =>
    if tupindex <? n_dt my then
      match dt_array my !! Z.to_nat tupindex with
      | None => (items, tupindex, unused)
      | Some tid =>
        if negb (ItemPointerGetBlockNumber tid =? blkno) then
          (items, tupindex, unused)
        else
          let toff := ItemPointerGetOffsetNumber tid in
          lazy_vacuum_page_loop turns' my blkno (set_item_unused items toff)
            (tupindex + 1) (unused ++ [toff])
      end
    else (items, tupindex, unused)
  end.

(** What [lazy_vacuum_page] leaves: the page, its return value, the
    offsets it logs with [log_heap_clean], and the arguments (cutoff,
    flags) of its [visibilitymap_set] call when it makes one. *)
Record VacuumedPage := mkVacuumedPage {
  vp_page : Page;
  vp_tupindex : Z;
  vp_unused : list Z;
  vp_vm_set : option (Z * Z)
}.

(** [lazy_vacuum_page].  [repair] is what [PageRepairFragmentation]
    (bufpage.c) makes of the line pointers; [vm_status] is what
    [visibilitymap_get_status] answers for the block. *)
Definition lazy_vacuum_page (repair : list ItemId -> list ItemId)
    (follows : Z -> Z -> bool) (xmin_of : Z -> Z)
    (eventual_freeze : Z -> bool) (vm_status : Z) (blkno : Z) (page : Page)
    (tupindex : Z) (my : LVDeadTuple) : VacuumedPage :=
  let r :=
    lazy_vacuum_page_loop (Z.to_nat (n_dt my - tupindex)) my blkno
      (page_items page) tupindex [] in
  let items := repair (fst (fst r)) in
  let v := heap_page_is_all_visible follows xmin_of eventual_freeze items in
  let page_all_visible := fst (fst v) || PageIsAllVisible page in
  let flags := 0 in
  let flags :=
    if Z.land vm_status VISIBILITYMAP_ALL_VISIBLE =? 0
    then Z.lor flags VISIBILITYMAP_ALL_VISIBLE else flags in
  let flags :=
    if (Z.land vm_status VISIBILITYMAP_ALL_FROZEN =? 0) && snd v
    then Z.lor flags VISIBILITYMAP_ALL_FROZEN else flags in
  mkVacuumedPage (mkPage (PageIsNew page) page_all_visible items)
    (snd (fst r)) (snd r)
    (if page_all_visible && negb (flags =? 0)
     then Some (snd (fst v), flags) else None).

(** The relation with block [blk] replaced. *)
Definition heap_update (heap : Z -> Page) (blk : Z) (page : Page)
    : Z -> Page :=
  fun b => if b =? blk then page else heap b.

(** What [lazy_vacuum_heap] leaves: the relation, the final [tupindex],
    [npages], and its [visibilitymap_set] calls (block, cutoff, flags),
    latest first. *)
Record VacuumedHeap := mkVacuumedHeap {
  vh_heap : Z -> Page;
  vh_tupindex : Z;
  vh_npages : Z;
  vh_vm_sets : list (Z * (Z * Z))
}.

(** The [while] loop of [lazy_vacuum_heap], run without interference on
    the pages.  [lock_ok tupindex] is the answer of
    [ConditionalLockBufferForCleanup] and [vm_status tupindex] the map's
    bits, in the turn entered with [tupindex]; the tuple attributes are
    given per block.  [tupindex] grows at every turn, so [n_dt] turns are
    enough. *)
Fixpoint lazy_vacuum_heap_loop (turns : nat)
    (repair : list ItemId -> list ItemId) (follows : Z -> Z -> bool)
    (xmin_of : Z -> Z -> Z) (eventual_freeze : Z -> Z -> bool)
    (lock_ok : Z -> bool) (vm_status : Z -> Z) (my : LVDeadTuple)
    (st : VacuumedHeap) : VacuumedHeap :=
  match turns with
  | O => st
  | S turns' =>
    let tupindex := vh_tupindex st in
    if tupindex <? n_dt my then
      match dt_array my !! Z.to_nat tupindex with
      | None => st
      | Some tid =>
        let tblk := ItemPointerGetBlockNumber tid in
        if negb (lock_ok tupindex) then
          lazy_vacuum_heap_loop turns' repair follows xmin_of eventual_freeze
            lock_ok vm_status my
            (mkVacuumedHeap (vh_heap st) (tupindex + 1) (vh_npages st)
               (vh_vm_sets st))
        else
          let r :=
            lazy_vacuum_page repair follows (xmin_of tblk)
              (eventual_freeze tblk) (vm_status tupindex) tblk
              (vh_heap st tblk) tupindex my in
          lazy_vacuum_heap_loop turns' repair follows xmin_of eventual_freeze
            lock_ok vm_status my
            (mkVacuumedHeap (heap_update (vh_heap st) tblk (vp_page r))
               (vp_tupindex r) (vh_npages st + 1)
               (match vp_vm_set r with
                | Some c => (tblk, c) :: vh_vm_sets st
                | None => vh_vm_sets st
                end))
      end
    else st
  end.

(** [lazy_vacuum_heap], on [MyDeadTuple]. *)
Definition lazy_vacuum_heap (repair : list ItemId -> list ItemId)
    (follows : Z -> Z -> bool) (xmin_of : Z -> Z -> Z)
    (eventual_freeze : Z -> Z -> bool) (lock_ok : Z -> bool)
    (vm_status : Z -> Z) (my : LVDeadTuple) (heap : Z -> Page)
    : VacuumedHeap :=
  lazy_vacuum_heap_loop (Z.to_nat (n_dt my)) repair follows xmin_of
    eventual_freeze lock_ok vm_status my (mkVacuumedHeap heap 0 0 []).

(** The line pointer at offset [off]: [PageGetItemId(page, off)] where
    [off] lies in the line-pointer array. *)
Definition item_at (items : list ItemId) (off : Z) : option ItemId :=
  if 1 <=? off then items !! Z.to_nat (off - 1) else None.

Definition PageGetItemId (page : Page) (off : Z) : option ItemId :=
  item_at (page_items page) off.

(** A line pointer that does not spoil a page's all-visible verdict: it is
    unused or a redirect, or holds a live tuple whose inserter committed
    before [OldestXmin]. *)
Definition item_all_visible (itemid : ItemId) : bool :=
  match itemid with
  | LP_UNUSED | LP_REDIRECT => true
  | LP_DEAD => false
  | LP_NORMAL tuple =>
    match tup_status tuple with
    | HEAPTUPLE_LIVE =>
      tup_xmin_committed tuple && tup_xmin_precedes_oldest tuple
    | _ => false
    end
  end.

(** ** What the serial page chooser keeps between calls *)

(** What lets the chooser pass over block [b]: the map's all-frozen bit in
    an aggressive run, its all-visible bit otherwise. *)
Definition skippable (vm : VisibilityMap) (aggressive : bool) (b : Z) : bool :=
  if aggressive then VM_ALL_FROZEN vm b else VM_ALL_VISIBLE vm b.

(** The scan descriptor between two calls of the serial branch: the
    lookahead is not behind the cursor, and every block between them has
    its map bit. *)
Definition lvscan_ok (vm : VisibilityMap) (aggressive : bool)
    (lvscan : LVScanDescData) : Prop :=
  0 <= lv_cblock lvscan <= lv_next_unskippable_block lvscan
  /\ lv_next_unskippable_block lvscan <= lv_nblocks lvscan
  /\ forall b,
       lv_cblock lvscan <= b < lv_next_unskippable_block lvscan ->
       skippable vm aggressive b = true.

(** ** Which worker vacuums which index *)

(** The macro [IsAssignedIndex(i_num, nworkers)]; [parallel_worker] is
    [IsParallelWorker()] and [me] is [ParallelWorkerNumber].  C's [%] on
    these operands is [Z.rem]. *)
Definition IsAssignedIndex (parallel_worker : bool) (me : Z)
    (i_num nworkers : Z) : bool :=
  negb parallel_worker
  || (parallel_worker && (Z.rem i_num nworkers =? me)).

(** ** Whether the freeze horizon may move: [lazy_vacuum_rel] *)

(** [scanned_all_unfrozen], computed before truncation. *)
Definition scanned_all_unfrozen (vacrelstats : LVRelStats) : bool :=
  negb (wrap32 (scanned_pages vacrelstats + frozenskipped_pages vacrelstats)
        <? rel_pages vacrelstats).

(** [new_frozen_xid] and [new_min_multi] as handed to
    [vac_update_relstats]; [InvalidMultiXactId] is 0 (multixact.h). *)
Definition new_frozen_xid (FreezeLimit : Z) (vacrelstats : LVRelStats) : Z :=
  if scanned_all_unfrozen vacrelstats then FreezeLimit
  else InvalidTransactionId.

Definition new_min_multi (MultiXactCutoff : Z) (vacrelstats : LVRelStats)
    : Z :=
  if scanned_all_unfrozen vacrelstats then MultiXactCutoff else 0.

(** ** The two barriers of a reclaim cycle

    A worker's way through a run, as the barrier routines see it: it starts
    up; then, cycle after cycle, it scans, arrives at the Prepared barrier,
    passes it and reclaims (index pass, heap pass), arrives at the Finished
    barrier, passes it, and leaves for the next round; at last it is
    done. *)
Inductive Phase :=
  | PhStartup
  | PhScan
  | PhPrepared
  | PhReclaim
  | PhFinished
  | PhLeaving
  | PhDone.

Definition pc_phase (c : PC) : Phase :=
  match c with
  | PcStart | PcSpaceAlloc | PcSetScanning => PhStartup
  | PcWaitPrepared _ _ => PhPrepared
  | PcSetVacuuming _ | PcVacuumIndexes _ | PcVacuumHeap _ | PcForget _
  | PcSetFinished _ => PhReclaim
  | PcWaitFinished _ _ => PhFinished
  | PcSetScanningNext _ => PhLeaving
  | PcDone => PhDone
  | _ => PhScan
  end.

(** The round a worker is in.  Between the two stores of
    [lazy_set_my_vacstate(pstate, VACSTATE_SCANNING, true, false)] the slot
    already says Scanning while its round is yet to be incremented. *)
Definition pc_round (c : PC) (vw : VacWorker) : Z :=
  match c with
  | PcNextRound _ => wrap32 (round vw + 1)
  | _ => round vw
  end.

(** What a worker's slot holds, by where the worker stands. *)
Definition slot_at (c : PC) (vw : VacWorker) : Prop :=
  0 <= round vw < 2 ^ 32
  /\ match c with
     | PcStart => state vw = 0 /\ round vw = 0
     | PcSpaceAlloc | PcSetScanning =>
       state vw = VACSTATE_STARTUP /\ round vw = 0
     | PcWaitPrepared r _ =>
       state vw = VACSTATE_VACUUM_PREPARED /\ round vw = r
     | PcSetVacuuming _ => state vw = VACSTATE_VACUUM_PREPARED
     | PcVacuumIndexes _ | PcVacuumHeap _ | PcForget _ | PcSetFinished _ =>
       state vw = VACSTATE_VACUUMING
     | PcWaitFinished r _ =>
       state vw = VACSTATE_VACUUM_FINISHED /\ round vw = r
     | PcSetScanningNext _ => state vw = VACSTATE_VACUUM_FINISHED
     | PcDone => state vw = VACSTATE_COMPLETE
     | _ => state vw = VACSTATE_SCANNING
     end.

(** Phases two workers of the same round can be in together. *)
Definition same_round (a b : Phase) : bool :=
  match a, b with
  | PhStartup, (PhStartup | PhScan | PhPrepared) => true
  | PhScan, (PhStartup | PhScan | PhPrepared) => true
  | PhPrepared,
    (PhStartup | PhScan | PhPrepared | PhReclaim | PhFinished) => true
  | PhReclaim, (PhPrepared | PhReclaim | PhFinished) => true
  | PhFinished, (PhPrepared | PhReclaim | PhFinished | PhLeaving) => true
  | PhLeaving, (PhFinished | PhLeaving) => true
  | _, _ => false
  end.

(** Phases of a worker [a] and of a worker [b] that is one round ahead. *)
Definition round_ahead (a b : Phase) : bool :=
  match a, b with
  | (PhFinished | PhLeaving), (PhScan | PhPrepared) => true
  | _, _ => false
  end.

(** How far apart the barriers let two workers be. *)
Definition phases_ok (a : Phase) (ra : Z) (b : Phase) (rb : Z) : Prop :=
  a = PhDone \/ b = PhDone
  \/ (ra = rb /\ same_round a b = true)
  \/ (rb = wrap32 (ra + 1) /\ round_ahead a b = true)
  \/ (ra = wrap32 (rb + 1) /\ round_ahead b a = true).

(** The invariant of the barrier protocol in a parallel run: one slot per
    process, each slot telling where its worker stands, and any two workers
    no further apart than the barriers allow. *)
Definition barrier_ok (w : World) : Prop :=
  length (w_vacworkers w) = length (w_procs w)
  /\ (forall i p vw,
        w_procs w !! i = Some p -> w_vacworkers w !! i = Some vw ->
        slot_at (pc p) vw)
  /\ (forall i j p q vi vj,
        i <> j ->
        w_procs w !! i = Some p -> w_vacworkers w !! i = Some vi ->
        w_procs w !! j = Some q -> w_vacworkers w !! j = Some vj ->
        phases_ok (pc_phase (pc p)) (pc_round (pc p) vi)
          (pc_phase (pc q)) (pc_round (pc q) vj)).

(** ** Room in the dead-tuple array *)

(** A slot for which the Finished barrier of round [r] is over: it is in the
    barrier's quorum, or it says Scanning again with the round's increment
    still to come. *)
Definition finished_or_leaving (r : Z) (vw : VacWorker) : Prop :=
  finished_quorum_member r vw
  \/ (state vw = VACSTATE_SCANNING /\ round vw = r).

(** What a process can count on in its own partition, by where it stands:
    room for a page's worth of line pointers when it opens a page, room for
    the line pointers still to come while it goes through them, and nothing
    left once the clearing of a cycle is behind it (the wait at the Finished
    barrier and what follows it occur in parallel mode only). *)
Definition room_at (cfg : Config) (vws : list VacWorker) (c : PC)
    (dt : LVDeadTuple) : Prop :=
  match c with
  | PcPage _ => MaxHeapTuplesPerPage <= cfg_max_dead_tuples cfg - n_dt dt
  | PcItems _ offnum _ _ =>
    FirstOffsetNumber <= offnum
    /\ MaxHeapTuplesPerPage
       <= cfg_max_dead_tuples cfg - n_dt dt + (offnum - FirstOffsetNumber)
  | PcSetFinished (MidScan _) => cfg_parallel cfg = false -> n_dt dt = 0
  | PcWaitFinished r _ =>
    cfg_parallel cfg = true
    /\ (Forall (finished_or_leaving r) vws -> n_dt dt = 0)
  | PcSetScanningNext _ | PcNextRound _ =>
    cfg_parallel cfg = true /\ n_dt dt = 0
  | PcCycleEnd (MidScan _) => n_dt dt = 0
  | _ => True
  end.

Definition room_ok (cfg : Config) (w : World) : Prop :=
  forall i p dt,
    w_procs w !! i = Some p -> w_dead_tuples w !! i = Some dt ->
    room_at cfg (w_vacworkers w) (pc p) dt.

(** ** What the line-pointer loop records *)

(** The turn for [itemid] calls [lazy_record_dead_tuple]: the line pointer
    is dead, or it holds a dead tuple that is neither HOT-updated nor
    heap-only ([tupgone]). *)
Definition item_recorded (itemid : ItemId) : bool :=
  match itemid with
  | LP_DEAD => true
  | LP_NORMAL tuple =>
    match tup_status tuple with
    | HEAPTUPLE_DEAD => negb (tup_hot_updated tuple || tup_heap_only tuple)
    | _ => false
    end
  | _ => false
  end.

(** The identifiers of the recorded line pointers of a page, in offset
    order. *)
Fixpoint recorded_items (blkno offnum : Z) (items : list ItemId)
    : list ItemPointerData :=
  match items with
  | [] => []
  | itemid :: rest =>
    (if item_recorded itemid then [ItemPointerSet blkno offnum] else [])
    ++ recorded_items blkno (offnum + 1) rest
  end.

(** ** Pages accounted for *)

(** The pages the scan is done with, as [lazy_vacuum_rel] counts them for
    [scanned_all_unfrozen]: those scanned and those skipped as
    all-frozen. *)
Definition pages_done (vacrelstats : LVRelStats) : Z :=
  wrap32 (scanned_pages vacrelstats + frozenskipped_pages vacrelstats).

(** The count, by where a process of a serial aggressive run stands: every
    block before the one in hand, and at the end every block. *)
Definition accounted (p : Proc) : Prop :=
  let upto (b : Z) (next : Z) :=
    rel_pages (stats p) = lv_nblocks (lvscan p)
    /\ pages_done (stats p) = b
    /\ lv_cblock (lvscan p) = next in
  let by_cycle (c : Cycle) :=
    match c with
    | MidScan b => upto b (b + 1)
    | FinalCycle => pages_done (stats p) = rel_pages (stats p)
    end in
  match pc p with
  | PcStart | PcSpaceAlloc => frozenskipped_pages (stats p) = 0
  | PcSetScanning | PcNextPage =>
    upto (lv_cblock (lvscan p)) (lv_cblock (lvscan p))
  | PcCapacity b | PcPage b => upto b (b + 1)
  | PcItems b _ _ _ | PcPageEnd b _ | PcReconcile b _ => upto (b + 1) (b + 1)
  | PcScanDone | PcSetComplete | PcDone =>
    pages_done (stats p) = rel_pages (stats p)
  | PcSetPrepared c | PcWaitPrepared _ c | PcSetVacuuming c
  | PcVacuumIndexes c | PcVacuumHeap c | PcForget c | PcSetFinished c
  | PcWaitFinished _ c | PcSetScanningNext c | PcNextRound c
  | PcCycleEnd c => by_cycle c
  end.

(** ** A relation without indexes *)

(** A process is inside the scan of a page's line pointers, or at its end
    with the page's dead tuples still recorded. *)
Definition pc_on_page (c : PC) : bool :=
  match c with
  | PcItems _ _ _ _ | PcPageEnd _ _ => true
  | _ => false
  end.

(** What holds throughout a run over a relation without indexes: no
    process is in a reclaim cycle, and a partition is empty except while
    its owner is on a page. *)
Definition one_pass_ok (w : World) : Prop :=
  forall i p,
    w_procs w !! i = Some p ->
    nindexes (stats p) = 0
    /\ pc_cycle (pc p) = None
    /\ forall dt,
         w_dead_tuples w !! i = Some dt -> pc_on_page (pc p) = false ->
         n_dt dt = 0.

(** ** The pages counted as non-empty *)

(** The block a process has in hand lies inside the relation, and
    [nonempty_pages] is within [rel_pages], which is the relation's size
    once [lazy_scan_heap] has read it; before that the statistics are as
    [lazy_vacuum_rel] handed them over. *)
Definition nonempty_ok (cfg : Config) (p : Proc) : Prop :=
  match pc_block (pc p) with
  | Some b => 0 <= b < cfg_nblocks cfg
  | None => True
  end
  /\ 0 <= nonempty_pages (stats p) <= rel_pages (stats p)
  /\ (rel_pages (stats p) = cfg_nblocks cfg
      \/ ((pc p = PcStart \/ pc p = PcSpaceAlloc)
          /\ stats p = start_stats cfg)).

(** ** Sample runs

    A relation of one page whose line pointers 1 and 2 are dead, vacuumed
    without options and with room for four dead tuples. *)

Definition sample_cfg (parallel : bool) (nworkers nidx : Z) : Config :=
  mkConfig parallel nworkers nidx 1 1 0 false 4.

Definition sample_page : Page := mkPage false false [LP_DEAD; LP_DEAD].

(** A process that has not started, and its statistics once the relation's
    size is known and [scanned] pages are scanned. *)
Definition sample_start (cfg : Config) : Proc :=
  mkProc PcStart (mkLVScanDesc 0 0 0) (start_stats cfg) false.

Definition sample_stats (nidx scanned : Z) : LVRelStats :=
  mkLVRelStats nidx 1 1 scanned 0 0 0 0 4 0 false.

(** The partition of the process that scanned the page, holding [n]
    identifiers. *)
Definition sample_found (n : Z) : LVDeadTuple :=
  mkLVDeadTuple n
    [ItemPointerSet 0 1; ItemPointerSet 0 2; ItemPointerSet 0 0;
     ItemPointerSet 0 0].

(** The serial run, at its index pass. *)
Definition sample_serial_reaping : World :=
  mkWorld [] [sample_found 2] 0
    [mkProc (PcVacuumIndexes FinalCycle) (mkLVScanDesc 2 1 1)
       (sample_stats 1 1) false].

(** Two workers: worker 0 claimed and scanned the page and is at [pc0] in
    state [st0], its partition holding [n] identifiers; worker 1 is in
    state [st1]. *)
Definition sample_parallel (nidx st0 : Z) (pc0 : PC) (n st1 : Z) (p1 : Proc)
    : World :=
  mkWorld [mkVacWorker st0 0; mkVacWorker st1 0]
    [sample_found n; lazy_space_alloc 4] 1
    [mkProc pc0 (mkLVScanDesc 0 0 1) (sample_stats nidx 1) false; p1].

(** Worker 1 after it found the cursor exhausted and completed. *)
Definition sample_done : Proc :=
  mkProc PcDone (mkLVScanDesc 0 0 1) (sample_stats 1 0) false.

(** Worker 0 waits at the Prepared barrier; worker 1 has not started. *)
Definition sample_blocked : World :=
  sample_parallel 1 VACSTATE_VACUUM_PREPARED (PcWaitPrepared 0 FinalCycle) 2
    0 (sample_start (sample_cfg true 2 1)).

(** Worker 0 waits at the Prepared barrier; worker 1 is Complete. *)
Definition sample_quorum : World :=
  sample_parallel 1 VACSTATE_VACUUM_PREPARED (PcWaitPrepared 0 FinalCycle) 2
    VACSTATE_COMPLETE sample_done.

(** Worker 0 is about to arrive at the Finished barrier, and has arrived. *)
Definition sample_finishing : World :=
  sample_parallel 1 VACSTATE_VACUUMING (PcSetFinished FinalCycle) 2
    VACSTATE_COMPLETE sample_done.

Definition sample_finished : World :=
  sample_parallel 1 VACSTATE_VACUUM_FINISHED (PcWaitFinished 0 FinalCycle) 0
    VACSTATE_COMPLETE sample_done.

(** No index: worker 0 is at the end of the page, and has vacuumed it. *)
Definition sample_noindex_page_end : World :=
  sample_parallel 0 VACSTATE_SCANNING
    (PcPageEnd 0 (mkPageScan false true false false)) 2
    0 (sample_start (sample_cfg true 2 0)).

Definition sample_noindex_cleared : World :=
  sample_parallel 0 VACSTATE_SCANNING
    (PcReconcile 0 (mkPageScan false true false false)) 0
    0 (sample_start (sample_cfg true 2 0)).

(** The serial run with room for a page's worth of identifiers, in the
    middle of the page. *)
Definition sample_cfg_room : Config := mkConfig false 0 1 1 1 0 false 291.

Definition sample_scanning : World :=
  mkWorld [] [lazy_space_alloc 291] 0
    [mkProc (PcItems 0 1 [LP_DEAD; LP_DEAD] page_scan_start)
       (mkLVScanDesc 1 1 1)
       (mkLVRelStats 1 1 1 1 0 0 0 0 291 0 false) false].

(** The serial aggressive run, at its end. *)
Definition sample_cfg_aggressive : Config := mkConfig false 0 1 1 1 0 true 4.

Definition sample_aggressive_done : World :=
  mkWorld [] [sample_found 2] 0
    [mkProc PcDone (mkLVScanDesc 2 1 1)
       (mkLVRelStats 1 1 1 1 0 0 0 0 4 1 false) false].

(** * Properties *)

(** ** Arithmetic and the order on tuple identifiers *)

Lemma wrap32_small x : 0 <= x < 2 ^ 32 -> wrap32 x = x.
Proof. intros H. unfold wrap32. apply Z.mod_small; lia. Qed.

Lemma cast_int_small x : 0 <= x <= INT_MAX -> cast_int x = x.
Proof.
  unfold cast_int, INT_MAX. intros H.
  rewrite Z.mod_small; lia.
Qed.

Lemma vac_cmp_itemptr_lt a b : vac_cmp_itemptr a b < 0 <-> itemptr_lt a b.
Proof.
  unfold vac_cmp_itemptr, itemptr_lt.
  repeat match goal with
         | |- context [?x <? ?y] => destruct (Z.ltb_spec x y)
         | |- context [?x >? ?y] => destruct (Z.gtb_spec x y)
         end; lia.
Qed.

Lemma vac_cmp_itemptr_gt a b : vac_cmp_itemptr a b > 0 <-> itemptr_lt b a.
Proof.
  unfold vac_cmp_itemptr, itemptr_lt.
  repeat match goal with
         | |- context [?x <? ?y] => destruct (Z.ltb_spec x y)
         | |- context [?x >? ?y] => destruct (Z.gtb_spec x y)
         end; lia.
Qed.

Lemma vac_cmp_itemptr_eq a b : vac_cmp_itemptr a b = 0 <-> a = b.
Proof.
  unfold vac_cmp_itemptr. destruct a as [ab ao], b as [bb bo]; simpl.
  repeat match goal with
         | |- context [?x <? ?y] => destruct (Z.ltb_spec x y)
         | |- context [?x >? ?y] => destruct (Z.gtb_spec x y)
         end;
    (split; [ intros; try lia; f_equal; lia | intros [= -> ->]; lia ]).
Qed.

Lemma itemptr_lt_trans a b c : itemptr_lt a b -> itemptr_lt b c -> itemptr_lt a c.
Proof. unfold itemptr_lt. lia. Qed.

Lemma itemptr_lt_irrefl a : ~ itemptr_lt a a.
Proof. unfold itemptr_lt. lia. Qed.

Lemma itemptr_le_lt_trans a b c : itemptr_le a b -> itemptr_lt b c -> itemptr_lt a c.
Proof. intros [H | ->] ?; eauto using itemptr_lt_trans. Qed.

Lemma itemptr_lt_le_trans a b c : itemptr_lt a b -> itemptr_le b c -> itemptr_lt a c.
Proof. intros ? [H | <-]; eauto using itemptr_lt_trans. Qed.

(** ** The dead-tuple array *)

Lemma lazy_record_dead_tuple_append max_dead my itemptr :
  dt_wf max_dead my -> n_dt my < max_dead ->
  dt_entries (lazy_record_dead_tuple max_dead my itemptr)
    = dt_entries my ++ [itemptr]
  /\ n_dt (lazy_record_dead_tuple max_dead my itemptr) = n_dt my + 1
  /\ dt_wf max_dead (lazy_record_dead_tuple max_dead my itemptr).
Proof.
  intros [Hn Hlen] Hlt. unfold lazy_record_dead_tuple, dt_entries, dt_wf.
  destruct (Z.ltb_spec (n_dt my) max_dead); [| lia]. simpl.
  rewrite length_insert. repeat split; try lia.
  replace (Z.to_nat (n_dt my + 1)) with (S (Z.to_nat (n_dt my))) by lia.
  rewrite (take_S_r _ _ itemptr).
  - rewrite take_insert_ge by lia. reflexivity.
  - apply list_lookup_insert_eq. lia.
Qed.

Lemma lazy_record_dead_tuple_full max_dead my itemptr :
  max_dead <= n_dt my -> lazy_record_dead_tuple max_dead my itemptr = my.
Proof.
  intros H. unfold lazy_record_dead_tuple.
  destruct (Z.ltb_spec (n_dt my) max_dead); [lia | reflexivity].
Qed.

Lemma lazy_record_dead_tuple_wf max_dead my itemptr :
  dt_wf max_dead my -> dt_wf max_dead (lazy_record_dead_tuple max_dead my itemptr).
Proof.
  intros Hwf. destruct (Z.lt_ge_cases (n_dt my) max_dead) as [Hlt | Hge].
  - apply lazy_record_dead_tuple_append; assumption.
  - rewrite lazy_record_dead_tuple_full by assumption. assumption.
Qed.

Lemma lazy_space_alloc_wf max_dead :
  0 <= max_dead -> dt_wf max_dead (lazy_space_alloc max_dead).
Proof.
  intros H. unfold dt_wf, lazy_space_alloc. simpl.
  rewrite length_replicate. lia.
Qed.

Lemma reset_n_dt_wf max_dead dt : dt_wf max_dead dt -> dt_wf max_dead (reset_n_dt dt).
Proof. unfold dt_wf, reset_n_dt. simpl. lia. Qed.

Lemma apply_store_op_wf max_dead ops : forall dt,
  dt_wf max_dead dt -> dt_wf max_dead (fold_left (apply_store_op max_dead) ops dt).
Proof.
  induction ops as [| op ops IH]; intros dt Hwf; simpl; [assumption |].
  apply IH. destruct op; simpl.
  - apply lazy_record_dead_tuple_wf; assumption.
  - apply reset_n_dt_wf; assumption.
Qed.

(** The capacity computed at run start lies between
    [MaxHeapTuplesPerPage] and [INT_MAX], so its conversion to [int] keeps
    it. *)
Lemma lazy_get_max_dead_tuple_range is_autovacuum awm mwm nidx old_pages :
  0 < MaxHeapTuplesPerPage <= INT_MAX -> 0 <= MaxAllocSize ->
  -1 <= awm -> 0 <= mwm -> 0 <= old_pages ->
  MaxHeapTuplesPerPage
    <= lazy_get_max_dead_tuple is_autovacuum awm mwm nidx old_pages <= INT_MAX.
Proof.
  intros HM HA Hawm Hmwm Hold. unfold lazy_get_max_dead_tuple, LAZY_ALLOC_TUPLES.
  set (vwm := if is_autovacuum && negb (awm =? -1) then awm else mwm).
  assert (Hv : 0 <= vwm).
  { subst vwm. destruct is_autovacuum; simpl; [| lia].
    destruct (Z.eqb_spec awm (-1)); simpl; lia. }
  destruct (negb (nidx =? 0)); [| lia].
  set (m := Z.min (Z.min (Z.quot (vwm * 1024) sizeof_ItemPointerData) INT_MAX)
                  (Z.quot MaxAllocSize sizeof_ItemPointerData)).
  assert (Hm : 0 <= m <= INT_MAX).
  { subst m. unfold sizeof_ItemPointerData, INT_MAX in *.
    pose proof (Z.quot_pos (vwm * 1024) 6 ltac:(lia) ltac:(lia)).
    pose proof (Z.quot_pos MaxAllocSize 6 ltac:(lia) ltac:(lia)). lia. }
  assert (Hq : 0 <= Z.quot m MaxHeapTuplesPerPage
               /\ MaxHeapTuplesPerPage * Z.quot m MaxHeapTuplesPerPage <= m).
  { rewrite Z.quot_div_nonneg by lia. split.
    - apply Z.div_pos; lia.
    - apply Z.mul_div_le; lia. }
  destruct Hq as [Hq0 Hq1].
  assert (Hqs : Z.quot m MaxHeapTuplesPerPage <= m) by nia.
  rewrite (wrap32_small (Z.quot m MaxHeapTuplesPerPage))
    by (unfold INT_MAX in *; lia).
  destruct (Z.gtb_spec (Z.quot m MaxHeapTuplesPerPage) old_pages) as [Hgt | Hle].
  - assert (0 <= old_pages * MaxHeapTuplesPerPage <= m) by nia.
    rewrite wrap32_small by (unfold INT_MAX in *; lia). lia.
  - lia.
Qed.

(** ** Looking a tuple identifier up *)

Lemma StronglySorted_lookup {A : Type} (R : A -> A -> Prop) (l : list A) :
  StronglySorted R l ->
  forall (i j : nat) x y,
    (i < j)%nat -> l !! i = Some x -> l !! j = Some y -> R x y.
Proof.
  induction 1 as [| a l Hs IH Hall]; intros i j x y Hij Hi Hj.
  - rewrite lookup_nil in Hi. discriminate.
  - destruct j as [| j]; [lia |]. destruct i as [| i]; simpl in *.
    + injection Hi as <-. rewrite Forall_forall in Hall.
      apply Hall. eapply list_elem_of_lookup_2; eassumption.
    + eapply (IH i j); [lia | eassumption | eassumption].
Qed.

(** A hit of the halving loop lies in the interval and holds the key. *)
Lemma bsearch_loop_sound turns key base : forall l u idx,
  0 <= l ->
  bsearch_loop turns vac_cmp_itemptr key base l u = Some idx ->
  l <= idx < u /\ base !! Z.to_nat idx = Some key.
Proof.
  induction turns as [| turns IH]; intros l u idx Hl; simpl; [discriminate |].
  destruct (Z.ltb_spec l u) as [Hlu | Hlu]; [| discriminate].
  assert (Hmid : l <= (l + u) / 2 < u).
  { split; [apply Z.div_le_lower_bound | apply Z.div_lt_upper_bound]; lia. }
  destruct (base !! Z.to_nat ((l + u) / 2)) as [p |] eqn:Hp; [| discriminate].
  destruct (Z.ltb_spec (vac_cmp_itemptr key p) 0) as [Hlt | Hge].
  - intros H. apply IH in H; [| lia]. destruct H. split; [lia | assumption].
  - destruct (Z.gtb_spec (vac_cmp_itemptr key p) 0) as [Hgt | Hle].
    + intros H. apply IH in H; [| lia]. destruct H. split; [lia | assumption].
    + intros [= <-]. split; [lia |].
      assert (vac_cmp_itemptr key p = 0) as Heq by lia.
      apply vac_cmp_itemptr_eq in Heq. subst p. assumption.
Qed.

(** On a sorted array the halving loop finds every key of the interval. *)
Lemma bsearch_loop_complete key base n :
  (forall (i j : nat) x y, (i < j)%nat -> Z.of_nat j < n ->
     base !! i = Some x -> base !! j = Some y -> itemptr_le x y) ->
  n <= Z.of_nat (length base) ->
  forall turns l u j,
    0 <= l -> u <= n -> (Z.to_nat (u - l) <= turns)%nat ->
    l <= j < u -> base !! Z.to_nat j = Some key ->
    exists idx, bsearch_loop turns vac_cmp_itemptr key base l u = Some idx.
Proof.
  intros Hsorted Hn.
  induction turns as [| turns IH]; intros l u j Hl Hu Hturns Hj Hkey; [lia |].
  simpl. destruct (Z.ltb_spec l u) as [Hlu | Hlu]; [| lia].
  assert (Hmid : l <= (l + u) / 2 < u).
  { split; [apply Z.div_le_lower_bound | apply Z.div_lt_upper_bound]; lia. }
  destruct (lookup_lt_is_Some_2 base (Z.to_nat ((l + u) / 2)) ltac:(lia))
    as [p Hp].
  rewrite Hp.
  destruct (Z.ltb_spec (vac_cmp_itemptr key p) 0) as [Hlt | Hge].
  - apply (IH l ((l + u) / 2) j); try lia; [| assumption].
    split; [lia |]. apply vac_cmp_itemptr_lt in Hlt.
    destruct (Z.lt_ge_cases j ((l + u) / 2)) as [| Hjm]; [assumption |].
    exfalso. destruct (Z.eq_dec j ((l + u) / 2)) as [-> | Hne].
    + rewrite Hp in Hkey. injection Hkey as ->.
      exact (itemptr_lt_irrefl _ Hlt).
    + assert (itemptr_le p key) as Hle.
      { apply (Hsorted (Z.to_nat ((l + u) / 2)) (Z.to_nat j)); try lia; assumption. }
      exact (itemptr_lt_irrefl _ (itemptr_lt_le_trans _ _ _ Hlt Hle)).
  - destruct (Z.gtb_spec (vac_cmp_itemptr key p) 0) as [Hgt | Hle];
      [| eexists; reflexivity].
    apply (IH ((l + u) / 2 + 1) u j); try lia; [| assumption].
    split; [| lia]. apply Z.lt_gt, vac_cmp_itemptr_gt in Hgt.
    destruct (Z.lt_ge_cases ((l + u) / 2) j) as [| Hjm]; [lia |].
    exfalso. destruct (Z.eq_dec j ((l + u) / 2)) as [-> | Hne].
    + rewrite Hp in Hkey. injection Hkey as ->.
      exact (itemptr_lt_irrefl _ Hgt).
    + assert (itemptr_le key p) as Hle.
      { apply (Hsorted (Z.to_nat j) (Z.to_nat ((l + u) / 2))); try lia; assumption. }
      exact (itemptr_lt_irrefl _ (itemptr_le_lt_trans _ _ _ Hle Hgt)).
Qed.

(** [bsearch] on one sorted partition: a hit exactly when the key is among
    the partition's entries. *)
Lemma bsearch_partition key dt :
  n_dt dt <= Z.of_nat (length (dt_array dt)) ->
  StronglySorted itemptr_le (dt_entries dt) ->
  (exists idx, bsearch key (dt_array dt) (n_dt dt) vac_cmp_itemptr = Some idx)
  <-> key ∈ dt_entries dt.
Proof.
  intros Hlen Hsorted. unfold bsearch, dt_entries in *. split.
  - intros [idx H]. apply bsearch_loop_sound in H; [| lia].
    destruct H as [Hidx Hkey]. apply elem_of_take.
    exists (Z.to_nat idx). split; [assumption | lia].
  - intros H. apply elem_of_take in H. destruct H as (j & Hj & Hjn).
    apply (bsearch_loop_complete key (dt_array dt) (n_dt dt)) with (j := Z.of_nat j);
      try lia.
    + intros i0 j0 x y Hij Hj0 Hx Hy.
      apply (StronglySorted_lookup _ _ Hsorted i0 j0); [assumption | |].
      * rewrite lookup_take_lt by lia. assumption.
      * rewrite lookup_take_lt by lia. assumption.
    + rewrite Nat2Z.id. assumption.
Qed.

(** ** Counting workers at a barrier *)

(** A counting loop whose turns add one to [n_count + n_comp] for the
    workers satisfying [P], and nothing for the others, ends with the sum
    equal to the number of workers exactly when all of them satisfy [P]. *)
Lemma fold_count_all (f : Z * Z -> VacWorker -> Z * Z) (P : VacWorker -> Prop)
    (ws : list VacWorker) :
  Forall (fun w => forall acc,
            (P w /\ fst (f acc w) + snd (f acc w) = fst acc + snd acc + 1)
            \/ (~ P w /\ fst (f acc w) + snd (f acc w) = fst acc + snd acc)) ws ->
  forall acc,
    fst (fold_left f ws acc) + snd (fold_left f ws acc)
      <= fst acc + snd acc + Z.of_nat (length ws)
    /\ (fst (fold_left f ws acc) + snd (fold_left f ws acc)
          = fst acc + snd acc + Z.of_nat (length ws)
        <-> Forall P ws).
Proof.
  induction 1 as [| w ws Hw Hws IH]; intros acc; simpl.
  - split; [lia |]. split; [constructor | lia].
  - destruct (IH (f acc w)) as [Hle Hiff].
    destruct (Hw acc) as [[HP Hone] | [HnP Hzero]].
    + split; [lia |]. rewrite Forall_cons. split.
      * intros Heq. split; [assumption |]. apply Hiff. lia.
      * intros [_ Hall]. apply Hiff in Hall. lia.
    + split; [lia |]. rewrite Forall_cons. split.
      * intros Heq. lia.
      * intros [HP' _]. contradiction.
Qed.

Lemma count_prepared_turn r w :
  vacstate_valid w ->
  forall acc,
    (prepared_quorum_member r w
     /\ fst (count_prepared r acc w) + snd (count_prepared r acc w)
        = fst acc + snd acc + 1)
    \/ (~ prepared_quorum_member r w
        /\ fst (count_prepared r acc w) + snd (count_prepared r acc w)
           = fst acc + snd acc).
Proof.
  unfold vacstate_valid, prepared_quorum_member, count_prepared.
  intros Hv acc. simpl in Hv.
  destruct (Z.eqb_spec (round w) r) as [Hr | Hr];
    decompose [or] Hv; try contradiction;
    match goal with H : _ = state w |- _ => rewrite <- H end;
    simpl; unfold VACSTATE_STARTUP, VACSTATE_SCANNING, VACSTATE_VACUUM_PREPARED,
      VACSTATE_VACUUMING, VACSTATE_VACUUM_FINISHED, VACSTATE_COMPLETE;
    (left; split; [tauto || (right; reflexivity) | lia])
    || (right; split; [intros [[[?|[?|[?|[]]]] ?]|?]; congruence | lia]).
Qed.

Lemma count_finished_turn r w :
  vacstate_valid w ->
  forall acc,
    (finished_quorum_member r w
     /\ fst (count_finished r acc w) + snd (count_finished r acc w)
        = fst acc + snd acc + 1)
    \/ (~ finished_quorum_member r w
        /\ fst (count_finished r acc w) + snd (count_finished r acc w)
           = fst acc + snd acc).
Proof.
  unfold vacstate_valid, finished_quorum_member, count_finished.
  intros Hv acc. simpl in Hv.
  destruct (Z.eqb_spec (round w) r) as [Hr | Hr];
    destruct (Z.eqb_spec (round w) (wrap32 (r + 1))) as [Hr1 | Hr1];
    decompose [or] Hv; try contradiction;
    match goal with H : _ = state w |- _ => rewrite <- H end;
    simpl; unfold VACSTATE_STARTUP, VACSTATE_SCANNING, VACSTATE_VACUUM_PREPARED,
      VACSTATE_VACUUMING, VACSTATE_VACUUM_FINISHED, VACSTATE_COMPLETE;
    (left; split; [tauto || (right; right; reflexivity) | lia])
    || (right; split;
        [intros [[? ?]|[[[?|[?|[]]] ?]|?]]; congruence | lia]).
Qed.

Lemma lazy_check_vacstate_prepared_quorum pstate r :
  pstate_wf pstate ->
  lazy_check_vacstate_prepared pstate r = true
  <-> Forall (prepared_quorum_member r) (vacworkers pstate).
Proof.
  intros (Hn & Hlen & Hvalid). unfold lazy_check_vacstate_prepared.
  rewrite take_ge by lia.
  destruct (fold_count_all (count_prepared r) (prepared_quorum_member r)
              (vacworkers pstate)) with (acc := (0, 0)) as [Hle Hiff].
  { eapply Forall_impl; [exact Hvalid |].
    intros w Hw. apply count_prepared_turn. assumption. }
  simpl in Hiff. rewrite <- Hiff, Hlen, Z.eqb_eq. lia.
Qed.

Lemma lazy_count_vacstate_finished_quorum pstate r :
  pstate_wf pstate ->
  fst (lazy_count_vacstate_finished pstate r)
    + snd (lazy_count_vacstate_finished pstate r) = nworkers pstate
  <-> Forall (finished_quorum_member r) (vacworkers pstate).
Proof.
  intros (Hn & Hlen & Hvalid). unfold lazy_count_vacstate_finished.
  rewrite take_ge by lia.
  destruct (fold_count_all (count_finished r) (finished_quorum_member r)
              (vacworkers pstate)) with (acc := (0, 0)) as [Hle Hiff].
  { eapply Forall_impl; [exact Hvalid |].
    intros w Hw. apply count_finished_turn. assumption. }
  simpl in Hiff. rewrite <- Hiff, Hlen. lia.
Qed.

Lemma lazy_check_vacstate_finished_quorum pstate r :
  pstate_wf pstate ->
  lazy_check_vacstate_finished pstate r = true
  <-> Forall (finished_quorum_member r) (vacworkers pstate).
Proof.
  intros Hwf. unfold lazy_check_vacstate_finished.
  rewrite Z.eqb_eq. apply lazy_count_vacstate_finished_quorum. assumption.
Qed.

(** C5.  [lazy_tid_reaped] under sortedness.  When each of the partitions it
    looks at ([nworkers] of them in parallel mode, the single one otherwise)
    is sorted by tuple identifier, [lazy_tid_reaped] answers [true] exactly
    when the identifier occurs among the entries of one of them; the
    comparator it searches with is the order first by page, then by
    offset. *)
Theorem lazy_tid_reaped_iff (itemptr : ItemPointerData) (pstate_null : bool)
    (nworkers : Z) (dead_tuples : list LVDeadTuple) :
  let num := if pstate_null then 1 else nworkers in
  Forall (fun dt => n_dt dt <= Z.of_nat (length (dt_array dt))
                    /\ StronglySorted itemptr_le (dt_entries dt))
         (take (Z.to_nat num) dead_tuples) ->
  (lazy_tid_reaped itemptr pstate_null nworkers dead_tuples = true
   <-> exists (i : nat) dt,
         Z.of_nat i < num /\ dead_tuples !! i = Some dt
         /\ itemptr ∈ dt_entries dt)
  /\ (forall a b,
        (vac_cmp_itemptr a b < 0 <-> itemptr_lt a b)
        /\ (vac_cmp_itemptr a b = 0 <-> a = b)
        /\ (vac_cmp_itemptr a b > 0 <-> itemptr_lt b a)).
Proof.
  intros num Hall. split.
  2: { intros a b. split; [apply vac_cmp_itemptr_lt |].
       split; [apply vac_cmp_itemptr_eq | apply vac_cmp_itemptr_gt]. }
  unfold lazy_tid_reaped. fold num. rewrite existsb_exists.
  rewrite Forall_forall in Hall. split.
  - intros (dt & Hin & Hhit). apply list_elem_of_In in Hin.
    pose proof Hin as Hin'. apply elem_of_take in Hin'.
    destruct Hin' as (i & Hi & Hlt).
    exists i, dt. split; [lia |]. split; [assumption |].
    destruct (Hall dt Hin) as [Hlen Hsorted].
    apply bsearch_partition; [assumption | assumption |].
    destruct (bsearch itemptr (dt_array dt) (n_dt dt) vac_cmp_itemptr) as [idx |];
      [eexists; reflexivity | discriminate].
  - intros (i & dt & Hi & Hdt & Hmem).
    assert (Hin : dt ∈ take (Z.to_nat num) dead_tuples).
    { apply elem_of_take. exists i. split; [assumption | lia]. }
    exists dt. split; [apply list_elem_of_In; assumption |].
    destruct (Hall dt Hin) as [Hlen Hsorted].
    apply (bsearch_partition itemptr dt Hlen Hsorted) in Hmem.
    destruct Hmem as [idx ->]. reflexivity.
Qed.

(** ** Page and visibility map *)

(** The [if / else if] chain read by cases on the local flag
    [all_visible_according_to_vm] (here [avm]), whatever its value: four
    cases tried in this order, of which at most one fires.  (1) The page is
    computed all-visible and the flag is clear: the page bit and the map bit
    are set, with the all-frozen bit when the page is all-frozen too; (2)
    else the flag is set, the map still has the bit on re-reading and the
    page-level bit is clear: a warning, and the map bits are cleared; (3)
    else the page-level bit is set but dead tuples were found: a warning,
    and page bit and map bits are cleared; (4) else the flag is set, the
    page is computed all-visible and all-frozen and the map lacks the
    frozen bit: the frozen bit is set with [InvalidTransactionId] as
    cutoff.  Otherwise nothing is done.  Whether the flag tells what the
    map says is another matter: see [serial_flag_never_cleared]. *)
Lemma vm_reconcile_rules ps avm page_av vmstatus cutoff :
  let rule1 := all_visible ps = true /\ avm = false in
  let rule2 :=
    avm = true /\ page_av = false
    /\ Z.land vmstatus VISIBILITYMAP_ALL_VISIBLE <> 0 in
  let rule3 := page_av = true /\ has_dead_tuples ps = true in
  let rule4 :=
    avm = true /\ all_visible ps = true /\ all_frozen ps = true
    /\ Z.land vmstatus VISIBILITYMAP_ALL_FROZEN = 0 in
  let done := vm_reconcile ps avm page_av vmstatus cutoff in
  (rule1 ->
     done = [DoPageSetAllVisible; DoMarkBufferDirty;
             Do_visibilitymap_set cutoff
               (if all_frozen ps
                then Z.lor VISIBILITYMAP_ALL_VISIBLE VISIBILITYMAP_ALL_FROZEN
                else VISIBILITYMAP_ALL_VISIBLE)])
  /\ (~ rule1 -> rule2 ->
        done = [DoWarning; Do_visibilitymap_clear VISIBILITYMAP_VALID_BITS])
  /\ (~ rule1 -> ~ rule2 -> rule3 ->
        done = [DoWarning; DoPageClearAllVisible; DoMarkBufferDirty;
                Do_visibilitymap_clear VISIBILITYMAP_VALID_BITS])
  /\ (~ rule1 -> ~ rule2 -> ~ rule3 -> rule4 ->
        done = [Do_visibilitymap_set InvalidTransactionId
                  VISIBILITYMAP_ALL_FROZEN])
  /\ (~ rule1 -> ~ rule2 -> ~ rule3 -> ~ rule4 -> done = []).
Proof.
  intros rule1 rule2 rule3 rule4 done.
  subst rule1 rule2 rule3 rule4 done. unfold vm_reconcile.
  destruct ps as [av af hd ht]; simpl.
  destruct (Z.eqb_spec (Z.land vmstatus VISIBILITYMAP_ALL_VISIBLE) 0);
    destruct (Z.eqb_spec (Z.land vmstatus VISIBILITYMAP_ALL_FROZEN) 0);
    destruct av, af, hd, avm, page_av; simpl;
    repeat split; intros; try reflexivity; exfalso; intuition congruence.
Qed.

(** The serial branch of the chooser stores [true] into
    [*all_visible_according_to_vm] or leaves it alone; it never stores
    [false].  A flag that is set on entry is set on return. *)
Lemma serial_page_loop_flag_kept vm options aggressive skipping :
  forall turns blkno lvscan st,
    np_avm
      (serial_page_loop turns vm options aggressive skipping blkno lvscan st
         true)
    = true.
Proof.
  induction turns as [| turns IH]; intros blkno lvscan st;
    cbn [serial_page_loop np_avm]; [reflexivity |].
  destruct (blkno <? lv_nblocks lvscan); [| reflexivity].
  destruct (blkno =? lv_next_unskippable_block lvscan).
  { cbn [np_avm]. destruct (aggressive && VM_ALL_VISIBLE vm blkno); reflexivity. }
  destruct (skipping && negb (FORCE_CHECK_PAGE st blkno blkno));
    [apply IH | reflexivity].
Qed.

Lemma serial_flag_never_cleared vm options aggressive lvscan st :
  np_avm
    (snd (lazy_scan_heap_get_nextpage vm options aggressive lvscan st true))
  = true.
Proof.
  unfold lazy_scan_heap_get_nextpage, serial_nextpage. cbn [snd np_avm].
  apply serial_page_loop_flag_kept.
Qed.

(** ** Choosing the next page *)

(** Every use of the macro passes [blkno] itself for [blk], so its first
    conjunct compares [blkno] with [blkno - 1]: it never holds. *)
Lemma FORCE_CHECK_PAGE_self vacrelstats blkno :
  FORCE_CHECK_PAGE vacrelstats blkno blkno = false.
Proof.
  unfold FORCE_CHECK_PAGE, wrap32.
  destruct (Z.eqb_spec blkno ((blkno - 1) mod 2 ^ 32)) as [Heq | Hne];
    [| reflexivity].
  exfalso. pose proof (Z.mod_pos_bound (blkno - 1) (2 ^ 32) ltac:(lia)) as Hb.
  destruct (Z.eq_dec blkno 0) as [-> | Hnz].
  - vm_compute in Heq. discriminate.
  - rewrite Z.mod_small in Heq by lia. lia.
Qed.

(** The serial page loop moves forward only, and leaves the descriptor's
    bounds and the capacity alone. *)
Lemma serial_page_loop_props vm options aggressive skipping :
  forall turns blkno lvscan st avm,
    0 <= blkno -> lv_nblocks lvscan < 2 ^ 32 ->
    let r :=
      serial_page_loop turns vm options aggressive skipping blkno lvscan st
        avm in
    blkno <= np_blkno r
    /\ (blkno <= lv_nblocks lvscan -> np_blkno r <= lv_nblocks lvscan)
    /\ lv_nblocks (np_lvscan r) = lv_nblocks lvscan
    /\ max_dead_tuples (np_stats r) = max_dead_tuples st.
Proof.
  induction turns as [| turns IH]; intros blkno lvscan st avm Hb Hn; simpl.
  - repeat split; try lia; reflexivity.
  - destruct (Z.ltb_spec blkno (lv_nblocks lvscan)) as [Hlt | Hge]; simpl;
      [| repeat split; try lia; reflexivity].
    destruct (blkno =? lv_next_unskippable_block lvscan); simpl;
      [repeat split; try lia; reflexivity |].
    destruct (skipping && negb (FORCE_CHECK_PAGE st blkno blkno)); simpl;
      [| repeat split; try lia; reflexivity].
    rewrite (wrap32_small (blkno + 1)) by lia.
    match goal with
    | |- context [serial_page_loop turns _ _ _ _ _ _ ?st' _] =>
      destruct (IH (blkno + 1) lvscan st' avm ltac:(lia) Hn)
        as (H1 & H2 & H3 & H4);
      assert (Hst : max_dead_tuples st' = max_dead_tuples st)
        by (destruct (aggressive || VM_ALL_FROZEN vm blkno); reflexivity)
    end.
    repeat split; try lia; try assumption; congruence.
Qed.

Lemma serial_nextpage_props vm options aggressive lvscan st avm :
  0 <= lv_cblock lvscan <= lv_nblocks lvscan -> lv_nblocks lvscan < 2 ^ 32 ->
  let r := serial_nextpage vm options aggressive lvscan st avm in
  lv_cblock lvscan <= np_blkno r <= lv_nblocks lvscan
  /\ lv_nblocks (np_lvscan r) = lv_nblocks lvscan
  /\ lv_cblock (np_lvscan r) = wrap32 (np_blkno r + 1)
  /\ max_dead_tuples (np_stats r) = max_dead_tuples st.
Proof.
  intros Hc Hn. unfold serial_nextpage. cbn [np_blkno np_lvscan np_stats
    lv_cblock lv_nblocks lv_next_unskippable_block].
  match goal with
  | |- context [serial_page_loop ?t ?vm ?o ?a ?sk ?b ?l ?s ?v] =>
    destruct (serial_page_loop_props vm o a sk t b l s v)
      as (H1 & H2 & H3 & H4); [simpl; lia | simpl; lia |];
    set (r := serial_page_loop t vm o a sk b l s v) in *
  end.
  simpl in *. repeat split; try lia; assumption.
Qed.

(** The loops of the page chooser are run with exactly the turns they can
    take: more turns give the same result. *)
Lemma advance_next_unskippable_fuel vm aggressive nblocks :
  nblocks < 2 ^ 32 ->
  forall turns turns' next,
    0 <= next ->
    (Z.to_nat (nblocks - next) <= turns)%nat ->
    (Z.to_nat (nblocks - next) <= turns')%nat ->
    advance_next_unskippable turns vm aggressive nblocks next
    = advance_next_unskippable turns' vm aggressive nblocks next.
Proof.
  intros Hn. induction turns as [| turns IH]; intros [| turns'] next H0 Ht Ht';
    simpl; try reflexivity.
  - destruct (Z.ltb_spec next nblocks); [lia | reflexivity].
  - destruct (Z.ltb_spec next nblocks); [lia | reflexivity].
  - destruct (Z.ltb_spec next nblocks) as [Hlt | Hge]; [| reflexivity].
    rewrite (wrap32_small (next + 1)) by lia.
    rewrite (IH turns' (next + 1)) by lia. reflexivity.
Qed.

Lemma serial_page_loop_fuel vm options aggressive skipping :
  forall turns turns' blkno lvscan st avm,
    0 <= blkno -> lv_nblocks lvscan < 2 ^ 32 ->
    (Z.to_nat (lv_nblocks lvscan - blkno) <= turns)%nat ->
    (Z.to_nat (lv_nblocks lvscan - blkno) <= turns')%nat ->
    serial_page_loop turns vm options aggressive skipping blkno lvscan st avm
    = serial_page_loop turns' vm options aggressive skipping blkno lvscan st
        avm.
Proof.
  induction turns as [| turns IH];
    intros [| turns'] blkno lvscan st avm H0 Hn Ht Ht'; simpl;
    try reflexivity.
  - destruct (Z.ltb_spec blkno (lv_nblocks lvscan)); [lia | reflexivity].
  - destruct (Z.ltb_spec blkno (lv_nblocks lvscan)); [lia | reflexivity].
  - destruct (Z.ltb_spec blkno (lv_nblocks lvscan)) as [Hlt | Hge];
      [| reflexivity].
    destruct (blkno =? lv_next_unskippable_block lvscan); [reflexivity |].
    destruct (skipping && negb (FORCE_CHECK_PAGE st blkno blkno));
      [| reflexivity].
    rewrite (wrap32_small (blkno + 1)) by lia.
    apply IH; lia.
Qed.

Lemma parallel_page_loop_fuel vm options aggressive nblocks :
  nblocks <= InvalidBlockNumber ->
  forall turns turns' cblock st avm,
    (S (Z.to_nat (nblocks - cblock)) <= turns)%nat ->
    (S (Z.to_nat (nblocks - cblock)) <= turns')%nat ->
    parallel_page_loop turns vm options aggressive nblocks cblock st avm
    = parallel_page_loop turns' vm options aggressive nblocks cblock st avm.
Proof.
  intros Hn. induction turns as [| turns IH];
    intros [| turns'] cblock st avm Ht Ht'; try lia.
  simpl. unfold heap_parallelscan_nextpage.
  destruct (Z.ltb_spec cblock nblocks) as [Hlt | Hge]; simpl;
    [| reflexivity].
  destruct (Z.eqb_spec cblock InvalidBlockNumber) as [Heq | _]; [lia |].
  destruct (parallel_consider_page vm options aggressive st cblock)
    as [[[|] st'] avm']; [| reflexivity].
  apply IH; lia.
Qed.

Lemma parallel_consider_page_max vm options aggressive st blkno :
  max_dead_tuples (snd (fst (parallel_consider_page vm options aggressive st blkno)))
  = max_dead_tuples st.
Proof.
  unfold parallel_consider_page.
  repeat match goal with
         | |- context [if ?c then _ else _] => destruct c
         end; reflexivity.
Qed.

Lemma open_page_max aggressive st blkno got needs has page :
  max_dead_tuples (fst (open_page aggressive st blkno got needs has page))
  = max_dead_tuples st.
Proof.
  unfold open_page.
  repeat match goal with
         | |- context [if ?c then _ else _] => destruct c
         end; reflexivity.
Qed.

(** Clearing leaves every partition as it was or with its count reset. *)
Lemma reset_n_dt_idemp dt : reset_n_dt (reset_n_dt dt) = reset_n_dt dt.
Proof. reflexivity. Qed.

Lemma fold_alter_reset_lookup (l : list nat) :
  forall (dts : list LVDeadTuple) j dt',
    fold_left (fun dts i => alter reset_n_dt i dts) l dts !! j = Some dt' ->
    exists dt, dts !! j = Some dt /\ (dt' = dt \/ dt' = reset_n_dt dt).
Proof.
  induction l as [| i l IH]; intros dts j dt' H; simpl in H.
  - exists dt'. split; [assumption | left; reflexivity].
  - apply IH in H. destruct H as (dt1 & H1 & Hor).
    destruct (decide (i = j)) as [-> | Hne].
    + rewrite list_lookup_alter_eq in H1.
      destruct (dts !! j) as [dt |]; [| discriminate].
      injection H1 as <-. exists dt. split; [reflexivity |].
      right. destruct Hor as [-> | ->]; reflexivity.
    + rewrite list_lookup_alter_ne in H1 by assumption.
      exists dt1. split; assumption.
Qed.

Lemma lazy_clear_dead_tuple_lookup pn nidx nw me dts j dt' :
  lazy_clear_dead_tuple pn nidx nw me dts !! j = Some dt' ->
  exists dt, dts !! j = Some dt /\ (dt' = dt \/ dt' = reset_n_dt dt).
Proof.
  unfold lazy_clear_dead_tuple.
  destruct (negb pn && negb (nidx =? 0)); [apply fold_alter_reset_lookup |].
  intros H. destruct (decide (me = j)) as [-> | Hne].
  - rewrite list_lookup_alter_eq in H.
    destruct (dts !! j) as [dt |]; [| discriminate].
    injection H as <-. exists dt. split; [reflexivity | right; reflexivity].
  - rewrite list_lookup_alter_ne in H by assumption.
    exists dt'. split; [assumption | left; reflexivity].
Qed.

Lemma fold_alter_reset_length (l : list nat) :
  forall dts : list LVDeadTuple,
    length (fold_left (fun dts i => alter reset_n_dt i dts) l dts) = length dts.
Proof.
  induction l as [| i l IH]; intros dts; simpl; [reflexivity |].
  rewrite IH. apply length_alter.
Qed.

Lemma lazy_clear_dead_tuple_length pn nidx nw me dts :
  length (lazy_clear_dead_tuple pn nidx nw me dts) = length dts.
Proof.
  unfold lazy_clear_dead_tuple.
  destruct (negb pn && negb (nidx =? 0));
    [apply fold_alter_reset_length | apply length_alter].
Qed.

(** ** The invariant of the scan/reclaim loop *)

Lemma below_le e bd bd' :
  below e bd -> bound_le (Some bd) (Some bd') -> below e bd'.
Proof. unfold below, bound_le. simpl. lia. Qed.

Lemma part_ok_weaken max_dead bd bd' dt dt' :
  part_ok max_dead bd dt -> bound_le bd bd' ->
  dt' = dt \/ dt' = reset_n_dt dt ->
  part_ok max_dead bd' dt'.
Proof.
  intros (Hwf & Hsorted & Hbd) Hle [-> | ->].
  - split; [assumption |]. split; [assumption |].
    destruct bd' as [bd' |]; [| exact I].
    destruct bd as [bd |]; [| contradiction].
    eapply Forall_impl; [exact Hbd |].
    intros e He. simpl in He. exact (below_le e bd bd' He Hle).
  - split; [apply reset_n_dt_wf; assumption |].
    unfold dt_entries. simpl. split; [constructor |].
    destruct bd'; [constructor | exact I].
Qed.

Lemma proc_ok_next cfg next next' p :
  proc_ok cfg next p -> next <= next' -> proc_ok cfg next' p.
Proof.
  intros (Hmax & Hblk & Hscan) Hle. split; [assumption |].
  split; [| assumption]. destruct (pc_block (pc p)); [lia | exact I].
Qed.

Lemma entry_bound_next next next' c :
  next <= next' -> bound_le (entry_bound next c) (entry_bound next' c).
Proof.
  intros Hle. destruct c as [| | | | | c | ? c | c | c | c | c | c | ? c | c | c | c
                            | | | | | | |];
    simpl; try lia; try exact I; destruct c; simpl; try lia; exact I.
Qed.

(** Recording at the place the owner stands keeps the partition sorted and
    moves the place on by one offset. *)
Lemma part_ok_scan_item max_dead blkno offnum itemid dt ps :
  part_ok max_dead (Some (blkno, offnum)) dt ->
  part_ok max_dead (Some (blkno, offnum + 1))
    (fst (scan_item max_dead blkno offnum itemid dt ps)).
Proof.
  intros Hok.
  assert (Hkeep : part_ok max_dead (Some (blkno, offnum + 1)) dt).
  { eapply part_ok_weaken; [exact Hok | simpl; lia | left; reflexivity]. }
  assert (Hrec : part_ok max_dead (Some (blkno, offnum + 1))
                   (lazy_record_dead_tuple max_dead dt
                      (ItemPointerSet blkno offnum))).
  { destruct Hok as (Hwf & Hsorted & Hbd).
    destruct (Z.lt_ge_cases (n_dt dt) max_dead) as [Hlt | Hge];
      [| rewrite lazy_record_dead_tuple_full by assumption; exact Hkeep].
    destruct (lazy_record_dead_tuple_append max_dead dt
                (ItemPointerSet blkno offnum) Hwf Hlt) as (He & _ & Hwf').
    split; [assumption |]. rewrite He. split.
    - apply StronglySorted_app. split; [| split; [assumption | repeat constructor]].
      intros x1 x2 Hx1 Hx2. apply list_elem_of_In in Hx2.
      destruct Hx2 as [<- | []].
      rewrite Forall_forall in Hbd. apply Hbd in Hx1.
      unfold below, itemptr_lt in *. simpl in *. exact Hx1.
    - apply Forall_app. split.
      + eapply Forall_impl; [exact Hbd |]. intros e He'. simpl in He'.
        apply (below_le e (blkno, offnum)); [exact He' | simpl; lia].
      + constructor; [| constructor]. unfold below. simpl. lia. }
  destruct itemid as [| | | tuple]; simpl; try assumption.
  destruct (match tup_status tuple with
            | HEAPTUPLE_DEAD => negb (tup_hot_updated tuple || tup_heap_only tuple)
            | _ => false
            end); simpl; assumption.
Qed.

(** The frame of a step of process [i]: the other processes keep their
    private state, their partitions are kept or cleared, and the cursor does
    not move back; so the invariant follows from what the step does to
    process [i] and its partition. *)
Lemma world_ok_update cfg w i p p' vws' dts' cur' :
  world_ok cfg w -> w_procs w !! i = Some p ->
  w_cursor w <= cur' ->
  (length dts' <= length (w_procs w))%nat ->
  (forall j dt', j <> i -> dts' !! j = Some dt' ->
     exists dt, w_dead_tuples w !! j = Some dt
                /\ (dt' = dt \/ dt' = reset_n_dt dt)) ->
  proc_ok cfg (if cfg_parallel cfg then cur' else lv_cblock (lvscan p')) p' ->
  (forall dt', dts' !! i = Some dt' ->
     part_ok (cfg_max_dead_tuples cfg)
       (entry_bound (if cfg_parallel cfg then cur' else lv_cblock (lvscan p'))
          (pc p')) dt') ->
  world_ok cfg (mkWorld vws' dts' cur' (<[i := p']> (w_procs w))).
Proof.
  intros (Hlen & Hone & Hcur & Hprocs & Hparts) Hp Hcur' Hlen' Hothers Hproc Hpart.
  unfold world_ok, next_block. simpl.
  split; [rewrite length_insert; assumption |].
  split; [rewrite length_insert; assumption |].
  split; [lia |]. split.
  - intros j pj Hj. apply list_lookup_insert_Some in Hj.
    destruct Hj as [(-> & -> & _) | (Hne & Hj)]; [assumption |].
    eapply proc_ok_next; [exact (Hprocs j pj Hj) |].
    unfold next_block. destruct (cfg_parallel cfg); lia.
  - intros j pj dtj Hj Hdtj. apply list_lookup_insert_Some in Hj.
    destruct Hj as [(-> & -> & _) | (Hne & Hj)]; [apply Hpart; assumption |].
    destruct (Hothers j dtj ltac:(congruence) Hdtj) as (dt & Hdt & Hor).
    eapply part_ok_weaken; [exact (Hparts j pj dt Hj Hdt) | | exact Hor].
    apply entry_bound_next. unfold next_block.
    destruct (cfg_parallel cfg); lia.
Qed.

(** A step that moves process [i] on without touching its scan descriptor or
    its capacity, and keeps or clears the partitions. *)
Lemma world_ok_move cfg w i p p' vws' dts' cur' :
  world_ok cfg w -> w_procs w !! i = Some p ->
  lvscan p' = lvscan p ->
  max_dead_tuples (stats p') = max_dead_tuples (stats p) ->
  w_cursor w <= cur' ->
  length dts' = length (w_dead_tuples w) ->
  (forall j dt', dts' !! j = Some dt' ->
     exists dt, w_dead_tuples w !! j = Some dt
                /\ (dt' = dt \/ dt' = reset_n_dt dt)) ->
  bound_le (entry_bound (next_block cfg w p) (pc p))
    (entry_bound (if cfg_parallel cfg then cur' else lv_cblock (lvscan p))
       (pc p')) ->
  match pc_block (pc p') with
  | Some b => b < (if cfg_parallel cfg then cur' else lv_cblock (lvscan p))
  | None => True
  end ->
  (cfg_parallel cfg = false -> pc_scanning (pc p') = true ->
   0 <= lv_cblock (lvscan p) <= lv_nblocks (lvscan p)
   /\ lv_nblocks (lvscan p) = cfg_nblocks cfg) ->
  world_ok cfg (mkWorld vws' dts' cur' (<[i := p']> (w_procs w))).
Proof.
  intros Hok Hp Hlv Hmaxeq Hcur' Hlen' Hdts Hbound Hblk Hscan.
  pose proof Hok as (Hlen & Hone & Hcur & Hprocs & Hparts).
  destruct (Hprocs i p Hp) as (Hpmax & _ & _).
  apply (world_ok_update cfg w i p p' vws' dts' cur' Hok Hp Hcur').
  - lia.
  - intros j dt' _ Hj. apply Hdts. assumption.
  - unfold proc_ok. rewrite Hlv. split; [congruence |]. split; assumption.
  - intros dt' Hdt'. rewrite Hlv.
    destruct (Hdts i dt' Hdt') as (dt & Hdt & Hor).
    eapply part_ok_weaken; [exact (Hparts i p dt Hp Hdt) | exact Hbound | exact Hor].
Qed.

Lemma same_dts_lookup (dts : list LVDeadTuple) j dt' :
  dts !! j = Some dt' ->
  exists dt, dts !! j = Some dt /\ (dt' = dt \/ dt' = reset_n_dt dt).
Proof. intros H. exists dt'. split; [assumption | left; reflexivity]. Qed.

Lemma heap_parallelscan_nextpage_claim nblocks cursor :
  fst (heap_parallelscan_nextpage nblocks cursor) <> InvalidBlockNumber ->
  fst (heap_parallelscan_nextpage nblocks cursor) = cursor
  /\ snd (heap_parallelscan_nextpage nblocks cursor) = cursor + 1.
Proof.
  unfold heap_parallelscan_nextpage.
  destruct (cursor <? nblocks); simpl; [split; reflexivity | congruence].
Qed.

Lemma heap_parallelscan_nextpage_mono nblocks cursor :
  cursor <= snd (heap_parallelscan_nextpage nblocks cursor).
Proof.
  unfold heap_parallelscan_nextpage. destruct (cursor <? nblocks); simpl; lia.
Qed.

Ltac dts_side :=
  first
    [ reflexivity
    | apply length_alter
    | apply length_insert
    | apply lazy_clear_dead_tuple_length
    | apply same_dts_lookup
    | apply lazy_clear_dead_tuple_lookup ].

Ltac split_cases :=
  repeat match goal with
         | c : Cycle |- _ => destruct c
         | |- context [if ?b then _ else _] => destruct b eqn:?
         | H : context [if ?b then _ else _] |- _ => destruct b eqn:?
         | |- context [match ?o with Some _ => _ | None => _ end] =>
           destruct o eqn:?
         end.

Ltac opt_inv :=
  repeat match goal with
         | H : Some _ = Some _ |- _ => injection H as <-
         | H : Some _ = None |- _ => discriminate H
         | H : None = Some _ |- _ => discriminate H
         end.

(** Every step keeps the invariant. *)
Lemma step_world_ok cfg i w l w' :
  cfg_wf cfg -> world_ok cfg w -> step cfg i w l w' -> world_ok cfg w'.
Proof.
  intros (Hnb & Hmax & Hnw) Hok Hstep.
  pose proof Hok as (Hlen & Hone & Hcur & Hprocs & Hparts).
  pose proof (heap_parallelscan_nextpage_mono (cfg_nblocks cfg) (w_cursor w))
    as Hmono.
  destruct Hstep; try assumption;
    match goal with
    | Hp : w_procs w !! i = Some ?p, Hpc : pc ?p = _ |- _ =>
      pose proof (Hprocs i p Hp) as (Hpmax & Hpblk & Hpscan);
      unfold next_block in Hpblk; rewrite Hpc in Hpblk, Hpscan
    end;
    try match goal with
        | Hc : fst (heap_parallelscan_nextpage _ _) = ?b,
          Hn : ?b <> InvalidBlockNumber |- _ =>
          rewrite <- Hc in Hn;
          destruct (heap_parallelscan_nextpage_claim _ _ Hn) as [Hclaim Hnext];
          rewrite Hclaim in Hc; rewrite Hnext in *; clear Hclaim Hn Hnext
        end.
  all: try (eapply (world_ok_move cfg w i p);
            [ exact Hok | eassumption | reflexivity
            | first [ reflexivity | apply parallel_consider_page_max
                    | apply open_page_max
                    | simpl; destruct (hastup ps); reflexivity ]
            | first [ simpl; lia | apply heap_parallelscan_nextpage_mono ]
            | dts_side
            | intros j dt'; dts_side
            | | | ];
            unfold next_block;
            match goal with Hpc : pc _ = _ |- _ => rewrite ?Hpc end;
            simpl in *; split_cases; simpl in *; opt_inv; simpl in *;
            try exact I; try lia; try (intros; auto; discriminate); fail).
  - (* lazy_space_alloc *)
    apply (world_ok_update cfg w i p _ _ _ _ Hok H (Z.le_refl _)).
    + destruct (cfg_parallel cfg); [rewrite length_alter; assumption |].
      simpl. apply lookup_lt_Some in H. lia.
    + intros j dt' Hne Hj. destruct (cfg_parallel cfg) eqn:Hpar.
      * rewrite list_lookup_alter_ne in Hj by congruence.
        apply same_dts_lookup. assumption.
      * exfalso. apply lookup_lt_Some in H, Hj. simpl in Hj.
        specialize (Hone eq_refl). lia.
    + unfold proc_ok. simpl. split; [assumption |]. split; [exact I |].
      intros _ _. lia.
    + intros dt' Hdt'. simpl. destruct (cfg_parallel cfg) eqn:Hpar.
      * rewrite list_lookup_alter_eq in Hdt'.
        destruct (w_dead_tuples w !! i) as [dt |] eqn:Hdt; [| discriminate].
        injection Hdt' as <-.
        eapply part_ok_weaken;
          [exact (Hparts i p dt H Hdt) | | right; reflexivity].
        unfold next_block. rewrite Hpar, H0. simpl. lia.
      * apply lookup_lt_Some in H. specialize (Hone eq_refl).
        assert (i = 0%nat) as -> by lia. injection Hdt' as <-.
        rewrite Hpmax. split; [apply lazy_space_alloc_wf; assumption |].
        unfold dt_entries. simpl. split; constructor.
  - (* lazy_scan_heap_get_nextpage, serial *)
    destruct (Hpscan H1 eq_refl) as (Hcb & Hnbl).
    pose proof (serial_nextpage_props vm (cfg_options cfg) (cfg_aggressive cfg)
                  (lvscan p) (stats p) (avm p) Hcb ltac:(lia))
      as (Hr1 & Hr2 & Hr3 & Hr4).
    subst r. unfold lazy_scan_heap_get_nextpage. cbn [fst snd].
    cbv zeta in Hr1, Hr2, Hr3, Hr4.
    set (sr := serial_nextpage vm (cfg_options cfg) (cfg_aggressive cfg)
                 (lvscan p) (stats p) (avm p)) in *.
    assert (Hres : nextpage_result (np_lvscan sr) (np_blkno sr)
                     <> InvalidBlockNumber ->
                   nextpage_result (np_lvscan sr) (np_blkno sr) = np_blkno sr
                   /\ np_blkno sr < lv_nblocks (lvscan p)).
    { unfold nextpage_result. rewrite Hr2.
      destruct (Z.eqb_spec (np_blkno sr) (lv_nblocks (lvscan p)));
        [congruence |]. intros _. split; [reflexivity | lia]. }
    clearbody sr.
    apply (world_ok_update cfg w i p _ _ _ _ Hok H (Z.le_refl _));
      try assumption; [intros j dt' _; apply same_dts_lookup | |];
      rewrite H1; cbn [pc lvscan stats].
    + unfold proc_ok. cbn [pc lvscan stats]. split; [congruence |].
      destruct (Z.eqb_spec (nextpage_result (np_lvscan sr) (np_blkno sr))
                  InvalidBlockNumber) as [Hinv | Hinv]; simpl.
      { split; [exact I |]. intros _ Hf. discriminate. }
      destruct (Hres Hinv) as [-> Hlt].
      rewrite Hr3, Hr2, (wrap32_small (np_blkno sr + 1)) by lia.
      split; [lia |]. intros _ _. lia.
    + intros dt' Hdt'.
      eapply part_ok_weaken;
        [exact (Hparts i p dt' H Hdt') | | left; reflexivity].
      unfold next_block. rewrite H1, H0. simpl.
      destruct (Z.eqb_spec (nextpage_result (np_lvscan sr) (np_blkno sr))
                  InvalidBlockNumber) as [Hinv | Hinv]; simpl; [exact I |].
      destruct (Hres Hinv) as [-> Hlt]. lia.
  - (* the page is opened *)
    eapply (world_ok_move cfg w i p);
      [ exact Hok | eassumption | reflexivity | apply open_page_max
      | lia | reflexivity | intros j dt'; apply same_dts_lookup | | | ];
      unfold next_block; rewrite ?H0; cbn [pc lvscan]; clearbody r;
      destruct (snd r); simpl in *; unfold FirstOffsetNumber;
      destruct (cfg_parallel cfg);
      try exact I; try lia; intros; auto; discriminate.
  - (* one line pointer *)
    apply (world_ok_update cfg w i p _ _ _ _ Hok H (Z.le_refl _)).
    + rewrite length_insert. assumption.
    + intros j dt' Hne Hj. rewrite list_lookup_insert_ne in Hj by congruence.
      apply same_dts_lookup. assumption.
    + unfold proc_ok. simpl. split; [assumption |]. split; [exact Hpblk |].
      intros Hser _. apply Hpscan; [assumption | reflexivity].
    + intros dt' Hdt'. simpl.
      rewrite list_lookup_insert_eq in Hdt' by (eapply lookup_lt_Some; eassumption).
      injection Hdt' as <-. subst r. rewrite Hpmax.
      apply part_ok_scan_item.
      pose proof (Hparts i p my H H1) as Hmy. rewrite H0 in Hmy. exact Hmy.
Qed.

(** The invariant holds at the start of a run. *)
Lemma initial_world_ok cfg w : cfg_wf cfg -> initial cfg w -> world_ok cfg w.
Proof.
  intros (Hnb & Hmax & Hnw) (Hcur & Hprocs & Hrest).
  assert (Hproc : forall i p, w_procs w !! i = Some p ->
                    pc p = PcStart /\ stats p = start_stats cfg).
  { intros i p Hp. rewrite Forall_forall in Hprocs.
    apply Hprocs. eapply list_elem_of_lookup_2. eassumption. }
  unfold world_ok. destruct (cfg_parallel cfg) eqn:Hpar.
  - destruct Hrest as (Hlen & _ & Hdts).
    split; [rewrite Hdts, length_replicate; lia |].
    split; [discriminate |]. split; [lia |]. split.
    + intros i p Hp. destruct (Hproc i p Hp) as [Hpc Hst].
      unfold proc_ok. rewrite Hpc, Hst. simpl.
      split; [reflexivity |]. split; [exact I |]. discriminate.
    + intros i p dt Hp Hdt. destruct (Hproc i p Hp) as [Hpc _].
      rewrite Hdts in Hdt. apply lookup_replicate in Hdt. destruct Hdt as [-> _].
      rewrite Hpc. split; [apply lazy_space_alloc_wf; assumption |].
      unfold dt_entries. simpl. split; constructor.
  - destruct Hrest as (Hlen & _ & Hdts).
    split; [rewrite Hdts; simpl; lia |].
    split; [intros _; assumption |]. split; [lia |]. split.
    + intros i p Hp. destruct (Hproc i p Hp) as [Hpc Hst].
      unfold proc_ok. rewrite Hpc, Hst. simpl.
      split; [reflexivity |]. split; [exact I |]. discriminate.
    + intros i p dt _ Hdt. rewrite Hdts in Hdt. discriminate.
Qed.

(** The invariant holds throughout a run. *)
Lemma reachable_world_ok cfg w : cfg_wf cfg -> reachable cfg w -> world_ok cfg w.
Proof.
  intros Hwf Hreach. induction Hreach as [w Hinit | w i l w' _ IH Hstep].
  - apply initial_world_ok; assumption.
  - eapply step_world_ok; eassumption.
Qed.

(** A strictly increasing list of tuple identifiers has no duplicates. *)
Lemma StronglySorted_itemptr_lt_NoDup (l : list ItemPointerData) :
  StronglySorted itemptr_lt l -> NoDup l.
Proof.
  induction 1 as [| a l Hs IH Hall]; constructor; [| assumption].
  intros Hin. rewrite Forall_forall in Hall.
  exact (itemptr_lt_irrefl a (Hall a Hin)).
Qed.

(** In a reachable world every partition is strictly increasing. *)
Lemma reachable_partitions_sorted cfg w :
  cfg_wf cfg -> reachable cfg w ->
  Forall (fun dt => StronglySorted itemptr_lt (dt_entries dt)) (w_dead_tuples w).
Proof.
  intros Hwf Hreach.
  destruct (reachable_world_ok cfg w Hwf Hreach) as (Hlen & _ & _ & _ & Hparts).
  apply Forall_lookup. intros j dt Hdt.
  destruct (lookup_lt_is_Some_2 (w_procs w) j) as [p Hp].
  { apply lookup_lt_Some in Hdt. lia. }
  destruct (Hparts j p dt Hp Hdt) as (_ & Hs & _). exact Hs.
Qed.

(** ** The shared arrays in a parallel run *)

Lemma set_my_state_wf n i st ws :
  In st [0; VACSTATE_STARTUP; VACSTATE_SCANNING; VACSTATE_VACUUM_PREPARED;
         VACSTATE_VACUUMING; VACSTATE_VACUUM_FINISHED; VACSTATE_COMPLETE] ->
  pstate_wf (mkLVParallelState n ws) ->
  pstate_wf (mkLVParallelState n (set_my_state i st ws)).
Proof.
  intros Hst (Hn & Hlen & Hvalid). unfold pstate_wf, set_my_state in *.
  simpl in *. split; [assumption |]. split; [rewrite length_alter; assumption |].
  apply Forall_alter; [assumption |]. intros vw _ _. exact Hst.
Qed.

Lemma incr_my_round_wf n i ws :
  pstate_wf (mkLVParallelState n ws) ->
  pstate_wf (mkLVParallelState n (incr_my_round i ws)).
Proof.
  intros (Hn & Hlen & Hvalid). unfold pstate_wf, incr_my_round in *.
  simpl in *. split; [assumption |]. split; [rewrite length_alter; assumption |].
  apply Forall_alter; [assumption |]. intros vw _ Hvw. exact Hvw.
Qed.

Lemma parallel_consider_page_nindexes vm options aggressive st blkno :
  nindexes (snd (fst (parallel_consider_page vm options aggressive st blkno)))
  = nindexes st.
Proof.
  unfold parallel_consider_page.
  repeat match goal with
         | |- context [if ?c then _ else _] => destruct c
         end; reflexivity.
Qed.

Lemma open_page_nindexes aggressive st blkno got needs has page :
  nindexes (fst (open_page aggressive st blkno got needs has page))
  = nindexes st.
Proof.
  unfold open_page.
  repeat match goal with
         | |- context [if ?c then _ else _] => destruct c
         end; reflexivity.
Qed.

(** The loop of [lazy_clear_dead_tuple] resets the first [n] partitions. *)
Lemma fold_alter_reset_seq (dts : list LVDeadTuple) n j :
  fold_left (fun dts i => alter reset_n_dt i dts) (seq 0 n) dts !! j
  = if decide (j < n)%nat then reset_n_dt <$> dts !! j else dts !! j.
Proof.
  induction n as [| n IH].
  - simpl. destruct (decide (j < 0)%nat); [lia | reflexivity].
  - rewrite seq_S, fold_left_app. simpl.
    destruct (decide (n = j)) as [-> | Hne].
    + rewrite list_lookup_alter_eq, IH.
      destruct (decide (j < j)%nat); [lia |].
      destruct (decide (j < S j)%nat); [reflexivity | lia].
    + rewrite list_lookup_alter_ne by assumption. rewrite IH.
      destruct (decide (j < n)%nat), (decide (j < S n)%nat);
        try reflexivity; lia.
Qed.

(** With an index, in parallel mode, [lazy_clear_dead_tuple] resets every
    partition. *)
Lemma lazy_clear_dead_tuple_all nidx nw me (dts : list LVDeadTuple) :
  nidx <> 0 -> length dts = Z.to_nat nw ->
  lazy_clear_dead_tuple false nidx nw me dts = reset_n_dt <$> dts.
Proof.
  intros Hidx Hlen. unfold lazy_clear_dead_tuple.
  destruct (Z.eqb_spec nidx 0) as [| _]; [contradiction |]. simpl.
  apply list_eq. intros j. rewrite fold_alter_reset_seq, list_lookup_fmap.
  destruct (decide (j < Z.to_nat nw)%nat) as [| Hge]; [reflexivity |].
  rewrite lookup_ge_None_2 by lia. reflexivity.
Qed.

Ltac vacstate_in_list :=
  unfold VACSTATE_STARTUP, VACSTATE_SCANNING, VACSTATE_VACUUM_PREPARED,
    VACSTATE_VACUUMING, VACSTATE_VACUUM_FINISHED, VACSTATE_COMPLETE;
  simpl; tauto.

(** Every step of a parallel run keeps the shared arrays well formed. *)
Lemma step_run_ok cfg i w l w' :
  cfg_parallel cfg = true -> run_ok cfg w -> step cfg i w l w' ->
  run_ok cfg w'.
Proof.
  intros Hpar Hok Hstep. pose proof Hok as (Hwf & Hlen & Hidx).
  unfold w_pstate in Hwf.
  destruct Hstep; try assumption; try congruence;
    match goal with
    | Hp : w_procs w !! i = Some ?p |- _ =>
      pose proof (Forall_lookup_1 _ _ _ _ Hidx Hp) as Hpi; simpl in Hpi
    end;
    unfold run_ok, w_pstate; cbn [w_vacworkers w_dead_tuples w_procs];
    rewrite ?Hpar;
    (split;
     [ first [ assumption
             | apply set_my_state_wf; [vacstate_in_list | assumption]
             | apply incr_my_round_wf; assumption ]
     | split;
       [ rewrite ?length_alter, ?length_insert, ?lazy_clear_dead_tuple_length;
         assumption
       | apply Forall_insert; [assumption |];
         cbn [stats set_pc];
         rewrite ?parallel_consider_page_nindexes, ?open_page_nindexes;
         try assumption ] ]).
  - (* a block is claimed *)
    subst d. rewrite parallel_consider_page_nindexes. assumption.
  - (* the page is opened *)
    subst r. rewrite open_page_nindexes. assumption.
  - (* the visibility-map chain *) destruct (hastup ps); simpl; assumption.
Qed.

Lemma initial_run_ok cfg w :
  cfg_wf cfg -> cfg_parallel cfg = true -> initial cfg w -> run_ok cfg w.
Proof.
  intros (_ & _ & Hnw) Hpar (_ & Hprocs & Hrest). rewrite Hpar in Hrest.
  destruct Hrest as (_ & Hvws & Hdts).
  unfold run_ok, w_pstate, pstate_wf. simpl. rewrite Hvws, Hdts.
  rewrite !length_replicate.
  repeat split; try assumption.
  - apply Forall_replicate. unfold vacstate_valid. simpl. tauto.
  - eapply Forall_impl; [exact Hprocs |]. simpl. intros p [_ ->]. reflexivity.
Qed.

Lemma reachable_run_ok cfg w :
  cfg_wf cfg -> cfg_parallel cfg = true -> reachable cfg w -> run_ok cfg w.
Proof.
  intros Hwf Hpar Hreach. induction Hreach as [w Hinit | w i l w' _ IH Hstep].
  - apply initial_run_ok; assumption.
  - eapply step_run_ok; eassumption.
Qed.

(** ** Truncation *)

Lemma PageIsEmpty_no_tuples page :
  PageIsEmpty page = true -> existsb ItemIdIsUsed (page_items page) = false.
Proof. unfold PageIsEmpty. destruct (page_items page); [reflexivity | discriminate]. Qed.

(** The backward scan: its result is at least [nonempty_pages], every page
    from the result up to the starting point is free of tuples, and the scan
    ends in one of three ways: it fell out of the loop, it was interrupted
    by a lock waiter, or it met a page with a used line pointer and returns
    that page's number plus one. *)
Lemma count_nondeletable_loop_spec rel waiters st :
  0 <= nonempty_pages st ->
  forall turns blkno,
    blkno < 2 ^ 32 -> (Z.to_nat (blkno - nonempty_pages st) <= turns)%nat ->
    let r := count_nondeletable_loop turns rel waiters st blkno in
    nonempty_pages st <= fst r
    /\ (nonempty_pages st <= blkno -> fst r <= blkno)
    /\ (forall b, fst r <= b < blkno -> page_has_tuples (rel b) = false)
    /\ (fst r = nonempty_pages st /\ snd r = st
        \/ (nonempty_pages st < fst r
            /\ snd r = set_lock_waiter_detected true st
            /\ waiters (fst r) = true)
        \/ (nonempty_pages st < fst r /\ snd r = st
            /\ page_has_tuples (rel (fst r - 1)) = true)).
Proof.
  intros Hne. induction turns as [| turns IH]; intros blkno Hb Hturns; simpl.
  - repeat split; try lia. left. split; reflexivity.
  - destruct (Z.gtb_spec blkno (nonempty_pages st)) as [Hgt | Hle].
    2: { simpl. repeat split; try lia. left. split; reflexivity. }
    destruct ((blkno mod 32 =? 0) && waiters blkno) eqn:Hw.
    { simpl. apply andb_true_iff in Hw. destruct Hw as [_ Hw].
      repeat split; try lia. right. left. repeat split; [lia | assumption]. }
    rewrite (wrap32_small (blkno - 1)) by lia.
    specialize (IH (blkno - 1) ltac:(lia) ltac:(lia)). simpl in IH.
    destruct IH as (IH1 & IH2 & IH3 & IH4).
    destruct (PageIsNew (rel (blkno - 1)) || PageIsEmpty (rel (blkno - 1)))
      eqn:Hne_page.
    { repeat split; try lia; try assumption.
      intros b Hrange. destruct (Z.eq_dec b (blkno - 1)) as [-> | Hneq];
        [| apply IH3; lia].
      unfold page_has_tuples. apply orb_true_iff in Hne_page.
      destruct Hne_page as [-> | Hempty]; [reflexivity |].
      rewrite (PageIsEmpty_no_tuples _ Hempty). apply andb_false_r. }
    apply orb_false_iff in Hne_page. destruct Hne_page as [Hnew Hempty].
    destruct (existsb ItemIdIsUsed (page_items (rel (blkno - 1)))) eqn:Hused.
    { simpl. rewrite (wrap32_small (blkno - 1 + 1)) by lia.
      replace (blkno - 1 + 1) with blkno by lia.
      repeat split; try lia. right. right. repeat split; [lia |].
      unfold page_has_tuples. rewrite Hnew, Hused. reflexivity. }
    repeat split; try lia; try assumption.
    intros b Hrange. destruct (Z.eq_dec b (blkno - 1)) as [-> | Hneq];
      [| apply IH3; lia].
    unfold page_has_tuples. rewrite Hused. apply andb_false_r.
Qed.

(** The scan's result depends on the statistics only through
    [nonempty_pages]. *)
Lemma count_nondeletable_loop_fst rel waiters st st' :
  nonempty_pages st = nonempty_pages st' ->
  forall turns blkno,
    fst (count_nondeletable_loop turns rel waiters st blkno)
    = fst (count_nondeletable_loop turns rel waiters st' blkno).
Proof.
  intros Heq. induction turns as [| turns IH]; intros blkno; simpl.
  - assumption.
  - rewrite <- Heq. destruct (blkno >? nonempty_pages st); [| reflexivity].
    destruct ((blkno mod 32 =? 0) && waiters blkno); [reflexivity |].
    destruct (PageIsNew (rel (wrap32 (blkno - 1)))
              || PageIsEmpty (rel (wrap32 (blkno - 1)))); [apply IH |].
    destruct (existsb ItemIdIsUsed (page_items (rel (wrap32 (blkno - 1)))));
      [reflexivity | apply IH].
Qed.

(** More turns than [blkno - nonempty_pages] change nothing: the loop has
    ended by then. *)
Lemma count_nondeletable_loop_turns rel waiters st :
  forall t1 t2 blkno,
    0 <= nonempty_pages st -> blkno < 2 ^ 32 ->
    (Z.to_nat (blkno - nonempty_pages st) <= t1)%nat ->
    (Z.to_nat (blkno - nonempty_pages st) <= t2)%nat ->
    count_nondeletable_loop t1 rel waiters st blkno
    = count_nondeletable_loop t2 rel waiters st blkno.
Proof.
  induction t1 as [| t1 IH]; intros t2 blkno Hne Hb H1 H2.
  - destruct t2 as [| t2]; [reflexivity |]. simpl.
    destruct (Z.gtb_spec blkno (nonempty_pages st)); [lia | reflexivity].
  - destruct t2 as [| t2]; simpl.
    + destruct (Z.gtb_spec blkno (nonempty_pages st)); [lia | reflexivity].
    + destruct (Z.gtb_spec blkno (nonempty_pages st)); [| reflexivity].
      destruct ((blkno mod 32 =? 0) && waiters blkno); [reflexivity |].
      rewrite (wrap32_small (blkno - 1)) by lia.
      rewrite (IH t2 (blkno - 1)) by lia. reflexivity.
Qed.

Lemma count_nondeletable_pages_fst rel waiters st st' :
  nonempty_pages st = nonempty_pages st' -> rel_pages st = rel_pages st' ->
  fst (count_nondeletable_pages rel waiters st)
  = fst (count_nondeletable_pages rel waiters st').
Proof.
  intros Hn Hr. unfold count_nondeletable_pages. rewrite <- Hn, <- Hr.
  apply count_nondeletable_loop_fst. assumption.
Qed.

Lemma count_nondeletable_pages_spec rel waiters st :
  0 <= nonempty_pages st -> rel_pages st < 2 ^ 32 ->
  let r := count_nondeletable_pages rel waiters st in
  nonempty_pages st <= fst r
  /\ (forall b, fst r <= b < rel_pages st -> page_has_tuples (rel b) = false)
  /\ (fst r = nonempty_pages st /\ snd r = st
      \/ (nonempty_pages st < fst r
          /\ snd r = set_lock_waiter_detected true st
          /\ waiters (fst r) = true)
      \/ (nonempty_pages st < fst r /\ snd r = st
          /\ page_has_tuples (rel (fst r - 1)) = true)).
Proof.
  intros Hne Hr. unfold count_nondeletable_pages.
  destruct (count_nondeletable_loop_spec rel waiters st Hne
              (Z.to_nat (rel_pages st - nonempty_pages st)) (rel_pages st)
              Hr ltac:(lia)) as (H1 & _ & H3 & H4).
  repeat split; assumption.
Qed.

(** Every truncation made by the loop was made under a size equal to the
    recorded one, to the result of the backward scan, and cut off only pages
    the scan found free of tuples. *)
Lemma truncate_loop_spec env : forall turns k old st,
  0 <= nonempty_pages st -> old < 2 ^ 32 -> rel_pages st = old ->
  forall t, In t (snd (truncate_loop turns env k old st)) ->
    trunc_from t <= old
    /\ RelationGetNumberOfBlocks (env (trunc_turn t)) = trunc_from t
    /\ trunc_to t
       = fst (count_nondeletable_pages (rel_content (env (trunc_turn t)))
                (lock_has_waiters (env (trunc_turn t)))
                (set_rel_pages (trunc_from t) st))
    /\ nonempty_pages st <= trunc_to t < trunc_from t
    /\ (forall b, trunc_to t <= b < trunc_from t ->
          page_has_tuples (rel_content (env (trunc_turn t)) b) = false).
Proof.
  induction turns as [| turns IH]; intros k old st Hne Hold Hrel t;
    [simpl; tauto |].
  cbn [truncate_loop].
  destruct (acquire_truncate_lock 101 (lock_attempt (env k)) 0);
    cbn [negb snd In]; [| tauto].
  destruct (Z.eqb_spec (RelationGetNumberOfBlocks (env k)) old) as [Hsize | Hsize];
    cbn [negb snd In]; [| tauto].
  set (st0 := set_lock_waiter_detected false st).
  pose proof (count_nondeletable_pages_spec (rel_content (env k))
                (lock_has_waiters (env k)) st0 Hne ltac:(simpl; lia))
    as (Hc1 & Hc2 & Hc3).
  set (counted := count_nondeletable_pages (rel_content (env k))
                    (lock_has_waiters (env k)) st0) in *.
  assert (Hnest : nonempty_pages (snd counted) = nonempty_pages st).
  { destruct Hc3 as [[_ ->] | [(_ & -> & _) | (_ & -> & _)]]; reflexivity. }
  destruct (Z.geb_spec (fst counted) old) as [Hge | Hlt]; simpl; [tauto |].
  assert (Hfirst :
    forall t0, t0 = mkTruncation k old (fst counted) ->
      trunc_from t0 <= old
      /\ RelationGetNumberOfBlocks (env (trunc_turn t0)) = trunc_from t0
      /\ trunc_to t0
         = fst (count_nondeletable_pages (rel_content (env (trunc_turn t0)))
                  (lock_has_waiters (env (trunc_turn t0)))
                  (set_rel_pages (trunc_from t0) st))
      /\ nonempty_pages st <= trunc_to t0 < trunc_from t0
      /\ (forall b, trunc_to t0 <= b < trunc_from t0 ->
            page_has_tuples (rel_content (env (trunc_turn t0)) b) = false)).
  { intros t0 ->. simpl. split; [lia |]. split; [assumption |].
    split; [| split; [simpl in Hc1; lia |]].
    - apply count_nondeletable_pages_fst; simpl; lia.
    - intros b Hb. apply Hc2. simpl. lia. }
  rewrite Hnest.
  destruct ((fst counted >? nonempty_pages st)
            && lock_waiter_detected (snd counted)); simpl.
  - intros [<- | Hin]; [apply Hfirst; reflexivity |].
    apply IH in Hin; simpl; try lia.
    destruct Hin as (H1 & H2 & H3 & H4 & H5). simpl in H4. rewrite Hnest in H4.
    split; [lia |]. split; [assumption |]. split; [| split; assumption].
    rewrite H3. apply count_nondeletable_pages_fst; simpl; lia.
  - intros [<- | []]. apply Hfirst. reflexivity.
Qed.

(** More turns than [S (old_rel_pages - nonempty_pages)] change nothing:
    every further turn follows a truncation that lowered [old_rel_pages] and
    left it above [nonempty_pages]. *)
Lemma truncate_loop_turns env : forall t1 t2 k old st,
  0 <= nonempty_pages st -> old < 2 ^ 32 -> rel_pages st = old ->
  (Z.to_nat (old - nonempty_pages st) < t1)%nat ->
  (Z.to_nat (old - nonempty_pages st) < t2)%nat ->
  truncate_loop t1 env k old st = truncate_loop t2 env k old st.
Proof.
  induction t1 as [| t1 IH]; intros t2 k old st Hne Hold Hrel H1 H2; [lia |].
  destruct t2 as [| t2]; [lia |]. cbn [truncate_loop].
  destruct (acquire_truncate_lock 101 (lock_attempt (env k)) 0);
    cbn [negb]; [| reflexivity].
  destruct (Z.eqb_spec (RelationGetNumberOfBlocks (env k)) old) as [Hsize | Hsize];
    cbn [negb]; [| reflexivity].
  set (st0 := set_lock_waiter_detected false st).
  pose proof (count_nondeletable_pages_spec (rel_content (env k))
                (lock_has_waiters (env k)) st0 Hne ltac:(simpl; lia))
    as (Hc1 & Hc2 & Hc3).
  set (counted := count_nondeletable_pages (rel_content (env k))
                    (lock_has_waiters (env k)) st0) in *.
  assert (Hnest : nonempty_pages (snd counted) = nonempty_pages st).
  { destruct Hc3 as [[_ ->] | [(_ & -> & _) | (_ & -> & _)]]; reflexivity. }
  destruct (Z.geb_spec (fst counted) old) as [Hge | Hlt]; [reflexivity |].
  cbn [nonempty_pages set_rel_pages set_pages_removed]. rewrite Hnest.
  destruct (Z.gtb_spec (fst counted) (nonempty_pages st)) as [Hgt | Hle];
    cbn [andb]; [| reflexivity].
  destruct (lock_waiter_detected _); [| reflexivity].
  rewrite (IH t2); simpl; try lia. reflexivity.
Qed.

(** C9.  Truncation never cuts off a page found non-empty.  The backward
    scan [count_nondeletable_pages] returns at least [nonempty_pages]; every
    page from its result up to the end of the relation is free of tuples;
    and unless it fell out of its loop or was interrupted by a lock waiter,
    its result is [blkno + 1] for the page [blkno] on which it met a used
    line pointer, the highest such page.  Every truncation
    [lazy_truncate_heap] makes is made while the size seen under the
    exclusive lock equals the recorded one, to exactly the value the scan
    returned, and so removes only pages the scan found free of tuples.  When
    the size seen under the lock differs from the one recorded at scan time,
    nothing is truncated. *)
Theorem truncation_keeps_nonempty_pages (env : nat -> TruncateEnv)
    (vacrelstats : LVRelStats) :
  0 <= nonempty_pages vacrelstats -> rel_pages vacrelstats < 2 ^ 32 ->
  (forall rel waiters,
     let r := count_nondeletable_pages rel waiters vacrelstats in
     nonempty_pages vacrelstats <= fst r
     /\ (forall b, fst r <= b < rel_pages vacrelstats ->
           page_has_tuples (rel b) = false)
     /\ (fst r = nonempty_pages vacrelstats
         \/ (lock_waiter_detected (snd r) = true /\ waiters (fst r) = true)
         \/ page_has_tuples (rel (fst r - 1)) = true))
  /\ (forall t, In t (snd (lazy_truncate_heap env vacrelstats)) ->
        RelationGetNumberOfBlocks (env (trunc_turn t)) = trunc_from t
        /\ trunc_to t
           = fst (count_nondeletable_pages (rel_content (env (trunc_turn t)))
                    (lock_has_waiters (env (trunc_turn t)))
                    (set_rel_pages (trunc_from t) vacrelstats))
        /\ nonempty_pages vacrelstats <= trunc_to t < trunc_from t
        /\ (forall b, trunc_to t <= b < trunc_from t ->
              page_has_tuples (rel_content (env (trunc_turn t)) b) = false))
  /\ (RelationGetNumberOfBlocks (env 0%nat) <> rel_pages vacrelstats ->
        snd (lazy_truncate_heap env vacrelstats) = []).
Proof.
  intros Hne Hrel. split; [| split].
  - intros rel waiters r.
    destruct (count_nondeletable_pages_spec rel waiters vacrelstats Hne Hrel)
      as (H1 & H2 & H3).
    fold r in H1, H2, H3. split; [assumption |]. split; [assumption |].
    destruct H3 as [[H _] | [(_ & -> & H) | (_ & _ & H)]]; [tauto | | tauto].
    right. left. split; [reflexivity | assumption].
  - intros t Hin. unfold lazy_truncate_heap in Hin.
    apply truncate_loop_spec in Hin; try assumption; try reflexivity.
    destruct Hin as (_ & H2 & H3 & H4 & H5). repeat split; try assumption; lia.
  - intros Hsize. unfold lazy_truncate_heap. cbn [truncate_loop].
    destruct (acquire_truncate_lock 101 (lock_attempt (env 0%nat)) 0);
      cbn [negb snd]; [| reflexivity].
    destruct (Z.eqb_spec (RelationGetNumberOfBlocks (env 0%nat))
                (rel_pages vacrelstats)); [contradiction | reflexivity].
Qed.

(** ** Final statistics *)

(** C10.  When no page was scanned although the relation has pages, the
    catalog update reuses the previous [relpages] and [reltuples]; otherwise
    it takes the fresh ones; and the all-visible count it reports never
    exceeds the page count it reports. *)
Theorem lazy_vacuum_rel_update_corner {D : Type} (vacrelstats : LVRelStats)
    (old_rel_tuples fresh_rel_tuples : D) (vm_allvisible : Z) :
  let u :=
    lazy_vacuum_rel_update vacrelstats old_rel_tuples fresh_rel_tuples
      vm_allvisible in
  (scanned_pages vacrelstats = 0 /\ rel_pages vacrelstats > 0 ->
     new_rel_pages u = old_rel_pages vacrelstats
     /\ new_rel_tuples u = old_rel_tuples)
  /\ (~ (scanned_pages vacrelstats = 0 /\ rel_pages vacrelstats > 0) ->
        new_rel_pages u = rel_pages vacrelstats
        /\ new_rel_tuples u = fresh_rel_tuples)
  /\ new_rel_allvisible u = Z.min vm_allvisible (new_rel_pages u)
  /\ new_rel_allvisible u <= new_rel_pages u.
Proof.
  intros u. subst u. unfold lazy_vacuum_rel_update. simpl.
  destruct (Z.eqb_spec (scanned_pages vacrelstats) 0) as [Hs | Hs];
    destruct (Z.gtb_spec (rel_pages vacrelstats) 0) as [Hp | Hp]; simpl;
    match goal with
    | |- context [?a >? ?b] => destruct (Z.gtb_spec a b)
    end;
    repeat split; intros; try reflexivity; try lia.
Qed.

(** C3.  Capacity of the dead-tuple array.  With the capacity
    [max_dead_tuples] computed once at run start by
    [lazy_get_max_dead_tuple], a call of [lazy_record_dead_tuple] appends the
    tuple identifier exactly when [n_dt] is strictly below the capacity and
    otherwise changes neither the array nor the count; so after any sequence
    of recordings (and clearings) a partition holds at most
    [max_dead_tuples] entries, whatever the size of the table. *)
Theorem dead_tuple_store_bounded is_autovacuum awm mwm nidx old_pages
    (ops : list StoreOp) :
  0 < MaxHeapTuplesPerPage <= INT_MAX -> 0 <= MaxAllocSize ->
  -1 <= awm -> 0 <= mwm -> 0 <= old_pages ->
  let max_dead :=
    cast_int (lazy_get_max_dead_tuple is_autovacuum awm mwm nidx old_pages) in
  let final :=
    fold_left (apply_store_op max_dead) ops (lazy_space_alloc max_dead) in
  (forall my itemptr, dt_wf max_dead my ->
     (n_dt my < max_dead ->
        dt_entries (lazy_record_dead_tuple max_dead my itemptr)
          = dt_entries my ++ [itemptr]
        /\ n_dt (lazy_record_dead_tuple max_dead my itemptr) = n_dt my + 1)
     /\ (~ n_dt my < max_dead ->
           lazy_record_dead_tuple max_dead my itemptr = my))
  /\ 0 <= n_dt final <= max_dead
  /\ Z.of_nat (length (dt_entries final)) <= max_dead
  /\ MaxHeapTuplesPerPage <= max_dead.
Proof.
  intros HM HA Hawm Hmwm Hold max_dead final.
  pose proof (lazy_get_max_dead_tuple_range is_autovacuum awm mwm nidx
                old_pages HM HA Hawm Hmwm Hold) as Hrange.
  assert (Hmax : max_dead
                 = lazy_get_max_dead_tuple is_autovacuum awm mwm nidx old_pages).
  { subst max_dead. apply cast_int_small. lia. }
  assert (Hpos : 0 <= max_dead) by lia.
  assert (Hwf : dt_wf max_dead final).
  { subst final. apply apply_store_op_wf, lazy_space_alloc_wf. assumption. }
  split; [| split; [| split]].
  - intros my itemptr Hmy. split.
    + intros Hlt.
      destruct (lazy_record_dead_tuple_append max_dead my itemptr Hmy Hlt)
        as (He & Hn & _).
      split; assumption.
    + intros Hge. apply lazy_record_dead_tuple_full. lia.
  - apply Hwf.
  - destruct Hwf as [Hn Hlen]. unfold dt_entries.
    rewrite length_take. lia.
  - lia.
Qed.

(** ** The run *)

Ltac same_proc Hp Hpc :=
  match goal with
  | H : w_procs _ !! _ = Some ?q, H' : pc ?q = _ |- _ =>
    rewrite Hp in H; injection H as <-; rewrite Hpc in H';
    first [discriminate H' | injection H' as <- <-]
  end.

(** C4.  Sortedness at [lazy_tid_reaped].  In every run, serial or
    parallel, whenever a process runs its index pass, whose bulk-delete
    callback is [lazy_tid_reaped], every partition of the dead-tuple array
    is strictly increasing in the order of tuple identifiers (block number
    first, then offset) and holds no identifier twice, although
    [lazy_record_dead_tuple] only ever appends and nothing sorts. *)
Theorem partitions_sorted_at_lazy_tid_reaped cfg w i w' :
  cfg_wf cfg -> reachable cfg w -> step cfg i w LReap w' ->
  Forall (fun dt => StronglySorted itemptr_lt (dt_entries dt)
                    /\ NoDup (dt_entries dt))
         (w_dead_tuples w).
Proof.
  intros Hwf Hreach _.
  eapply Forall_impl; [exact (reachable_partitions_sorted cfg w Hwf Hreach) |].
  simpl. intros dt Hs. split; [exact Hs |].
  apply StronglySorted_itemptr_lt_NoDup. exact Hs.
Qed.

(** C2.  The Prepared barrier.  In a parallel run a process that has stored
    [VACSTATE_VACUUM_PREPARED] and waits with round [r] can always take a
    step; the shared array has one slot per worker; the step moves it on
    towards [VACSTATE_VACUUMING] and the index pass when every worker is in
    one of the states Prepared, Vacuuming, Finished at round [r] or is
    Complete, and leaves the world as it is otherwise. *)
Theorem prepared_barrier_quorum cfg w i p r c :
  cfg_wf cfg -> cfg_parallel cfg = true -> reachable cfg w ->
  w_procs w !! i = Some p -> pc p = PcWaitPrepared r c ->
  length (w_vacworkers w) = Z.to_nat (cfg_nworkers cfg)
  /\ (exists l w', step cfg i w l w')
  /\ forall l w', step cfg i w l w' ->
       l = Tau
       /\ (Forall (prepared_quorum_member r) (w_vacworkers w) ->
           passes_prepared i p c w w')
       /\ (~ Forall (prepared_quorum_member r) (w_vacworkers w) -> w' = w).
Proof.
  intros Hwf Hpar Hreach Hp Hpc.
  destruct (reachable_run_ok cfg w Hwf Hpar Hreach) as (Hps & _ & _).
  pose proof (lazy_check_vacstate_prepared_quorum (w_pstate cfg w) r Hps)
    as Hq.
  simpl in Hq. split; [apply Hps |]. split.
  - destruct (lazy_check_vacstate_prepared (w_pstate cfg w) r) eqn:Hchk.
    + eexists _, _. eapply step_pass_prepared; eassumption.
    + eexists _, _. eapply step_wait_prepared; eassumption.
  - intros l w' Hstep. destruct Hstep; same_proc Hp Hpc.
    + (* the check fails: sleep and try again *)
      split; [reflexivity |]. split; [| reflexivity].
      intros Hall. apply Hq in Hall. congruence.
    + (* the check succeeds *)
      split; [reflexivity |]. split; [reflexivity |].
      intros Hnot. exfalso. apply Hnot, Hq. assumption.
Qed.

(** C1.  Clearing at the Finished barrier.  In a parallel run over a
    relation with at least one index, a step that clears dead-tuple
    partitions is a process's arrival at the Finished barrier: under the
    spinlock it stores [VACSTATE_VACUUM_FINISHED], finds every worker
    Finished at its round, or Scanning or Prepared at the next round, or
    Complete, and resets every partition. *)
Theorem clear_only_at_finished_quorum cfg w i w' :
  cfg_wf cfg -> cfg_parallel cfg = true -> cfg_nindexes cfg <> 0 ->
  reachable cfg w -> step cfg i w LClear w' ->
  clear_at_finished_quorum i w w'.
Proof.
  intros Hwf Hpar Hidx Hreach Hstep.
  destruct (reachable_run_ok cfg w Hwf Hpar Hreach) as (Hps & Hlen & Hprocs).
  inversion Hstep; subst;
    match goal with
    | Hp : w_procs w !! i = Some ?p |- _ =>
      pose proof (Forall_lookup_1 _ _ _ _ Hprocs Hp) as Hpi; simpl in Hpi
    end.
  - (* not in a parallel run *) congruence.
  - (* the last worker to arrive *)
    match goal with
    | Hfull : fst ?counts + snd ?counts = _ |- _ =>
      apply (lazy_count_vacstate_finished_quorum
               (mkLVParallelState (cfg_nworkers cfg) ws) (round vw)) in Hfull;
        [| apply set_my_state_wf; [vacstate_in_list | exact Hps]]
    end.
    exists p, c, vw. repeat split; try assumption.
    simpl. apply lazy_clear_dead_tuple_all; [congruence | assumption].
  - (* no index: excluded *) congruence.
Qed.

(** X1.  The Finished barrier.  In a parallel run a process that waits in
    [lazy_set_vacstate_and_wait_finished] with round [r] can always take a
    step; the step moves it on to [VACSTATE_SCANNING] and the next round
    when every worker is Finished at round [r], or Scanning or Prepared at
    round [r + 1], or Complete, and leaves the world as it is otherwise. *)
Theorem finished_barrier_quorum cfg w i p r c :
  cfg_wf cfg -> cfg_parallel cfg = true -> reachable cfg w ->
  w_procs w !! i = Some p -> pc p = PcWaitFinished r c ->
  (exists l w', step cfg i w l w')
  /\ forall l w', step cfg i w l w' ->
       l = Tau
       /\ (Forall (finished_quorum_member r) (w_vacworkers w) ->
           w' = mkWorld (w_vacworkers w) (w_dead_tuples w) (w_cursor w)
                  (<[i := set_pc (PcSetScanningNext c) p]> (w_procs w)))
       /\ (~ Forall (finished_quorum_member r) (w_vacworkers w) -> w' = w).
Proof.
  intros Hwf Hpar Hreach Hp Hpc.
  destruct (reachable_run_ok cfg w Hwf Hpar Hreach) as (Hps & _ & _).
  pose proof (lazy_check_vacstate_finished_quorum (w_pstate cfg w) r Hps)
    as Hq.
  simpl in Hq. split.
  - destruct (lazy_check_vacstate_finished (w_pstate cfg w) r) eqn:Hchk.
    + eexists _, _. eapply step_pass_finished; eassumption.
    + eexists _, _. eapply step_wait_finished; eassumption.
  - intros l w' Hstep. destruct Hstep; same_proc Hp Hpc.
    + split; [reflexivity |]. split; [| reflexivity].
      intros Hall. apply Hq in Hall. congruence.
    + split; [reflexivity |]. split; [reflexivity |].
      intros Hnot. exfalso. apply Hnot, Hq. assumption.
Qed.

(** X2.  The counts throughout a run.  In every reachable state, serial or
    parallel, the count [n_dt] of every partition is between zero and
    [max_dead_tuples]: [lazy_space_alloc] and [lazy_clear_dead_tuple] store
    zero, and [lazy_record_dead_tuple] raises the count only while it is
    below the capacity. *)
Theorem partitions_within_capacity cfg w :
  cfg_wf cfg -> reachable cfg w ->
  Forall (fun dt => 0 <= n_dt dt <= cfg_max_dead_tuples cfg)
    (w_dead_tuples w).
Proof.
  intros Hwf Hreach.
  destruct (reachable_world_ok cfg w Hwf Hreach) as (Hlen & _ & _ & _ & Hparts).
  apply Forall_lookup. intros j dt Hdt.
  destruct (lookup_lt_is_Some_2 (w_procs w) j) as [p Hp].
  { apply lookup_lt_Some in Hdt. lia. }
  destruct (Hparts j p dt Hp Hdt) as ((Hcount & _) & _). exact Hcount.
Qed.

(** * Further properties *)

(** ** The page checks *)

Lemma scan_item_all_visible max_dead blkno offnum itemid my ps :
  all_visible (snd (scan_item max_dead blkno offnum itemid my ps))
  = all_visible ps && item_all_visible itemid.
Proof.
  destruct itemid as [| | | tuple]; simpl;
    rewrite ?andb_true_r, ?andb_false_r; try reflexivity.
  destruct (tup_status tuple), (tup_hot_updated tuple), (tup_heap_only tuple);
    simpl; rewrite ?andb_false_r, ?andb_assoc; reflexivity.
Qed.

Lemma scan_items_all_visible max_dead blkno items :
  forall offnum my ps,
    all_visible (snd (scan_items max_dead blkno offnum items my ps))
    = all_visible ps && forallb item_all_visible items.
Proof.
  induction items as [| itemid items IH]; intros offnum my ps; simpl.
  - rewrite andb_true_r. reflexivity.
  - rewrite IH, scan_item_all_visible, andb_assoc. reflexivity.
Qed.

Lemma heap_page_is_all_visible_loop_forallb follows xmin_of ef items :
  forall offnum cutoff frozen,
    fst (fst (heap_page_is_all_visible_loop follows xmin_of ef offnum items
                cutoff frozen))
    = forallb item_all_visible items.
Proof.
  induction items as [| itemid items IH]; intros offnum cutoff frozen; simpl;
    [reflexivity |].
  destruct itemid as [| | | tuple]; simpl; try apply IH; try reflexivity.
  destruct (tup_status tuple); simpl; try reflexivity.
  destruct (tup_xmin_committed tuple); simpl; [| reflexivity].
  destruct (tup_xmin_precedes_oldest tuple); simpl; [apply IH | reflexivity].
Qed.

Lemma heap_page_is_all_visible_loop_frozen follows xmin_of ef items :
  forall offnum cutoff frozen,
    let r :=
      heap_page_is_all_visible_loop follows xmin_of ef offnum items cutoff
        frozen in
    (fst (fst r) = false -> snd r = false)
    /\ (fst (fst r) = true ->
        (snd r = true
         <-> frozen = true
             /\ forall (i : nat) tuple,
                  items !! i = Some (LP_NORMAL tuple) ->
                  ef (offnum + Z.of_nat i) = false)).
Proof.
  induction items as [| itemid items IH]; intros offnum cutoff frozen; simpl.
  - split; [discriminate |]. intros _. split; [| tauto].
    intros ->. split; [reflexivity |]. intros i tuple H. discriminate.
  - assert (Hskip : forall c f,
              ItemIdIsNormal itemid = false ->
              let r :=
                heap_page_is_all_visible_loop follows xmin_of ef (offnum + 1)
                  items c f in
              (fst (fst r) = false -> snd r = false)
              /\ (fst (fst r) = true ->
                  (snd r = true
                   <-> f = true
                       /\ forall (i : nat) tuple,
                            (itemid :: items) !! i = Some (LP_NORMAL tuple) ->
                            ef (offnum + Z.of_nat i) = false))).
    { intros c f Hn. destruct (IH (offnum + 1) c f) as [IH1 IH2].
      split; [exact IH1 |]. intros Hv. rewrite (IH2 Hv).
      split; intros [Hf Hall]; (split; [exact Hf |]).
      - intros [| i] tuple Hi; simpl in Hi.
        + injection Hi as ->. discriminate Hn.
        + replace (offnum + Z.of_nat (S i)) with (offnum + 1 + Z.of_nat i)
            by lia.
          eapply Hall. eassumption.
      - intros i tuple Hi.
        replace (offnum + 1 + Z.of_nat i) with (offnum + Z.of_nat (S i))
          by lia.
        eapply Hall. simpl. eassumption. }
    destruct itemid as [| | | tuple]; simpl.
    + apply Hskip. reflexivity.
    + apply Hskip. reflexivity.
    + split; [reflexivity | discriminate].
    + destruct (tup_status tuple); simpl;
        try (split; [reflexivity | discriminate]).
      destruct (tup_xmin_committed tuple); simpl;
        [| split; [reflexivity | discriminate]].
      destruct (tup_xmin_precedes_oldest tuple); simpl;
        [| split; [reflexivity | discriminate]].
      destruct (IH (offnum + 1)
                  (if follows (xmin_of offnum) cutoff then xmin_of offnum
                   else cutoff)
                  (if frozen && ef offnum then false else frozen))
        as [IH1 IH2].
      split; [exact IH1 |]. intros Hv. rewrite (IH2 Hv).
      split.
      * intros [Hf Hall].
        destruct frozen; [| discriminate Hf].
        destruct (ef offnum) eqn:Hef; [discriminate Hf |].
        split; [reflexivity |]. intros [| i] tup Hi; simpl in Hi.
        -- rewrite Z.add_0_r. exact Hef.
        -- replace (offnum + Z.of_nat (S i)) with (offnum + 1 + Z.of_nat i)
             by lia.
           eapply Hall. eassumption.
      * intros [-> Hall].
        pose proof (Hall 0%nat tuple eq_refl) as H0.
        rewrite Z.add_0_r in H0. rewrite H0. simpl.
        split; [reflexivity |]. intros i tup Hi.
        replace (offnum + 1 + Z.of_nat i) with (offnum + Z.of_nat (S i))
          by lia.
        eapply Hall. simpl. eassumption.
Qed.

(** X3.  [heap_page_is_all_visible] and the line-pointer loop of
    [lazy_scan_heap] give the same all-visible verdict on the same line
    pointers: the page is all-visible exactly when every line pointer is
    unused, a redirect, or a live tuple whose inserter committed before
    [OldestXmin].  When the verdict is no, [*all_frozen] is false; when it
    is yes, [*all_frozen] says that no tuple needs an eventual freeze. *)
Theorem heap_page_is_all_visible_agrees follows xmin_of ef max_dead blkno my
    (items : list ItemId) :
  let r := heap_page_is_all_visible follows xmin_of ef items in
  fst (fst r)
  = all_visible
      (snd (scan_items max_dead blkno FirstOffsetNumber items my
              page_scan_start))
  /\ (fst (fst r) = true
      <-> Forall (fun itemid => item_all_visible itemid = true) items)
  /\ (fst (fst r) = false -> snd r = false)
  /\ (fst (fst r) = true ->
      (snd r = true
       <-> forall (i : nat) tuple,
             items !! i = Some (LP_NORMAL tuple) ->
             ef (FirstOffsetNumber + Z.of_nat i) = false)).
Proof.
  unfold heap_page_is_all_visible. cbv zeta.
  rewrite scan_items_all_visible, heap_page_is_all_visible_loop_forallb.
  split; [reflexivity |]. split.
  { rewrite forallb_forall, Forall_forall. split; intros H x Hx.
    - apply H, list_elem_of_In, Hx.
    - apply H, list_elem_of_In, Hx. }
  destruct (heap_page_is_all_visible_loop_frozen follows xmin_of ef items
              FirstOffsetNumber InvalidTransactionId true) as [H1 H2].
  rewrite heap_page_is_all_visible_loop_forallb in H1, H2.
  split; [exact H1 |]. intros Hv. rewrite (H2 Hv). tauto.
Qed.

Lemma lazy_check_needs_freeze_loop_spec needs items :
  forall offnum tup,
    let r := lazy_check_needs_freeze_loop needs offnum items tup in
    (fst r = true
     <-> exists (i : nat) tuple,
           items !! i = Some (LP_NORMAL tuple)
           /\ needs (offnum + Z.of_nat i) = true)
    /\ (fst r = false -> snd r = tup || existsb ItemIdIsUsed items)
    /\ (snd r = true -> tup || existsb ItemIdIsUsed items = true).
Proof.
  induction items as [| itemid items IH]; intros offnum tup; simpl.
  - rewrite orb_false_r. split; [| tauto]. split; [discriminate |].
    intros (i & tuple & H & _). discriminate.
  - assert (Hnext : forall t,
              t = (if ItemIdIsUsed itemid then true else tup) ->
              (forall tuple, itemid = LP_NORMAL tuple -> needs offnum = false) ->
              let r := lazy_check_needs_freeze_loop needs (offnum + 1) items t in
              (fst r = true
               <-> exists (i : nat) tuple,
                     (itemid :: items) !! i = Some (LP_NORMAL tuple)
                     /\ needs (offnum + Z.of_nat i) = true)
              /\ (fst r = false ->
                  snd r = tup || (ItemIdIsUsed itemid || existsb ItemIdIsUsed items))
              /\ (snd r = true ->
                  tup || (ItemIdIsUsed itemid || existsb ItemIdIsUsed items) = true)).
    { intros t -> Hno. destruct (IH (offnum + 1)
                                   (if ItemIdIsUsed itemid then true else tup))
        as (IH1 & IH2 & IH3).
      split; [| split].
      - rewrite IH1. split.
        + intros (i & tuple & Hi & Hn). exists (S i), tuple.
          split; [exact Hi |].
          replace (offnum + Z.of_nat (S i)) with (offnum + 1 + Z.of_nat i)
            by lia.
          exact Hn.
        + intros ([| i] & tuple & Hi & Hn); simpl in Hi.
          * injection Hi as ->. rewrite Z.add_0_r in Hn.
            rewrite (Hno tuple eq_refl) in Hn. discriminate.
          * exists i, tuple. split; [exact Hi |].
            replace (offnum + 1 + Z.of_nat i) with (offnum + Z.of_nat (S i))
              by lia.
            exact Hn.
      - intros Hf. rewrite (IH2 Hf).
        destruct (ItemIdIsUsed itemid), tup; reflexivity.
      - intros Ht. specialize (IH3 Ht).
        destruct (ItemIdIsUsed itemid), tup; simpl in *; auto. }
    destruct itemid as [| | | tuple]; simpl;
      try (apply Hnext; [reflexivity | discriminate]).
    destruct (needs offnum) eqn:Hn; simpl.
    + split; [| split; [discriminate | intros _; apply orb_true_r]].
      split; [| reflexivity]. intros _. exists 0%nat, tuple.
      rewrite Z.add_0_r. split; [reflexivity | exact Hn].
    + apply Hnext; [reflexivity |]. intros ? _. reflexivity.
Qed.

(** X4.  [lazy_check_needs_freeze] answers yes for an uninitialised page
    and otherwise exactly when some normal line pointer holds a tuple that
    needs freezing.  When it answers no, [*hastup] is the test
    [count_nondeletable_pages] makes (the page holds a used line pointer);
    when it answers yes it stopped early and [*hastup] may only err
    towards no. *)
Theorem lazy_check_needs_freeze_spec needs (page : Page) :
  let r := lazy_check_needs_freeze needs page in
  (fst r = true
   <-> PageIsNew page = true
       \/ exists (i : nat) tuple,
            page_items page !! i = Some (LP_NORMAL tuple)
            /\ needs (FirstOffsetNumber + Z.of_nat i) = true)
  /\ (fst r = false -> snd r = page_has_tuples page)
  /\ (snd r = true -> page_has_tuples page = true).
Proof.
  unfold lazy_check_needs_freeze, page_has_tuples, PageIsEmpty. cbv zeta.
  destruct (PageIsNew page); simpl.
  { split; [tauto |]. split; discriminate. }
  destruct (lazy_check_needs_freeze_loop_spec needs (page_items page)
              FirstOffsetNumber false) as (H1 & H2 & H3).
  destruct (page_items page) as [| itemid items] eqn:Hitems.
  - simpl. split; [| split; [reflexivity | discriminate]].
    split; [discriminate |]. intros [H | (i & tuple & H & _)]; discriminate.
  - split; [| split; assumption].
    rewrite H1. split; [intros H; right; exact H |].
    intros [H | H]; [discriminate | exact H].
Qed.

(** ** The second heap pass *)

Lemma set_item_unused_at items toff off :
  item_at (set_item_unused items toff) off
  = if decide (off = toff) then (fun _ => LP_UNUSED) <$> item_at items off
    else item_at items off.
Proof.
  unfold item_at, set_item_unused.
  destruct (Z.leb_spec 1 off) as [Hoff | Hoff].
  2: { destruct (decide (off = toff)); reflexivity. }
  destruct (Z.leb_spec 1 toff) as [Htoff | Htoff].
  2: { destruct (decide (off = toff)); [lia | reflexivity]. }
  destruct (decide (off = toff)) as [-> | Hne].
  - destruct (items !! Z.to_nat (toff - 1)) as [x |] eqn:Hx.
    + rewrite list_lookup_insert_eq by (eapply lookup_lt_Some; eassumption).
      reflexivity.
    + rewrite lookup_ge_None_2; [reflexivity |].
      rewrite length_insert. apply lookup_ge_None_1. assumption.
  - rewrite list_lookup_insert_ne by lia. reflexivity.
Qed.

Lemma set_items_unused_at offs :
  forall items off,
    item_at (fold_left set_item_unused offs items) off
    = if decide (off ∈ offs)
      then (fun _ => LP_UNUSED) <$> item_at items off
      else item_at items off.
Proof.
  induction offs as [| toff offs IH]; intros items off; simpl.
  - destruct (decide (off ∈ [])) as [H | _]; [| reflexivity].
    apply elem_of_nil in H. contradiction.
  - rewrite IH, set_item_unused_at.
    destruct (decide (off ∈ offs)) as [Hin | Hnin];
      destruct (decide (off = toff)) as [-> | Hne];
      destruct (decide (_ ∈ toff :: offs)) as [Hin' | Hnin'];
      try reflexivity.
    + destruct (item_at items toff); reflexivity.
    + exfalso. apply Hnin'. left.
    + exfalso. apply Hnin'. right. assumption.
    + exfalso. apply Hnin'. left.
    + apply elem_of_cons in Hin'. destruct Hin'; contradiction.
Qed.

Lemma set_items_unused_length offs :
  forall items, length (fold_left set_item_unused offs items) = length items.
Proof.
  induction offs as [| toff offs IH]; intros items; simpl; [reflexivity |].
  rewrite IH. unfold set_item_unused.
  destruct (1 <=? toff); [apply length_insert | reflexivity].
Qed.

(** The loop of [lazy_vacuum_page] consumes the run of identifiers of
    block [blkno] that starts at [tupindex], and nothing else. *)
Lemma lazy_vacuum_page_loop_spec my blkno :
  n_dt my <= Z.of_nat (length (dt_array my)) ->
  forall turns items tupindex unused,
    0 <= tupindex <= n_dt my ->
    (Z.to_nat (n_dt my - tupindex) <= turns)%nat ->
    let r := lazy_vacuum_page_loop turns my blkno items tupindex unused in
    exists new,
      snd r = unused ++ new
      /\ fst (fst r) = fold_left set_item_unused new items
      /\ snd (fst r) = tupindex + Z.of_nat (length new)
      /\ snd (fst r) <= n_dt my
      /\ (forall (j : nat) toff,
            new !! j = Some toff <->
            (j < length new)%nat
            /\ exists e, dt_array my !! (Z.to_nat tupindex + j)%nat = Some e
                         /\ ItemPointerGetBlockNumber e = blkno
                         /\ ItemPointerGetOffsetNumber e = toff)
      /\ (snd (fst r) < n_dt my ->
          exists e, dt_array my !! Z.to_nat (snd (fst r)) = Some e
                    /\ ItemPointerGetBlockNumber e <> blkno).
Proof.
  intros Hlen.
  assert (Hnone : forall items tupindex unused,
            0 <= tupindex <= n_dt my ->
            (tupindex < n_dt my ->
             exists e, dt_array my !! Z.to_nat tupindex = Some e
                       /\ ItemPointerGetBlockNumber e <> blkno) ->
            exists new : list Z,
              unused = unused ++ new
              /\ items = fold_left set_item_unused new items
              /\ tupindex = tupindex + Z.of_nat (length new)
              /\ tupindex <= n_dt my
              /\ (forall (j : nat) toff,
                    new !! j = Some toff <->
                    (j < length new)%nat
                    /\ exists e,
                         dt_array my !! (Z.to_nat tupindex + j)%nat = Some e
                         /\ ItemPointerGetBlockNumber e = blkno
                         /\ ItemPointerGetOffsetNumber e = toff)
              /\ (tupindex < n_dt my ->
                  exists e, dt_array my !! Z.to_nat tupindex = Some e
                            /\ ItemPointerGetBlockNumber e <> blkno)).
  { intros items tupindex unused Hrange Hstop. exists [].
    rewrite app_nil_r. simpl.
    split; [reflexivity |]. split; [reflexivity |]. split; [lia |].
    split; [lia |]. split; [| exact Hstop].
    intros j toff. split; [discriminate |]. intros [Hj _]. lia. }
  induction turns as [| turns IH];
    intros items tupindex unused Hrange Hturns.
  - simpl. apply Hnone; [assumption | simpl; intros; lia].
  - simpl. destruct (Z.ltb_spec tupindex (n_dt my)) as [Hlt | Hge].
    2: { apply Hnone; [assumption | simpl; intros; lia]. }
    destruct (dt_array my !! Z.to_nat tupindex) as [tid |] eqn:Htid.
    2: { apply lookup_ge_None_1 in Htid. lia. }
    destruct (Z.eqb_spec (ItemPointerGetBlockNumber tid) blkno) as [Hblk | Hblk];
      simpl.
    2: { apply Hnone; [assumption |].
         intros _. exists tid. split; assumption. }
    destruct (IH (set_item_unused items (ItemPointerGetOffsetNumber tid))
                (tupindex + 1) (unused ++ [ItemPointerGetOffsetNumber tid])
                ltac:(lia) ltac:(lia))
      as (new & Hun & Hitems & Hk & Hle & Hnew & Hstop).
    exists (ItemPointerGetOffsetNumber tid :: new).
    split; [rewrite Hun, <- app_assoc; reflexivity |].
    split; [exact Hitems |].
    split; [rewrite Hk; simpl length; lia |].
    split; [exact Hle |]. split; [| exact Hstop].
    intros [| j] toff; simpl.
    + rewrite Nat.add_0_r. split.
      * intros [= <-]. split; [lia |]. exists tid. repeat split; assumption.
      * intros (_ & e & He & _ & <-). congruence.
    + rewrite Hnew.
      replace (Z.to_nat (tupindex + 1) + j)%nat
        with (Z.to_nat tupindex + S j)%nat by lia.
      split; intros [Hj He]; (split; [lia | exact He]).
Qed.

Lemma lazy_vacuum_page_items repair follows xmin_of ef vm_status blkno page
    tupindex my :
  (forall l, repair l = l) ->
  n_dt my <= Z.of_nat (length (dt_array my)) ->
  0 <= tupindex <= n_dt my ->
  let r :=
    lazy_vacuum_page repair follows xmin_of ef vm_status blkno page tupindex
      my in
  tupindex <= vp_tupindex r <= n_dt my
  /\ (forall i e,
        tupindex <= i < vp_tupindex r ->
        dt_array my !! Z.to_nat i = Some e ->
        ItemPointerGetBlockNumber e = blkno
        /\ ItemPointerGetOffsetNumber e ∈ vp_unused r)
  /\ (vp_tupindex r < n_dt my ->
      exists e, dt_array my !! Z.to_nat (vp_tupindex r) = Some e
                /\ ItemPointerGetBlockNumber e <> blkno)
  /\ (forall toff,
        toff ∈ vp_unused r ->
        exists i e,
          tupindex <= i < vp_tupindex r
          /\ dt_array my !! Z.to_nat i = Some e
          /\ ItemPointerGetBlockNumber e = blkno
          /\ ItemPointerGetOffsetNumber e = toff)
  /\ (forall off,
        PageGetItemId (vp_page r) off
        = if decide (off ∈ vp_unused r)
          then (fun _ => LP_UNUSED) <$> PageGetItemId page off
          else PageGetItemId page off).
Proof.
  intros Hrepair Hlen Hrange. unfold lazy_vacuum_page. cbv zeta.
  cbn [vp_page vp_tupindex vp_unused].
  destruct (lazy_vacuum_page_loop_spec my blkno Hlen
              (Z.to_nat (n_dt my - tupindex)) (page_items page) tupindex []
              Hrange (Nat.le_refl _))
    as (new & Hun & Hitems & Hk & Hle & Hnew & Hstop).
  simpl in Hun. rewrite Hun in *. rewrite Hk in *. clear Hun Hk.
  split; [lia |]. split; [| split; [exact Hstop | split]].
  - intros i e Hi He.
    destruct (Hnew (Z.to_nat (i - tupindex))
                (ItemPointerGetOffsetNumber e)) as [_ Hback].
    assert (Hin : new !! Z.to_nat (i - tupindex)
                  = Some (ItemPointerGetOffsetNumber e)).
    { apply Hback. split; [lia |]. exists e.
      replace (Z.to_nat tupindex + Z.to_nat (i - tupindex))%nat
        with (Z.to_nat i) by lia.
      split; [exact He |]. split; [| reflexivity].
      destruct (new !! Z.to_nat (i - tupindex)) as [toff |] eqn:Hj.
      - apply Hnew in Hj. destruct Hj as (_ & e' & He' & Hb & _).
        replace (Z.to_nat tupindex + Z.to_nat (i - tupindex))%nat
          with (Z.to_nat i) in He' by lia.
        congruence.
      - apply lookup_ge_None_1 in Hj. lia. }
    split; [| eapply list_elem_of_lookup_2; exact Hin].
    apply Hnew in Hin. destruct Hin as (_ & e' & He' & Hb & _).
    replace (Z.to_nat tupindex + Z.to_nat (i - tupindex))%nat
      with (Z.to_nat i) in He' by lia.
    congruence.
  - intros toff Hin. apply list_elem_of_lookup_1 in Hin.
    destruct Hin as [j Hj]. apply Hnew in Hj.
    destruct Hj as (Hjlt & e & He & Hb & Ho).
    exists (tupindex + Z.of_nat j), e.
    replace (Z.to_nat (tupindex + Z.of_nat j))
      with (Z.to_nat tupindex + j)%nat by lia.
    repeat split; try assumption; lia.
  - intros off. unfold PageGetItemId. cbn [page_items].
    rewrite Hrepair, Hitems. apply set_items_unused_at.
Qed.

(** X5.  [lazy_vacuum_page] consumes exactly the run of identifiers of
    block [blkno] that starts at [tupindex] and returns the index after
    it; it turns the line pointers of that run into unused ones, logs
    their offsets, and touches no other line pointer, provided
    [PageRepairFragmentation] leaves line pointers alone.  When it calls
    [visibilitymap_set], the page is flagged all-visible and the call sets
    only bits the map lacked. *)
Theorem lazy_vacuum_page_spec repair follows xmin_of ef vm_status blkno page
    tupindex my :
  (forall l, repair l = l) ->
  n_dt my <= Z.of_nat (length (dt_array my)) ->
  0 <= tupindex <= n_dt my ->
  let r :=
    lazy_vacuum_page repair follows xmin_of ef vm_status blkno page tupindex
      my in
  tupindex <= vp_tupindex r <= n_dt my
  /\ (forall i e,
        tupindex <= i < vp_tupindex r ->
        dt_array my !! Z.to_nat i = Some e ->
        ItemPointerGetBlockNumber e = blkno
        /\ ItemPointerGetOffsetNumber e ∈ vp_unused r)
  /\ (vp_tupindex r < n_dt my ->
      exists e, dt_array my !! Z.to_nat (vp_tupindex r) = Some e
                /\ ItemPointerGetBlockNumber e <> blkno)
  /\ (forall toff,
        toff ∈ vp_unused r ->
        exists i e,
          tupindex <= i < vp_tupindex r
          /\ dt_array my !! Z.to_nat i = Some e
          /\ ItemPointerGetBlockNumber e = blkno
          /\ ItemPointerGetOffsetNumber e = toff)
  /\ (forall off,
        PageGetItemId (vp_page r) off
        = if decide (off ∈ vp_unused r)
          then (fun _ => LP_UNUSED) <$> PageGetItemId page off
          else PageGetItemId page off)
  /\ (forall cutoff flags,
        vp_vm_set r = Some (cutoff, flags) ->
        PageIsAllVisible (vp_page r) = true
        /\ flags <> 0 /\ Z.land flags vm_status = 0).
Proof.
  intros Hrepair Hlen Hrange r.
  destruct (lazy_vacuum_page_items repair follows xmin_of ef vm_status blkno
              page tupindex my Hrepair Hlen Hrange)
    as (H1 & H2 & H3 & H4 & H5).
  repeat (split; [assumption |]).
  intros cutoff flags. subst r. unfold lazy_vacuum_page. cbv zeta.
  cbn [vp_vm_set vp_page PageIsAllVisible].
  match goal with
  | |- context [heap_page_is_all_visible ?f ?x ?e ?l] =>
    destruct (heap_page_is_all_visible f x e l) as [[vis cut] fro]
  end.
  cbn [fst snd].
  destruct (vis || PageIsAllVisible page); simpl; [| discriminate].
  unfold VISIBILITYMAP_ALL_VISIBLE, VISIBILITYMAP_ALL_FROZEN.
  pose proof (Z.land_comm vm_status 1) as Hc1.
  pose proof (Z.land_comm vm_status 2) as Hc2.
  destruct (Z.eqb_spec (Z.land vm_status 1) 0) as [Hv | Hv];
    destruct (Z.eqb_spec (Z.land vm_status 2) 0) as [Hf | Hf];
    destruct fro; simpl; intros [= _ <-]; try discriminate;
    (split; [reflexivity |]); (split; [discriminate |]);
    rewrite ?Z.land_lor_distr_l, ?Z.land_0_l, <- ?Hc1, <- ?Hc2, ?Hv, ?Hf;
    reflexivity.
Qed.

Lemma ItemPointerSet_eta e :
  ItemPointerSet (ItemPointerGetBlockNumber e) (ItemPointerGetOffsetNumber e)
  = e.
Proof. destruct e. reflexivity. Qed.

(** The invariant of the loop of [lazy_vacuum_heap]. *)
Lemma lazy_vacuum_heap_loop_spec repair follows xmin_of ef lock_ok vm_status
    my :
  (forall l, repair l = l) ->
  n_dt my <= Z.of_nat (length (dt_array my)) ->
  forall turns st,
    0 <= vh_tupindex st <= n_dt my ->
    (Z.to_nat (n_dt my - vh_tupindex st) <= turns)%nat ->
    let r :=
      lazy_vacuum_heap_loop turns repair follows xmin_of ef lock_ok vm_status
        my st in
    vh_tupindex r = n_dt my
    /\ (forall b off,
          PageGetItemId (vh_heap r b) off = PageGetItemId (vh_heap st b) off
          \/ (PageGetItemId (vh_heap r b) off = Some LP_UNUSED
              /\ exists i,
                   vh_tupindex st <= i < n_dt my
                   /\ dt_array my !! Z.to_nat i = Some (ItemPointerSet b off)))
    /\ (forall b,
          (forall i e,
             vh_tupindex st <= i < n_dt my ->
             dt_array my !! Z.to_nat i = Some e ->
             ItemPointerGetBlockNumber e <> b) ->
          vh_heap r b = vh_heap st b)
    /\ ((forall i, lock_ok i = true) ->
        forall i e,
          vh_tupindex st <= i < n_dt my ->
          dt_array my !! Z.to_nat i = Some e ->
          is_Some (PageGetItemId (vh_heap st (ItemPointerGetBlockNumber e))
                     (ItemPointerGetOffsetNumber e)) ->
          PageGetItemId (vh_heap r (ItemPointerGetBlockNumber e))
            (ItemPointerGetOffsetNumber e)
          = Some LP_UNUSED)
    /\ vh_npages st <= vh_npages r
       <= vh_npages st + (n_dt my - vh_tupindex st).
Proof.
  intros Hrepair Hlen. induction turns as [| turns IH]; intros st Hrange Hturns.
  - simpl. split; [lia |]. split; [intros; left; reflexivity |].
    split; [reflexivity |]. split; [intros; lia | lia].
  - cbn [lazy_vacuum_heap_loop]. cbv zeta.
    destruct (Z.ltb_spec (vh_tupindex st) (n_dt my)) as [Hlt | Hge].
    2: { split; [lia |]. split; [intros; left; reflexivity |].
         split; [reflexivity |]. split; [intros; lia | lia]. }
    destruct (dt_array my !! Z.to_nat (vh_tupindex st)) as [tid |] eqn:Htid.
    2: { apply lookup_ge_None_1 in Htid. lia. }
    destruct (lock_ok (vh_tupindex st)) eqn:Hlock; cbn [negb].
    + (* the page is vacuumed *)
      set (tblk := ItemPointerGetBlockNumber tid).
      set (vp := lazy_vacuum_page repair follows (xmin_of tblk) (ef tblk)
                   (vm_status (vh_tupindex st)) tblk (vh_heap st tblk)
                   (vh_tupindex st) my).
      destruct (lazy_vacuum_page_items repair follows (xmin_of tblk) (ef tblk)
                  (vm_status (vh_tupindex st)) tblk (vh_heap st tblk)
                  (vh_tupindex st) my Hrepair Hlen Hrange)
        as (Hk & Hrun & Hstop & Hback & Hitems).
      fold vp in Hk, Hrun, Hstop, Hback, Hitems.
      assert (Hprog : vh_tupindex st < vp_tupindex vp).
      { destruct (Z.eq_dec (vp_tupindex vp) (vh_tupindex st)) as [Heq | Hne];
          [| lia].
        destruct (Hstop ltac:(lia)) as (e & He & Hb).
        rewrite Heq, Htid in He. injection He as <-. contradiction. }
      match goal with
      | |- context [lazy_vacuum_heap_loop turns _ _ _ _ _ _ _ ?st'] =>
        destruct (IH st' ltac:(cbn [vh_tupindex]; lia)
                    ltac:(cbn [vh_tupindex]; lia))
          as (IH1 & IH2 & IH3 & IH4 & IH5)
      end.
      cbn [vh_tupindex vh_heap vh_npages] in IH1, IH2, IH3, IH4, IH5.
      assert (Hst' : forall b off,
                PageGetItemId (heap_update (vh_heap st) tblk (vp_page vp) b) off
                = PageGetItemId (vh_heap st b) off
                \/ (PageGetItemId (heap_update (vh_heap st) tblk (vp_page vp) b)
                      off = Some LP_UNUSED
                    /\ exists i,
                         vh_tupindex st <= i < vp_tupindex vp
                         /\ dt_array my !! Z.to_nat i
                            = Some (ItemPointerSet b off))).
      { intros b off. unfold heap_update.
        destruct (Z.eqb_spec b tblk) as [-> | Hb]; [| left; reflexivity].
        rewrite Hitems.
        destruct (decide (off ∈ vp_unused vp)) as [Hin | Hnin];
          [| left; reflexivity].
        destruct (PageGetItemId (vh_heap st tblk) off) as [x |];
          [| left; reflexivity].
        right. split; [reflexivity |].
        destruct (Hback off Hin) as (i & e & Hi & He & Hblk & Hoff).
        exists i. split; [exact Hi |].
        rewrite He, <- Hblk, <- Hoff, ItemPointerSet_eta. reflexivity. }
      split; [exact IH1 |]. split; [| split; [| split]].
      * intros b off. destruct (IH2 b off) as [Heq | (Hun & i & Hi & He)].
        -- rewrite Heq.
           destruct (Hst' b off) as [Heq' | (Hun' & i & Hi & He)];
             [left; exact Heq' |].
           right. split; [exact Hun' |]. exists i. split; [lia | exact He].
        -- right. split; [exact Hun |]. exists i. split; [lia | exact He].
      * intros b Hnone. rewrite IH3.
        -- unfold heap_update. destruct (Z.eqb_spec b tblk) as [-> | Hb];
             [| reflexivity].
           exfalso. apply (Hnone (vh_tupindex st) tid ltac:(lia) Htid).
           reflexivity.
        -- intros i e Hi He. apply (Hnone i e); [lia | exact He].
      * intros Hall i e Hi He Hsome.
        assert (Hsome' : is_Some
                  (PageGetItemId
                     (heap_update (vh_heap st) tblk (vp_page vp)
                        (ItemPointerGetBlockNumber e))
                     (ItemPointerGetOffsetNumber e))).
        { destruct (Hst' (ItemPointerGetBlockNumber e)
                      (ItemPointerGetOffsetNumber e)) as [-> | [-> _]];
            [exact Hsome | eexists; reflexivity]. }
        destruct (Z.lt_ge_cases i (vp_tupindex vp)) as [Hin | Hout].
        -- destruct (Hrun i e ltac:(lia) He) as [Hblk Hoff].
           assert (Hnow : PageGetItemId
                            (heap_update (vh_heap st) tblk (vp_page vp)
                               (ItemPointerGetBlockNumber e))
                            (ItemPointerGetOffsetNumber e)
                          = Some LP_UNUSED).
           { unfold heap_update. rewrite Hblk, Z.eqb_refl, Hitems.
             destruct (decide (ItemPointerGetOffsetNumber e ∈ vp_unused vp));
               [| contradiction].
             rewrite Hblk in Hsome. destruct Hsome as [x ->]. reflexivity. }
           destruct (IH2 (ItemPointerGetBlockNumber e)
                       (ItemPointerGetOffsetNumber e)) as [-> | [-> _]];
             [exact Hnow | reflexivity].
        -- apply (IH4 Hall i e); [lia | exact He | exact Hsome'].
      * lia.
    + (* no cleanup lock: one identifier is passed over *)
      match goal with
      | |- context [lazy_vacuum_heap_loop turns _ _ _ _ _ _ _ ?st'] =>
        destruct (IH st' ltac:(cbn [vh_tupindex]; lia)
                    ltac:(cbn [vh_tupindex]; lia))
          as (IH1 & IH2 & IH3 & IH4 & IH5)
      end.
      cbn [vh_tupindex vh_heap vh_npages] in IH1, IH2, IH3, IH4, IH5.
      split; [exact IH1 |]. split; [| split; [| split]].
      * intros b off. destruct (IH2 b off) as [Heq | (Hun & i & Hi & He)];
          [left; exact Heq |].
        right. split; [exact Hun |]. exists i. split; [lia | exact He].
      * intros b Hnone. apply IH3. intros i e Hi He.
        apply (Hnone i e); [lia | exact He].
      * intros Hall. rewrite Hall in Hlock. discriminate.
      * lia.
Qed.

(** X6.  [lazy_vacuum_heap] runs through the whole of [MyDeadTuple] and
    visits at most one page per identifier.  A line pointer of the
    relation is changed only by being made unused, and only if its
    identifier is recorded; a block with no recorded identifier keeps its
    page as it was.  When every cleanup lock is granted, the line pointer
    of every recorded identifier ends unused.
    ([PageRepairFragmentation] is taken to leave line pointers alone.) *)
Theorem lazy_vacuum_heap_spec repair follows xmin_of ef lock_ok vm_status my
    (heap : Z -> Page) :
  (forall l, repair l = l) ->
  0 <= n_dt my <= Z.of_nat (length (dt_array my)) ->
  let r :=
    lazy_vacuum_heap repair follows xmin_of ef lock_ok vm_status my heap in
  vh_tupindex r = n_dt my
  /\ 0 <= vh_npages r <= n_dt my
  /\ (forall b off,
        PageGetItemId (vh_heap r b) off = PageGetItemId (heap b) off
        \/ (PageGetItemId (vh_heap r b) off = Some LP_UNUSED
            /\ ItemPointerSet b off ∈ dt_entries my))
  /\ (forall b,
        (forall e, e ∈ dt_entries my -> ItemPointerGetBlockNumber e <> b) ->
        vh_heap r b = heap b)
  /\ ((forall i, lock_ok i = true) ->
      forall e,
        e ∈ dt_entries my ->
        is_Some (PageGetItemId (heap (ItemPointerGetBlockNumber e))
                   (ItemPointerGetOffsetNumber e)) ->
        PageGetItemId (vh_heap r (ItemPointerGetBlockNumber e))
          (ItemPointerGetOffsetNumber e)
        = Some LP_UNUSED).
Proof.
  intros Hrepair [Hn Hlen] r.
  destruct (lazy_vacuum_heap_loop_spec repair follows xmin_of ef lock_ok
              vm_status my Hrepair Hlen (Z.to_nat (n_dt my))
              (mkVacuumedHeap heap 0 0 []) ltac:(simpl; lia)
              ltac:(simpl; lia))
    as (H1 & H2 & H3 & H4 & H5).
  fold (lazy_vacuum_heap repair follows xmin_of ef lock_ok vm_status my heap)
    in H1, H2, H3, H4, H5.
  fold r in H1, H2, H3, H4, H5. simpl in H2, H3, H4, H5.
  assert (Hentry : forall e,
            e ∈ dt_entries my
            <-> exists i, 0 <= i < n_dt my
                          /\ dt_array my !! Z.to_nat i = Some e).
  { intros e. unfold dt_entries. rewrite elem_of_take. split.
    - intros (i & Hi & Hlt). exists (Z.of_nat i).
      rewrite Nat2Z.id. split; [lia | exact Hi].
    - intros (i & Hi & He). exists (Z.to_nat i). split; [exact He | lia]. }
  split; [exact H1 |]. split; [lia |]. split; [| split].
  - intros b off. destruct (H2 b off) as [Heq | (Hun & i & Hi & He)];
      [left; exact Heq |].
    right. split; [exact Hun |]. apply Hentry. exists i. split; assumption.
  - intros b Hnone. apply H3. intros i e Hi He.
    apply Hnone, Hentry. exists i. split; assumption.
  - intros Hall e He Hsome. apply Hentry in He. destruct He as (i & Hi & He).
    apply (H4 Hall i e Hi He Hsome).
Qed.

(** ** Recording, looking up and clearing *)

Lemma lazy_tid_reaped_elem (itemptr : ItemPointerData) (pstate_null : bool)
    (nworkers : Z) (dead_tuples : list LVDeadTuple) :
  let num := if pstate_null then 1 else nworkers in
  Forall (fun dt => n_dt dt <= Z.of_nat (length (dt_array dt))
                    /\ StronglySorted itemptr_le (dt_entries dt))
         (take (Z.to_nat num) dead_tuples) ->
  lazy_tid_reaped itemptr pstate_null nworkers dead_tuples = true
  <-> exists (i : nat) dt,
        Z.of_nat i < num /\ dead_tuples !! i = Some dt
        /\ itemptr ∈ dt_entries dt.
Proof.
  intros num Hall.
  unfold lazy_tid_reaped. fold num. rewrite existsb_exists.
  rewrite Forall_forall in Hall. split.
  - intros (dt & Hin & Hhit). apply list_elem_of_In in Hin.
    pose proof Hin as Hin'. apply elem_of_take in Hin'.
    destruct Hin' as (i & Hi & Hlt).
    exists i, dt. split; [lia |]. split; [assumption |].
    destruct (Hall dt Hin) as [Hlen Hsorted].
    apply bsearch_partition; [assumption | assumption |].
    destruct (bsearch itemptr (dt_array dt) (n_dt dt) vac_cmp_itemptr)
      as [idx |]; [eexists; reflexivity | discriminate].
  - intros (i & dt & Hi & Hdt & Hmem).
    assert (Hin : dt ∈ take (Z.to_nat num) dead_tuples).
    { apply elem_of_take. exists i. split; [assumption | lia]. }
    exists dt. split; [apply list_elem_of_In; assumption |].
    destruct (Hall dt Hin) as [Hlen Hsorted].
    apply (bsearch_partition itemptr dt Hlen Hsorted) in Hmem.
    destruct Hmem as [idx ->]. reflexivity.
Qed.

Lemma StronglySorted_itemptr_le_snoc l x :
  StronglySorted itemptr_le l -> Forall (fun e => itemptr_lt e x) l ->
  StronglySorted itemptr_le (l ++ [x]).
Proof.
  intros Hs Hall. apply StronglySorted_app.
  split; [| split; [assumption | repeat constructor]].
  intros x1 x2 H1 H2. apply list_elem_of_singleton in H2. subst x2.
  rewrite Forall_forall in Hall. left. apply Hall. assumption.
Qed.

Lemma bool_eq_iff (a b : bool) : (a = true <-> b = true) -> a = b.
Proof. destruct a, b; intuition congruence. Qed.

(** X8.  Recording and looking up.  When a worker records an identifier
    that lies beyond everything in its partition (as the scan order has it)
    and the partition has room, [lazy_tid_reaped] finds that identifier
    afterwards, and answers for every other identifier as before. *)
Theorem record_then_reaped max_dead (pstate_null : bool) (nworkers : Z)
    (dead_tuples : list LVDeadTuple) (me : nat) my itemptr :
  let num := if pstate_null then 1 else nworkers in
  let recorded :=
    <[me := lazy_record_dead_tuple max_dead my itemptr]> dead_tuples in
  Z.of_nat me < num ->
  dead_tuples !! me = Some my ->
  Forall (fun dt => n_dt dt <= Z.of_nat (length (dt_array dt))
                    /\ StronglySorted itemptr_le (dt_entries dt))
         (take (Z.to_nat num) dead_tuples) ->
  dt_wf max_dead my -> n_dt my < max_dead ->
  Forall (fun e => itemptr_lt e itemptr) (dt_entries my) ->
  lazy_tid_reaped itemptr pstate_null nworkers recorded = true
  /\ forall other,
       other <> itemptr ->
       lazy_tid_reaped other pstate_null nworkers recorded
       = lazy_tid_reaped other pstate_null nworkers dead_tuples.
Proof.
  intros num recorded Hme Hmy Hall Hwf Hroom Hlast.
  destruct (lazy_record_dead_tuple_append max_dead my itemptr Hwf Hroom)
    as (Hentries & Hn & Hwf').
  assert (Hall' : Forall (fun dt => n_dt dt <= Z.of_nat (length (dt_array dt))
                                    /\ StronglySorted itemptr_le (dt_entries dt))
                    (take (Z.to_nat num) recorded)).
  { unfold recorded. rewrite take_insert_lt by lia.
    apply Forall_insert; [exact Hall |].
    split; [destruct Hwf' as [? ?]; lia |].
    rewrite Hentries. apply StronglySorted_itemptr_le_snoc; [| exact Hlast].
    rewrite Forall_forall in Hall. apply (Hall my).
    apply elem_of_take. exists me. split; [exact Hmy | lia]. }
  pose proof (lookup_lt_Some _ _ _ Hmy) as Hlt.
  split.
  - apply (lazy_tid_reaped_elem itemptr pstate_null nworkers recorded Hall').
    exists me, (lazy_record_dead_tuple max_dead my itemptr).
    split; [exact Hme |]. split.
    + unfold recorded. apply list_lookup_insert_eq. exact Hlt.
    + rewrite Hentries. apply elem_of_app. right. left.
  - intros other Hne. apply bool_eq_iff.
    rewrite (lazy_tid_reaped_elem other pstate_null nworkers recorded Hall').
    rewrite (lazy_tid_reaped_elem other pstate_null nworkers dead_tuples Hall).
    split; intros (i & dt & Hi & Hdt & Hin).
    + destruct (decide (i = me)) as [-> | Hneq].
      * unfold recorded in Hdt. rewrite list_lookup_insert_eq in Hdt by exact Hlt.
        injection Hdt as <-. rewrite Hentries in Hin.
        apply elem_of_app in Hin. destruct Hin as [Hin | Hin].
        -- exists me, my. repeat split; assumption.
        -- apply list_elem_of_singleton in Hin. contradiction.
      * unfold recorded in Hdt. rewrite list_lookup_insert_ne in Hdt by congruence.
        exists i, dt. repeat split; assumption.
    + destruct (decide (i = me)) as [-> | Hneq].
      * exists me, (lazy_record_dead_tuple max_dead my itemptr).
        split; [exact Hi |]. split.
        -- unfold recorded. apply list_lookup_insert_eq. exact Hlt.
        -- rewrite Hentries. apply elem_of_app. left. congruence.
      * exists i, dt. split; [exact Hi |]. split; [| exact Hin].
        unfold recorded. rewrite list_lookup_insert_ne by congruence. exact Hdt.
Qed.

Lemma existsb_reset_none (key : ItemPointerData) (dts : list LVDeadTuple) :
  existsb
    (fun dt => match bsearch key (dt_array dt) (n_dt dt) vac_cmp_itemptr with
               | Some _ => true
               | None => false
               end)
    (reset_n_dt <$> dts) = false.
Proof.
  induction dts as [| dt dts IH]; [reflexivity |].
  simpl. exact IH.
Qed.

(** X9.  Clearing and looking up.  After [lazy_clear_dead_tuple] in serial
    mode, and after it in parallel mode over a relation with indexes,
    [lazy_tid_reaped] finds no identifier at all. *)
Theorem clear_then_not_reaped (itemptr : ItemPointerData) nidx nworkers
    (me : nat) (dead_tuples : list LVDeadTuple) :
  (nidx <> 0 -> length dead_tuples = Z.to_nat nworkers ->
   lazy_tid_reaped itemptr false nworkers
     (lazy_clear_dead_tuple false nidx nworkers me dead_tuples) = false)
  /\ lazy_tid_reaped itemptr true nworkers
       (lazy_clear_dead_tuple true nidx nworkers 0 dead_tuples) = false.
Proof.
  split.
  - intros Hidx Hlen. rewrite lazy_clear_dead_tuple_all by assumption.
    unfold lazy_tid_reaped. rewrite <- fmap_take. apply existsb_reset_none.
  - unfold lazy_tid_reaped, lazy_clear_dead_tuple. simpl.
    destruct dead_tuples as [| dt dts]; reflexivity.
Qed.

(** ** Which worker vacuums which index *)

(** X7.  With at least one worker, every index is assigned to exactly one
    parallel worker, the one numbered [i_num % nworkers]; a process that is
    not a parallel worker takes every index. *)
Theorem index_assignment_partition nworkers i_num :
  0 < nworkers -> 0 <= i_num ->
  (exists me,
     0 <= me < nworkers
     /\ IsAssignedIndex true me i_num nworkers = true
     /\ forall me', IsAssignedIndex true me' i_num nworkers = true -> me' = me)
  /\ (forall me, IsAssignedIndex false me i_num nworkers = true).
Proof.
  intros Hn Hi. split; [| reflexivity].
  exists (Z.rem i_num nworkers). split; [apply Z.rem_bound_pos; lia |].
  unfold IsAssignedIndex. simpl. split; [apply Z.eqb_refl |].
  intros me' H. apply Z.eqb_eq in H. congruence.
Qed.

(** ** The serial page chooser *)

Lemma advance_next_unskippable_spec vm aggressive nblocks :
  nblocks < 2 ^ 32 ->
  forall turns next,
    0 <= next <= nblocks ->
    (Z.to_nat (nblocks - next) <= turns)%nat ->
    let n := advance_next_unskippable turns vm aggressive nblocks next in
    next <= n <= nblocks
    /\ (forall b, next <= b < n -> skippable vm aggressive b = true)
    /\ (n < nblocks -> skippable vm aggressive n = false).
Proof.
  intros Hn. induction turns as [| turns IH]; intros next Hrange Hturns; simpl.
  - split; [lia |]. split; intros; lia.
  - destruct (Z.ltb_spec next nblocks) as [Hlt | Hge].
    2: { split; [lia |]. split; intros; lia. }
    assert (Hstop : skippable vm aggressive next = false ->
                    next <= next <= nblocks
                    /\ (forall b, next <= b < next ->
                          skippable vm aggressive b = true)
                    /\ (next < nblocks -> skippable vm aggressive next = false)).
    { intros Hs. split; [lia |]. split; [intros; lia | intros _; exact Hs]. }
    assert (Hgo : skippable vm aggressive next = true ->
                  let n :=
                    advance_next_unskippable turns vm aggressive nblocks
                      (wrap32 (next + 1)) in
                  next <= n <= nblocks
                  /\ (forall b, next <= b < n ->
                        skippable vm aggressive b = true)
                  /\ (n < nblocks -> skippable vm aggressive n = false)).
    { intros Hs. rewrite (wrap32_small (next + 1)) by lia.
      destruct (IH (next + 1) ltac:(lia) ltac:(lia)) as (H1 & H2 & H3).
      split; [lia |]. split; [| exact H3].
      intros b Hb. destruct (Z.eq_dec b next) as [-> | Hne];
        [exact Hs | apply H2; lia]. }
    clear IH.
    destruct (bool_dec (skippable vm aggressive next) true) as [Hs | Hs];
      [| apply not_true_is_false in Hs].
    + specialize (Hgo Hs). clear Hstop.
      destruct aggressive; unfold skippable, VM_ALL_FROZEN, VM_ALL_VISIBLE in Hs;
        apply negb_true_iff in Hs; rewrite Hs; exact Hgo.
    + specialize (Hstop Hs). clear Hgo.
      destruct aggressive; unfold skippable, VM_ALL_FROZEN, VM_ALL_VISIBLE in Hs;
        apply negb_false_iff in Hs; rewrite Hs; exact Hstop.
Qed.

Lemma set_frozenskipped_pages_eta st :
  set_frozenskipped_pages (frozenskipped_pages st) st = st.
Proof. destruct st; reflexivity. Qed.

(** X10.  The serial chooser passes over pages only in a call that starts
    at block 0 with page skipping allowed and a leading run of at least
    [SKIP_PAGES_THRESHOLD] skippable blocks: [skipping_blocks] is a local
    that only the initialisation at [lv_cblock == 0] can leave set.  Every
    other call hands back [lv_cblock] itself, whatever the visibility map
    says, and counts nothing as skipped. *)
Theorem serial_chooser_returns_current_block vm options aggressive lvscan st
    avm :
  lv_nblocks lvscan < 2 ^ 32 ->
  0 <= lv_cblock lvscan < lv_nblocks lvscan ->
  (lv_cblock lvscan = 0 ->
   Z.land options VACOPT_DISABLE_PAGE_SKIPPING = 0 ->
   next_unskippable_from vm aggressive (lv_nblocks lvscan)
     (lv_next_unskippable_block lvscan) < SKIP_PAGES_THRESHOLD) ->
  let res := lazy_scan_heap_get_nextpage vm options aggressive lvscan st avm in
  fst res = lv_cblock lvscan
  /\ np_stats (snd res) = st
  /\ lv_cblock (np_lvscan (snd res)) = lv_cblock lvscan + 1
  /\ lv_nblocks (np_lvscan (snd res)) = lv_nblocks lvscan.
Proof.
  intros Hn Hc Hrun. unfold lazy_scan_heap_get_nextpage, serial_nextpage.
  cbn [fst snd np_blkno np_lvscan np_stats lv_cblock lv_nblocks
       lv_next_unskippable_block].
  set (init := (lv_cblock lvscan =? 0)
               && (Z.land options VACOPT_DISABLE_PAGE_SKIPPING =? 0)).
  set (next := if init then _ else _).
  assert (Hskip : init && (next >=? SKIP_PAGES_THRESHOLD) = false).
  { subst next. destruct init eqn:Hinit; [| reflexivity].
    subst init. apply andb_true_iff in Hinit. destruct Hinit as [H0 Hopt].
    apply Z.eqb_eq in H0. apply Z.eqb_eq in Hopt.
    specialize (Hrun H0 Hopt). simpl. rewrite Z.geb_leb. apply Z.leb_gt.
    exact Hrun. }
  rewrite Hskip. clearbody next. clear Hskip Hrun init.
  destruct (Z.to_nat (lv_nblocks lvscan - lv_cblock lvscan)) as [| turns] eqn:Ht;
    [lia |].
  cbn [serial_page_loop lv_nblocks lv_next_unskippable_block lv_cblock andb].
  destruct (Z.ltb_spec (lv_cblock lvscan) (lv_nblocks lvscan)) as [_ | ?];
    [| lia].
  assert (Hres : nextpage_result
                   (mkLVScanDesc (wrap32 (lv_cblock lvscan + 1)) next
                      (lv_nblocks lvscan)) (lv_cblock lvscan)
                 = lv_cblock lvscan).
  { unfold nextpage_result. cbn [lv_nblocks].
    destruct (Z.eqb_spec (lv_cblock lvscan) (lv_nblocks lvscan)); [lia |].
    reflexivity. }
  destruct (lv_cblock lvscan =? next);
    cbn [np_blkno np_lvscan np_stats lv_cblock lv_nblocks
         lv_next_unskippable_block].
  - unfold nextpage_result in *. cbn [lv_nblocks] in *.
    rewrite (wrap32_small (lv_cblock lvscan + 1)) by lia.
    repeat split; try reflexivity. exact Hres.
  - unfold nextpage_result in *. cbn [lv_nblocks] in *.
    rewrite (wrap32_small (lv_cblock lvscan + 1)) by lia.
    repeat split; try reflexivity. exact Hres.
Qed.

Lemma serial_page_loop_skip vm options aggressive lvscan :
  lv_nblocks lvscan < 2 ^ 32 ->
  lv_next_unskippable_block lvscan <= lv_nblocks lvscan ->
  forall turns blkno st avm,
    0 <= blkno <= lv_next_unskippable_block lvscan ->
    0 <= frozenskipped_pages st < 2 ^ 32 ->
    (Z.to_nat (lv_nblocks lvscan - blkno) <= turns)%nat ->
    let r :=
      serial_page_loop turns vm options aggressive true blkno lvscan st avm in
    np_blkno r = lv_next_unskippable_block lvscan
    /\ np_stats r
       = set_frozenskipped_pages
           (wrap32
              (frozenskipped_pages st
               + Z.of_nat
                   (length
                      (List.filter
                         (fun b => aggressive || VM_ALL_FROZEN vm b)
                         (seqZ blkno
                            (lv_next_unskippable_block lvscan - blkno))))))
           st.
Proof.
  intros Hn Hnext. induction turns as [| turns IH];
    intros blkno st avm Hb Hfs Ht.
  - assert (blkno = lv_next_unskippable_block lvscan) as -> by lia.
    cbn [serial_page_loop np_blkno np_stats]. split; [reflexivity |].
    rewrite seqZ_nil by lia. cbn [List.filter length Z.of_nat].
    rewrite Z.add_0_r, wrap32_small by lia.
    symmetry. apply set_frozenskipped_pages_eta.
  - cbn [serial_page_loop].
    destruct (Z.eq_dec blkno (lv_next_unskippable_block lvscan)) as [-> | Hne].
    + rewrite Z.eqb_refl.
      assert (Hst : st = set_frozenskipped_pages
                (wrap32 (frozenskipped_pages st
                   + Z.of_nat (length (List.filter
                       (fun b => aggressive || VM_ALL_FROZEN vm b)
                       (seqZ (lv_next_unskippable_block lvscan)
                          (lv_next_unskippable_block lvscan
                           - lv_next_unskippable_block lvscan))))))
                st).
      { rewrite seqZ_nil by lia. cbn [List.filter length Z.of_nat].
        rewrite Z.add_0_r, wrap32_small by lia.
        symmetry. apply set_frozenskipped_pages_eta. }
      destruct (lv_next_unskippable_block lvscan <? lv_nblocks lvscan);
        cbn [np_blkno np_stats]; (split; [reflexivity | exact Hst]).
    + destruct (Z.ltb_spec blkno (lv_nblocks lvscan)) as [Hlt | ?]; [| lia].
      destruct (Z.eqb_spec blkno (lv_next_unskippable_block lvscan)) as [? | _];
        [contradiction |].
      rewrite FORCE_CHECK_PAGE_self. cbn [andb negb].
      rewrite (wrap32_small (blkno + 1)) by lia.
      rewrite (seqZ_cons blkno) by lia. cbn [List.filter].
      replace (Z.pred (lv_next_unskippable_block lvscan - blkno))
        with (lv_next_unskippable_block lvscan - (blkno + 1)) by lia.
      replace (Z.succ blkno) with (blkno + 1) by lia.
      destruct (aggressive || VM_ALL_FROZEN vm blkno).
      * match goal with
        | |- context [serial_page_loop turns _ _ _ _ _ _ ?st' _] =>
          destruct (IH (blkno + 1) st' avm ltac:(lia)
                      ltac:(apply Z.mod_pos_bound; lia) ltac:(lia))
            as (H1 & H2)
        end.
        split; [exact H1 |]. rewrite H2. cbn [length].
        unfold set_frozenskipped_pages at 1 2. cbn.
        unfold set_frozenskipped_pages. f_equal.
        unfold wrap32. rewrite Zplus_mod_idemp_l. f_equal. lia.
      * destruct (IH (blkno + 1) st avm ltac:(lia) Hfs ltac:(lia))
          as (H1 & H2).
        split; [exact H1 | exact H2].
Qed.

(** X11.  The first serial call with page skipping allowed: when the map
    shows a leading run of at least [SKIP_PAGES_THRESHOLD] skippable blocks,
    the call passes over exactly that run and hands back the first block
    that is not skippable (or [InvalidBlockNumber] when the run is the whole
    relation); [frozenskipped_pages] grows by the number of blocks of the
    run that are all-frozen, or by the whole run in an aggressive vacuum. *)
Theorem serial_first_call_skips_leading_run vm options aggressive st avm :
  0 <= rel_pages st < 2 ^ 32 - 1 ->
  0 <= frozenskipped_pages st < 2 ^ 32 ->
  Z.land options VACOPT_DISABLE_PAGE_SKIPPING = 0 ->
  let n := next_unskippable_from vm aggressive (rel_pages st) 0 in
  SKIP_PAGES_THRESHOLD <= n ->
  let res :=
    lazy_scan_heap_get_nextpage vm options aggressive (lv_beginscan st) st
      avm in
  (forall b, 0 <= b < n -> skippable vm aggressive b = true)
  /\ (n < rel_pages st -> skippable vm aggressive n = false)
  /\ fst res = (if n =? rel_pages st then InvalidBlockNumber else n)
  /\ np_stats (snd res)
     = set_frozenskipped_pages
         (wrap32
            (frozenskipped_pages st
             + Z.of_nat
                 (length
                    (List.filter (fun b => aggressive || VM_ALL_FROZEN vm b)
                       (seqZ 0 n)))))
         st
  /\ lv_cblock (np_lvscan (snd res)) = n + 1.
Proof.
  intros Hrel Hfs Hopt n Hrun.
  destruct (advance_next_unskippable_spec vm aggressive (rel_pages st)
              ltac:(lia) (Z.to_nat (rel_pages st - 0)) 0 ltac:(lia)
              ltac:(lia)) as (Hn1 & Hn2 & Hn3).
  fold (next_unskippable_from vm aggressive (rel_pages st) 0) in Hn1, Hn2, Hn3.
  fold n in Hn1, Hn2, Hn3.
  split; [exact Hn2 |]. split; [exact Hn3 |].
  unfold lazy_scan_heap_get_nextpage, serial_nextpage, lv_beginscan.
  cbn [fst snd np_blkno np_lvscan np_stats lv_cblock lv_nblocks
       lv_next_unskippable_block].
  rewrite Z.eqb_refl. apply Z.eqb_eq in Hopt. rewrite Hopt. cbn [andb].
  fold n. clearbody n.
  assert (Hge : (n >=? SKIP_PAGES_THRESHOLD) = true)
    by (rewrite Z.geb_leb; apply Z.leb_le; exact Hrun).
  rewrite Hge, (Z.sub_0_r (rel_pages st)).
  destruct (serial_page_loop_skip vm options aggressive
              (mkLVScanDesc 0 n (rel_pages st))
              ltac:(cbn [lv_nblocks]; lia)
              ltac:(cbn [lv_nblocks lv_next_unskippable_block]; lia)
              (Z.to_nat (rel_pages st)) 0 st avm
              ltac:(cbn [lv_next_unskippable_block]; lia) Hfs
              ltac:(cbn [lv_nblocks]; lia)) as (H1 & H2).
  cbn [lv_next_unskippable_block lv_nblocks] in H1, H2.
  rewrite Z.sub_0_r in H2.
  pose proof (serial_page_loop_props vm options aggressive true
                (Z.to_nat (rel_pages st)) 0
                (mkLVScanDesc 0 n (rel_pages st)) st avm ltac:(lia)
                ltac:(cbn [lv_nblocks]; lia)) as (_ & _ & H3 & _).
  cbn [lv_nblocks] in H3.
  rewrite H1, H2. unfold nextpage_result. cbn [lv_nblocks]. rewrite H3.
  rewrite (wrap32_small (n + 1)) by lia.
  repeat split; reflexivity.
Qed.

Lemma serial_page_loop_lookahead vm options aggressive skipping :
  forall turns blkno lvscan st avm,
    lv_nblocks lvscan < 2 ^ 32 ->
    0 <= blkno <= lv_next_unskippable_block lvscan ->
    lv_next_unskippable_block lvscan <= lv_nblocks lvscan ->
    (forall b, blkno <= b < lv_next_unskippable_block lvscan ->
               skippable vm aggressive b = true) ->
    (Z.to_nat (lv_nblocks lvscan - blkno) <= turns)%nat ->
    let r :=
      serial_page_loop turns vm options aggressive skipping blkno lvscan st
        avm in
    np_blkno r < lv_nblocks lvscan ->
    np_blkno r + 1 <= lv_next_unskippable_block (np_lvscan r)
                   <= lv_nblocks lvscan
    /\ (forall b,
          np_blkno r + 1 <= b < lv_next_unskippable_block (np_lvscan r) ->
          skippable vm aggressive b = true)
    /\ (Z.land options VACOPT_DISABLE_PAGE_SKIPPING = 0 ->
        (lv_next_unskippable_block lvscan < lv_nblocks lvscan ->
         skippable vm aggressive (lv_next_unskippable_block lvscan) = false) ->
        lv_next_unskippable_block (np_lvscan r) < lv_nblocks lvscan ->
        skippable vm aggressive (lv_next_unskippable_block (np_lvscan r))
        = false).
Proof.
  induction turns as [| turns IH];
    intros blkno lvscan st avm Hn Hb Hnext Hrun Ht.
  - cbn [serial_page_loop np_blkno]. intros Hlt. lia.
  - cbn [serial_page_loop].
    destruct (Z.ltb_spec blkno (lv_nblocks lvscan)) as [Hlt | Hge];
      [| cbn [np_blkno]; intros; lia].
    destruct (Z.eqb_spec blkno (lv_next_unskippable_block lvscan))
      as [Heq | Hne].
    + cbn [np_blkno np_lvscan lv_next_unskippable_block]. intros _.
      rewrite (wrap32_small (lv_next_unskippable_block lvscan + 1)) by lia.
      destruct (Z.eqb_spec (Z.land options VACOPT_DISABLE_PAGE_SKIPPING) 0)
        as [Hopt | Hopt].
      * destruct (advance_next_unskippable_spec vm aggressive
                    (lv_nblocks lvscan) Hn
                    (Z.to_nat (lv_nblocks lvscan
                               - (lv_next_unskippable_block lvscan + 1)))
                    (lv_next_unskippable_block lvscan + 1) ltac:(lia)
                    ltac:(lia)) as (H1 & H2 & H3).
        fold (next_unskippable_from vm aggressive (lv_nblocks lvscan)
                (lv_next_unskippable_block lvscan + 1)) in H1, H2, H3.
        rewrite Heq. split; [lia |]. split; [exact H2 |].
        intros _ _. exact H3.
      * rewrite Heq. split; [lia |]. split; [intros; lia |].
        intros; contradiction.
    + destruct (skipping && negb (FORCE_CHECK_PAGE st blkno blkno)).
      * rewrite (wrap32_small (blkno + 1)) by lia.
        apply IH; try assumption; try lia.
        intros b Hb'. apply Hrun. lia.
      * cbn [np_blkno np_lvscan]. intros _. split; [lia |].
        split; [intros b Hb'; apply Hrun; lia |].
        intros _ Hstop. exact Hstop.
Qed.

(** X12.  The invariant the serial chooser documents for its lookahead:
    with a visibility map that does not change, [lv_next_unskippable_block]
    is never behind [lv_cblock], never beyond [lv_nblocks], every block
    between the two has its map bit, and, when page skipping is allowed and
    the scan has begun, the lookahead stands on a block without the bit or
    at [lv_nblocks].  Every serial call that hands back a block keeps all
    of this, with page skipping allowed or disabled; the descriptor of
    [lv_beginscan] has it, since its [lv_cblock] is zero and nothing lies
    between the two. *)
Theorem lookahead_invariant_kept vm options aggressive lvscan st avm :
  lv_nblocks lvscan < 2 ^ 32 ->
  lvscan_ok vm aggressive lvscan ->
  (Z.land options VACOPT_DISABLE_PAGE_SKIPPING = 0 ->
   lv_cblock lvscan <> 0 ->
   lv_next_unskippable_block lvscan < lv_nblocks lvscan ->
   skippable vm aggressive (lv_next_unskippable_block lvscan) = false) ->
  let res := lazy_scan_heap_get_nextpage vm options aggressive lvscan st avm in
  fst res <> InvalidBlockNumber ->
  lvscan_ok vm aggressive (np_lvscan (snd res))
  /\ lv_cblock (np_lvscan (snd res)) <> 0
  /\ (Z.land options VACOPT_DISABLE_PAGE_SKIPPING = 0 ->
      lv_next_unskippable_block (np_lvscan (snd res))
      < lv_nblocks (np_lvscan (snd res)) ->
      skippable vm aggressive
        (lv_next_unskippable_block (np_lvscan (snd res))) = false).
Proof.
  intros Hn (Hc & Hnext & Hrun) Hstop.
  unfold lazy_scan_heap_get_nextpage, serial_nextpage.
  cbn [fst snd np_blkno np_lvscan np_stats lv_cblock lv_nblocks
       lv_next_unskippable_block].
  set (init := (lv_cblock lvscan =? 0)
               && (Z.land options VACOPT_DISABLE_PAGE_SKIPPING =? 0)).
  set (next := if init then _ else _).
  assert (Hnx : lv_next_unskippable_block lvscan <= next <= lv_nblocks lvscan
                /\ (forall b, lv_cblock lvscan <= b < next ->
                              skippable vm aggressive b = true)
                /\ (Z.land options VACOPT_DISABLE_PAGE_SKIPPING = 0 ->
                    next < lv_nblocks lvscan ->
                    skippable vm aggressive next = false)).
  { subst next. destruct init eqn:Hinit.
    - destruct (advance_next_unskippable_spec vm aggressive
                  (lv_nblocks lvscan) Hn
                  (Z.to_nat (lv_nblocks lvscan
                             - lv_next_unskippable_block lvscan))
                  (lv_next_unskippable_block lvscan) ltac:(lia) ltac:(lia))
        as (H1 & H2 & H3).
      fold (next_unskippable_from vm aggressive (lv_nblocks lvscan)
              (lv_next_unskippable_block lvscan)) in H1, H2, H3.
      split; [exact H1 |]. split; [| intros _; exact H3].
      intros b Hb.
      destruct (Z.lt_ge_cases b (lv_next_unskippable_block lvscan));
        [apply Hrun; lia | apply H2; lia].
    - split; [lia |]. split; [exact Hrun |]. intros Hopt.
      subst init. apply andb_false_iff in Hinit.
      destruct Hinit as [H0 | Ho].
      + apply Z.eqb_neq in H0. exact (Hstop Hopt H0).
      + apply Z.eqb_neq in Ho. contradiction. }
  clearbody next. destruct Hnx as (Hnx1 & Hnx2 & Hnx3).
  set (sk := init && (next >=? SKIP_PAGES_THRESHOLD)). clearbody sk.
  set (lv := mkLVScanDesc (lv_cblock lvscan) next (lv_nblocks lvscan)).
  pose proof (serial_page_loop_props vm options aggressive sk
                (Z.to_nat (lv_nblocks lvscan - lv_cblock lvscan))
                (lv_cblock lvscan) lv st avm ltac:(lia) Hn) as (P1 & P2 & P3 & _).
  pose proof (serial_page_loop_lookahead vm options aggressive sk
                (Z.to_nat (lv_nblocks lvscan - lv_cblock lvscan))
                (lv_cblock lvscan) lv st avm Hn
                ltac:(subst lv; cbn [lv_next_unskippable_block]; lia)
                ltac:(subst lv; cbn [lv_next_unskippable_block lv_nblocks]; lia)
                Hnx2 ltac:(subst lv; cbn [lv_nblocks]; lia)) as L.
  cbv zeta in P1, P2, P3, L.
  set (r := serial_page_loop _ vm options aggressive sk (lv_cblock lvscan) lv
              st avm) in *.
  clearbody r. subst lv.
  cbn [lv_nblocks lv_next_unskippable_block] in P2, P3, L.
  unfold nextpage_result. cbn [lv_nblocks]. rewrite P3.
  destruct (Z.eqb_spec (np_blkno r) (lv_nblocks lvscan)) as [? | Hne];
    [intros H; contradiction |].
  intros _. specialize (P2 ltac:(lia)).
  destruct (L ltac:(lia)) as (L1 & L2 & L3).
  rewrite (wrap32_small (np_blkno r + 1)) by lia.
  split; [| split].
  - unfold lvscan_ok.
    cbn [lv_cblock lv_next_unskippable_block lv_nblocks].
    split; [lia |]. split; [lia | exact L2].
  - lia.
  - intros Hopt. apply L3; [exact Hopt |]. exact (Hnx3 Hopt).
Qed.

(** ** The barrier protocol *)

Ltac wrap_arith :=
  unfold wrap32 in *; change (2 ^ 32) with 4294967296 in *;
  Z.to_euclidean_division_equations; lia.

Ltac vacstate_unfold :=
  unfold VACSTATE_STARTUP, VACSTATE_SCANNING, VACSTATE_VACUUM_PREPARED,
    VACSTATE_VACUUMING, VACSTATE_VACUUM_FINISHED, VACSTATE_COMPLETE in *.

(** Closes a goal [phases_ok a ra b rb] on concrete phases, from the
    hypotheses on the rounds. *)
Ltac phases_solve :=
  unfold phases_ok; cbn [same_round round_ahead];
  first
    [ left; reflexivity
    | right; left; reflexivity
    | right; right; left; split; [first [assumption | congruence | wrap_arith] | reflexivity]
    | right; right; right; left; split;
        [first [assumption | congruence | wrap_arith] | reflexivity]
    | right; right; right; right; split;
        [first [assumption | congruence | wrap_arith] | reflexivity] ].

(** Splits a hypothesis [phases_ok a ra b rb] on concrete phases into the
    cases that can hold. *)
Ltac phases_cases H :=
  unfold phases_ok in H; cbn [same_round round_ahead] in H;
  destruct H as [H | [H | [[? H] | [[? H] | [? H]]]]];
  try discriminate H.

Lemma phases_ok_sym a ra b rb :
  phases_ok a ra b rb -> phases_ok b rb a ra.
Proof.
  unfold phases_ok. intros [H | [H | [[Hr H] | [[Hr H] | [Hr H]]]]].
  - right; left; exact H.
  - left; exact H.
  - right; right; left. split; [congruence |].
    destruct a, b; try discriminate H; reflexivity.
  - right; right; right; right. split; assumption.
  - right; right; right; left. split; assumption.
Qed.

Lemma phases_ok_done a ra rb : phases_ok a ra PhDone rb.
Proof. right; left; reflexivity. Qed.

(** The scan begins. *)
Lemma phases_startup_scan r b rb :
  phases_ok PhStartup r b rb -> phases_ok PhScan r b rb.
Proof. intros H. destruct b; phases_cases H; phases_solve. Qed.

(** Arriving at the Prepared barrier. *)
Lemma phases_scan_prepared r b rb :
  phases_ok PhScan r b rb -> phases_ok PhPrepared r b rb.
Proof. intros H. destruct b; phases_cases H; phases_solve. Qed.

(** Arriving at the Finished barrier. *)
Lemma phases_reclaim_finished r b rb :
  phases_ok PhReclaim r b rb -> phases_ok PhFinished r b rb.
Proof. intros H. destruct b; phases_cases H; phases_solve. Qed.

(** Leaving for the next round. *)
Lemma phases_leaving_scan r b rb :
  0 <= r < 2 ^ 32 -> 0 <= rb < 2 ^ 32 ->
  phases_ok PhLeaving r b rb -> phases_ok PhScan (wrap32 (r + 1)) b rb.
Proof. intros Hr Hrb H. destruct b; phases_cases H; phases_solve. Qed.

(** Passing the Prepared barrier: every other worker is in its quorum. *)
Lemma prepared_member_phases c vw r :
  0 <= r < 2 ^ 32 -> slot_at c vw -> prepared_quorum_member r vw ->
  phases_ok PhPrepared r (pc_phase c) (pc_round c vw) ->
  phases_ok PhReclaim r (pc_phase c) (pc_round c vw).
Proof.
  intros Hr [Hrange Hslot] Hq H.
  unfold prepared_quorum_member in Hq. cbn [In] in Hq.
  destruct c; cbn [pc_phase pc_round] in *; vacstate_unfold;
    try match type of Hslot with _ /\ _ => destruct Hslot as [Hslot ?] end;
    destruct Hq as [[[Hq | [Hq | [Hq | []]]] Hround] | Hq];
    try (rewrite Hslot in Hq; discriminate Hq);
    phases_cases H; try phases_solve; try wrap_arith.
Qed.

(** Passing the Finished barrier: every other worker is in its quorum. *)
Lemma finished_member_phases c vw r :
  0 <= r < 2 ^ 32 -> slot_at c vw -> finished_quorum_member r vw ->
  phases_ok PhFinished r (pc_phase c) (pc_round c vw) ->
  phases_ok PhLeaving r (pc_phase c) (pc_round c vw).
Proof.
  intros Hr [Hrange Hslot] Hq H.
  unfold finished_quorum_member in Hq. cbn [In] in Hq.
  destruct c; cbn [pc_phase pc_round] in *; vacstate_unfold;
    try match type of Hslot with _ /\ _ => destruct Hslot as [Hslot ?] end;
    destruct Hq as [[Hq Hround] | [[[Hq | [Hq | []]] Hround] | Hq]];
    try (rewrite Hslot in Hq; discriminate Hq);
    phases_cases H; try phases_solve; try wrap_arith.
Qed.


Lemma alter_as_insert {A} (f : A -> A) (l : list A) k x :
  l !! k = Some x -> alter f k l = <[k := f x]> l.
Proof.
  intros Hx. apply list_eq. intros j. destruct (decide (j = k)) as [-> | Hne].
  - rewrite list_lookup_alter_eq, Hx. simpl.
    rewrite list_lookup_insert_eq; [reflexivity |].
    apply lookup_lt_Some in Hx. exact Hx.
  - rewrite list_lookup_alter_ne, list_lookup_insert_ne by congruence.
    reflexivity.
Qed.

Lemma set_my_state_insert k st ws vw :
  ws !! k = Some vw ->
  set_my_state k st ws = <[k := mkVacWorker st (round vw)]> ws.
Proof. intros H. unfold set_my_state. rewrite (alter_as_insert _ _ _ _ H). reflexivity. Qed.

Lemma incr_my_round_insert k ws vw :
  ws !! k = Some vw ->
  incr_my_round k ws = <[k := mkVacWorker (state vw) (wrap32 (round vw + 1))]> ws.
Proof. intros H. unfold incr_my_round. rewrite (alter_as_insert _ _ _ _ H). reflexivity. Qed.

(** A step of process [k] touches its own private state and its own slot;
    the invariant is kept when the new slot fits the new place and no other
    worker is left too far behind or ahead. *)
Lemma barrier_ok_update w w' k p p' vw vw' :
  barrier_ok w ->
  w_procs w !! k = Some p -> w_vacworkers w !! k = Some vw ->
  w_procs w' = <[k := p']> (w_procs w) ->
  w_vacworkers w' = <[k := vw']> (w_vacworkers w) ->
  slot_at (pc p') vw' ->
  (forall j q vj,
     j <> k -> w_procs w !! j = Some q -> w_vacworkers w !! j = Some vj ->
     slot_at (pc q) vj ->
     phases_ok (pc_phase (pc p)) (pc_round (pc p) vw)
       (pc_phase (pc q)) (pc_round (pc q) vj) ->
     phases_ok (pc_phase (pc p')) (pc_round (pc p') vw')
       (pc_phase (pc q)) (pc_round (pc q) vj)) ->
  barrier_ok w'.
Proof.
  intros (Hlen & Hslots & Hpairs) Hp Hvw Hprocs' Hvws' Hslot' Hmove.
  assert (Hk1 : (k < length (w_procs w))%nat)
    by (apply lookup_lt_Some in Hp; exact Hp).
  assert (Hk2 : (k < length (w_vacworkers w))%nat)
    by (apply lookup_lt_Some in Hvw; exact Hvw).
  assert (Hproc : forall j q, w_procs w' !! j = Some q ->
                    (j = k /\ q = p') \/ (j <> k /\ w_procs w !! j = Some q)).
  { intros j q. rewrite Hprocs'. destruct (decide (j = k)) as [-> | Hne].
    - rewrite list_lookup_insert_eq by exact Hk1. intros [= <-]. left. tauto.
    - rewrite list_lookup_insert_ne by congruence. right. tauto. }
  assert (Hvwk : forall j v, w_vacworkers w' !! j = Some v ->
                   (j = k /\ v = vw') \/ (j <> k /\ w_vacworkers w !! j = Some v)).
  { intros j v. rewrite Hvws'. destruct (decide (j = k)) as [-> | Hne].
    - rewrite list_lookup_insert_eq by exact Hk2. intros [= <-]. left. tauto.
    - rewrite list_lookup_insert_ne by congruence. right. tauto. }
  split; [rewrite Hprocs', Hvws', !length_insert; exact Hlen |]. split.
  - intros i q v Hq Hv.
    destruct (Hproc i q Hq) as [[-> ->] | [Hne Hq0]];
      destruct (Hvwk _ v Hv) as [[? ->] | [? Hv0]]; try contradiction.
    + exact Hslot'.
    + exact (Hslots i q v Hq0 Hv0).
  - intros i j q1 q2 v1 v2 Hij Hq1 Hv1 Hq2 Hv2.
    destruct (Hproc i q1 Hq1) as [[-> ->] | [Hi Hq1']];
      destruct (Hvwk _ v1 Hv1) as [[? ->] | [? Hv1']]; try contradiction;
      destruct (Hproc j q2 Hq2) as [[-> ->] | [Hj Hq2']];
      destruct (Hvwk _ v2 Hv2) as [[? ->] | [? Hv2']]; try contradiction;
      try congruence.
    + apply (Hmove j q2 v2); try assumption;
        [exact (Hslots j q2 v2 Hq2' Hv2') |].
      apply (Hpairs k j p q2 vw v2); assumption.
    + apply phases_ok_sym.
      apply (Hmove i q1 v1); try assumption;
        [exact (Hslots i q1 v1 Hq1' Hv1') |].
      apply (Hpairs k i p q1 vw v1); try assumption. congruence.
    + apply (Hpairs i j q1 q2 v1 v2); assumption.
Qed.


Lemma wrap32_range x : 0 <= wrap32 x < 2 ^ 32.
Proof. apply Z.mod_pos_bound. lia. Qed.

Lemma pc_round_range c vw : slot_at c vw -> 0 <= pc_round c vw < 2 ^ 32.
Proof.
  intros [Hr _]. destruct c; cbn [pc_round]; try exact Hr. apply wrap32_range.
Qed.

Ltac split_place :=
  repeat match goal with
         | |- context [if ?c then _ else _] => destruct c
         | |- context [match ?c with MidScan _ => _ | FinalCycle => _ end] =>
           destruct c
         | |- context [match ?c with Some _ => _ | None => _ end] => destruct c
         end.

(** Every step of a parallel run keeps the barrier invariant. *)
Lemma step_barrier_ok cfg k w l w' :
  cfg_parallel cfg = true -> run_ok cfg w -> barrier_ok w ->
  step cfg k w l w' -> barrier_ok w'.
Proof.
  intros Hpar Hrun Hok Hstep.
  pose proof Hrun as (Hwf & _ & _).
  pose proof Hok as (Hlen & Hslots & Hpairs).
  destruct Hstep; try assumption; try congruence;
    match goal with
    | Hp : w_procs w !! k = Some ?p |- _ =>
      first
        [ match goal with
          | H : w_vacworkers w !! k = Some ?vw |- _ =>
            pose proof H as Hvw0; pose proof (Hslots k p vw Hp H) as Hslot0
          end
        | destruct (lookup_lt_is_Some_2 (w_vacworkers w) k) as [vw0 Hvw0];
          [rewrite Hlen; apply lookup_lt_Some in Hp; exact Hp |];
          pose proof (Hslots k p vw0 Hp Hvw0) as Hslot0 ]
    end;
    match goal with
    | Hpc : pc ?p = _ |- _ => rewrite Hpc in Hslot0
    end;
    pose proof Hslot0 as [Hrange0 Hstate0];
    try match type of Hstate0 with
        | _ /\ _ => destruct Hstate0 as [Hstate0 Hround0]
        end;
    (eapply barrier_ok_update;
     [ exact Hok | eassumption | exact Hvw0
     | cbn [w_procs]; reflexivity
     | cbn [w_vacworkers]; rewrite ?Hpar;
       first [ apply set_my_state_insert; exact Hvw0
             | apply incr_my_round_insert; exact Hvw0
             | symmetry; apply list_insert_id; exact Hvw0 ]
     | cbn [pc set_pc]; split_place; unfold slot_at; cbn [state round];
       (split; [first [exact Hrange0 | apply wrap32_range] |]);
       first [ assumption | reflexivity
             | split; first [assumption | reflexivity] ]
     | cbn [pc set_pc]; intros j q vj Hne Hq Hvj Hsj Hold;
       match goal with
       | Hpc : pc ?p = _ |- _ => rewrite Hpc in Hold
       end;
       split_place; cbn [pc_phase pc_round state round] in Hold |- *;
       first [ exact Hold
             | apply phases_startup_scan; exact Hold
             | apply phases_scan_prepared; exact Hold
             | apply phases_reclaim_finished; exact Hold
             | left; reflexivity
             | apply phases_leaving_scan;
               [exact Hrange0 | apply pc_round_range; exact Hsj | exact Hold]
             | idtac ] ]).
  - (* the Prepared barrier is passed *)
    rewrite Hround0 in *.
    apply (prepared_member_phases (pc q) vj r); try assumption.
    match goal with
    | Hchk : lazy_check_vacstate_prepared _ _ = true |- _ =>
      apply (lazy_check_vacstate_prepared_quorum _ _ Hwf) in Hchk;
        exact (Forall_lookup_1 _ _ _ _ Hchk Hvj)
    end.
  - (* the Finished barrier is passed *)
    rewrite Hround0 in *.
    apply (finished_member_phases (pc q) vj r); try assumption.
    match goal with
    | Hchk : lazy_check_vacstate_finished _ _ = true |- _ =>
      apply (lazy_check_vacstate_finished_quorum _ _ Hwf) in Hchk;
        exact (Forall_lookup_1 _ _ _ _ Hchk Hvj)
    end.
Qed.


Lemma initial_barrier_ok cfg w :
  cfg_parallel cfg = true -> initial cfg w -> barrier_ok w.
Proof.
  intros Hpar (_ & Hprocs & Hrest). rewrite Hpar in Hrest.
  destruct Hrest as (Hlen & Hvws & _).
  assert (Hslot : forall i p vw,
            w_procs w !! i = Some p -> w_vacworkers w !! i = Some vw ->
            pc p = PcStart /\ vw = mkVacWorker 0 0).
  { intros i p vw Hp Hvw. split.
    - exact (proj1 (Forall_lookup_1 _ _ _ _ Hprocs Hp)).
    - rewrite Hvws in Hvw. apply lookup_replicate in Hvw. tauto. }
  split; [rewrite Hvws, length_replicate, Hlen; reflexivity |]. split.
  - intros i p vw Hp Hvw. destruct (Hslot i p vw Hp Hvw) as [-> ->].
    unfold slot_at. simpl. lia.
  - intros i j p q vi vj _ Hp Hvi Hq Hvj.
    destruct (Hslot i p vi Hp Hvi) as [-> ->].
    destruct (Hslot j q vj Hq Hvj) as [-> ->].
    right; right; left. split; reflexivity.
Qed.

Lemma reachable_barrier_ok cfg w :
  cfg_wf cfg -> cfg_parallel cfg = true -> reachable cfg w -> barrier_ok w.
Proof.
  intros Hwf Hpar Hreach.
  induction Hreach as [w Hinit | w i l w' Hreach IH Hstep].
  - apply (initial_barrier_ok cfg); assumption.
  - apply (step_barrier_ok cfg i w l w'); try assumption.
    apply reachable_run_ok; assumption.
Qed.

(** X13.  In a parallel run, a worker's slot in shared memory always tells
    where the worker stands: zero before it starts, Startup until the scan
    begins, Scanning while it scans, Prepared from its arrival at the
    Prepared barrier until it stores Vacuuming, Vacuuming through the index
    and heap passes, Finished from its arrival at the Finished barrier until
    it stores Scanning again, and Complete at the end; a waiting worker
    waits with the round its slot holds, and the round fits 32 bits. *)
Theorem worker_slot_tells_place cfg w i p :
  cfg_wf cfg -> cfg_parallel cfg = true -> reachable cfg w ->
  w_procs w !! i = Some p ->
  exists vw, w_vacworkers w !! i = Some vw /\ slot_at (pc p) vw.
Proof.
  intros Hwf Hpar Hreach Hp.
  destruct (reachable_barrier_ok cfg w Hwf Hpar Hreach) as (Hlen & Hslots & _).
  destruct (lookup_lt_is_Some_2 (w_vacworkers w) i) as [vw Hvw].
  { rewrite Hlen. apply lookup_lt_Some in Hp. exact Hp. }
  exists vw. split; [exact Hvw | exact (Hslots i p vw Hp Hvw)].
Qed.

Lemma reclaim_neighbour p vi q vj :
  pc_phase (pc p) = PhReclaim ->
  phases_ok (pc_phase (pc p)) (pc_round (pc p) vi)
    (pc_phase (pc q)) (pc_round (pc q) vj) ->
  pc_phase (pc q) = PhDone
  \/ (round vj = round vi
      /\ (pc_phase (pc q) = PhPrepared \/ pc_phase (pc q) = PhReclaim
          \/ pc_phase (pc q) = PhFinished)).
Proof.
  intros Hph H.
  assert (Hri : pc_round (pc p) vi = round vi)
    by (destruct (pc p); try discriminate Hph; reflexivity).
  rewrite Hph, Hri in H.
  destruct (pc q) eqn:Hq; cbn [pc_phase pc_round] in *; phases_cases H;
    auto 6.
Qed.

(** X14.  In a parallel run, while a worker is between the two barriers
    (it has passed the Prepared barrier and not yet arrived at the Finished
    barrier: its index and heap passes), no other worker scans the heap:
    every other worker is Complete, or is in the same round and waits at
    the Prepared barrier, is between the barriers too, or waits at the
    Finished barrier. *)
Theorem no_scan_while_reclaiming cfg w i j p q vi vj :
  cfg_wf cfg -> cfg_parallel cfg = true -> reachable cfg w ->
  i <> j ->
  w_procs w !! i = Some p -> w_vacworkers w !! i = Some vi ->
  w_procs w !! j = Some q -> w_vacworkers w !! j = Some vj ->
  pc_phase (pc p) = PhReclaim ->
  pc_phase (pc q) = PhDone
  \/ (round vj = round vi
      /\ (pc_phase (pc q) = PhPrepared \/ pc_phase (pc q) = PhReclaim
          \/ pc_phase (pc q) = PhFinished)).
Proof.
  intros Hwf Hpar Hreach Hij Hp Hvi Hq Hvj Hph.
  destruct (reachable_barrier_ok cfg w Hwf Hpar Hreach) as (_ & _ & Hpairs).
  apply (reclaim_neighbour p vi q vj Hph).
  exact (Hpairs i j p q vi vj Hij Hp Hvi Hq Hvj).
Qed.


(** X15.  In a parallel run, while a worker is between the two barriers,
    the dead-tuple partitions that [lazy_tid_reaped] and [lazy_vacuum_heap]
    read stay as they are: no step of any process changes them, except that
    worker's own arrival at the Finished barrier when it is the last to
    arrive and clears. *)
Theorem partitions_fixed_while_reclaiming cfg w i p j l w' :
  cfg_wf cfg -> cfg_parallel cfg = true -> reachable cfg w ->
  w_procs w !! i = Some p -> pc_phase (pc p) = PhReclaim ->
  step cfg j w l w' ->
  w_dead_tuples w' = w_dead_tuples w
  \/ (j = i /\ l = LClear /\ exists c, pc p = PcSetFinished c).
Proof.
  intros Hwf Hpar Hreach Hp Hph Hstep.
  pose proof (reachable_barrier_ok cfg w Hwf Hpar Hreach)
    as (Hlen & Hslots & Hpairs).
  pose proof (reachable_run_ok cfg w Hwf Hpar Hreach) as (Hps & _ & _).
  destruct (lookup_lt_is_Some_2 (w_vacworkers w) i) as [vi Hvi].
  { rewrite Hlen. apply lookup_lt_Some in Hp. exact Hp. }
  assert (Hother : forall q, j <> i -> w_procs w !! j = Some q ->
            exists vj, w_vacworkers w !! j = Some vj
              /\ (pc_phase (pc q) = PhDone
                  \/ (round vj = round vi
                      /\ (pc_phase (pc q) = PhPrepared
                          \/ pc_phase (pc q) = PhReclaim
                          \/ pc_phase (pc q) = PhFinished)))).
  { intros q Hji Hq.
    destruct (lookup_lt_is_Some_2 (w_vacworkers w) j) as [vj Hvj].
    { rewrite Hlen. apply lookup_lt_Some in Hq. exact Hq. }
    exists vj. split; [exact Hvj |].
    apply (reclaim_neighbour p vi q vj Hph).
    apply (Hpairs i j p q vi vj); try assumption. congruence. }
  assert (Hscan : forall q, w_procs w !! j = Some q ->
            pc_phase (pc q) = PhStartup \/ pc_phase (pc q) = PhScan -> False).
  { intros q Hq Hsc. destruct (decide (j = i)) as [-> | Hji].
    - rewrite Hp in Hq. injection Hq as <-. destruct Hsc; congruence.
    - destruct (Hother q Hji Hq) as (vj & _ & [Hd | (_ & [Hd | [Hd | Hd]])]);
        destruct Hsc; congruence. }
  destruct Hstep; try (left; reflexivity); try congruence;
    try (exfalso;
         match goal with
         | Hq : w_procs w !! j = Some ?q, Hpc : pc ?q = _ |- _ =>
           apply (Hscan q Hq); rewrite Hpc; cbn [pc_phase]; tauto
         end).
  (* the last to arrive at the Finished barrier *)
  destruct (decide (j = i)) as [-> | Hji].
  - right. split; [reflexivity |]. split; [reflexivity |].
    match goal with
    | Hq : w_procs w !! i = Some ?q, Hpc : pc ?q = PcSetFinished ?c |- _ =>
      rewrite Hp in Hq; injection Hq as <-; exists c; exact Hpc
    end.
  - exfalso.
    match goal with
    | Hq : w_procs w !! j = Some ?q |- _ =>
      destruct (Hother q Hji Hq) as (vj & Hvj & Hcase)
    end.
    match goal with
    | Hv : w_vacworkers w !! j = Some ?v |- _ =>
      rewrite Hvj in Hv; injection Hv as <-
    end.
    assert (Hvi' : ws !! i = Some vi).
    { subst ws. unfold set_my_state.
      rewrite list_lookup_alter_ne by congruence. exact Hvi. }
    assert (Hmem : finished_quorum_member (round vj) vi).
    { match goal with
      | Hfull : fst ?counts + snd ?counts = _ |- _ =>
        apply (lazy_count_vacstate_finished_quorum
                 (mkLVParallelState (cfg_nworkers cfg) ws) (round vj))
          in Hfull;
          [| apply set_my_state_wf; [vacstate_in_list | exact Hps]];
          exact (Forall_lookup_1 _ _ _ _ Hfull Hvi')
      end. }
    pose proof (Hslots i p vi Hp Hvi) as [Hrange Hslot].
    match goal with
    | Hpc : pc _ = PcSetFinished _ |- _ => rewrite Hpc in Hcase
    end.
    cbn [pc_phase] in Hcase.
    destruct Hcase as [Hd | [Hround _]]; [discriminate Hd |].
    unfold finished_quorum_member in Hmem. cbn [In] in Hmem.
    destruct (pc p); try discriminate Hph; vacstate_unfold;
      destruct Hmem as [[Hs _] | [[[Hs | [Hs | []]] Hr] | Hs]];
      try (rewrite Hslot in Hs; discriminate Hs);
      wrap_arith.
Qed.


Lemma Forall_or_lookup {A} (P : A -> Prop) (l : list A) :
  (forall x, P x \/ ~ P x) ->
  Forall P l \/ exists i x, l !! i = Some x /\ ~ P x.
Proof.
  intros Hdec. induction l as [| a l IH].
  - left. constructor.
  - destruct (Hdec a) as [Ha | Hna].
    + destruct IH as [Hall | (i & x & Hx & Hnx)].
      * left. constructor; assumption.
      * right. exists (S i), x. split; assumption.
    + right. exists 0%nat, a. split; [reflexivity | assumption].
Qed.

Lemma prepared_quorum_member_dec r vw :
  prepared_quorum_member r vw \/ ~ prepared_quorum_member r vw.
Proof.
  unfold prepared_quorum_member. cbn [In].
  destruct (Z.eq_dec (state vw) VACSTATE_COMPLETE) as [Hc | Hc];
    [left; right; exact Hc |].
  destruct (Z.eq_dec (round vw) r) as [Hr | Hr]; [| right; tauto].
  destruct (Z.eq_dec VACSTATE_VACUUM_PREPARED (state vw));
    [left; tauto |].
  destruct (Z.eq_dec VACSTATE_VACUUMING (state vw)); [left; tauto |].
  destruct (Z.eq_dec VACSTATE_VACUUM_FINISHED (state vw)); [left; tauto |].
  right. tauto.
Qed.

Lemma finished_quorum_member_dec r vw :
  finished_quorum_member r vw \/ ~ finished_quorum_member r vw.
Proof.
  unfold finished_quorum_member. cbn [In].
  destruct (Z.eq_dec (state vw) VACSTATE_COMPLETE) as [Hc | Hc];
    [left; right; right; exact Hc |].
  destruct (Z.eq_dec (state vw) VACSTATE_VACUUM_FINISHED) as [Hf | Hf];
    destruct (Z.eq_dec (round vw) r) as [Hr | Hr];
    destruct (Z.eq_dec (round vw) (wrap32 (r + 1))) as [Hr1 | Hr1];
    destruct (Z.eq_dec VACSTATE_SCANNING (state vw));
    destruct (Z.eq_dec VACSTATE_VACUUM_PREPARED (state vw));
    tauto.
Qed.

(** What the slot of a waiting or finished worker counts for. *)
Lemma done_slot_counts c vw r :
  slot_at c vw -> pc_phase c = PhDone ->
  prepared_quorum_member r vw /\ finished_quorum_member r vw.
Proof.
  intros [_ Hs] Hph. destruct c; try discriminate Hph.
  split; [right; exact Hs | right; right; exact Hs].
Qed.

Lemma prepared_slot_counts c vw :
  slot_at c vw -> pc_phase c = PhPrepared ->
  prepared_quorum_member (round vw) vw
  /\ forall r, round vw = wrap32 (r + 1) -> finished_quorum_member r vw.
Proof.
  intros [_ Hs] Hph. destruct c; try discriminate Hph.
  destruct Hs as [Hs _]. split.
  - left. split; [rewrite Hs; simpl; tauto | reflexivity].
  - intros r Hr. right; left. split; [rewrite Hs; simpl; tauto | exact Hr].
Qed.

Lemma finished_slot_counts c vw :
  slot_at c vw -> pc_phase c = PhFinished ->
  prepared_quorum_member (round vw) vw
  /\ finished_quorum_member (round vw) vw.
Proof.
  intros [_ Hs] Hph. destruct c; try discriminate Hph.
  destruct Hs as [Hs _]. split.
  - left. split; [rewrite Hs; simpl; tauto | reflexivity].
  - left. split; [exact Hs | reflexivity].
Qed.

Lemma waiting_round c vw :
  pc_phase c = PhPrepared \/ pc_phase c = PhFinished ->
  pc_round c vw = round vw.
Proof. intros [H | H]; destruct c; try discriminate H; reflexivity. Qed.

(** X16.  The barriers never block everyone.  In a parallel run, when
    every worker either waits at one of the two barriers or is done, and
    some worker still waits, then some waiting worker finds its quorum
    complete: its next evaluation of [lazy_check_vacstate_prepared] or
    [lazy_check_vacstate_finished] succeeds. *)
Theorem barriers_never_block_all cfg w :
  cfg_wf cfg -> cfg_parallel cfg = true -> reachable cfg w ->
  (forall i p, w_procs w !! i = Some p ->
     pc_phase (pc p) = PhPrepared \/ pc_phase (pc p) = PhFinished
     \/ pc_phase (pc p) = PhDone) ->
  (exists i p, w_procs w !! i = Some p /\ pc_phase (pc p) <> PhDone) ->
  exists i p r c,
    w_procs w !! i = Some p
    /\ ((pc p = PcWaitPrepared r c
         /\ lazy_check_vacstate_prepared (w_pstate cfg w) r = true)
        \/ (pc p = PcWaitFinished r c
            /\ lazy_check_vacstate_finished (w_pstate cfg w) r = true)).
Proof.
  intros Hwf Hpar Hreach Hall (i0 & p0 & Hp0 & Hnd).
  pose proof (reachable_barrier_ok cfg w Hwf Hpar Hreach)
    as (Hlen & Hslots & Hpairs).
  pose proof (reachable_run_ok cfg w Hwf Hpar Hreach) as (Hps & _ & _).
  assert (Hproc : forall j vj, w_vacworkers w !! j = Some vj ->
            exists q, w_procs w !! j = Some q /\ slot_at (pc q) vj
              /\ (pc_phase (pc q) = PhPrepared \/ pc_phase (pc q) = PhFinished
                  \/ pc_phase (pc q) = PhDone)).
  { intros j vj Hvj.
    destruct (lookup_lt_is_Some_2 (w_procs w) j) as [q Hq].
    { rewrite <- Hlen. apply lookup_lt_Some in Hvj. exact Hvj. }
    exists q. split; [exact Hq |].
    split; [exact (Hslots j q vj Hq Hvj) | exact (Hall j q Hq)]. }
  (* two waiting workers: their rounds *)
  assert (Hpair : forall i j p q vi vj,
            i <> j -> w_procs w !! i = Some p -> w_vacworkers w !! i = Some vi ->
            w_procs w !! j = Some q -> w_vacworkers w !! j = Some vj ->
            pc_phase (pc p) = PhPrepared \/ pc_phase (pc p) = PhFinished ->
            pc_phase (pc q) = PhPrepared \/ pc_phase (pc q) = PhFinished ->
            phases_ok (pc_phase (pc p)) (round vi) (pc_phase (pc q)) (round vj)).
  { intros i j p q vi vj Hij Hp Hvi Hq Hvj Hpp Hpq.
    rewrite <- (waiting_round (pc p) vi Hpp), <- (waiting_round (pc q) vj Hpq).
    exact (Hpairs i j p q vi vj Hij Hp Hvi Hq Hvj). }
  destruct (lookup_lt_is_Some_2 (w_vacworkers w) i0) as [v0 Hv0].
  { rewrite Hlen. apply lookup_lt_Some in Hp0. exact Hp0. }
  pose proof (Hslots i0 p0 v0 Hp0 Hv0) as Hs0.
  destruct (Hall i0 p0 Hp0) as [Hph0 | [Hph0 | Hph0]]; [| | contradiction].
  - (* a worker waits at the Prepared barrier *)
    destruct (pc p0) as [| | | | | | r c | | | | | | | | | | | | | | | |] eqn:Hpc0;
      try discriminate Hph0.
    pose proof Hs0 as [Hr0 [Hst0 Hrd0]].
    destruct (Forall_or_lookup (prepared_quorum_member r) (w_vacworkers w)
                (prepared_quorum_member_dec r)) as [Hq | (j & vj & Hvj & Hnot)].
    { exists i0, p0, r, c. split; [exact Hp0 |]. left.
      split; [exact Hpc0 |].
      apply (lazy_check_vacstate_prepared_quorum _ _ Hps). exact Hq. }
    destruct (Hproc j vj Hvj) as (q & Hq & Hsj & Hphj).
    assert (Hj0 : j <> i0).
    { intros Hji; subst j. rewrite Hv0 in Hvj. injection Hvj as <-.
      apply Hnot. rewrite <- Hrd0.
      exact (proj1 (prepared_slot_counts (PcWaitPrepared r c) v0 Hs0 eq_refl)). }
    destruct Hphj as [Hphj | [Hphj | Hphj]].
    + exfalso. apply Hnot.
      pose proof (Hpair i0 j p0 q v0 vj ltac:(congruence) Hp0 Hv0 Hq Hvj
                    ltac:(rewrite Hpc0; left; reflexivity)
                    ltac:(left; exact Hphj)) as Hok.
      rewrite Hpc0, Hphj in Hok. cbn [pc_phase] in Hok. phases_cases Hok.
      replace r with (round vj) by congruence.
      exact (proj1 (prepared_slot_counts (pc q) vj Hsj Hphj)).
    + pose proof (Hpair i0 j p0 q v0 vj ltac:(congruence) Hp0 Hv0 Hq Hvj
                    ltac:(rewrite Hpc0; left; reflexivity)
                    ltac:(right; exact Hphj)) as Hok.
      rewrite Hpc0, Hphj in Hok. cbn [pc_phase] in Hok. phases_cases Hok.
      * exfalso. apply Hnot. replace r with (round vj) by congruence.
        exact (proj1 (finished_slot_counts (pc q) vj Hsj Hphj)).
      * (* the worker at the Finished barrier of the round before passes *)
        destruct (pc q) as [| | | | | | | | | | | | rq cq | | | | | | | | | |]
          eqn:Hpcq; try discriminate Hphj.
        pose proof Hsj as [Hrj [Hstj Hrdj]].
        exists j, q, rq, cq. split; [exact Hq |]. right.
        split; [exact Hpcq |].
        apply (lazy_check_vacstate_finished_quorum _ _ Hps).
        apply Forall_lookup. intros k vk Hvk.
        unfold w_pstate in Hvk. cbn [vacworkers] in Hvk.
        destruct (Hproc k vk Hvk) as (qk & Hqk & Hsk & Hphk).
        destruct Hphk as [Hphk | [Hphk | Hphk]].
        -- destruct (decide (k = i0)) as [Hk0 | Hk0]; [subst k |].
           ++ rewrite Hv0 in Hvk. injection Hvk as <-.
              apply (proj2 (prepared_slot_counts (pc qk) v0 Hsk Hphk)).
              congruence.
           ++ pose proof (Hpair i0 k p0 qk v0 vk ltac:(congruence) Hp0 Hv0 Hqk
                            Hvk ltac:(rewrite Hpc0; left; reflexivity)
                            ltac:(left; exact Hphk)) as Hok'.
              rewrite Hpc0, Hphk in Hok'. cbn [pc_phase] in Hok'.
              phases_cases Hok'.
              apply (proj2 (prepared_slot_counts (pc qk) vk Hsk Hphk)).
              congruence.
        -- destruct (decide (k = j)) as [Hkj | Hkj]; [subst k |].
           ++ rewrite Hvj in Hvk. injection Hvk as <-.
              replace rq with (round vj) by congruence.
              apply (proj2 (finished_slot_counts (pc qk) vj Hsk Hphk)).
           ++ pose proof (Hpair j k q qk vj vk ltac:(congruence) Hq Hvj Hqk
                            Hvk ltac:(rewrite Hpcq; right; reflexivity)
                            ltac:(right; exact Hphk)) as Hok'.
              rewrite Hpcq, Hphk in Hok'. cbn [pc_phase] in Hok'.
              phases_cases Hok'.
              replace rq with (round vk) by congruence.
              apply (proj2 (finished_slot_counts (pc qk) vk Hsk Hphk)).
        -- exact (proj2 (done_slot_counts (pc qk) vk rq Hsk Hphk)).
    + exfalso. apply Hnot.
      exact (proj1 (done_slot_counts (pc q) vj r Hsj Hphj)).
  - (* a worker waits at the Finished barrier *)
    destruct (pc p0) as [| | | | | | | | | | | | r c | | | | | | | | | |] eqn:Hpc0;
      try discriminate Hph0.
    pose proof Hs0 as [Hr0 [Hst0 Hrd0]].
    destruct (Forall_or_lookup (finished_quorum_member r) (w_vacworkers w)
                (finished_quorum_member_dec r)) as [Hq | (j & vj & Hvj & Hnot)].
    { exists i0, p0, r, c. split; [exact Hp0 |]. right.
      split; [exact Hpc0 |].
      apply (lazy_check_vacstate_finished_quorum _ _ Hps). exact Hq. }
    destruct (Hproc j vj Hvj) as (q & Hq & Hsj & Hphj).
    assert (Hj0 : j <> i0).
    { intros Hji; subst j. rewrite Hv0 in Hvj. injection Hvj as <-.
      apply Hnot. rewrite <- Hrd0.
      exact (proj2 (finished_slot_counts (PcWaitFinished r c) v0 Hs0 eq_refl)). }
    destruct Hphj as [Hphj | [Hphj | Hphj]].
    + pose proof (Hpair i0 j p0 q v0 vj ltac:(congruence) Hp0 Hv0 Hq Hvj
                    ltac:(rewrite Hpc0; right; reflexivity)
                    ltac:(left; exact Hphj)) as Hok.
      rewrite Hpc0, Hphj in Hok. cbn [pc_phase] in Hok. phases_cases Hok.
      * (* the worker at the Prepared barrier of this round passes *)
        destruct (pc q) as [| | | | | | rq cq | | | | | | | | | | | | | | | |]
          eqn:Hpcq; try discriminate Hphj.
        pose proof Hsj as [Hrj [Hstj Hrdj]].
        exists j, q, rq, cq. split; [exact Hq |]. left.
        split; [exact Hpcq |].
        apply (lazy_check_vacstate_prepared_quorum _ _ Hps).
        apply Forall_lookup. intros k vk Hvk.
        unfold w_pstate in Hvk. cbn [vacworkers] in Hvk.
        destruct (Hproc k vk Hvk) as (qk & Hqk & Hsk & Hphk).
        destruct Hphk as [Hphk | [Hphk | Hphk]].
        -- destruct (decide (k = j)) as [Hkj | Hkj]; [subst k |].
           ++ rewrite Hvj in Hvk. injection Hvk as <-.
              replace rq with (round vj) by congruence.
              apply (proj1 (prepared_slot_counts (pc qk) vj Hsk Hphk)).
           ++ pose proof (Hpair j k q qk vj vk ltac:(congruence) Hq Hvj Hqk
                            Hvk ltac:(rewrite Hpcq; left; reflexivity)
                            ltac:(left; exact Hphk)) as Hok'.
              rewrite Hpcq, Hphk in Hok'. cbn [pc_phase] in Hok'.
              phases_cases Hok'.
              replace rq with (round vk) by congruence.
              apply (proj1 (prepared_slot_counts (pc qk) vk Hsk Hphk)).
        -- destruct (decide (k = i0)) as [Hk0 | Hk0]; [subst k |].
           ++ rewrite Hv0 in Hvk. injection Hvk as <-.
              replace rq with (round v0) by congruence.
              apply (proj1 (finished_slot_counts (pc qk) v0 Hsk Hphk)).
           ++ pose proof (Hpair i0 k p0 qk v0 vk ltac:(congruence) Hp0 Hv0 Hqk
                            Hvk ltac:(rewrite Hpc0; right; reflexivity)
                            ltac:(right; exact Hphk)) as Hok'.
              rewrite Hpc0, Hphk in Hok'. cbn [pc_phase] in Hok'.
              phases_cases Hok'.
              replace rq with (round vk) by congruence.
              apply (proj1 (finished_slot_counts (pc qk) vk Hsk Hphk)).
        -- exact (proj1 (done_slot_counts (pc qk) vk rq Hsk Hphk)).
      * exfalso. apply Hnot.
        apply (proj2 (prepared_slot_counts (pc q) vj Hsj Hphj)). congruence.
    + exfalso. apply Hnot.
      pose proof (Hpair i0 j p0 q v0 vj ltac:(congruence) Hp0 Hv0 Hq Hvj
                    ltac:(rewrite Hpc0; right; reflexivity)
                    ltac:(right; exact Hphj)) as Hok.
      rewrite Hpc0, Hphj in Hok. cbn [pc_phase] in Hok. phases_cases Hok.
      replace r with (round vj) by congruence.
      exact (proj2 (finished_slot_counts (pc q) vj Hsj Hphj)).
    + exfalso. apply Hnot.
      exact (proj2 (done_slot_counts (pc q) vj r Hsj Hphj)).
Qed.


(** ** Room in the dead-tuple array *)

Lemma Forall_alter_inv {A} (P : A -> Prop) (f : A -> A) (l : list A) k :
  Forall P (alter f k l) ->
  (forall v, l !! k = Some v -> P (f v) -> P v) ->
  Forall P l.
Proof.
  intros Hall Hk. apply Forall_lookup. intros m v Hv.
  destruct (decide (m = k)) as [Hmk | Hmk].
  - subst m. apply (Hk v Hv).
    apply (Forall_lookup_1 _ _ k (f v) Hall).
    rewrite list_lookup_alter_eq, Hv. reflexivity.
  - apply (Forall_lookup_1 _ _ m v Hall).
    rewrite list_lookup_alter_ne by congruence. exact Hv.
Qed.

Ltac fol_cases H :=
  unfold finished_or_leaving, finished_quorum_member in H; cbn [In] in H;
  cbn [state round] in H;
  destruct H as [[[H ?] | [[[H | [H | []]] ?] | H]] | [H ?]].

Ltac fol_solve :=
  unfold finished_or_leaving, finished_quorum_member; cbn [In];
  cbn [state round]; vacstate_unfold;
  first
    [ left; left; split; first [congruence | wrap_arith]
    | left; right; left; split;
        [ first [left; congruence | right; left; congruence]
        | first [congruence | wrap_arith] ]
    | left; right; right; congruence
    | right; split; first [congruence | wrap_arith] ].

(** When the Finished barrier of round [r] is over for every slot after a
    step of process [k], while another worker waits at it, it was over
    before the step too, unless the step is the last arrival, which
    clears. *)
Lemma leaving_quorum_step cfg k w l w' j q r c :
  cfg_parallel cfg = true -> run_ok cfg w -> barrier_ok w ->
  step cfg k w l w' ->
  j <> k -> w_procs w !! j = Some q -> pc q = PcWaitFinished r c ->
  Forall (finished_or_leaving r) (w_vacworkers w') ->
  Forall (finished_or_leaving r) (w_vacworkers w)
  \/ exists p,
       w_procs w !! k = Some p
       /\ w_dead_tuples w'
          = lazy_clear_dead_tuple false (nindexes (stats p)) (cfg_nworkers cfg)
              k (w_dead_tuples w).
Proof.
  intros Hpar Hrun Hok Hstep Hjk Hq Hpcq Hall.
  pose proof Hrun as (Hwf & _ & _).
  pose proof Hok as (Hlen & Hslots & Hpairs).
  destruct (lookup_lt_is_Some_2 (w_vacworkers w) j) as [vj Hvj].
  { rewrite Hlen. apply lookup_lt_Some in Hq. exact Hq. }
  pose proof (Hslots j q vj Hq Hvj) as Hsj. rewrite Hpcq in Hsj.
  destruct Hsj as [Hrj [Hstj Hrdj]].
  assert (Hview : forall p vk,
            w_procs w !! k = Some p -> w_vacworkers w !! k = Some vk ->
            slot_at (pc p) vk
            /\ phases_ok (pc_phase (pc p)) (pc_round (pc p) vk) PhFinished r).
  { intros p vk Hp Hvk. split; [exact (Hslots k p vk Hp Hvk) |].
    pose proof (Hpairs k j p q vk vj ltac:(congruence) Hp Hvk Hq Hvj) as H.
    rewrite Hpcq in H. cbn [pc_phase pc_round] in H. rewrite Hrdj in H.
    exact H. }
  destruct Hstep; try (left; exact Hall); try congruence;
    cbn [w_vacworkers w_dead_tuples] in Hall |- *;
    rewrite ?Hpar in Hall;
    try (left; exact Hall).
  all: try (left; unfold set_my_state, incr_my_round in Hall;
       apply (Forall_alter_inv _ _ _ k Hall); intros vk Hvk Hnew;
       match goal with
       | Hp : w_procs _ !! _ = Some ?p, Hpc : pc ?p = _ |- _ =>
         destruct (Hview p vk Hp Hvk) as [[Hrk Hsk] Hph];
           rewrite Hpc in Hsk, Hph
       end;
       cbn [pc_phase pc_round] in Hph;
       try match type of Hsk with _ /\ _ => destruct Hsk as [Hsk ?] end;
       phases_cases Hph; fol_cases Hnew; vacstate_unfold;
       try discriminate; try congruence;
       solve [fol_solve | exfalso; wrap_arith]).
  - (* the last arrival *)
    right. exists p. split; [assumption | reflexivity].
  - (* an arrival that is not the last *)
    exfalso.
    match goal with
    | Hp : w_procs w !! k = Some ?p, Hpc : pc ?p = PcSetFinished ?c0,
      Hvk : w_vacworkers w !! k = Some ?vk |- _ =>
      destruct (Hview p vk Hp Hvk) as [[Hrk Hsk] Hph];
        rewrite Hpc in Hsk, Hph; cbn [pc_phase pc_round] in Hph;
        phases_cases Hph;
        assert (Hround : round vk = r) by assumption
    end.
    destruct (Forall_or_lookup (finished_quorum_member r) ws
                (finished_quorum_member_dec r)) as [Hq' | (m & vm & Hvm & Hnot)].
    { match goal with
      | Hne : fst _ + snd _ <> _ |- _ => apply Hne
      end.
      apply (lazy_count_vacstate_finished_quorum
               (mkLVParallelState (cfg_nworkers cfg) ws) (round vw)).
      - apply set_my_state_wf; [vacstate_in_list | exact Hwf].
      - rewrite Hround. exact Hq'. }
    pose proof (Forall_lookup_1 _ _ _ _ Hall Hvm) as [Hm | [Hsm Hrm]];
      [contradiction |].
    assert (Hmk : m <> k).
    { intros ->. subst ws. unfold set_my_state in Hvm.
      rewrite list_lookup_alter_eq in Hvm.
      match goal with
      | Hvk : w_vacworkers w !! k = Some _ |- _ => rewrite Hvk in Hvm
      end.
      injection Hvm as <-. discriminate Hsm. }
    subst ws. unfold set_my_state in Hvm.
    rewrite list_lookup_alter_ne in Hvm by congruence.
    destruct (lookup_lt_is_Some_2 (w_procs w) m) as [qm Hqm].
    { rewrite <- Hlen. apply lookup_lt_Some in Hvm. exact Hvm. }
    pose proof (Hslots m qm vm Hqm Hvm) as [_ Hslm].
    match goal with
    | Hp : w_procs w !! k = Some ?p, Hpc : pc ?p = PcSetFinished ?c0,
      Hvk : w_vacworkers w !! k = Some ?vk |- _ =>
      pose proof (Hpairs k m p qm vk vm ltac:(congruence) Hp Hvk Hqm Hvm) as Hkm;
        rewrite Hpc in Hkm
    end.
    cbn [pc_phase pc_round] in Hkm.
    destruct (pc qm); cbn [pc_phase pc_round] in Hkm; vacstate_unfold;
      try match type of Hslm with _ /\ _ => destruct Hslm as [Hslm ?] end;
      try (rewrite Hslm in Hsm; discriminate Hsm);
      phases_cases Hkm.
Qed.


(** A step of process [k] leaves the other processes' private state as it
    is, and their partitions as they are or reset. *)
Lemma step_frame cfg k w l w' j :
  cfg_parallel cfg = true -> step cfg k w l w' -> j <> k ->
  w_procs w' !! j = w_procs w !! j
  /\ forall dt', w_dead_tuples w' !! j = Some dt' ->
       exists dt, w_dead_tuples w !! j = Some dt
                  /\ (dt' = dt \/ dt' = reset_n_dt dt).
Proof.
  intros Hpar Hstep Hjk.
  assert (Hsame : forall dt' : LVDeadTuple,
            w_dead_tuples w !! j = Some dt' ->
            exists dt, w_dead_tuples w !! j = Some dt
                       /\ (dt' = dt \/ dt' = reset_n_dt dt)).
  { intros dt' H. exists dt'. split; [exact H | left; reflexivity]. }
  destruct Hstep; try congruence; cbn [w_procs w_dead_tuples];
    rewrite ?Hpar;
    (split;
     [ first [reflexivity | apply list_lookup_insert_ne; congruence]
     | first [ exact Hsame
             | rewrite list_lookup_alter_ne by congruence; exact Hsame
             | rewrite list_lookup_insert_ne by congruence; exact Hsame
             | apply lazy_clear_dead_tuple_lookup ] ]).
Qed.


Lemma scan_item_n_dt max_dead blkno offnum itemid my ps :
  n_dt (fst (scan_item max_dead blkno offnum itemid my ps)) <= n_dt my + 1.
Proof.
  assert (Hrec : forall e,
            n_dt (lazy_record_dead_tuple max_dead my e) <= n_dt my + 1).
  { intros e. unfold lazy_record_dead_tuple.
    destruct (n_dt my <? max_dead); simpl; lia. }
  unfold scan_item. destruct itemid as [| | | tuple]; simpl; try lia;
    [apply Hrec |].
  destruct (match tup_status tuple with
            | HEAPTUPLE_DEAD => _
            | _ => false
            end); simpl; [apply Hrec | lia].
Qed.

Lemma room_at_frame cfg vws vws' c dt dt' :
  MaxHeapTuplesPerPage <= cfg_max_dead_tuples cfg ->
  room_at cfg vws c dt ->
  dt' = dt \/ dt' = reset_n_dt dt ->
  (forall r c', c = PcWaitFinished r c' ->
     Forall (finished_or_leaving r) vws' ->
     Forall (finished_or_leaving r) vws \/ n_dt dt' = 0) ->
  room_at cfg vws' c dt'.
Proof.
  intros HM Hroom Hdt Hover.
  destruct c; cbn [room_at] in *; try exact I;
    try match goal with c1 : Cycle |- _ => destruct c1 end; try exact I;
    try match type of Hroom with
        | _ /\ _ => destruct Hroom as [Hpar Hroom]; split; [exact Hpar |]
        end;
    try (intros Hnew;
         first [ destruct (Hover _ _ eq_refl Hnew) as [Hold | Hz];
                 [specialize (Hroom Hold) | exact Hz]
               | specialize (Hroom Hnew) ]);
    destruct Hdt as [-> | ->]; cbn [reset_n_dt n_dt];
    try assumption; try reflexivity; try tauto; try lia.
Qed.


(** After an arrival at the Finished barrier that is not the last, the
    barrier is not over. *)
Lemma arrival_not_last cfg w k p c vw :
  run_ok cfg w -> barrier_ok w ->
  w_procs w !! k = Some p -> pc p = PcSetFinished c ->
  w_vacworkers w !! k = Some vw ->
  let ws := set_my_state k VACSTATE_VACUUM_FINISHED (w_vacworkers w) in
  let counts :=
    lazy_count_vacstate_finished
      (mkLVParallelState (cfg_nworkers cfg) ws) (round vw) in
  fst counts + snd counts <> cfg_nworkers cfg ->
  ~ Forall (finished_or_leaving (round vw)) ws.
Proof.
  intros (Hwf & _ & _) (Hlen & Hslots & Hpairs) Hp Hpc Hvk ws counts Hne Hall.
  destruct (Forall_or_lookup (finished_quorum_member (round vw)) ws
              (finished_quorum_member_dec (round vw)))
    as [Hq' | (m & vm & Hvm & Hnot)].
  { apply Hne.
    apply (lazy_count_vacstate_finished_quorum
             (mkLVParallelState (cfg_nworkers cfg) ws) (round vw));
      [apply set_my_state_wf; [vacstate_in_list | exact Hwf] | exact Hq']. }
  pose proof (Forall_lookup_1 _ _ _ _ Hall Hvm) as [Hm | [Hsm Hrm]];
    [contradiction |].
  assert (Hmk : m <> k).
  { intros ->. subst ws. unfold set_my_state in Hvm.
    rewrite list_lookup_alter_eq, Hvk in Hvm.
    injection Hvm as <-. discriminate Hsm. }
  subst ws. unfold set_my_state in Hvm.
  rewrite list_lookup_alter_ne in Hvm by congruence.
  destruct (lookup_lt_is_Some_2 (w_procs w) m) as [qm Hqm].
  { rewrite <- Hlen. apply lookup_lt_Some in Hvm. exact Hvm. }
  pose proof (Hslots m qm vm Hqm Hvm) as [_ Hslm].
  pose proof (Hpairs k m p qm vw vm ltac:(congruence) Hp Hvk Hqm Hvm) as Hkm.
  rewrite Hpc in Hkm. cbn [pc_phase pc_round] in Hkm.
  destruct (pc qm); cbn [pc_phase pc_round] in Hkm; vacstate_unfold;
    try match type of Hslm with _ /\ _ => destruct Hslm as [Hslm ?] end;
    try (rewrite Hslm in Hsm; discriminate Hsm);
    phases_cases Hkm.
Qed.

Lemma step_proc cfg k w l w' :
  step cfg k w l w' -> exists p, w_procs w !! k = Some p.
Proof. intros H. destruct H; eexists; eassumption. Qed.

Ltac split_place_eqn :=
  repeat match goal with
         | |- context [if ?c then _ else _] =>
           let E := fresh "Hcond" in destruct c eqn:E
         | |- context [match ?c with MidScan _ => _ | FinalCycle => _ end] =>
           destruct c
         | |- context [match ?c with Some _ => _ | None => _ end] => destruct c
         end.

(** ** A relation without indexes *)

Lemma serial_page_loop_nindexes vm options aggressive skipping :
  forall turns blkno lvscan st avm,
    nindexes
      (np_stats
         (serial_page_loop turns vm options aggressive skipping blkno lvscan
            st avm))
    = nindexes st.
Proof.
  induction turns as [| turns IH]; intros blkno lvscan st avm;
    cbn [serial_page_loop]; [reflexivity |].
  destruct (blkno <? lv_nblocks lvscan); [| reflexivity].
  destruct (blkno =? lv_next_unskippable_block lvscan); [reflexivity |].
  destruct (skipping && negb (FORCE_CHECK_PAGE st blkno blkno));
    [| reflexivity].
  rewrite IH. destruct (aggressive || VM_ALL_FROZEN vm blkno); reflexivity.
Qed.

Lemma lazy_scan_heap_get_nextpage_nindexes vm options aggressive lvscan st
    avm :
  nindexes
    (np_stats
       (snd (lazy_scan_heap_get_nextpage vm options aggressive lvscan st avm)))
  = nindexes st.
Proof.
  unfold lazy_scan_heap_get_nextpage, serial_nextpage.
  cbn [snd np_stats]. apply serial_page_loop_nindexes.
Qed.

Lemma lazy_clear_dead_tuple_own pn nw me (dts : list LVDeadTuple) :
  lazy_clear_dead_tuple pn 0 nw me dts = alter reset_n_dt me dts.
Proof.
  unfold lazy_clear_dead_tuple. rewrite Z.eqb_refl, andb_false_r.
  reflexivity.
Qed.

(** Every step of a run over a relation without indexes keeps it a
    one-pass run. *)
Lemma step_one_pass_ok cfg k w l w' :
  cfg_wf cfg -> world_ok cfg w -> one_pass_ok w -> step cfg k w l w' ->
  one_pass_ok w'.
Proof.
  intros Hwf Hw Hone Hstep j q Hq.
  pose proof Hw as (_ & Hsingle & _ & _ & Hparts).
  destruct (step_proc cfg k w l w' Hstep) as [pk Hpk].
  destruct (Hone k pk Hpk) as (Hnk & Hck & Hdk).
  destruct (decide (j = k)) as [Hjk | Hjk].
  2: { (* another process *)
    assert (Hframe : w_procs w' !! j = w_procs w !! j
                     /\ w_dead_tuples w' !! j = w_dead_tuples w !! j).
    { destruct Hstep; try (split; reflexivity);
        match goal with
        | Hp : w_procs w !! k = Some ?p |- _ =>
          rewrite Hpk in Hp; injection Hp as <-
        end;
        cbn [w_procs w_dead_tuples]; rewrite ?Hnk, ?lazy_clear_dead_tuple_own;
        (split;
         [ apply list_lookup_insert_ne; congruence
         | first [ reflexivity
                 | apply list_lookup_alter_ne; congruence
                 | apply list_lookup_insert_ne; congruence
                 | idtac ] ]).
      (* lazy_space_alloc *)
      destruct (cfg_parallel cfg) eqn:Hpar;
        [apply list_lookup_alter_ne; congruence |].
      exfalso. cbn [w_procs] in Hq. apply lookup_lt_Some in Hpk, Hq.
      rewrite length_insert in Hq. specialize (Hsingle eq_refl). lia. }
    destruct Hframe as [Hfp Hfd]. rewrite Hfp in Hq. rewrite Hfd.
    exact (Hone j q Hq). }
  subst j.
  destruct Hstep;
    match goal with
    | Hp : w_procs w !! k = Some ?p |- _ =>
      rewrite Hpk in Hp; injection Hp as <-
    end;
    try exact (conj Hnk (conj Hck Hdk));
    try match goal with
        | Hpc : pc pk = _ |- _ =>
          rewrite Hpc in Hck, Hdk; cbn [pc_cycle pc_on_page] in Hck, Hdk;
          try discriminate Hck
        end;
    lazy beta iota delta [w_procs] in Hq;
    rewrite list_lookup_insert_eq in Hq
      by (apply lookup_lt_Some in Hpk; exact Hpk);
    apply (inj Some) in Hq; subst q;
    cbn [w_dead_tuples];
    try (cbn [stats pc set_pc pc_cycle pc_on_page];
         repeat split;
         [ assumption | intros dt Hdt _; exact (Hdk dt Hdt eq_refl) ]).
  - (* lazy_space_alloc *)
    cbn [stats pc pc_cycle pc_on_page]. subst st. repeat split; [exact Hnk |].
    intros dt Hdt _. destruct (cfg_parallel cfg) eqn:Hpar.
    + destruct (lookup_lt_is_Some_2 (w_dead_tuples w) k) as [d0 Hd0].
      { apply lookup_lt_Some in Hdt. rewrite length_alter in Hdt. exact Hdt. }
      rewrite list_lookup_alter_eq, Hd0 in Hdt. injection Hdt as <-.
      reflexivity.
    + apply lookup_lt_Some in Hpk. specialize (Hsingle eq_refl).
      destruct k as [| k]; [| lia]. injection Hdt as <-. reflexivity.
  - (* lazy_scan_heap_get_nextpage, serial *)
    cbn [stats pc]. repeat split.
    + subst r. rewrite lazy_scan_heap_get_nextpage_nindexes. exact Hnk.
    + destruct (fst r =? InvalidBlockNumber); reflexivity.
    + intros dt Hdt _. exact (Hdk dt Hdt eq_refl).
  - (* lazy_scan_heap_get_nextpage, parallel *)
    cbn [stats pc]. repeat split.
    + subst d. rewrite parallel_consider_page_nindexes. exact Hnk.
    + destruct (fst (fst d)); [reflexivity |].
      destruct (nextpage_result (lvscan pk) blkno =? InvalidBlockNumber);
        reflexivity.
    + intros dt Hdt _. exact (Hdk dt Hdt eq_refl).
  - (* the capacity check finds the partition empty *)
    match goal with
    | Hmy : w_dead_tuples w !! k = Some my |- _ =>
      rewrite (Hdk my Hmy eq_refl)
    end.
    cbn [Z.gtb Z.compare]. rewrite andb_false_r.
    cbn [stats pc set_pc pc_cycle pc_on_page].
    repeat split; [assumption |]. intros dt Hdt _. exact (Hdk dt Hdt eq_refl).
  - (* the page is opened *)
    cbn [stats pc]. repeat split.
    + subst r. rewrite open_page_nindexes. exact Hnk.
    + destruct (snd r); reflexivity.
    + intros dt Hdt Hon. destruct (snd r); [discriminate Hon |].
      exact (Hdk dt Hdt eq_refl).
  - (* one line pointer *)
    cbn [stats pc set_pc pc_cycle pc_on_page].
    repeat split; [assumption | discriminate].
  - (* the line pointers are done *)
    cbn [stats pc set_pc pc_cycle pc_on_page].
    repeat split; [assumption | discriminate].
  - (* lazy_vacuum_page at the end of the page *)
    cbn [stats pc set_pc pc_cycle pc_on_page].
    repeat split; [assumption |]. intros dt Hdt _.
    rewrite Hnk, lazy_clear_dead_tuple_own in Hdt.
    match goal with
    | Hmy : w_dead_tuples w !! k = Some my |- _ =>
      rewrite list_lookup_alter_eq, Hmy in Hdt
    end.
    injection Hdt as <-. reflexivity.
  - (* nothing was recorded on the page *)
    cbn [stats pc set_pc pc_cycle pc_on_page].
    repeat split; [assumption |]. intros dt Hdt _.
    destruct (Hparts k pk dt Hpk Hdt) as ((Hn & _) & _).
    match goal with
    | Hmy : w_dead_tuples w !! k = Some my, Hno : ~ _ |- _ =>
      rewrite Hdt in Hmy; injection Hmy as <-;
      destruct (Z.eq_dec (n_dt dt) 0) as [Hz | Hz]; [exact Hz |];
      exfalso; apply Hno; split; [exact Hnk | lia]
    end.
  - (* the visibility-map chain *)
    cbn [stats pc pc_cycle pc_on_page]. repeat split.
    + destruct (hastup ps); exact Hnk.
    + intros dt Hdt _. exact (Hdk dt Hdt eq_refl).
  - (* the scan ends with the partition empty *)
    match goal with
    | Hmy : w_dead_tuples w !! k = Some my |- _ =>
      rewrite (Hdk my Hmy eq_refl)
    end.
    cbn [Z.gtb Z.compare stats pc set_pc pc_cycle pc_on_page].
    repeat split; [assumption |]. intros dt Hdt _. exact (Hdk dt Hdt eq_refl).
Qed.


Lemma initial_one_pass_ok cfg w :
  cfg_nindexes cfg = 0 -> initial cfg w -> one_pass_ok w.
Proof.
  intros Hidx (_ & Hprocs & Hshape) i p Hp.
  destruct (Forall_lookup_1 _ _ _ _ Hprocs Hp) as [Hpc Hst].
  rewrite Hpc, Hst. cbn [start_stats nindexes pc_cycle pc_on_page].
  repeat split; [exact Hidx |]. intros dt Hdt _.
  destruct (cfg_parallel cfg).
  - destruct Hshape as (_ & _ & Hdts). rewrite Hdts in Hdt.
    apply lookup_replicate in Hdt as [-> _]. reflexivity.
  - destruct Hshape as (_ & _ & Hdts). rewrite Hdts in Hdt. discriminate Hdt.
Qed.

Lemma reachable_one_pass_ok cfg w :
  cfg_wf cfg -> cfg_nindexes cfg = 0 -> reachable cfg w -> one_pass_ok w.
Proof.
  intros Hwf Hidx Hreach.
  induction Hreach as [w Hinit | w i l w' Hreach IH Hstep].
  - apply (initial_one_pass_ok cfg); assumption.
  - apply (step_one_pass_ok cfg i w l w'); try assumption.
    apply reachable_world_ok; assumption.
Qed.

(** X21.  A relation without indexes is vacuumed in one pass.  Throughout
    a run with [nindexes = 0], serial or parallel, no process is ever in a
    reclaim cycle (neither barrier, [lazy_vacuum_index] nor
    [lazy_vacuum_heap] is reached), no step consults
    [lazy_tid_reaped], and a partition holds identifiers only while its
    owner is inside a page: what a page adds is removed by
    [lazy_vacuum_page] and [lazy_clear_dead_tuple] at the end of that
    page. *)
Theorem no_index_one_pass cfg w :
  cfg_wf cfg -> cfg_nindexes cfg = 0 -> reachable cfg w ->
  (forall i p,
     w_procs w !! i = Some p ->
     pc_cycle (pc p) = None
     /\ forall dt,
          w_dead_tuples w !! i = Some dt -> pc_on_page (pc p) = false ->
          n_dt dt = 0)
  /\ (forall k l w', step cfg k w l w' -> l <> LReap).
Proof.
  intros Hwf Hidx Hreach.
  pose proof (reachable_one_pass_ok cfg w Hwf Hidx Hreach) as Hone.
  split.
  - intros i p Hp. destruct (Hone i p Hp) as (_ & Hc & Hd).
    split; assumption.
  - intros k l w' Hstep. destruct Hstep; try discriminate.
    match goal with
    | Hp : w_procs w !! k = Some ?p, Hpc : pc ?p = _ |- _ =>
      destruct (Hone k p Hp) as (_ & Hc & _); rewrite Hpc in Hc;
      discriminate Hc
    end.
Qed.

(** Every step keeps the room a process counts on. *)
Lemma step_room_ok cfg k w l w' :
  cfg_wf cfg -> MaxHeapTuplesPerPage <= cfg_max_dead_tuples cfg ->
  (cfg_nindexes cfg = 0 -> one_pass_ok w) ->
  world_ok cfg w ->
  (cfg_parallel cfg = true -> run_ok cfg w /\ barrier_ok w) ->
  room_ok cfg w -> step cfg k w l w' -> room_ok cfg w'.
Proof.
  intros Hwf HM Hidx Hw Hinv Hroom Hstep j q dt' Hq' Hdt'.
  pose proof Hw as (Hdlen & Hone & _ & Hprocs & Hparts).
  destruct (decide (j = k)) as [Hjk | Hjk].
  2: { (* another process *)
    destruct (cfg_parallel cfg) eqn:Hpar.
    - destruct (Hinv eq_refl) as [Hrun Hbar].
      destruct (step_frame cfg k w l w' j Hpar Hstep Hjk) as [Hproc Hdts].
      rewrite Hproc in Hq'. destruct (Hdts dt' Hdt') as (dt & Hdt & Hor).
      apply (room_at_frame cfg (w_vacworkers w) _ _ dt dt' HM
               (Hroom j q dt Hq' Hdt) Hor).
      intros r c' Hpcq Hnew.
      destruct (leaving_quorum_step cfg k w l w' j q r c' Hpar Hrun Hbar Hstep
                  Hjk Hq' Hpcq Hnew) as [Hold | (p & Hp & Hclear)];
        [left; exact Hold | right].
      destruct Hrun as (_ & Hlen & Hnidx).
      destruct (Z.eq_dec (cfg_nindexes cfg) 0) as [Hz | Hnz].
      { (* without indexes nobody waits at a barrier *)
        destruct (Hidx Hz j q Hq') as (_ & Hc & _).
        rewrite Hpcq in Hc. discriminate Hc. }
      rewrite Hclear, lazy_clear_dead_tuple_all in Hdt'.
      + rewrite list_lookup_fmap, Hdt in Hdt'. injection Hdt' as <-.
        reflexivity.
      + rewrite (Forall_lookup_1 _ _ _ _ Hnidx Hp). exact Hnz.
      + exact Hlen.
    - exfalso. destruct (step_proc cfg k w l w' Hstep) as [p Hp].
      pose proof (step_world_ok cfg k w l w' Hwf Hw Hstep)
        as (_ & Hone' & _).
      apply lookup_lt_Some in Hp, Hq'.
      specialize (Hone eq_refl). specialize (Hone' Hpar). lia. }
  subst j.
  destruct Hstep;
    try exact (Hroom k q dt' Hq' Hdt');
    match goal with
    | Hp : w_procs w !! k = Some ?p, Hpc : pc ?p = _ |- _ =>
      pose proof (Hprocs k p Hp) as (Hpmax & _ & _);
      cbn [w_procs w_vacworkers w_dead_tuples] in Hq', Hdt' |- *;
      rewrite list_lookup_insert_eq in Hq'
        by (apply lookup_lt_Some in Hp; exact Hp);
      injection Hq' as <-; cbn [pc set_pc];
      try (pose proof (Hroom k p dt' Hp Hdt') as Hold;
           pose proof (Hparts k p dt' Hp Hdt') as ((Hn0 & _) & _);
           rewrite Hpc in Hold; cbn [room_at] in Hold)
    end;
    split_place_eqn; cbn [room_at]; split_place_eqn; try exact I;
    try assumption; try congruence; try (intros; congruence);
    try (unfold FirstOffsetNumber in *; lia).
  - (* room for a page, or a cycle first *)
    match goal with
    | Hmy : w_dead_tuples w !! k = Some ?my, Hc : _ && _ = false |- _ =>
      rewrite Hmy in Hdt'; injection Hdt' as <-;
        rewrite Hpmax in Hc; apply andb_false_iff in Hc;
        destruct Hc as [Hc | Hc]; [apply Z.ltb_ge in Hc; lia |];
        destruct (Z.gtb_spec (n_dt my) 0); [discriminate | lia]
    end.
  - (* the serial run forgets the vacuumed tuples *)
    intros _. unfold lazy_clear_dead_tuple in Hdt'. cbn [negb andb] in Hdt'.
    rewrite list_lookup_alter_eq in Hdt'.
    destruct (w_dead_tuples w !! k); [| discriminate Hdt'].
    injection Hdt' as <-. reflexivity.
  - (* the serial run: nothing to wait for *)
    apply Hold. assumption.
  - (* the last arrival clears *)
    split; [assumption |].
    intros _. destruct (Hinv ltac:(assumption)) as [(_ & Hlen & Hnidx) _].
    rewrite lazy_clear_dead_tuple_all in Hdt'.
    + rewrite list_lookup_fmap in Hdt'.
      destruct (w_dead_tuples w !! k); [| discriminate Hdt'].
      injection Hdt' as <-. reflexivity.
    + match goal with
      | Hp : w_procs w !! k = Some ?p, Hpc : pc ?p = _ |- _ =>
        rewrite (Forall_lookup_1 _ _ _ _ Hnidx Hp);
          intros Hz; destruct (Hidx Hz k p Hp) as (_ & Hc & _);
          rewrite Hpc in Hc; discriminate Hc
      end.
    + exact Hlen.
  - (* an arrival that is not the last *)
    split; [assumption |].
    intros Hall. exfalso.
    destruct (Hinv ltac:(assumption)) as [Hrun Hbar].
    match goal with
    | Hp : w_procs w !! k = Some ?p, Hpc : pc ?p = PcSetFinished ?c,
      Hvw : w_vacworkers w !! k = Some ?vw, Hne : _ <> cfg_nworkers cfg |- _ =>
      exact (arrival_not_last cfg w k p c vw Hrun Hbar Hp Hpc Hvw Hne Hall)
    end.
  - (* the Finished barrier is passed *)
    destruct Hold as [Hpar Hold]. split; [exact Hpar |].
    apply Hold. destruct (Hinv Hpar) as [(Hps & _ & _) _].
    match goal with
    | Hchk : lazy_check_vacstate_finished _ _ = true |- _ =>
      apply (lazy_check_vacstate_finished_quorum _ _ Hps) in Hchk;
        eapply Forall_impl; [exact Hchk |]
    end.
    intros vw Hvw. left. exact Hvw.
  - (* one line pointer *)
    match goal with
    | Hp : w_procs w !! k = Some ?p, Hpc : pc ?p = PcItems _ _ _ _,
      Hmy : w_dead_tuples w !! k = Some ?my |- _ =>
      pose proof (Hroom k p my Hp Hmy) as Hold; rewrite Hpc in Hold;
        cbn [room_at] in Hold;
        rewrite list_lookup_insert_eq in Hdt'
          by (apply lookup_lt_Some in Hmy; exact Hmy);
        injection Hdt' as <-
    end.
    subst r.
    match goal with
    | |- context [scan_item ?a ?b ?c ?d ?e ?f] =>
      pose proof (scan_item_n_dt a b c d e f)
    end.
    unfold FirstOffsetNumber in *. lia.
Qed.

Lemma initial_room_ok cfg w : initial cfg w -> room_ok cfg w.
Proof.
  intros (_ & Hprocs & _) i p dt Hp _.
  destruct (Forall_lookup_1 _ _ _ _ Hprocs Hp) as [-> _]. exact I.
Qed.

Lemma reachable_room_ok cfg w :
  cfg_wf cfg -> MaxHeapTuplesPerPage <= cfg_max_dead_tuples cfg ->
  reachable cfg w -> room_ok cfg w.
Proof.
  intros Hwf HM Hreach.
  induction Hreach as [w Hinit | w i l w' Hreach IH Hstep].
  - apply (initial_room_ok cfg). exact Hinit.
  - apply (step_room_ok cfg i w l w'); try assumption.
    + intros Hz. apply (reachable_one_pass_ok cfg); assumption.
    + apply reachable_world_ok; assumption.
    + intros Hpar. split;
        [apply reachable_run_ok | apply (reachable_barrier_ok cfg)];
        assumption.
Qed.

(** X17.  No identifier is ever dropped.  With room for at least
    [MaxHeapTuplesPerPage] identifiers (what [lazy_get_max_dead_tuple]
    guarantees), in every run, serial or parallel, with or without
    indexes, whenever the scan is at a line pointer whose offset is at most
    [MaxHeapTuplesPerPage], the worker's partition has a free slot:
    [lazy_record_dead_tuple] appends, it never finds the array full. *)
Theorem record_never_drops cfg w i p my blkno offnum itemid items ps :
  cfg_wf cfg ->
  MaxHeapTuplesPerPage <= cfg_max_dead_tuples cfg ->
  reachable cfg w ->
  w_procs w !! i = Some p ->
  pc p = PcItems blkno offnum (itemid :: items) ps ->
  w_dead_tuples w !! i = Some my ->
  offnum <= MaxHeapTuplesPerPage ->
  n_dt my < max_dead_tuples (stats p)
  /\ forall itemptr,
       dt_entries
         (lazy_record_dead_tuple (max_dead_tuples (stats p)) my itemptr)
       = dt_entries my ++ [itemptr].
Proof.
  intros Hwf HM Hreach Hp Hpc Hmy Hoff.
  pose proof (reachable_room_ok cfg w Hwf HM Hreach i p my Hp Hmy) as Hroom.
  destruct (reachable_world_ok cfg w Hwf Hreach) as (_ & _ & _ & Hprocs & Hparts).
  destruct (Hprocs i p Hp) as (Hpmax & _ & _).
  destruct (Hparts i p my Hp Hmy) as (Hdtwf & _).
  rewrite Hpc in Hroom. cbn [room_at] in Hroom. unfold FirstOffsetNumber in Hroom.
  rewrite Hpmax.
  assert (Hlt : n_dt my < cfg_max_dead_tuples cfg) by lia.
  split; [exact Hlt |]. intros itemptr.
  apply lazy_record_dead_tuple_append; assumption.
Qed.


(** ** What the line-pointer loop records *)

Lemma scan_item_recorded max_dead blkno offnum itemid my ps :
  fst (scan_item max_dead blkno offnum itemid my ps)
  = if item_recorded itemid
    then lazy_record_dead_tuple max_dead my (ItemPointerSet blkno offnum)
    else my.
Proof.
  unfold scan_item, item_recorded. destruct itemid as [| | | tuple];
    try reflexivity.
  destruct (tup_status tuple); try reflexivity.
  destruct (negb (tup_hot_updated tuple || tup_heap_only tuple)); reflexivity.
Qed.

Lemma recorded_items_length blkno : forall items offnum,
  (length (recorded_items blkno offnum items) <= length items)%nat.
Proof.
  induction items as [| itemid items IH]; intros offnum; simpl; [lia |].
  rewrite length_app. specialize (IH (offnum + 1)).
  destruct (item_recorded itemid); simpl; lia.
Qed.

(** X18.  The line-pointer loop of [lazy_scan_heap] on one page.  When the
    worker's partition has room for as many identifiers as the page has
    line pointers, the loop appends to it exactly the identifiers of the
    dead line pointers and of the dead tuples that are neither HOT-updated
    nor heap-only, in offset order, and nothing else. *)
Theorem scan_items_records max_dead blkno :
  forall items offnum my ps,
    dt_wf max_dead my ->
    Z.of_nat (length items) <= max_dead - n_dt my ->
    let r := scan_items max_dead blkno offnum items my ps in
    dt_entries (fst r) = dt_entries my ++ recorded_items blkno offnum items
    /\ n_dt (fst r)
       = n_dt my + Z.of_nat (length (recorded_items blkno offnum items))
    /\ dt_wf max_dead (fst r).
Proof.
  induction items as [| itemid items IH]; intros offnum my ps Hwf Hroom.
  - simpl. rewrite app_nil_r. repeat split; try lia; apply Hwf.
  - cbn [scan_items recorded_items]. cbv zeta.
    cbn [length] in Hroom.
    assert (Hstep : let my' :=
                      fst (scan_item max_dead blkno offnum itemid my ps) in
                    dt_entries my'
                    = dt_entries my
                      ++ (if item_recorded itemid
                          then [ItemPointerSet blkno offnum] else [])
                    /\ n_dt my'
                       = n_dt my + (if item_recorded itemid then 1 else 0)
                    /\ dt_wf max_dead my').
    { cbv zeta. rewrite scan_item_recorded.
      destruct (item_recorded itemid).
      - apply lazy_record_dead_tuple_append; [exact Hwf | lia].
      - rewrite app_nil_r. repeat split; try lia; apply Hwf. }
    cbv zeta in Hstep. destruct Hstep as (He & Hn & Hwf').
    destruct (IH (offnum + 1)
                (fst (scan_item max_dead blkno offnum itemid my ps))
                (snd (scan_item max_dead blkno offnum itemid my ps)) Hwf')
      as (He' & Hn' & Hwf'').
    { rewrite Hn. destruct (item_recorded itemid); lia. }
    split; [| split; [| exact Hwf'']].
    + rewrite He', He, <- app_assoc. reflexivity.
    + rewrite Hn', Hn, length_app.
      destruct (item_recorded itemid); simpl; lia.
Qed.


(** X19.  [lazy_get_max_dead_tuple] sizes the dead-tuple array by the
    table as well as by the work memory: without indexes the capacity is
    one page's worth of identifiers; with indexes it is at least that, at
    most what the work memory holds (or one page's worth, if that is
    more), and at most one page's worth for each page the table had, plus
    one. *)
Theorem lazy_get_max_dead_tuple_bounds is_autovacuum awm mwm nidx old_pages :
  0 < MaxHeapTuplesPerPage <= INT_MAX -> 0 <= MaxAllocSize ->
  -1 <= awm -> 0 <= mwm -> 0 <= old_pages ->
  let vac_work_mem :=
    if is_autovacuum && negb (awm =? -1) then awm else mwm in
  let maxtuples :=
    lazy_get_max_dead_tuple is_autovacuum awm mwm nidx old_pages in
  (nidx = 0 -> maxtuples = MaxHeapTuplesPerPage)
  /\ MaxHeapTuplesPerPage <= maxtuples
  /\ maxtuples
     <= Z.max MaxHeapTuplesPerPage
          (Z.quot (vac_work_mem * 1024) sizeof_ItemPointerData)
  /\ maxtuples <= (old_pages + 1) * MaxHeapTuplesPerPage.
Proof.
  intros HM HA Hawm Hmwm Hold vwm maxtuples.
  pose proof (lazy_get_max_dead_tuple_range is_autovacuum awm mwm nidx
                old_pages HM HA Hawm Hmwm Hold) as [Hlow _].
  fold maxtuples in Hlow.
  split; [| split; [exact Hlow |]].
  { intros ->. reflexivity. }
  subst maxtuples. unfold lazy_get_max_dead_tuple, LAZY_ALLOC_TUPLES.
  fold vwm.
  assert (Hv : 0 <= vwm).
  { subst vwm. destruct is_autovacuum; simpl; [| lia].
    destruct (Z.eqb_spec awm (-1)); simpl; lia. }
  destruct (negb (nidx =? 0)); [| split; nia].
  set (m := Z.min (Z.min (Z.quot (vwm * 1024) sizeof_ItemPointerData) INT_MAX)
                  (Z.quot MaxAllocSize sizeof_ItemPointerData)).
  assert (Hm : 0 <= m <= INT_MAX
               /\ m <= Z.quot (vwm * 1024) sizeof_ItemPointerData).
  { subst m. unfold sizeof_ItemPointerData, INT_MAX in *.
    pose proof (Z.quot_pos (vwm * 1024) 6 ltac:(lia) ltac:(lia)).
    pose proof (Z.quot_pos MaxAllocSize 6 ltac:(lia) ltac:(lia)). lia. }
  destruct Hm as [Hm Hmw].
  assert (Hq : 0 <= Z.quot m MaxHeapTuplesPerPage
               /\ MaxHeapTuplesPerPage * Z.quot m MaxHeapTuplesPerPage <= m
               /\ m < MaxHeapTuplesPerPage
                      * (Z.quot m MaxHeapTuplesPerPage + 1)).
  { rewrite Z.quot_div_nonneg by lia. split; [apply Z.div_pos; lia |].
    split; [apply Z.mul_div_le; lia |].
    pose proof (Z.mul_succ_div_gt m MaxHeapTuplesPerPage ltac:(lia)). lia. }
  destruct Hq as (Hq0 & Hq1 & Hq2).
  assert (Hqs : Z.quot m MaxHeapTuplesPerPage <= m) by nia.
  rewrite (wrap32_small (Z.quot m MaxHeapTuplesPerPage))
    by (unfold INT_MAX in *; lia).
  destruct (Z.gtb_spec (Z.quot m MaxHeapTuplesPerPage) old_pages) as [Hgt | Hle].
  - assert (0 <= old_pages * MaxHeapTuplesPerPage <= m) by nia.
    rewrite wrap32_small by (unfold INT_MAX in *; lia). split; nia.
  - split; nia.
Qed.


(** ** Pages accounted for *)

(** In an aggressive vacuum every block the serial chooser passes over is
    counted in [frozenskipped_pages]; nothing else in the statistics
    changes. *)
Lemma serial_page_loop_aggressive vm options skipping :
  forall turns blkno lvscan st avm,
    0 <= blkno -> lv_nblocks lvscan < 2 ^ 32 ->
    let r :=
      serial_page_loop turns vm options true skipping blkno lvscan st avm in
    scanned_pages (np_stats r) = scanned_pages st
    /\ rel_pages (np_stats r) = rel_pages st
    /\ wrap32 (frozenskipped_pages (np_stats r))
       = wrap32 (frozenskipped_pages st + (np_blkno r - blkno)).
Proof.
  induction turns as [| turns IH]; intros blkno lvscan st avm Hb Hn;
    cbn [serial_page_loop].
  - cbn [np_stats np_blkno]. rewrite Z.sub_diag, Z.add_0_r. tauto.
  - destruct (Z.ltb_spec blkno (lv_nblocks lvscan)) as [Hlt | Hge];
      [| cbn [np_stats np_blkno]; rewrite Z.sub_diag, Z.add_0_r; tauto].
    destruct (blkno =? lv_next_unskippable_block lvscan);
      [cbn [np_stats np_blkno]; rewrite Z.sub_diag, Z.add_0_r; tauto |].
    destruct (skipping && negb (FORCE_CHECK_PAGE st blkno blkno));
      [| cbn [np_stats np_blkno]; rewrite Z.sub_diag, Z.add_0_r; tauto].
    cbn [orb]. rewrite (wrap32_small (blkno + 1)) by lia.
    match goal with
    | |- context [serial_page_loop turns _ _ _ _ _ _ ?st' _] =>
      destruct (IH (blkno + 1) lvscan st' avm ltac:(lia) Hn) as (H1 & H2 & H3)
    end.
    cbv zeta. rewrite H1, H2, H3.
    cbn [scanned_pages rel_pages frozenskipped_pages set_frozenskipped_pages].
    split; [reflexivity |]. split; [reflexivity |]. wrap_arith.
Qed.

Lemma serial_nextpage_aggressive vm options lvscan st avm :
  0 <= lv_cblock lvscan <= lv_nblocks lvscan -> lv_nblocks lvscan < 2 ^ 32 ->
  let r := serial_nextpage vm options true lvscan st avm in
  scanned_pages (np_stats r) = scanned_pages st
  /\ rel_pages (np_stats r) = rel_pages st
  /\ wrap32 (frozenskipped_pages (np_stats r))
     = wrap32 (frozenskipped_pages st + (np_blkno r - lv_cblock lvscan)).
Proof.
  intros Hc Hn. unfold serial_nextpage.
  cbn [np_blkno np_lvscan np_stats lv_cblock lv_nblocks
       lv_next_unskippable_block].
  match goal with
  | |- context [serial_page_loop ?t ?vm ?o true ?sk ?b ?l ?s ?v] =>
    exact (serial_page_loop_aggressive vm o sk t b l s v ltac:(lia) Hn)
  end.
Qed.

Lemma open_page_aggressive st blkno got needs has page :
  let r := open_page true st blkno got needs has page in
  scanned_pages (fst r) = wrap32 (scanned_pages st + 1)
  /\ frozenskipped_pages (fst r) = frozenskipped_pages st
  /\ rel_pages (fst r) = rel_pages st.
Proof.
  unfold open_page. cbn [negb andb]. rewrite !andb_false_r. cbn [andb].
  repeat match goal with
         | |- context [if ?c then _ else _] => destruct c
         end; cbn; tauto.
Qed.


Lemma pages_done_next st b :
  0 <= b -> b + 1 < 2 ^ 32 ->
  pages_done st = b ->
  forall st',
    scanned_pages st' = wrap32 (scanned_pages st + 1) ->
    frozenskipped_pages st' = frozenskipped_pages st ->
    pages_done st' = b + 1.
Proof.
  unfold pages_done. intros Hb Hb1 Hd st' Hs Hf. rewrite Hs, Hf. wrap_arith.
Qed.

Lemma accounted_nextpage cfg p vm :
  cfg_wf cfg -> cfg_aggressive cfg = true ->
  pc p = PcNextPage -> accounted p ->
  0 <= lv_cblock (lvscan p) <= lv_nblocks (lvscan p) ->
  lv_nblocks (lvscan p) = cfg_nblocks cfg ->
  let r :=
    lazy_scan_heap_get_nextpage vm (cfg_options cfg) (cfg_aggressive cfg)
      (lvscan p) (stats p) (avm p) in
  accounted
    (mkProc
       (if fst r =? InvalidBlockNumber then PcScanDone else PcCapacity (fst r))
       (np_lvscan (snd r)) (np_stats (snd r)) (np_avm (snd r))).
Proof.
  intros (Hnb & _ & _) Hagg Hpc Hold Hcb Hnbl. unfold accounted in Hold.
  rewrite Hpc in Hold. cbv zeta in Hold. destruct Hold as (Hrel & Hdone & _).
  rewrite Hagg.
  pose proof (serial_nextpage_props vm (cfg_options cfg) true (lvscan p)
                (stats p) (avm p) Hcb ltac:(lia)) as (Hr1 & Hr2 & Hr3 & _).
  pose proof (serial_nextpage_aggressive vm (cfg_options cfg) (lvscan p)
                (stats p) (avm p) Hcb ltac:(lia)) as (Ha1 & Ha2 & Ha3).
  cbv zeta in Hr1, Hr2, Hr3, Ha1, Ha2, Ha3.
  unfold lazy_scan_heap_get_nextpage.
  set (sr := serial_nextpage vm (cfg_options cfg) true (lvscan p) (stats p)
               (avm p)) in *.
  assert (Hdone' : pages_done (np_stats sr) = np_blkno sr).
  { unfold pages_done in *. rewrite Ha1. clear - Ha3 Hdone Hr1 Hcb Hnbl Hnb.
    wrap_arith. }
  clearbody sr. cbv zeta. cbn [fst snd]. unfold nextpage_result, accounted.
  rewrite Hr2.
  destruct (Z.eqb_spec (np_blkno sr) (lv_nblocks (lvscan p))) as [Heq | Hne].
  - rewrite Z.eqb_refl. cbn [pc stats lvscan].
    rewrite Hdone', Ha2, Hrel. exact Heq.
  - destruct (Z.eqb_spec (np_blkno sr) InvalidBlockNumber) as [Hinv | _].
    { unfold InvalidBlockNumber in Hinv. lia. }
    cbn [pc stats lvscan].
    rewrite Ha2, Hr2, Hr3, Hrel, wrap32_small by lia.
    repeat split. exact Hdone'.
Qed.

Lemma accounted_open_page cfg p blkno got needs has page :
  cfg_wf cfg -> cfg_aggressive cfg = true ->
  pc p = PcPage blkno -> accounted p ->
  0 <= lv_cblock (lvscan p) <= lv_nblocks (lvscan p) ->
  lv_nblocks (lvscan p) = cfg_nblocks cfg ->
  let r := open_page (cfg_aggressive cfg) (stats p) blkno got needs has page in
  accounted
    (mkProc
       (match snd r with
        | None => PcNextPage
        | Some items => PcItems blkno FirstOffsetNumber items page_scan_start
        end)
       (lvscan p) (fst r) (avm p)).
Proof.
  intros (Hnb & _ & _) Hagg Hpc Hold Hcbr Hnbl. unfold accounted in Hold.
  rewrite Hpc in Hold. cbv zeta in Hold. destruct Hold as (Hrel & Hdone & Hcb).
  rewrite Hagg.
  pose proof (open_page_aggressive (stats p) blkno got needs has page)
    as (Ho1 & Ho2 & Ho3).
  cbv zeta in Ho1, Ho2, Ho3.
  set (r := open_page true (stats p) blkno got needs has page) in *.
  assert (Hb : 0 <= blkno).
  { unfold pages_done, wrap32 in Hdone.
    pose proof (Z.mod_pos_bound
                  (scanned_pages (stats p) + frozenskipped_pages (stats p))
                  (2 ^ 32) ltac:(lia)). lia. }
  assert (Hdone' : pages_done (fst r) = blkno + 1)
    by (apply (pages_done_next (stats p) blkno); try assumption; lia).
  clearbody r. cbv zeta. unfold accounted.
  destruct (snd r); cbn [pc stats lvscan];
    rewrite Ho3, Hdone', Hrel, Hcb; repeat split; reflexivity.
Qed.

(** Every step of a serial aggressive run keeps the count. *)
Lemma step_accounted cfg k w l w' :
  cfg_wf cfg -> cfg_parallel cfg = false -> cfg_aggressive cfg = true ->
  world_ok cfg w ->
  (forall i p, w_procs w !! i = Some p -> accounted p) ->
  step cfg k w l w' ->
  forall i p, w_procs w' !! i = Some p -> accounted p.
Proof.
  intros Hwf Hser Hagg Hw Hacc Hstep j q Hq.
  pose proof Hw as (_ & _ & _ & Hprocs & _).
  destruct Hstep; try exact (Hacc j q Hq); try congruence;
    lazy beta iota delta [w_procs] in Hq;
    (destruct (decide (j = k)) as [Hjk | Hjk];
     [ subst j | rewrite list_lookup_insert_ne in Hq by congruence;
                 exact (Hacc j q Hq) ]);
    match goal with
    | Hp : w_procs w !! k = Some ?p, Hpc : pc ?p = _ |- _ =>
      rewrite list_lookup_insert_eq in Hq
        by (apply lookup_lt_Some in Hp; exact Hp);
      injection Hq as <-;
      pose proof (Hacc k p Hp) as Hold;
      pose proof (Hprocs k p Hp) as (_ & _ & Hscan);
      rewrite Hpc in Hscan; cbn [pc_scanning pc_cycle] in Hscan;
      first
        [ destruct (Hscan Hser eq_refl) as (Hcb & Hnbl);
          first [ exact (accounted_nextpage cfg p _ Hwf Hagg Hpc Hold Hcb Hnbl)
                | exact (accounted_open_page cfg p _ _ _ _ _ Hwf Hagg Hpc Hold
                           Hcb Hnbl) ]
        | unfold accounted in Hold |- *; rewrite Hpc in Hold;
          cbv zeta in Hold; cbn [pc stats lvscan set_pc]; cbv zeta;
          split_place; cbn [pc stats lvscan set_pc] in *;
          first [assumption | tauto]
        | idtac ]
    end.
  - (* lazy_space_alloc and lv_beginscan *)
    unfold accounted in Hold |- *.
    match goal with Hpc : pc _ = PcSpaceAlloc |- _ => rewrite Hpc in Hold end.
    cbn [pc stats lvscan]. cbv zeta. subst st. unfold pages_done.
    cbn. rewrite Hold. repeat split; reflexivity.
  - (* the visibility-map chain *)
    unfold accounted in Hold |- *.
    match goal with
    | Hpc : pc _ = PcReconcile _ _ |- _ => rewrite Hpc in Hold
    end.
    cbv zeta in Hold.
    cbn [pc stats lvscan]. cbv zeta. destruct Hold as (Hrel & Hdone & Hcb).
    destruct (hastup ps); unfold pages_done in *; cbn; rewrite ?Hcb;
      repeat split; assumption.
Qed.

Lemma reachable_accounted cfg w :
  cfg_wf cfg -> cfg_parallel cfg = false -> cfg_aggressive cfg = true ->
  reachable cfg w ->
  forall i p, w_procs w !! i = Some p -> accounted p.
Proof.
  intros Hwf Hser Hagg Hreach.
  induction Hreach as [w Hinit | w i l w' Hreach IH Hstep].
  - intros i p Hp. destruct Hinit as (_ & Hprocs & _).
    destruct (Forall_lookup_1 _ _ _ _ Hprocs Hp) as [Hpc Hst].
    unfold accounted. rewrite Hpc, Hst. reflexivity.
  - apply (step_accounted cfg i w l w'); try assumption.
    apply reachable_world_ok; assumption.
Qed.

(** X20.  An aggressive serial vacuum accounts for every page: when
    [lazy_scan_heap] is over, [scanned_pages + frozenskipped_pages] equals
    [rel_pages], so [lazy_vacuum_rel] finds [scanned_all_unfrozen] true (its
    [Assert(!aggressive)] is never reached) and hands [FreezeLimit] and
    [MultiXactCutoff] on as the new [relfrozenxid] and [relminmxid]. *)
Theorem aggressive_scan_accounts_for_all_pages cfg w i p FreezeLimit
    MultiXactCutoff :
  cfg_wf cfg -> cfg_parallel cfg = false -> cfg_aggressive cfg = true ->
  reachable cfg w ->
  w_procs w !! i = Some p -> pc p = PcDone ->
  wrap32 (scanned_pages (stats p) + frozenskipped_pages (stats p))
  = rel_pages (stats p)
  /\ scanned_all_unfrozen (stats p) = true
  /\ new_frozen_xid FreezeLimit (stats p) = FreezeLimit
  /\ new_min_multi MultiXactCutoff (stats p) = MultiXactCutoff.
Proof.
  intros Hwf Hser Hagg Hreach Hp Hpc.
  pose proof (reachable_accounted cfg w Hwf Hser Hagg Hreach i p Hp) as Hacc.
  unfold accounted in Hacc. rewrite Hpc in Hacc. unfold pages_done in Hacc.
  assert (Hall : scanned_all_unfrozen (stats p) = true).
  { unfold scanned_all_unfrozen. rewrite Hacc, Z.ltb_irrefl. reflexivity. }
  unfold new_frozen_xid, new_min_multi. rewrite Hall. tauto.
Qed.


(** ** The bookkeeping of [lazy_truncate_heap] *)

(** The lock loop makes the attempts numbered [lock_retry] to 100. *)
Lemma acquire_truncate_lock_spec attempt : forall tries lock_retry,
  0 <= lock_retry <= 100 -> (Z.to_nat (101 - lock_retry) <= tries)%nat ->
  acquire_truncate_lock tries attempt lock_retry = true
  <-> exists n, (Z.to_nat lock_retry <= n <= 100)%nat /\ attempt n = true.
Proof.
  induction tries as [| tries IH]; intros r Hr Htries; [lia |].
  cbn [acquire_truncate_lock].
  destruct (attempt (Z.to_nat r)) eqn:Ha.
  { split; [| reflexivity]. intros _. exists (Z.to_nat r). split; [lia |].
    exact Ha. }
  change (Z.quot VACUUM_TRUNCATE_LOCK_TIMEOUT VACUUM_TRUNCATE_LOCK_WAIT_INTERVAL)
    with 100.
  destruct (Z.gtb_spec (r + 1) 100) as [Hgt | Hle].
  - split; [discriminate |]. intros (n & Hn & Hn').
    assert (n = Z.to_nat r) by lia. subst n. congruence.
  - rewrite (IH (r + 1)) by lia. split; intros (n & Hn & Hn').
    + exists n. split; [lia | exact Hn'].
    + exists n. split; [| exact Hn'].
      destruct (decide (n = Z.to_nat r)) as [-> | Hne]; [congruence | lia].
Qed.

Lemma wrap32_add_wrap32 a b : wrap32 (wrap32 a + b) = wrap32 (a + b).
Proof. unfold wrap32. apply Z.add_mod_idemp_l. lia. Qed.

Lemma last_cons_default {A} (l : list A) : forall a d,
  List.last (a :: l) d = List.last l a.
Proof.
  induction l as [| b l IH]; intros a d; [reflexivity |].
  change (List.last (a :: b :: l) d) with (List.last (b :: l) d).
  rewrite !IH. reflexivity.
Qed.

(** What the [do / while] loop does to the statistics. *)
Lemma truncate_loop_accounting env : forall turns k old st,
  0 <= nonempty_pages st -> old < 2 ^ 32 -> rel_pages st = old ->
  0 <= pages_removed st < 2 ^ 32 ->
  let r := truncate_loop turns env k old st in
  nonempty_pages (fst r) = nonempty_pages st
  /\ rel_pages (fst r) = List.last (map trunc_to (snd r)) old
  /\ map trunc_from (snd r)
     = take (length (snd r)) (old :: map trunc_to (snd r))
  /\ pages_removed (fst r)
     = wrap32 (pages_removed st + (old - rel_pages (fst r)))
  /\ (snd r <> [] -> nonempty_pages st <= rel_pages (fst r) < old).
Proof.
  induction turns as [| turns IH]; intros k old st Hne Hold Hrel Hrem;
    cbv zeta.
  { cbn [truncate_loop fst snd map List.last length take]. rewrite Hrel.
    repeat split; try congruence.
    rewrite Z.sub_diag, Z.add_0_r, wrap32_small; [reflexivity | exact Hrem]. }
  assert (Hnone : forall st',
            nonempty_pages st' = nonempty_pages st ->
            rel_pages st' = old -> pages_removed st' = pages_removed st ->
            let r := (st', @nil Truncation) in
            nonempty_pages (fst r) = nonempty_pages st
            /\ rel_pages (fst r) = List.last (map trunc_to (snd r)) old
            /\ map trunc_from (snd r)
               = take (length (snd r)) (old :: map trunc_to (snd r))
            /\ pages_removed (fst r)
               = wrap32 (pages_removed st + (old - rel_pages (fst r)))
            /\ (snd r <> [] -> nonempty_pages st <= rel_pages (fst r) < old)).
  { intros st' H1 H2 H3. cbv zeta.
    cbn [fst snd map List.last length take]. rewrite H2, H3.
    repeat split; try congruence.
    rewrite Z.sub_diag, Z.add_0_r, wrap32_small; [reflexivity | exact Hrem]. }
  cbn [truncate_loop].
  destruct (acquire_truncate_lock 101 (lock_attempt (env k)) 0);
    cbn [negb]; [| apply Hnone; assumption || reflexivity].
  destruct (Z.eqb_spec (RelationGetNumberOfBlocks (env k)) old)
    as [Hsize | Hsize];
    cbn [negb]; [| apply Hnone; assumption || reflexivity].
  set (st0 := set_lock_waiter_detected false st).
  pose proof (count_nondeletable_pages_spec (rel_content (env k))
                (lock_has_waiters (env k)) st0 Hne ltac:(simpl; lia))
    as (Hc1 & Hc2 & Hc3).
  set (counted := count_nondeletable_pages (rel_content (env k))
                    (lock_has_waiters (env k)) st0) in *.
  assert (Hsame : nonempty_pages (snd counted) = nonempty_pages st
                  /\ rel_pages (snd counted) = old
                  /\ pages_removed (snd counted) = pages_removed st).
  { destruct Hc3 as [[_ ->] | [(_ & -> & _) | (_ & -> & _)]];
      repeat split; assumption. }
  destruct Hsame as (Hnest & Hrelc & Hremc).
  destruct (Z.geb_spec (fst counted) old) as [Hge | Hlt];
    [apply Hnone; assumption |].
  cbn [nonempty_pages set_rel_pages set_pages_removed lock_waiter_detected].
  rewrite Hnest, Hremc. change (nonempty_pages st0) with (nonempty_pages st) in Hc1.
  destruct ((fst counted >? nonempty_pages st)
            && lock_waiter_detected (snd counted)).
  - (* a further turn *)
    match goal with
    | |- context [truncate_loop turns env (S k) ?o ?s] =>
      pose proof (IH (S k) o s) as IH'
    end.
    cbv zeta in IH'.
    cbn [nonempty_pages rel_pages pages_removed set_rel_pages
         set_pages_removed] in IH'.
    rewrite ?Hnest in IH'.
    specialize (IH' Hne ltac:(lia) eq_refl (wrap32_range _)).
    destruct IH' as (I1 & I2 & I3 & I4 & I5).
    match type of I1 with
    | nonempty_pages (fst ?t) = _ => set (rest := t) in *; clearbody rest
    end.
    cbn [fst snd map length take trunc_from trunc_to].
    split; [exact I1 |]. split; [| split; [| split]].
    + rewrite I2. symmetry. apply last_cons_default.
    + f_equal. exact I3.
    + rewrite I4, wrap32_add_wrap32. f_equal. lia.
    + intros _. destruct (snd rest) as [| t ts] eqn:Hl;
        [| specialize (I5 ltac:(discriminate)); lia].
      cbn [map List.last] in I2. lia.
  - cbn [fst snd map List.last length take trunc_from trunc_to rel_pages
         nonempty_pages pages_removed set_rel_pages set_pages_removed].
    repeat split; try lia; reflexivity.
Qed.

(** X22.  The bookkeeping of [lazy_truncate_heap].  The truncations form a
    chain: the first starts from the recorded [rel_pages], each later one
    from the size the one before left.  Afterwards [rel_pages] is the size
    the last truncation left (unchanged when there was none),
    [pages_removed] has grown by exactly the number of pages cut off,
    [nonempty_pages] is untouched, and whenever something was truncated the
    new [rel_pages] is below the old one and not below [nonempty_pages]. *)
Theorem truncation_accounting (env : nat -> TruncateEnv)
    (vacrelstats : LVRelStats) :
  0 <= nonempty_pages vacrelstats -> rel_pages vacrelstats < 2 ^ 32 ->
  0 <= pages_removed vacrelstats < 2 ^ 32 ->
  let r := lazy_truncate_heap env vacrelstats in
  nonempty_pages (fst r) = nonempty_pages vacrelstats
  /\ rel_pages (fst r)
     = List.last (map trunc_to (snd r)) (rel_pages vacrelstats)
  /\ map trunc_from (snd r)
     = take (length (snd r)) (rel_pages vacrelstats :: map trunc_to (snd r))
  /\ pages_removed (fst r)
     = wrap32 (pages_removed vacrelstats
               + (rel_pages vacrelstats - rel_pages (fst r)))
  /\ (snd r <> [] ->
      nonempty_pages vacrelstats <= rel_pages (fst r) < rel_pages vacrelstats).
Proof.
  intros Hne Hrel Hrem. unfold lazy_truncate_heap.
  apply truncate_loop_accounting; try assumption. reflexivity.
Qed.

(** X23.  When [lazy_truncate_heap] truncates at all.  The lock loop makes
    101 attempts and no more; something is truncated exactly when one of
    them obtains the lock, the size seen under the lock is the recorded
    one, and the backward scan returns less than that size.  When all 101
    attempts fail the function gives up with [lock_waiter_detected] set
    and the statistics otherwise as they were. *)
Theorem truncation_needs_lock (env : nat -> TruncateEnv)
    (vacrelstats : LVRelStats) :
  let r := lazy_truncate_heap env vacrelstats in
  (snd r <> []
   <-> (exists n, (n <= 100)%nat /\ lock_attempt (env 0%nat) n = true)
       /\ RelationGetNumberOfBlocks (env 0%nat) = rel_pages vacrelstats
       /\ fst (count_nondeletable_pages (rel_content (env 0%nat))
                 (lock_has_waiters (env 0%nat)) vacrelstats)
          < rel_pages vacrelstats)
  /\ ((forall n, (n <= 100)%nat -> lock_attempt (env 0%nat) n = false) ->
      r = (set_lock_waiter_detected true vacrelstats, [])).
Proof.
  cbv zeta. unfold lazy_truncate_heap. cbn [truncate_loop].
  pose proof (acquire_truncate_lock_spec (lock_attempt (env 0%nat)) 101 0
                ltac:(lia) ltac:(lia)) as Hlock.
  rewrite (count_nondeletable_pages_fst (rel_content (env 0%nat))
             (lock_has_waiters (env 0%nat)) vacrelstats
             (set_lock_waiter_detected false vacrelstats) eq_refl eq_refl).
  destruct (acquire_truncate_lock 101 (lock_attempt (env 0%nat)) 0) eqn:Hacq;
    cbn [negb fst snd].
  - destruct (proj1 Hlock eq_refl) as (n & Hn & Hn'). split.
    2: { intros Hall. rewrite Hall in Hn' by lia. discriminate Hn'. }
    assert (Hex : exists n, (n <= 100)%nat /\ lock_attempt (env 0%nat) n = true).
    { exists n. split; [lia | exact Hn']. }
    destruct (Z.eqb_spec (RelationGetNumberOfBlocks (env 0%nat))
                (rel_pages vacrelstats)) as [Hsize | Hsize]; cbn [negb snd].
    2: { split; [congruence | tauto]. }
    destruct (Z.geb_spec
                (fst (count_nondeletable_pages (rel_content (env 0%nat))
                        (lock_has_waiters (env 0%nat))
                        (set_lock_waiter_detected false vacrelstats)))
                (rel_pages vacrelstats)) as [Hge | Hlt]; cbn [snd].
    { split; [congruence | lia]. }
    split; [intros _; repeat split; assumption | intros _].
    match goal with
    | |- context [if ?c then _ else _] => destruct c
    end; discriminate.
  - split.
    + split; [congruence |]. intros ((n & Hn & Hn') & _).
      assert (Hno : false = true); [| discriminate Hno].
      apply Hlock. exists n. split; [lia | exact Hn'].
    + intros _. reflexivity.
Qed.

(** ** The pages counted as non-empty *)

Lemma serial_page_loop_pages vm options aggressive skipping :
  forall turns blkno lvscan st avm,
    let r :=
      np_stats
        (serial_page_loop turns vm options aggressive skipping blkno lvscan
           st avm) in
    nonempty_pages r = nonempty_pages st /\ rel_pages r = rel_pages st.
Proof.
  induction turns as [| turns IH]; intros blkno lvscan st avm; cbv zeta;
    cbn [serial_page_loop]; [split; reflexivity |].
  destruct (blkno <? lv_nblocks lvscan); [| split; reflexivity].
  destruct (blkno =? lv_next_unskippable_block lvscan); [split; reflexivity |].
  destruct (skipping && negb (FORCE_CHECK_PAGE st blkno blkno));
    [| split; reflexivity].
  match goal with
  | |- context [serial_page_loop turns _ _ _ _ ?b ?l ?s ?a] =>
    destruct (IH b l s a) as [-> ->]
  end.
  destruct (aggressive || VM_ALL_FROZEN vm blkno); split; reflexivity.
Qed.

Lemma parallel_consider_page_pages vm options aggressive st blkno :
  let r := snd (fst (parallel_consider_page vm options aggressive st blkno)) in
  nonempty_pages r = nonempty_pages st /\ rel_pages r = rel_pages st.
Proof.
  cbv zeta. unfold parallel_consider_page.
  repeat match goal with
         | |- context [if ?c then _ else _] => destruct c
         end; split; reflexivity.
Qed.

Lemma nonempty_ok_nextpage cfg p vm :
  cfg_wf cfg -> nonempty_ok cfg p -> pc p = PcNextPage ->
  0 <= lv_cblock (lvscan p) <= lv_nblocks (lvscan p) ->
  lv_nblocks (lvscan p) = cfg_nblocks cfg ->
  let r :=
    lazy_scan_heap_get_nextpage vm (cfg_options cfg) (cfg_aggressive cfg)
      (lvscan p) (stats p) (avm p) in
  nonempty_ok cfg
    (mkProc
       (if fst r =? InvalidBlockNumber then PcScanDone else PcCapacity (fst r))
       (np_lvscan (snd r)) (np_stats (snd r)) (np_avm (snd r))).
Proof.
  intros (Hnb & _ & _) (_ & Hne & Hrel) Hpc Hcb Hnbl.
  rewrite Hpc in Hrel. destruct Hrel as [Hrel | [[Hrel | Hrel] _]];
    try discriminate Hrel.
  pose proof (serial_nextpage_props vm (cfg_options cfg) (cfg_aggressive cfg)
                (lvscan p) (stats p) (avm p) Hcb ltac:(lia))
    as (Hr1 & Hr2 & _).
  cbv zeta in Hr1, Hr2. cbv zeta. unfold lazy_scan_heap_get_nextpage.
  assert (Hst : nonempty_pages
                  (np_stats (serial_nextpage vm (cfg_options cfg)
                               (cfg_aggressive cfg) (lvscan p) (stats p)
                               (avm p)))
                = nonempty_pages (stats p)
                /\ rel_pages
                     (np_stats (serial_nextpage vm (cfg_options cfg)
                                  (cfg_aggressive cfg) (lvscan p) (stats p)
                                  (avm p)))
                   = rel_pages (stats p)).
  { unfold serial_nextpage. cbn [np_stats]. apply serial_page_loop_pages. }
  set (sr := serial_nextpage vm (cfg_options cfg) (cfg_aggressive cfg)
               (lvscan p) (stats p) (avm p)) in *.
  clearbody sr. destruct Hst as [Hst1 Hst2].
  cbn [fst snd]. unfold nextpage_result, nonempty_ok. rewrite Hr2.
  cbn [pc stats]. rewrite Hst1, Hst2.
  destruct (Z.eqb_spec (np_blkno sr) (lv_nblocks (lvscan p))) as [Heq | Hneq].
  - rewrite Z.eqb_refl. cbn [pc_block pc_cycle]. tauto.
  - destruct (Z.eqb_spec (np_blkno sr) InvalidBlockNumber) as [Hinv | Hinv];
      cbn [pc_block pc_cycle]; [tauto |].
    repeat split; try tauto; lia.
Qed.

Lemma nonempty_ok_open_page cfg p blkno got needs check page :
  cfg_wf cfg -> nonempty_ok cfg p -> pc p = PcPage blkno ->
  let r := open_page (cfg_aggressive cfg) (stats p) blkno got needs check
             page in
  nonempty_ok cfg
    (mkProc
       (match snd r with
        | None => PcNextPage
        | Some items => PcItems blkno FirstOffsetNumber items page_scan_start
        end)
       (lvscan p) (fst r) (avm p)).
Proof.
  intros (Hnb & _ & _) (Hblk & Hne & Hrel) Hpc. rewrite Hpc in Hblk, Hrel.
  cbn [pc_block] in Hblk.
  destruct Hrel as [Hrel | [[Hrel | Hrel] _]]; try discriminate Hrel.
  cbv zeta. unfold open_page, nonempty_ok.
  assert (Hw : wrap32 (blkno + 1) = blkno + 1) by (apply wrap32_small; lia).
  repeat match goal with
         | |- context [if ?c then _ else _] => destruct c
         end;
    cbn [fst snd pc stats pc_block pc_cycle nonempty_pages rel_pages
         set_pinskipped_pages set_scanned_pages set_nonempty_pages];
    rewrite ?Hw; repeat split; try tauto; try lia.
Qed.

Lemma step_nonempty_ok cfg k w l w' :
  cfg_wf cfg -> world_ok cfg w ->
  (forall i p, w_procs w !! i = Some p -> nonempty_ok cfg p) ->
  step cfg k w l w' ->
  forall i p, w_procs w' !! i = Some p -> nonempty_ok cfg p.
Proof.
  intros Hwf Hw Hok Hstep j q Hq.
  pose proof Hw as (_ & _ & Hcur & Hprocs & _).
  destruct Hstep; try exact (Hok j q Hq);
    lazy beta iota delta [w_procs] in Hq;
    (destruct (decide (j = k)) as [Hjk | Hjk];
     [ subst j | rewrite list_lookup_insert_ne in Hq by congruence;
                 exact (Hok j q Hq) ]);
    match goal with
    | Hp : w_procs w !! k = Some ?p, Hpc : pc ?p = _ |- _ =>
      rewrite list_lookup_insert_eq in Hq
        by (apply lookup_lt_Some in Hp; exact Hp);
      apply (inj Some) in Hq; subst q;
      pose proof (Hok k p Hp) as Hold;
      pose proof (Hprocs k p Hp) as (_ & _ & Hscan);
      rewrite Hpc in Hscan; cbn [pc_scanning pc_cycle] in Hscan;
      first
        [ destruct (Hscan ltac:(assumption) eq_refl) as (Hcb & Hnbl);
          exact (nonempty_ok_nextpage cfg p _ Hwf Hold Hpc Hcb Hnbl)
        | exact (nonempty_ok_open_page cfg p _ _ _ _ _ Hwf Hold Hpc)
        | unfold nonempty_ok in Hold |- *; rewrite Hpc in Hold;
          cbn [pc stats set_pc pc_block pc_cycle] in Hold |- *;
          split_place; cbn [pc stats set_pc pc_block pc_cycle] in Hold |- *;
          first [assumption | tauto | intuition (discriminate || lia)]
        | idtac ]
    end.
  - (* lazy_scan_heap reads the relation's size *)
    destruct Hwf as (Hnb & _ & _). unfold nonempty_ok. subst st.
    cbn [pc stats pc_block pc_cycle nonempty_pages rel_pages
         set_nonempty_pages set_scanned_pages set_rel_pages].
    split; [exact I |]. split; [lia | left; reflexivity].
  - (* a block claimed from the shared cursor *)
    unfold nonempty_ok in Hold |- *. cbn [pc stats].
    destruct (parallel_consider_page_pages vm (cfg_options cfg)
                (cfg_aggressive cfg) (stats p) blkno) as [Hn Hr].
    fold d in Hn, Hr. rewrite Hn, Hr.
    match goal with
    | Hpc : pc p = PcNextPage |- _ => rewrite Hpc in Hold
    end.
    destruct Hold as (_ & Hne & Hrel).
    assert (Hrel' : rel_pages (stats p) = cfg_nblocks cfg)
      by (destruct Hrel as [? | [[? | ?] _]]; [assumption | discriminate ..]).
    assert (Hblk : 0 <= blkno < cfg_nblocks cfg).
    { match goal with
      | Hb : fst (heap_parallelscan_nextpage _ _) = blkno,
        Hi : blkno <> InvalidBlockNumber |- _ =>
        unfold heap_parallelscan_nextpage in Hb;
          destruct (Z.ltb_spec (w_cursor w) (cfg_nblocks cfg));
          cbn [fst] in Hb; [lia | congruence]
      end. }
    destruct (fst (fst d)); cbn [pc_block pc_cycle]; [tauto |].
    destruct (nextpage_result (lvscan p) blkno =? InvalidBlockNumber);
      cbn [pc_block pc_cycle]; tauto.
  - (* the capacity check *)
    unfold nonempty_ok in Hold |- *.
    match goal with
    | Hpc : pc p = PcCapacity _ |- _ => rewrite Hpc in Hold
    end.
    cbn [pc_block pc_cycle] in Hold.
    destruct ((max_dead_tuples (stats p) - n_dt my <? MaxHeapTuplesPerPage)
              && (n_dt my >? 0));
      cbn [pc stats set_pc pc_block pc_cycle];
      intuition discriminate.
  - (* after lazy_vacuum_heap *)
    unfold nonempty_ok in Hold |- *.
    match goal with
    | Hpc : pc p = _ |- _ => rewrite Hpc in Hold
    end.
    destruct c; cbn [pc stats set_pc pc_block pc_cycle] in Hold |- *;
      intuition discriminate.
  - (* the cycle ends *)
    unfold nonempty_ok in Hold |- *.
    match goal with
    | Hpc : pc p = _ |- _ => rewrite Hpc in Hold
    end.
    destruct c;
      cbn [pc stats set_pc pc_block pc_cycle nonempty_pages rel_pages
           set_num_index_scans] in Hold |- *;
      intuition discriminate.
  - (* the visibility-map chain, then nonempty_pages *)
    destruct Hwf as (Hnb & _ & _). unfold nonempty_ok in Hold |- *.
    match goal with
    | Hpc : pc p = PcReconcile _ _ |- _ => rewrite Hpc in Hold
    end.
    cbn [pc_block pc_cycle] in Hold. destruct Hold as (Hblk & Hne & Hrel).
    assert (Hrel' : rel_pages (stats p) = cfg_nblocks cfg)
      by (destruct Hrel as [? | [[? | ?] _]]; [assumption | discriminate ..]).
    cbn [pc stats pc_block pc_cycle].
    destruct (hastup ps);
      cbn [nonempty_pages rel_pages set_nonempty_pages];
      rewrite ?wrap32_small by lia; repeat split; try tauto; lia.
  - (* the scan is over *)
    unfold nonempty_ok in Hold |- *.
    match goal with
    | Hpc : pc p = PcScanDone |- _ => rewrite Hpc in Hold
    end.
    destruct (n_dt my >? 0); cbn [pc stats set_pc pc_block pc_cycle] in Hold |- *;
      intuition discriminate.
Qed.

Lemma initial_nonempty_ok cfg w :
  initial cfg w -> forall i p, w_procs w !! i = Some p -> nonempty_ok cfg p.
Proof.
  intros (_ & Hprocs & _) i p Hp.
  destruct (Forall_lookup_1 _ _ _ _ Hprocs Hp) as [Hpc Hst].
  unfold nonempty_ok. rewrite Hpc, Hst.
  cbn [pc_block pc_cycle start_stats nonempty_pages rel_pages].
  split; [exact I |]. split; [lia |]. right. split; [left |]; reflexivity.
Qed.

Lemma reachable_nonempty_ok cfg w :
  cfg_wf cfg -> reachable cfg w ->
  forall i p, w_procs w !! i = Some p -> nonempty_ok cfg p.
Proof.
  intros Hwf Hreach.
  induction Hreach as [w Hinit | w i l w' Hreach IH Hstep].
  - apply initial_nonempty_ok. exact Hinit.
  - apply (step_nonempty_ok cfg i w l w'); try assumption.
    apply reachable_world_ok; assumption.
Qed.


(** X24.  In a serial run [nonempty_pages] never exceeds [rel_pages].
    Outside parallel mode the statistics [lazy_scan_heap] works on are the
    ones [lazy_vacuum_rel] hands to [should_attempt_truncation] and
    [lazy_truncate_heap], and throughout the run they have
    [0 <= nonempty_pages <= rel_pages <= nblocks], the relation's size when
    the scan began: the unsigned difference [should_attempt_truncation]
    takes does not wrap, and truncation is attempted only when a page above
    [nonempty_pages] exists.  (In a parallel run the leader tests the
    statistics [lazy_gather_vacuum_stats] has put together, which this does
    not cover.) *)
Theorem nonempty_pages_within_rel_pages cfg w i p :
  cfg_wf cfg -> cfg_parallel cfg = false ->
  reachable cfg w -> w_procs w !! i = Some p ->
  0 <= nonempty_pages (stats p) <= rel_pages (stats p)
  /\ rel_pages (stats p) <= cfg_nblocks cfg
  /\ wrap32 (rel_pages (stats p) - nonempty_pages (stats p))
     = rel_pages (stats p) - nonempty_pages (stats p)
  /\ (should_attempt_truncation (stats p) = true ->
      nonempty_pages (stats p) < rel_pages (stats p)).
Proof.
  intros Hwf _ Hreach Hp.
  destruct (reachable_nonempty_ok cfg w Hwf Hreach i p Hp) as (_ & Hne & Hrel).
  destruct Hwf as (Hnb & _ & _).
  assert (Hle : rel_pages (stats p) <= cfg_nblocks cfg).
  { destruct Hrel as [-> | [_ ->]]; [lia |].
    cbn [start_stats rel_pages]. lia. }
  assert (Hw : wrap32 (rel_pages (stats p) - nonempty_pages (stats p))
               = rel_pages (stats p) - nonempty_pages (stats p))
    by (apply wrap32_small; lia).
  repeat split; try lia; try assumption.
  unfold should_attempt_truncation. rewrite Hw. intros Hs.
  apply andb_true_iff in Hs as [Hs _]. apply andb_true_iff in Hs as [Hs _].
  destruct (Z.gtb_spec (rel_pages (stats p) - nonempty_pages (stats p)) 0);
    [lia | discriminate Hs].
Qed.

End Headers.

(** * Instances at PostgreSQL's usual build constants

    A block size of 8 kB gives [MaxHeapTuplesPerPage = 291]; [MaxAllocSize]
    is [0x3fffffff]; [VACOPT_DISABLE_PAGE_SKIPPING] is [1 << 7]; the setting
    [old_snapshot_threshold] defaults to [-1]. *)

Lemma dead_tuple_store_bounded_witness :
  let max_dead :=
    cast_int (lazy_get_max_dead_tuple 291 1073741823 false (-1) 65536 1 1) in
  0 <= n_dt (fold_left (apply_store_op max_dead)
               [OpRecord (ItemPointerSet 0 1); OpRecord (ItemPointerSet 0 2)]
               (lazy_space_alloc max_dead)) <= max_dead.
Proof.
  apply (dead_tuple_store_bounded 291 1073741823 false (-1) 65536 1 1
           [OpRecord (ItemPointerSet 0 1); OpRecord (ItemPointerSet 0 2)]);
    unfold INT_MAX; lia.
Defined.

Lemma lazy_tid_reaped_iff_witness :
  lazy_tid_reaped (ItemPointerSet 7 2) false 2
    [mkLVDeadTuple 2 [ItemPointerSet 1 1; ItemPointerSet 3 4; ItemPointerSet 0 0];
     mkLVDeadTuple 3 [ItemPointerSet 2 1; ItemPointerSet 7 2; ItemPointerSet 7 5]]
  = true.
Proof.
  apply (lazy_tid_reaped_iff (ItemPointerSet 7 2) false 2
           [mkLVDeadTuple 2 [ItemPointerSet 1 1; ItemPointerSet 3 4; ItemPointerSet 0 0];
            mkLVDeadTuple 3 [ItemPointerSet 2 1; ItemPointerSet 7 2; ItemPointerSet 7 5]]).
  - repeat constructor; simpl; try lia;
      unfold itemptr_le, itemptr_lt; simpl; lia.
  - exists 1%nat, (mkLVDeadTuple 3 [ItemPointerSet 2 1; ItemPointerSet 7 2; ItemPointerSet 7 5]).
    split; [lia |]. split; [reflexivity |].
    unfold dt_entries; simpl. apply list_elem_of_In; simpl; tauto.
Defined.

Lemma truncation_keeps_nonempty_pages_witness :
  let page_empty := mkPage false false [] in
  let page_full :=
    mkPage false false
      [LP_NORMAL (mkHeapTupleInfo HEAPTUPLE_LIVE false false true true true)] in
  let env := fun _ : nat =>
    mkTruncateEnv (fun _ => true) 4
      (fun b => if b =? 2 then page_full else page_empty) (fun _ => false) in
  let st := mkLVRelStats 1 4 4 4 0 0 1 0 291 0 false in
  snd (lazy_truncate_heap env st) = [mkTruncation 0 4 3]
  /\ RelationGetNumberOfBlocks (env 0%nat) = 4
  /\ page_has_tuples (rel_content (env 0%nat) 3) = false.
Proof.
  intros page_empty page_full env st.
  assert (Hrun : snd (lazy_truncate_heap env st) = [mkTruncation 0 4 3])
    by (vm_compute; reflexivity).
  split; [exact Hrun |].
  destruct (truncation_keeps_nonempty_pages env st) as (_ & Htrunc & _);
    [simpl; lia | simpl; lia |].
  destruct (Htrunc (mkTruncation 0 4 3)) as (Hsize & _ & _ & Hfree).
  { rewrite Hrun. left. reflexivity. }
  split; [exact Hsize |]. apply Hfree. simpl. lia.
Defined.

(** C6 (the code departs from the claim).  The [if / else if] chain does not
    test what the map claims but the local [all_visible_according_to_vm] of
    [lazy_scan_heap], and the serial branch of
    [lazy_scan_heap_get_nextpage] never clears that flag: set on entry, it is
    set on return.  In a serial, non-aggressive run over two blocks, block 0
    all-visible in the map and block 1 not, the first call returns block 0
    and sets the flag, the second returns block 1 with the flag still set.
    Block 1 holds one live tuple visible to all, so the page is computed
    all-visible and the map does not claim it; rule (1) asks for the page
    bit and the map bit to be set, and the chain does nothing.  With the
    flag as the map has it the bits would be set.  If the tuple is frozen
    too, only the all-frozen bit is set, without the all-visible bit. *)
Theorem stale_all_visible_flag :
  (forall skipopt ost vm options aggressive lvscan st,
     np_avm
       (snd (lazy_scan_heap_get_nextpage skipopt ost vm options aggressive
               lvscan st true))
     = true)
  /\ (let vm : VisibilityMap :=
        fun b => if b =? 0 then VISIBILITYMAP_ALL_VISIBLE else 0 in
      let st := mkLVRelStats 1 2 2 0 0 0 0 0 291 0 false in
      let first :=
        lazy_scan_heap_get_nextpage 128 (-1) vm 0 false (lv_beginscan st) st
          false in
      let second :=
        lazy_scan_heap_get_nextpage 128 (-1) vm 0 false
          (np_lvscan (snd first)) (np_stats (snd first))
          (np_avm (snd first)) in
      let page_of frozen :=
        [LP_NORMAL (mkHeapTupleInfo HEAPTUPLE_LIVE false false true true
                      frozen)] in
      let ps frozen :=
        snd (scan_items 291 1 FirstOffsetNumber (page_of frozen)
               (lazy_space_alloc 291) page_scan_start) in
      fst first = 0 /\ np_avm (snd first) = true
      /\ fst second = 1 /\ np_avm (snd second) = true
      /\ VM_ALL_VISIBLE vm 1 = false
      /\ all_visible (ps false) = true
      /\ has_dead_tuples (ps false) = false
      (* the page is computed all-visible, the map does not claim it:
         nothing is set *)
      /\ vm_reconcile (ps false) (np_avm (snd second)) false (vm 1) 100 = []
      (* what rule (1) asks for, and what the chain does when the flag
         tells what the map says *)
      /\ vm_reconcile (ps false) (VM_ALL_VISIBLE vm 1) false (vm 1) 100
         = [DoPageSetAllVisible; DoMarkBufferDirty;
            Do_visibilitymap_set 100 VISIBILITYMAP_ALL_VISIBLE]
      (* an all-frozen page: the frozen bit alone *)
      /\ vm_reconcile (ps true) (np_avm (snd second)) false (vm 1) 100
         = [Do_visibilitymap_set InvalidTransactionId
              VISIBILITYMAP_ALL_FROZEN]).
Proof.
  split; [intros; apply serial_flag_never_cleared |].
  vm_compute. repeat split; reflexivity.
Qed.

(** C7 (the code departs from the claim).  The macro [FORCE_CHECK_PAGE] is
    always handed [blkno] itself, so it is false for every block and
    statistics, the final page included.  In a serial run over 32 pages that
    are all marked all-visible, with truncation plausible, the first call of
    [lazy_scan_heap_get_nextpage] skips every page and ends the scan: page 31
    is never visited.  In a parallel run over one all-visible page, with
    truncation plausible, the worker that claims page 0 skips it. *)
Theorem final_page_not_forced :
  (forall ost vacrelstats blkno,
     FORCE_CHECK_PAGE ost vacrelstats blkno blkno = false)
  /\ (let st := mkLVRelStats 1 32 32 0 0 0 0 0 291 0 false in
      should_attempt_truncation (-1) st = true
      /\ fst (lazy_scan_heap_get_nextpage 128 (-1)
                (fun _ => VISIBILITYMAP_ALL_VISIBLE) 0 false
                (lv_beginscan st) st false)
         = InvalidBlockNumber)
  /\ (let st := mkLVRelStats 1 1 1 0 0 0 0 0 291 0 false in
      should_attempt_truncation (-1) st = true
      /\ fst (fst (parallel_consider_page 128 (-1)
                     (fun _ => VISIBILITYMAP_ALL_VISIBLE) 0 false st 0))
         = true
      /\ fst (fst (fst (lazy_scan_heap_get_nextpage_parallel 128 (-1)
                          (fun _ => VISIBILITYMAP_ALL_VISIBLE) 0 false
                          (lv_beginscan st) 1 0 st false)))
         = InvalidBlockNumber).
Proof.
  split; [intros; apply FORCE_CHECK_PAGE_self |].
  split; vm_compute; repeat split; reflexivity.
Qed.

(** C8 (the code departs from the claim).  In the parallel branch of a
    non-aggressive run, a skipped page that is all-visible but not all-frozen
    raises [frozenskipped_pages], and a skipped page that is all-frozen does
    not: the test on the all-frozen bit is the wrong way round.  The serial
    branch counts a skipped page exactly when it is all-frozen. *)
Theorem frozenskipped_parallel_inverted :
  let st := mkLVRelStats 1 64 64 0 0 0 64 0 291 0 false in
  (* parallel, page 5 all-visible only: skipped and counted *)
  parallel_consider_page 128 (-1) (fun _ => VISIBILITYMAP_ALL_VISIBLE)
    0 false st 5
  = (true, set_frozenskipped_pages 1 st, false)
  (* parallel, page 5 all-visible and all-frozen: skipped and not counted *)
  /\ parallel_consider_page 128 (-1) (fun _ => VISIBILITYMAP_VALID_BITS)
       0 false st 5
     = (true, st, false)
  (* serial, 64 pages all-visible only: all skipped, none counted *)
  /\ frozenskipped_pages
       (np_stats (snd (lazy_scan_heap_get_nextpage 128 (-1)
                         (fun _ => VISIBILITYMAP_ALL_VISIBLE) 0 false
                         (lv_beginscan st) st false)))
     = 0
  (* serial, 64 pages all-visible and all-frozen: all skipped, all counted *)
  /\ frozenskipped_pages
       (np_stats (snd (lazy_scan_heap_get_nextpage 128 (-1)
                         (fun _ => VISIBILITYMAP_VALID_BITS) 0 false
                         (lv_beginscan st) st false)))
     = 64.
Proof. vm_compute. repeat split; reflexivity. Qed.

(** ** Sample runs of the step relation *)

Ltac side_condition :=
  first
    [ reflexivity
    | vm_compute; discriminate
    | let H := fresh in intros [H _]; vm_compute in H; discriminate H ].

(** [run_step R lem]: from [R], which says a world is reachable, to the
    world after the step [lem]. *)
Tactic Notation "run_step" hyp(R) uconstr(lem) :=
  match type of R with
  | reachable ?a ?b ?c ?cfg ?w =>
    let R' := fresh "R" in
    eassert (R' : reachable a b c cfg _);
    [ eapply (reachable_step a b c cfg w);
      [exact R | eapply lem; side_condition]
    | ];
    vm_compute in R'; clear R; rename R' into R
  end.

(** [take_step lem]: the goal is the step [lem]. *)
Tactic Notation "take_step" uconstr(lem) :=
  match goal with
  | |- step ?a ?b ?c ?cfg ?i ?w ?l _ =>
    let H := fresh in
    eassert (H : step a b c cfg i w l _);
    [eapply lem; side_condition | exact H]
  end.

Lemma sample_cfg_wf parallel nworkers nidx :
  0 <= nworkers -> cfg_wf (sample_cfg parallel nworkers nidx).
Proof. intros H. unfold cfg_wf, sample_cfg. simpl. lia. Qed.

(** The serial run up to its index pass. *)
Lemma sample_serial_reaping_reachable :
  reachable 291 128 (-1) (sample_cfg false 0 1) sample_serial_reaping.
Proof.
  assert (R : reachable 291 128 (-1) (sample_cfg false 0 1)
                (mkWorld [] [] 0 [sample_start (sample_cfg false 0 1)])).
  { apply reachable_initial. vm_compute. repeat split. repeat constructor. }
  vm_compute in R.
  run_step R (step_initialize_worker 291 128 (-1) _ 0%nat).
  run_step R (step_space_alloc 291 128 (-1) _ 0%nat).
  run_step R (step_set_scanning 291 128 (-1) _ 0%nat).
  run_step R (step_nextpage_serial 291 128 (-1) _ 0%nat _ _ (fun _ => 0)).
  run_step R (step_capacity 291 128 (-1) _ 0%nat).
  run_step R (step_open_page 291 128 (-1) _ 0%nat _ _ _ true false false
                sample_page).
  run_step R (step_item 291 128 (-1) _ 0%nat).
  run_step R (step_item 291 128 (-1) _ 0%nat).
  run_step R (step_items_done 291 128 (-1) _ 0%nat).
  run_step R (step_keep_page 291 128 (-1) _ 0%nat).
  run_step R (step_reconcile 291 128 (-1) _ 0%nat _ _ _ _ false 0 0).
  run_step R (step_nextpage_serial 291 128 (-1) _ 0%nat _ _ (fun _ => 0)).
  run_step R (step_scan_done 291 128 (-1) _ 0%nat).
  run_step R (step_prepared_serial 291 128 (-1) _ 0%nat).
  exact R.
Qed.

(** Two workers, up to the end of the page worker 0 claimed. *)
Lemma sample_page_end_reachable nidx :
  nidx = 0 \/ nidx = 1 ->
  reachable 291 128 (-1) (sample_cfg true 2 nidx)
    (sample_parallel nidx VACSTATE_SCANNING
       (PcPageEnd 0 (mkPageScan false true false false)) 2
       0 (sample_start (sample_cfg true 2 nidx))).
Proof.
  intros [-> | ->].
  all: match goal with
       | |- reachable _ _ _ ?cfg _ =>
         assert (R : reachable 291 128 (-1) cfg
                       (mkWorld (replicate 2 (mkVacWorker 0 0))
                          (replicate 2 (lazy_space_alloc 4)) 0
                          (replicate 2 (sample_start cfg))))
       end.
  1, 3: apply reachable_initial; vm_compute; repeat split; repeat constructor.
  all: vm_compute in R.
  all: run_step R (step_initialize_worker 291 128 (-1) _ 0%nat).
  all: run_step R (step_space_alloc 291 128 (-1) _ 0%nat).
  all: run_step R (step_set_scanning 291 128 (-1) _ 0%nat).
  all: run_step R (step_claim_page 291 128 (-1) _ 0%nat _ _ (fun _ => 0)).
  all: run_step R (step_capacity 291 128 (-1) _ 0%nat).
  all: run_step R (step_open_page 291 128 (-1) _ 0%nat _ _ _ true false false
                     sample_page).
  all: run_step R (step_item 291 128 (-1) _ 0%nat).
  all: run_step R (step_item 291 128 (-1) _ 0%nat).
  all: run_step R (step_items_done 291 128 (-1) _ 0%nat).
  all: exact R.
Qed.

(** With an index, on to the Prepared barrier. *)
Lemma sample_blocked_reachable :
  reachable 291 128 (-1) (sample_cfg true 2 1) sample_blocked.
Proof.
  pose proof (sample_page_end_reachable 1 (or_intror eq_refl)) as R.
  vm_compute in R.
  run_step R (step_keep_page 291 128 (-1) _ 0%nat).
  run_step R (step_reconcile 291 128 (-1) _ 0%nat _ _ _ _ false 0 0).
  run_step R (step_claim_none 291 128 (-1) _ 0%nat).
  run_step R (step_scan_done 291 128 (-1) _ 0%nat).
  run_step R (step_set_prepared 291 128 (-1) _ 0%nat).
  exact R.
Qed.

(** Worker 1 starts, finds the cursor exhausted and completes. *)
Lemma sample_quorum_reachable :
  reachable 291 128 (-1) (sample_cfg true 2 1) sample_quorum.
Proof.
  pose proof sample_blocked_reachable as R. vm_compute in R.
  run_step R (step_initialize_worker 291 128 (-1) _ 1%nat).
  run_step R (step_space_alloc 291 128 (-1) _ 1%nat).
  run_step R (step_set_scanning 291 128 (-1) _ 1%nat).
  run_step R (step_claim_none 291 128 (-1) _ 1%nat).
  run_step R (step_scan_done 291 128 (-1) _ 1%nat).
  run_step R (step_set_complete 291 128 (-1) _ 1%nat).
  exact R.
Qed.

(** Worker 0 passes the barrier and vacuums indexes and heap. *)
Lemma sample_finishing_reachable :
  reachable 291 128 (-1) (sample_cfg true 2 1) sample_finishing.
Proof.
  pose proof sample_quorum_reachable as R. vm_compute in R.
  run_step R (step_pass_prepared 291 128 (-1) _ 0%nat).
  run_step R (step_set_vacuuming 291 128 (-1) _ 0%nat).
  run_step R (step_vacuum_indexes 291 128 (-1) _ 0%nat).
  run_step R (step_vacuum_heap 291 128 (-1) _ 0%nat).
  exact R.
Qed.

Lemma partitions_sorted_at_lazy_tid_reaped_witness :
  Forall (fun dt => StronglySorted itemptr_lt (dt_entries dt)
                    /\ NoDup (dt_entries dt))
         (w_dead_tuples sample_serial_reaping).
Proof.
  eapply (partitions_sorted_at_lazy_tid_reaped 291 128 (-1)
            (sample_cfg false 0 1) sample_serial_reaping 0%nat).
  - apply sample_cfg_wf. lia.
  - exact sample_serial_reaping_reachable.
  - take_step (step_vacuum_indexes 291 128 (-1) _ 0%nat).
Defined.

Lemma prepared_barrier_quorum_witness :
  (forall l w',
     step 291 128 (-1) (sample_cfg true 2 1) 0 sample_blocked l w' ->
     w' = sample_blocked)
  /\ (forall l w',
        step 291 128 (-1) (sample_cfg true 2 1) 0 sample_quorum l w' ->
        passes_prepared 0
          (mkProc (PcWaitPrepared 0 FinalCycle) (mkLVScanDesc 0 0 1)
             (sample_stats 1 1) false)
          FinalCycle sample_quorum w').
Proof.
  split; intros l w' Hstep.
  - destruct (prepared_barrier_quorum 291 128 (-1) (sample_cfg true 2 1)
                sample_blocked 0%nat _ 0 FinalCycle
                (sample_cfg_wf true 2 1 ltac:(lia)) eq_refl
                sample_blocked_reachable eq_refl eq_refl)
      as (_ & _ & Hall).
    destruct (Hall l w' Hstep) as (_ & _ & Hstay). apply Hstay.
    intros Hq.
    apply (Forall_lookup_1 _ _ 1%nat (mkVacWorker 0 0)) in Hq;
      [| reflexivity].
    destruct Hq as [[Hin _] | Hc]; [| discriminate Hc].
    vm_compute in Hin. intuition discriminate.
  - destruct (prepared_barrier_quorum 291 128 (-1) (sample_cfg true 2 1)
                sample_quorum 0%nat _ 0 FinalCycle
                (sample_cfg_wf true 2 1 ltac:(lia)) eq_refl
                sample_quorum_reachable eq_refl eq_refl)
      as (_ & _ & Hall).
    destruct (Hall l w' Hstep) as (_ & Hpass & _). apply Hpass.
    constructor; [| constructor; [| constructor]].
    + left. split; [| reflexivity]. vm_compute. tauto.
    + right. reflexivity.
Defined.

Lemma clear_only_at_finished_quorum_witness :
  clear_at_finished_quorum 0 sample_finishing sample_finished.
Proof.
  apply (clear_only_at_finished_quorum 291 128 (-1) (sample_cfg true 2 1)
           sample_finishing 0%nat sample_finished).
  - apply sample_cfg_wf. lia.
  - reflexivity.
  - vm_compute. discriminate.
  - exact sample_finishing_reachable.
  - take_step (step_arrive_finished_last 291 128 (-1) _ 0%nat).
Defined.

(** What C1 claims of every parallel run fails without an index: at the end
    of a page with dead tuples the process clears its partition at once,
    while it is Scanning and the other worker has not even started. *)
Lemma clear_outside_finished_barrier :
  cfg_wf (sample_cfg true 2 0)
  /\ cfg_parallel (sample_cfg true 2 0) = true
  /\ reachable 291 128 (-1) (sample_cfg true 2 0) sample_noindex_page_end
  /\ step 291 128 (-1) (sample_cfg true 2 0) 0
       sample_noindex_page_end LClear sample_noindex_cleared
  /\ ~ clear_at_finished_quorum 0 sample_noindex_page_end
         sample_noindex_cleared.
Proof.
  split; [apply sample_cfg_wf; lia |]. split; [reflexivity |].
  split; [exact (sample_page_end_reachable 0 (or_introl eq_refl)) |].
  split; [take_step (step_vacuum_page_now 291 128 (-1) _ 0%nat) |].
  intros (p & c & vw & Hp & Hpc & _).
  injection Hp as <-. discriminate Hpc.
Qed.

(** Worker 0 arrives at the Finished barrier. *)
Lemma sample_finished_reachable :
  reachable 291 128 (-1) (sample_cfg true 2 1) sample_finished.
Proof.
  pose proof sample_finishing_reachable as R. vm_compute in R.
  run_step R (step_arrive_finished_last 291 128 (-1) _ 0%nat).
  exact R.
Qed.

Lemma finished_barrier_quorum_witness :
  (exists l w', step 291 128 (-1) (sample_cfg true 2 1) 0 sample_finished l w')
  /\ (forall l w',
        step 291 128 (-1) (sample_cfg true 2 1) 0 sample_finished l w' ->
        w' = sample_parallel 1 VACSTATE_VACUUM_FINISHED
               (PcSetScanningNext FinalCycle) 0 VACSTATE_COMPLETE
               sample_done).
Proof.
  destruct (finished_barrier_quorum 291 128 (-1) (sample_cfg true 2 1)
              sample_finished 0%nat _ 0 FinalCycle
              (sample_cfg_wf true 2 1 ltac:(lia)) eq_refl
              sample_finished_reachable eq_refl eq_refl)
    as (Hex & Hall).
  split; [exact Hex |]. intros l w' Hstep.
  destruct (Hall l w' Hstep) as (_ & Hpass & _). apply Hpass.
  constructor; [| constructor; [| constructor]].
  - left. split; reflexivity.
  - right. right. reflexivity.
Defined.

Lemma partitions_within_capacity_witness :
  Forall (fun dt => 0 <= n_dt dt <= 4) (w_dead_tuples sample_finishing).
Proof.
  apply (partitions_within_capacity 291 128 (-1) (sample_cfg true 2 1)
           sample_finishing).
  - apply sample_cfg_wf. lia.
  - exact sample_finishing_reachable.
Defined.

(** ** Instances of the further properties *)

Lemma lazy_vacuum_page_spec_witness :
  let page := mkPage false false [LP_DEAD; LP_DEAD; LP_UNUSED] in
  let my :=
    mkLVDeadTuple 3 [ItemPointerSet 7 1; ItemPointerSet 7 2; ItemPointerSet 9 1] in
  let r :=
    lazy_vacuum_page (fun l => l) (fun _ _ => false) (fun _ => 0)
      (fun _ => false) 0 7 page 0 my in
  (0 <= vp_tupindex r <= 3)
  /\ vp_tupindex r = 2
  /\ PageGetItemId (vp_page r) 1 = Some LP_UNUSED.
Proof.
  intros page my r.
  destruct (lazy_vacuum_page_spec (fun l => l) (fun _ _ => false)
              (fun _ => 0) (fun _ => false) 0 7 page 0 my)
    as (Hidx & _); [reflexivity | simpl; lia | simpl; lia |].
  split; [exact Hidx |]. split; reflexivity.
Defined.

Lemma lazy_vacuum_heap_spec_witness :
  let heap := fun _ : Z => mkPage false false [LP_DEAD; LP_DEAD; LP_UNUSED] in
  let my :=
    mkLVDeadTuple 3 [ItemPointerSet 7 1; ItemPointerSet 7 2; ItemPointerSet 9 1] in
  let r :=
    lazy_vacuum_heap (fun l => l) (fun _ _ => false) (fun _ _ => 0)
      (fun _ _ => false) (fun _ => true) (fun _ => 0) my heap in
  vh_tupindex r = 3
  /\ (0 <= vh_npages r <= 3)
  /\ vh_heap r 8 = heap 8.
Proof.
  intros heap my r.
  destruct (lazy_vacuum_heap_spec (fun l => l) (fun _ _ => false)
              (fun _ _ => 0) (fun _ _ => false) (fun _ => true) (fun _ => 0)
              my heap)
    as (Hidx & Hn & _ & Hother & _); [reflexivity | simpl; lia |].
  split; [exact Hidx |]. split; [exact Hn |].
  apply Hother. intros e He.
  apply list_elem_of_In in He. simpl in He.
  destruct He as [<- | [<- | [<- | []]]]; simpl; lia.
Defined.

Lemma index_assignment_partition_witness :
  (exists me,
     0 <= me < 3
     /\ IsAssignedIndex true me 7 3 = true
     /\ forall me', IsAssignedIndex true me' 7 3 = true -> me' = me)
  /\ (forall me, IsAssignedIndex false me 7 3 = true).
Proof. apply (index_assignment_partition 3 7); lia. Defined.

Lemma record_then_reaped_witness :
  let my := mkLVDeadTuple 1 [ItemPointerSet 2 1; ItemPointerSet 0 0] in
  let other := mkLVDeadTuple 1 [ItemPointerSet 5 3; ItemPointerSet 0 0] in
  let recorded :=
    <[1%nat := lazy_record_dead_tuple 2 my (ItemPointerSet 4 6)]> [other; my] in
  lazy_tid_reaped (ItemPointerSet 4 6) false 2 recorded = true
  /\ lazy_tid_reaped (ItemPointerSet 5 3) false 2 recorded
     = lazy_tid_reaped (ItemPointerSet 5 3) false 2 [other; my].
Proof.
  intros my other recorded.
  destruct (record_then_reaped 2 false 2 [other; my] 1%nat my
              (ItemPointerSet 4 6)) as (Hnew & Hold).
  - simpl; lia.
  - reflexivity.
  - repeat constructor; simpl; lia.
  - split; simpl; [lia | reflexivity].
  - simpl; lia.
  - constructor; [left; simpl; lia | constructor].
  - split; [exact Hnew |]. apply Hold. discriminate.
Defined.

Lemma clear_then_not_reaped_witness :
  let dead_tuples :=
    [mkLVDeadTuple 1 [ItemPointerSet 5 3; ItemPointerSet 0 0];
     mkLVDeadTuple 2 [ItemPointerSet 2 1; ItemPointerSet 4 6]] in
  lazy_tid_reaped (ItemPointerSet 4 6) false 2 dead_tuples = true
  /\ lazy_tid_reaped (ItemPointerSet 4 6) false 2
       (lazy_clear_dead_tuple false 1 2 0%nat dead_tuples) = false.
Proof.
  intros dead_tuples. split; [reflexivity |].
  destruct (clear_then_not_reaped (ItemPointerSet 4 6) 1 2 0%nat dead_tuples)
    as (Hpar & _).
  apply Hpar; [lia | reflexivity].
Defined.

(** A visibility map whose first forty blocks are all-visible and
    all-frozen, in a relation of fifty blocks. *)
Lemma serial_chooser_returns_current_block_witness :
  let vm := fun b : Z => if b <? 40 then 3 else 0 in
  let st := mkLVRelStats 1 50 50 0 0 0 0 0 291 0 false in
  let lvscan := mkLVScanDesc 5 40 50 in
  let res := lazy_scan_heap_get_nextpage 128 (-1) vm 0 false lvscan st false in
  skippable vm false 5 = true
  /\ fst res = 5
  /\ np_stats (snd res) = st
  /\ lv_cblock (np_lvscan (snd res)) = 6.
Proof.
  intros vm st lvscan res. split; [reflexivity |].
  destruct (serial_chooser_returns_current_block 128 (-1) vm 0 false lvscan
              st false) as (H1 & H2 & H3 & _).
  - simpl; lia.
  - simpl; lia.
  - simpl. intros H; discriminate H.
  - split; [exact H1 |]. split; [exact H2 | exact H3].
Defined.

Lemma serial_first_call_skips_leading_run_witness :
  let vm := fun b : Z => if b <? 40 then 3 else 0 in
  let st := mkLVRelStats 1 50 50 0 0 0 0 0 291 0 false in
  let res :=
    lazy_scan_heap_get_nextpage 128 (-1) vm 0 false (lv_beginscan st) st
      false in
  next_unskippable_from vm false 50 0 = 40
  /\ fst res = 40
  /\ frozenskipped_pages (np_stats (snd res)) = 40
  /\ lv_cblock (np_lvscan (snd res)) = 41.
Proof.
  intros vm st res.
  assert (Hn : next_unskippable_from vm false 50 0 = 40)
    by (vm_compute; reflexivity).
  split; [exact Hn |].
  destruct (serial_first_call_skips_leading_run 128 (-1) vm 0 false st false)
    as (_ & _ & H1 & H2 & H3).
  - simpl; lia.
  - simpl; lia.
  - reflexivity.
  - change (rel_pages st) with 50. rewrite Hn. unfold SKIP_PAGES_THRESHOLD. lia.
  - change (rel_pages st) with 50 in H1, H2, H3. rewrite Hn in H1, H2, H3.
    split; [exact H1 |]. split; [| exact H3].
    fold res in H2. rewrite H2. vm_compute. reflexivity.
Defined.

Lemma lookahead_invariant_kept_witness :
  (* page skipping allowed: the first call passes over forty blocks *)
  (let vm := fun b : Z => if b <? 40 then 3 else 0 in
   let st := mkLVRelStats 1 50 50 0 0 0 0 0 291 0 false in
   let res :=
     lazy_scan_heap_get_nextpage 128 (-1) vm 0 false (lv_beginscan st) st
       false in
   lvscan_ok vm false (lv_beginscan st)
   /\ fst res = 40
   /\ lvscan_ok vm false (np_lvscan (snd res))
   /\ lv_cblock (np_lvscan (snd res)) <> 0)
  (* page skipping disabled, every block all-frozen: the second call, whose
     lookahead stands on a block that has its bit *)
  /\ (let vm := fun _ : Z => 3 in
      let st := mkLVRelStats 1 3 3 0 0 0 0 0 291 0 false in
      let lvscan := mkLVScanDesc 1 1 3 in
      let res :=
        lazy_scan_heap_get_nextpage 128 (-1) vm 128 true lvscan st false in
      skippable vm true (lv_next_unskippable_block lvscan) = true
      /\ fst res = 1
      /\ lvscan_ok vm true (np_lvscan (snd res))
      /\ lv_cblock (np_lvscan (snd res)) <> 0).
Proof.
  split.
  - intros vm st res.
    assert (Hok : lvscan_ok vm false (lv_beginscan st)).
    { unfold lvscan_ok. simpl. split; [lia |]. split; [lia |]. intros; lia. }
    assert (Hres : fst res = 40) by (vm_compute; reflexivity).
    split; [exact Hok |]. split; [exact Hres |].
    destruct (lookahead_invariant_kept 128 (-1) vm 0 false (lv_beginscan st)
                st false) as (H1 & H2 & _).
    + simpl; lia.
    + exact Hok.
    + simpl. intros _ H; contradiction.
    + fold res. rewrite Hres. discriminate.
    + split; [exact H1 | exact H2].
  - intros vm st lvscan res.
    assert (Hres : fst res = 1) by (vm_compute; reflexivity).
    split; [reflexivity |]. split; [exact Hres |].
    destruct (lookahead_invariant_kept 128 (-1) vm 128 true lvscan st false)
      as (H1 & H2 & _).
    + simpl; lia.
    + unfold lvscan_ok. simpl. split; [lia |]. split; [lia |]. intros; lia.
    + intros H. vm_compute in H. discriminate H.
    + fold res. rewrite Hres. discriminate.
    + split; [exact H1 | exact H2].
Defined.

Lemma worker_slot_tells_place_witness :
  exists vw,
    w_vacworkers sample_finishing !! 0%nat = Some vw
    /\ slot_at (PcSetFinished FinalCycle) vw.
Proof.
  apply (worker_slot_tells_place 291 128 (-1) (sample_cfg true 2 1)
           sample_finishing 0%nat
           (mkProc (PcSetFinished FinalCycle) (mkLVScanDesc 0 0 1)
              (sample_stats 1 1) false)).
  - apply sample_cfg_wf. lia.
  - reflexivity.
  - exact sample_finishing_reachable.
  - reflexivity.
Defined.

Lemma no_scan_while_reclaiming_witness :
  pc_phase (pc sample_done) = PhDone
  \/ (0 = 0
      /\ (pc_phase (pc sample_done) = PhPrepared
          \/ pc_phase (pc sample_done) = PhReclaim
          \/ pc_phase (pc sample_done) = PhFinished)).
Proof.
  apply (no_scan_while_reclaiming 291 128 (-1) (sample_cfg true 2 1)
           sample_finishing 0%nat 1%nat
           (mkProc (PcSetFinished FinalCycle) (mkLVScanDesc 0 0 1)
              (sample_stats 1 1) false)
           sample_done (mkVacWorker VACSTATE_VACUUMING 0)
           (mkVacWorker VACSTATE_COMPLETE 0)).
  - apply sample_cfg_wf. lia.
  - reflexivity.
  - exact sample_finishing_reachable.
  - lia.
  - reflexivity.
  - reflexivity.
  - reflexivity.
  - reflexivity.
  - reflexivity.
Defined.

Lemma partitions_fixed_while_reclaiming_witness :
  w_dead_tuples sample_finished = w_dead_tuples sample_finishing
  \/ (0%nat = 0%nat /\ LClear = LClear
      /\ exists c,
           pc (mkProc (PcSetFinished FinalCycle) (mkLVScanDesc 0 0 1)
                 (sample_stats 1 1) false)
           = PcSetFinished c).
Proof.
  apply (partitions_fixed_while_reclaiming 291 128 (-1) (sample_cfg true 2 1)
           sample_finishing 0%nat _ 0%nat LClear sample_finished).
  - apply sample_cfg_wf. lia.
  - reflexivity.
  - exact sample_finishing_reachable.
  - reflexivity.
  - reflexivity.
  - take_step (step_arrive_finished_last 291 128 (-1) _ 0%nat).
Defined.

Lemma barriers_never_block_all_witness :
  exists i p r c,
    w_procs sample_quorum !! i = Some p
    /\ ((pc p = PcWaitPrepared r c
         /\ lazy_check_vacstate_prepared
              (w_pstate (sample_cfg true 2 1) sample_quorum) r = true)
        \/ (pc p = PcWaitFinished r c
            /\ lazy_check_vacstate_finished
                 (w_pstate (sample_cfg true 2 1) sample_quorum) r = true)).
Proof.
  apply (barriers_never_block_all 291 128 (-1) (sample_cfg true 2 1)
           sample_quorum).
  - apply sample_cfg_wf. lia.
  - reflexivity.
  - exact sample_quorum_reachable.
  - intros [| [| i]] p Hp; simpl in Hp; try discriminate Hp;
      injection Hp as <-; simpl; tauto.
  - exists 0%nat, (mkProc (PcWaitPrepared 0 FinalCycle) (mkLVScanDesc 0 0 1)
                     (sample_stats 1 1) false).
    split; [reflexivity | discriminate].
Defined.

(** The serial run with room for a page, up to the first line pointer. *)
Lemma sample_scanning_reachable :
  reachable 291 128 (-1) sample_cfg_room sample_scanning.
Proof.
  assert (R : reachable 291 128 (-1) sample_cfg_room
                (mkWorld [] [] 0 [sample_start sample_cfg_room])).
  { apply reachable_initial. vm_compute. repeat split. repeat constructor. }
  run_step R (step_initialize_worker 291 128 (-1) _ 0%nat).
  run_step R (step_space_alloc 291 128 (-1) _ 0%nat).
  run_step R (step_set_scanning 291 128 (-1) _ 0%nat).
  run_step R (step_nextpage_serial 291 128 (-1) _ 0%nat _ _ (fun _ => 0)).
  run_step R (step_capacity 291 128 (-1) _ 0%nat).
  run_step R (step_open_page 291 128 (-1) _ 0%nat _ _ _ true false false
                sample_page).
  exact R.
Qed.

Lemma record_never_drops_witness :
  n_dt (lazy_space_alloc 291) < 291
  /\ forall itemptr,
       dt_entries (lazy_record_dead_tuple 291 (lazy_space_alloc 291) itemptr)
       = dt_entries (lazy_space_alloc 291) ++ [itemptr].
Proof.
  apply (record_never_drops 291 128 (-1) sample_cfg_room sample_scanning
           0%nat
           (mkProc (PcItems 0 1 [LP_DEAD; LP_DEAD] page_scan_start)
              (mkLVScanDesc 1 1 1)
              (mkLVRelStats 1 1 1 1 0 0 0 0 291 0 false) false)
           (lazy_space_alloc 291) 0 1 LP_DEAD [LP_DEAD] page_scan_start).
  - unfold cfg_wf, sample_cfg_room. simpl. lia.
  - simpl. lia.
  - exact sample_scanning_reachable.
  - reflexivity.
  - reflexivity.
  - reflexivity.
  - lia.
Defined.

Lemma scan_items_records_witness :
  let r :=
    scan_items 4 7 FirstOffsetNumber [LP_DEAD; LP_UNUSED; LP_DEAD]
      (lazy_space_alloc 4) page_scan_start in
  dt_entries (fst r) = [ItemPointerSet 7 1; ItemPointerSet 7 3]
  /\ n_dt (fst r) = 2.
Proof.
  intros r.
  destruct (scan_items_records 4 7 [LP_DEAD; LP_UNUSED; LP_DEAD]
              FirstOffsetNumber (lazy_space_alloc 4) page_scan_start)
    as (He & Hn & _).
  - apply lazy_space_alloc_wf. lia.
  - simpl. lia.
  - split; [exact He | exact Hn].
Defined.

Lemma lazy_get_max_dead_tuple_bounds_witness :
  let maxtuples := lazy_get_max_dead_tuple 291 1073741823 false (-1) 65536 1 10 in
  (1 = 0 -> maxtuples = 291)
  /\ 291 <= maxtuples
  /\ maxtuples <= Z.max 291 (Z.quot (65536 * 1024) sizeof_ItemPointerData)
  /\ maxtuples <= (10 + 1) * 291.
Proof.
  apply (lazy_get_max_dead_tuple_bounds 291 1073741823 false (-1) 65536 1 10);
    unfold INT_MAX; lia.
Defined.

(** The serial aggressive run, to its end. *)
Lemma sample_aggressive_done_reachable :
  reachable 291 128 (-1) sample_cfg_aggressive sample_aggressive_done.
Proof.
  assert (R : reachable 291 128 (-1) sample_cfg_aggressive
                (mkWorld [] [] 0 [sample_start sample_cfg_aggressive])).
  { apply reachable_initial. vm_compute. repeat split. repeat constructor. }
  run_step R (step_initialize_worker 291 128 (-1) _ 0%nat).
  run_step R (step_space_alloc 291 128 (-1) _ 0%nat).
  run_step R (step_set_scanning 291 128 (-1) _ 0%nat).
  run_step R (step_nextpage_serial 291 128 (-1) _ 0%nat _ _ (fun _ => 0)).
  run_step R (step_capacity 291 128 (-1) _ 0%nat).
  run_step R (step_open_page 291 128 (-1) _ 0%nat _ _ _ true false false
                sample_page).
  run_step R (step_item 291 128 (-1) _ 0%nat).
  run_step R (step_item 291 128 (-1) _ 0%nat).
  run_step R (step_items_done 291 128 (-1) _ 0%nat).
  run_step R (step_keep_page 291 128 (-1) _ 0%nat).
  run_step R (step_reconcile 291 128 (-1) _ 0%nat _ _ _ _ false 0 0).
  run_step R (step_nextpage_serial 291 128 (-1) _ 0%nat _ _ (fun _ => 0)).
  run_step R (step_scan_done 291 128 (-1) _ 0%nat).
  run_step R (step_prepared_serial 291 128 (-1) _ 0%nat).
  run_step R (step_vacuum_indexes 291 128 (-1) _ 0%nat).
  run_step R (step_vacuum_heap 291 128 (-1) _ 0%nat).
  run_step R (step_finished_serial 291 128 (-1) _ 0%nat).
  run_step R (step_cycle_end 291 128 (-1) _ 0%nat).
  run_step R (step_set_complete 291 128 (-1) _ 0%nat).
  exact R.
Qed.

Lemma aggressive_scan_accounts_for_all_pages_witness :
  let st := mkLVRelStats 1 1 1 1 0 0 0 0 4 1 false in
  wrap32 (scanned_pages st + frozenskipped_pages st) = rel_pages st
  /\ scanned_all_unfrozen st = true
  /\ new_frozen_xid 1000 st = 1000
  /\ new_min_multi 2000 st = 2000.
Proof.
  intros st.
  apply (aggressive_scan_accounts_for_all_pages 291 128 (-1)
           sample_cfg_aggressive sample_aggressive_done 0%nat
           (mkProc PcDone (mkLVScanDesc 2 1 1) st false) 1000 2000).
  - unfold cfg_wf, sample_cfg_aggressive. simpl. lia.
  - reflexivity.
  - reflexivity.
  - exact sample_aggressive_done_reachable.
  - reflexivity.
  - reflexivity.
Defined.

Lemma no_index_one_pass_witness :
  (forall i p,
     w_procs sample_noindex_page_end !! i = Some p ->
     pc_cycle (pc p) = None
     /\ forall dt,
          w_dead_tuples sample_noindex_page_end !! i = Some dt ->
          pc_on_page (pc p) = false ->
          n_dt dt = 0)
  /\ (forall k l w',
        step 291 128 (-1) (sample_cfg true 2 0) k sample_noindex_page_end l w' ->
        l <> LReap).
Proof.
  apply (no_index_one_pass 291 128 (-1) (sample_cfg true 2 0)
           sample_noindex_page_end).
  - apply sample_cfg_wf; lia.
  - reflexivity.
  - exact (sample_page_end_reachable 0 (or_introl eq_refl)).
Defined.

Lemma truncation_accounting_witness :
  let page_empty := mkPage false false [] in
  let env := fun k : nat =>
    mkTruncateEnv (fun _ => true) (if (k =? 0)%nat then 64 else 32)
      (fun _ => page_empty) (fun b => (k =? 0)%nat && (b =? 32)) in
  let st := mkLVRelStats 1 64 64 64 0 0 1 0 291 0 false in
  let r := lazy_truncate_heap env st in
  snd r = [mkTruncation 0 64 32; mkTruncation 1 32 1]
  /\ nonempty_pages (fst r) = nonempty_pages st
  /\ rel_pages (fst r) = List.last (map trunc_to (snd r)) (rel_pages st)
  /\ map trunc_from (snd r)
     = take (length (snd r)) (rel_pages st :: map trunc_to (snd r))
  /\ pages_removed (fst r)
     = wrap32 (pages_removed st + (rel_pages st - rel_pages (fst r)))
  /\ (snd r <> [] -> nonempty_pages st <= rel_pages (fst r) < rel_pages st).
Proof.
  intros page_empty env st r.
  split; [vm_compute; reflexivity |].
  apply (truncation_accounting env st); simpl; lia.
Defined.

Lemma nonempty_pages_within_rel_pages_witness :
  let st := mkLVRelStats 1 1 1 1 0 0 0 0 4 1 false in
  0 <= nonempty_pages st <= rel_pages st
  /\ rel_pages st <= cfg_nblocks sample_cfg_aggressive
  /\ wrap32 (rel_pages st - nonempty_pages st)
     = rel_pages st - nonempty_pages st
  /\ (should_attempt_truncation (-1) st = true ->
      nonempty_pages st < rel_pages st).
Proof.
  intros st.
  apply (nonempty_pages_within_rel_pages 291 128 (-1)
           sample_cfg_aggressive sample_aggressive_done 0%nat
           (mkProc PcDone (mkLVScanDesc 2 1 1) st false)).
  - unfold cfg_wf, sample_cfg_aggressive. simpl. lia.
  - reflexivity.
  - exact sample_aggressive_done_reachable.
  - reflexivity.
Defined.
